(* ===== verification/_CoqProject ===== *)
-Q . S2P
Prelude.v
Errors.v
Addr.v
Quic.v
Peer.v
Wire.v
Grants.v
Registry.v
Endpoint.v
RepositoryDb.v
Schema.v
Repository.v
Store.v
Text.v
Identity.v
Diagnostics.v
IdentityFiles.v
Discovery.v
Probe.v
Handshake.v
Auth.v
Mutual.v
Features.v
Trust.v
Pairing.v
Sockets.v
Calls.v
Dial.v
Accept.v
Relay.v
Connect.v
Steady.v
Listener.v
Scan.v
Lifecycle.v
System.v
