(* ===== verification/Prelude.v ===== *)
(** * A verification of arcrelay-network

    arcrelay-network is the network runtime of ArcRelay: devices of one user
    find each other on a local network, authenticate each other over QUIC, pair,
    and keep one session per peer and purpose on which features open streams.
    This library models the runtime crate (src/src) and proves what its parts
    promise, alone and together.

    ** The program and the files

    The foundations: [Prelude] (this file: results, the monad [action] of
    fallible steps on a state, orders and sorting, the class [Along] of steps
    that follow a relation, tactics), [Errors] (lib.rs, [NetworkError]), [Addr]
    (std::net and the crate's address functions), [Peer] (arcrelay_peer, a
    class), [Wire] (arcrelay_wire and prost, classes; [SessionKind]), [Text]
    (decimal numbers, hex, names), [Diagnostics] (runtime/diagnostics.rs), [Quic]
    (runtime/protocol.rs, identity.rs and the openings of runtime/dial.rs and
    runtime/relay.rs: sockets, private endpoints, the TLS configurations; the
    route probe).

    Identity: [Identity] (identity.rs: transcripts, signatures), [IdentityFiles]
    (identity.rs: [load_or_create] and [private_write] on a disk whose calls
    fail).

    What is stored: [Endpoint] (endpoint.rs: the interface of remembered
    endpoints with its laws, and the in-memory repository that discharges them),
    [RepositoryDb], [Schema] and [Repository] (repository.rs: tables and
    statements, then [open] and [migrate] on a file that several processes may
    open, then the operations, which discharge the laws of both interfaces), [Store]
    (the one object behind both interfaces, as the runtime may be given).

    What is seen: [Discovery] (discovery.rs: advertisements, their registry and
    its snapshot, service records).

    Authentication: [Grants] (runtime.rs: grant constraints), [Probe]
    ([admit_discovery_probe]), [Handshake] (runtime/protocol.rs), [Auth]
    (runtime.rs: the three outbound variants, the inbound side and
    [finish_authentication]), [Mutual] (two devices together).

    Sessions: [Registry] (runtime.rs: [register_session] with its arbitration,
    [active], [disconnect] and what else changes the registry; the handles of
    runtime/session.rs), [Features] (runtime/session.rs: feature streams),
    [Trust] (runtime.rs: [forget], [grant], [revoke],
    [remember_authenticated_session]), [Pairing] (runtime.rs: the pairing
    protocol).

    The runtime at work: [Sockets] (the QUIC endpoints and [shutdown]), [Calls]
    (the operations above as steps of one runtime), [Dial] (runtime/dial.rs: the
    race), [Accept] (runtime.rs: one task of the accept loop), [Relay]
    (runtime/relay.rs), [Connect] (runtime.rs: the ways to a session, manual
    hosts, probes), [Steady] (what all of these preserve), [Listener] (runtime.rs:
    the accept loop with its tasks side by side),
    [Scan] (runtime/scan.rs), [Lifecycle] (runtime.rs: [bind], metadata and
    visibility; discovery.rs: its start and end), [System] (all of them on one
    runtime).

    The operations keep the names of the functions they model.  A mutable object
    is a record threaded through them: [Registry], [Discovery], [Sockets],
    [Database]; [Trust.Runtime] joins store, discovery and registry,
    [Accept.Host] adds the gates and the published sessions, [Relay.Node] the
    endpoints and tunnel permits, and [Lifecycle.NetworkRuntime] is the whole.

    ** How it is modelled

    Fallible code answers a [result]; code that also changes state is an
    [action], which keeps the state of a step that failed.  Panics are [None].
    Foreign code (quinn, rustls, ed25519, sha2, mdns-sd, prost, arcrelay_peer,
    arcrelay_wire, SQLite's storage faults, the file system) is a class of
    operations or a list of outcomes; documented behaviour the proofs need is a
    class of laws beside it, and the modules [Sample..] instantiate every class
    and discharge its laws, so that the witnesses evaluate the definitions.
    Integers are [Z] with the ranges of their type in the conditions; instants
    are nanoseconds and clock readings milliseconds, arguments of each call.
    Connections and [Arc<Session>] handles are shared: a connection is a handle
    into one network state, a session a pointer with a count of who holds it.

    Concurrency.  Operations that hold a lock throughout are one step.  A race,
    a scan and the accept loop are machines that move by events: each task's
    phases, joins, deadlines and panics are events of their own, and events
    [Meanwhile], [Aside] and [During] run any other operation of the runtime in
    between; theorems hold for every sequence of events.  A dial lets other
    operations run while it waits for its gate, and a shutdown between its two
    steps.  The processes that migrate one database interleave statement by
    statement.  One handshake and one probe run without interleaving on the
    registry, which they touch in their last steps only; registration and the trace of a session
    are separate events of a race and of the accept loop.  The permits of the
    shared handshake gate are counted for the accept loop and the relays; those
    of dials are not, so a dial's step through the gate may come at any point.  A
    time-out is a flag or an event that may come at any point the code awaits.

    Bounds.  No definition has fuel: recursion is structural or over the events
    given.  Termination is stated on the machines: a race makes at most 115
    steps of its own (16 candidates), a scan at most 2542 (508 endpoints), a task
    of the accept loop at most six, and each is shown to reach its answer, once
    its deadlines pass.

    ** What is shown

    - Authentication: a session is with the device it claims, over this very
      connection, and admitted by trust or visibility ([Mutual]); honest devices
      complete; no reply from an undiscoverable device; probes are rationed.
    - One session per peer and kind: the survivor of a duplicate, convergence of
      two opposing dials, refinement of the arbitration, the registry invariant,
      no return of an obsolete process ([Registry]).
    - Dials: what is answered is registered as a session of the target, and where
      it comes from, losers are closed, bounds and termination, retries ([Dial],
      [Connect]); the tasks of the listener publish handles of their own sessions
      only, each admitted in a turn of its own, and give every permit back
      ([Listener]); a new session of a relay runs on its tunnel, relays leave no
      trace and account for their permits ([Relay]); a scan probes its plan in
      order, and reports what it has found ([Scan]).
    - Trust and pairing: what pairing establishes, that failure changes nothing,
      what forgetting and revoking remove ([Pairing], [Trust]); opening a
      database keeps its rows, in any interleaving of processes ([Schema]);
      storage is atomic and well formed, and its back-off agrees with the
      in-memory repository ([Repository], [Endpoint]).
    - The device itself: a socket that cannot be used is closed ([Quic]), its
      identity is stable and survives interruption, as long as the file system
      can tell whether a file exists ([IdentityFiles]), the first
      state of a runtime and what it announces ([Lifecycle]), the snapshot of the
      others ([Discovery]).
    - The whole: from [bind] on, every operation keeps the invariants the
      theorems above start from ([System]).

    ** Not modelled

    The log lines; the byte level of QUIC streams below frames; datagrams on
    their way and what is done with a raw connection handle outside the crate;
    the SQL dialect and database schemas of other programs; pauses before a
    connection is closed; the clock and the random numbers, which are arguments.
    Memory ordering of the atomic flags and cancellation of a caller's future
    are outside the model, and so is loss of unsynced data by a crash: a crash is
    the failure of every call from some point on.  The rest of the source is its
    tests. *)

From Stdlib Require Export ZArith Lia.
From Stdlib Require Export Strings.Byte Strings.String Strings.Ascii.
From stdpp Require Export base gmap sets list strings sorting.

#[global] Open Scope Z_scope.

(** ** Results

    Rust's [Result<A, E>], with the error type first so that [result E] is a
    monad. *)

Inductive result (E A : Type) : Type :=
| Ok (a : A)
| Err (e : E).

Arguments Ok {E A} _.
Arguments Err {E A} _.

#[export] Instance result_eq_dec {E A} `{EqDecision E} `{EqDecision A} : EqDecision (result E A).
Proof. solve_decision. Defined.

#[export] Instance result_ret {E} : MRet (result E) := fun A a => Ok a.

#[export] Instance result_bind {E} : MBind (result E) := fun A B f r =>
  match r with
  | Ok a => f a
  | Err e => Err e
  end.

#[export] Instance result_fmap {E} : FMap (result E) := fun A B f r =>
  match r with
  | Ok a => Ok (f a)
  | Err e => Err e
  end.

(** [Result::map_err] *)
Definition map_err {E F A} (f : E -> F) (r : result E A) : result F A :=
  match r with
  | Ok a => Ok a
  | Err e => Err (f e)
  end.

(** [Option::ok_or] *)
Definition ok_or {E A} (o : option A) (e : E) : result E A :=
  match o with
  | Some a => Ok a
  | None => Err e
  end.

(** [Result::ok] *)
Definition to_option {E A} (r : result E A) : option A :=
  match r with
  | Ok a => Some a
  | Err _ => None
  end.

(** [Result::is_ok] *)
Definition is_ok {E A} (r : result E A) : bool :=
  match r with
  | Ok _ => true
  | Err _ => false
  end.

(** [iter.map(f).collect::<Result<Vec<_>, _>>()]: stops at the first error. *)
Fixpoint collect {E A B} (f : A -> result E B) (l : list A) : result E (list B) :=
  match l with
  | [] => Ok []
  | x :: l' => y ← f x; ys ← collect f l'; Ok (y :: ys)
  end.

(** [guard b e k]: the early return [if b { return Err(e) }] before [k]. *)
Definition reject_if {E A} (b : bool) (e : E) (k : result E A) : result E A :=
  if b then Err e else k.

(** ** Actions

    A fallible operation on a state: what an [async fn] that returns a [Result]
    does to the objects it reaches. *)

Definition action (S E A : Type) : Type := S -> result E A * S.

#[export] Instance action_ret {S E} : MRet (action S E) := fun A a s => (Ok a, s).

#[export] Instance action_bind {S E} : MBind (action S E) := fun A B f m s =>
  match m s with
  | (Ok a, s') => f a s'
  | (Err e, s') => (Err e, s')
  end.

(** [r?] for a [Result] that is a value. *)
Definition lift {S E A} (r : result E A) : action S E A := fun s => (r, s).

(** [op.await.map_err(f)] *)
Definition act_map_err {S E F A} (f : E -> F) (m : action S E A) : action S F A := fun s =>
  let (r, s') := m s in (map_err f r, s').

(** [if b { return Err(e) }] *)
Definition act_reject {S E} (b : bool) (e : E) : action S E unit := fun s =>
  (if b then Err e else Ok tt, s).

(** [for x in l { f(x)?; }] *)
Fixpoint act_each {S E A} (f : A -> action S E unit) (l : list A) : action S E unit :=
  match l with
  | [] => mret tt
  | x :: l' => f x ;; act_each f l'
  end.

(** ** Machine integers

    A [w]-bit unsigned integer is a [Z] in [0, 2^w).  An [i64] is a [Z] in
    [-2^63, 2^63). *)

Definition u8_max : Z := 255.
Definition u16_max : Z := 65535.
Definition u32_max : Z := 4294967295.
Definition u64_max : Z := 18446744073709551615.
Definition i64_max : Z := 9223372036854775807.
Definition i64_min : Z := -9223372036854775808.

Definition in_u8 (z : Z) : Prop := 0 <= z <= u8_max.
Definition in_u16 (z : Z) : Prop := 0 <= z <= u16_max.
Definition in_u32 (z : Z) : Prop := 0 <= z <= u32_max.
Definition in_i64 (z : Z) : Prop := i64_min <= z <= i64_max.

(** [u32::saturating_add], [i64::saturating_add], [i64::saturating_sub] *)
Definition u32_saturating_add (a b : Z) : Z := Z.min u32_max (a + b).
Definition i64_saturate (z : Z) : Z := Z.max i64_min (Z.min i64_max z).
Definition i64_saturating_add (a b : Z) : Z := i64_saturate (a + b).
Definition i64_saturating_sub (a b : Z) : Z := i64_saturate (a - b).

(** ** Bytes and strings

    [Vec<u8>] and [[u8; n]] are [list byte]; a Rust [String] is the [string] of
    its UTF-8 bytes, so that [str::len] is [slen]. *)

Definition slen (s : string) : Z := Z.of_nat (String.length s).
Definition blen (l : list byte) : Z := Z.of_nat (List.length l).

#[export] Instance byte_eq_dec : EqDecision byte := Byte.byte_eq_dec.

Definition byte_Z (b : byte) : Z := Z.of_N (Byte.to_N b).
Definition Z_byte (z : Z) : byte :=
  match Byte.of_N (Z.to_N (z `mod` 256)) with
  | Some b => b
  | None => x00
  end.

(** [str::as_bytes] *)
Definition as_bytes (s : string) : list byte := list_byte_of_string s.

(** [u64::to_be_bytes] and [u32::from_be_bytes], at any width. *)
Fixpoint to_be_bytes (n : nat) (z : Z) : list byte :=
  match n with
  | O => []
  | S m => Z_byte (Z.shiftr z (8 * Z.of_nat m)) :: to_be_bytes m z
  end.

Definition from_be_bytes (l : list byte) : Z :=
  fold_left (fun acc b => acc * 256 + byte_Z b) l 0.

(** ** Ordering

    Rust's [Ord]: a comparison whose laws are those of a total order that
    agrees with equality. *)

Class Cmp (A : Type) := cmp : A -> A -> comparison.

Class CmpLaws (A : Type) `{Cmp A} : Prop := {
  cmp_eq : forall x y : A, cmp x y = Eq <-> x = y;
  cmp_anti : forall x y : A, cmp y x = CompOpp (cmp x y);
  cmp_trans : forall x y z : A, cmp x y = Lt -> cmp y z = Lt -> cmp x z = Lt
}.

(** [Ordering::then_with] *)
Definition then_with (c d : comparison) : comparison :=
  match c with
  | Eq => d
  | _ => c
  end.

Definition not_gt (c : comparison) : bool :=
  match c with
  | Gt => false
  | _ => true
  end.

(** [x <= y] for an [Ord] type *)
Definition cmp_le {A} `{Cmp A} (x y : A) : bool := not_gt (cmp x y).

#[export] Instance Z_cmp : Cmp Z := Z.compare.
#[export] Instance string_cmp : Cmp string := String.compare.
#[export] Instance byte_cmp : Cmp byte := fun a b => N.compare (Byte.to_N a) (Byte.to_N b).
#[export] Instance prod_cmp {A B} `{Cmp A} `{Cmp B} : Cmp (A * B) := fun x y =>
  then_with (cmp x.1 y.1) (cmp x.2 y.2).
#[export] Instance sum_cmp {A B} `{Cmp A} `{Cmp B} : Cmp (A + B) := fun x y =>
  match x, y with
  | inl a, inl b => cmp a b
  | inl _, inr _ => Lt
  | inr _, inl _ => Gt
  | inr a, inr b => cmp a b
  end.
#[export] Instance list_cmp {A} `{Cmp A} : Cmp (list A) :=
  fix go (l k : list A) : comparison :=
    match l, k with
    | [], [] => Eq
    | [], _ => Lt
    | _, [] => Gt
    | x :: l', y :: k' => then_with (cmp x y) (go l' k')
    end.

(** ** Sorting

    [Vec::sort_by] is a stable sort: insertion sort computes the same list. *)

Fixpoint insert_by {A} (le : A -> A -> bool) (x : A) (l : list A) : list A :=
  match l with
  | [] => [x]
  | y :: l' => if le x y then x :: y :: l' else y :: insert_by le x l'
  end.

Fixpoint sort_by {A} (le : A -> A -> bool) (l : list A) : list A :=
  match l with
  | [] => []
  | x :: l' => insert_by le x (sort_by le l')
  end.

(** [Vec::sort] *)
Definition sort {A} `{Cmp A} (l : list A) : list A := sort_by cmp_le l.

(** [Vec::dedup]: removes consecutive repeated elements. *)
Fixpoint dedup {A} `{EqDecision A} (l : list A) : list A :=
  match l with
  | [] => []
  | x :: l' =>
      match l' with
      | [] => [x]
      | y :: _ => if decide (x = y) then dedup l' else x :: dedup l'
      end
  end.

(** [sort] then [dedup]; also the order in which a [BTreeSet] is iterated. *)
Definition sort_dedup {A} `{Cmp A} `{EqDecision A} (l : list A) : list A := dedup (sort l).

(** [v.iter().find(p)] *)
Fixpoint find_first {A} (p : A -> bool) (l : list A) : option A :=
  match l with
  | [] => None
  | x :: l' => if p x then Some x else find_first p l'
  end.

(** [iter_mut().find(p)] followed by an update of the element found. *)
Fixpoint update_first {A} (p : A -> bool) (f : A -> A) (l : list A) : list A :=
  match l with
  | [] => []
  | x :: l' => if p x then f x :: l' else x :: update_first p f l'
  end.

(** [l.is_empty()] *)
Definition is_empty {A} (l : list A) : bool :=
  match l with
  | [] => true
  | _ => false
  end.

(** ** Tactics *)

(** Case analysis on the scrutinee of the first [match] or [if] found. *)
Ltac case_match_in H :=
  match type of H with
  | context [match ?x with _ => _ end] => destruct x eqn:?
  end.

(** Invert a successful monadic computation step by step. *)
Ltac result_inv :=
  repeat match goal with
  | H : Ok _ = Ok _ |- _ => injection H as H
  | H : Err _ = Err _ |- _ => injection H as H
  | H : Ok _ = Err _ |- _ => discriminate H
  | H : Err _ = Ok _ |- _ => discriminate H
  | H : Some _ = None |- _ => discriminate H
  | H : None = Some _ |- _ => discriminate H
  | H : mbind _ ?r = Ok _ |- _ =>
      let E := fresh "E" in destruct r eqn:E; cbn [mbind result_bind] in H
  | H : reject_if ?b _ _ = Ok _ |- _ =>
      let E := fresh "E" in destruct b eqn:E; cbn [reject_if] in H
  | H : map_err _ ?r = Ok _ |- _ =>
      let E := fresh "E" in destruct r eqn:E; cbn [map_err] in H
  | H : ok_or ?r _ = Ok _ |- _ =>
      let E := fresh "E" in destruct r eqn:E; cbn [ok_or] in H
  end; subst.

(** Split boolean connectives of the context. *)
Ltac destruct_bools :=
  repeat match goal with
  | H : (_ && _)%bool = true |- _ => apply andb_prop in H as [? ?]
  | H : (_ || _)%bool = false |- _ => apply orb_false_elim in H as [? ?]
  | H : negb _ = true |- _ => apply negb_true_iff in H
  | H : negb _ = false |- _ => apply negb_false_iff in H
  | H : bool_decide _ = true |- _ => apply bool_decide_eq_true in H
  | H : bool_decide _ = false |- _ => apply bool_decide_eq_false in H
  end.

(** Decide a closed proposition by evaluation. *)
Ltac by_evaluation := refine (bool_decide_unpack _ _); vm_compute; exact I.

(** A run whose answer has been evaluated. *)
Lemma answered_pair {A B} (x : A * B) (a : A) `{!Decision (x.1 = a)} :
  bool_decide (x.1 = a) = true -> x = (a, x.2).
Proof. intros E%bool_decide_eq_true. destruct x. by rewrite <- E. Qed.

Create HintDb net discriminated.
Create Rewrite HintDb net.

(** ** Results *)

Lemma collect_ok {E A B} (f : A -> result E B) (l : list A) (k : list B) :
  collect f l = Ok k <-> Forall2 (fun x y => f x = Ok y) l k.
Proof.
  revert k; induction l as [|x l IH]; intros k; cbn; split; intros H.
  - result_inv. constructor.
  - inversion H. done.
  - result_inv. constructor; [done | by apply IH].
  - inversion H as [| ? ? ? ? Hf Hl]; subst. rewrite Hf; cbn.
    apply IH in Hl. by rewrite Hl.
Qed.

Lemma collect_total {E A B} (f : A -> result E B) (g : A -> B) (l : list A) :
  (forall x, x ∈ l -> f x = Ok (g x)) -> collect f l = Ok (map g l).
Proof.
  induction l as [|x l IH]; intros Hf; cbn; [done|].
  rewrite Hf by set_solver; cbn. by rewrite IH by set_solver.
Qed.

(** ** Actions *)

Section actions.
Context {S E : Type}.

Lemma act_bind_inv {A B} (m : action S E A) (f : A -> action S E B) s r s2 :
  mbind f m s = (r, s2) ->
  (exists a s1, m s = (Ok a, s1) /\ f a s1 = (r, s2)) \/
  (exists e, m s = (Err e, s2) /\ r = Err e).
Proof.
  unfold mbind, action_bind. destruct (m s) as [[a|e] s1].
  - intros Hf. left. eauto.
  - intros [= <- <-]. right. eauto.
Qed.

Lemma act_bind_ok {A B} (m : action S E A) (f : A -> action S E B) s b s2 :
  mbind f m s = (Ok b, s2) -> exists a s1, m s = (Ok a, s1) /\ f a s1 = (Ok b, s2).
Proof. intros [?|(e & _ & ?)]%act_bind_inv; [done | discriminate]. Qed.

Lemma act_bind_eq {A B} (m : action S E A) (f : A -> action S E B) s a s1 :
  m s = (Ok a, s1) -> mbind f m s = f a s1.
Proof. unfold mbind, action_bind. by intros ->. Qed.

Lemma act_map_err_inv {F A} (f : E -> F) (m : action S E A) s r s1 :
  act_map_err f m s = (r, s1) -> exists r', m s = (r', s1) /\ r = map_err f r'.
Proof. unfold act_map_err. destruct (m s) as [r' s']. intros [= <- <-]. eauto. Qed.

Lemma act_reject_inv b (e : E) (s : S) r s1 :
  act_reject b e s = (r, s1) -> s1 = s /\ r = if b then Err e else Ok tt.
Proof. by intros [= <- <-]. Qed.

Lemma map_err_ok {F A} (f : E -> F) (r : result E A) a : map_err f r = Ok a <-> r = Ok a.
Proof. destruct r; cbn; naive_solver. Qed.
End actions.

(** An action whose state before and after is related by [R], however it ends. *)
Class Along {S} (R : S -> S -> Prop) {E A} (m : action S E A) : Prop :=
  along : forall s x s', m s = (x, s') -> R s s'.

Section along.
Context {S : Type} (R : S -> S -> Prop) `{!PreOrder R}.

Lemma along_snd {E A} (m : action S E A) s : Along R m -> R s (m s).2.
Proof. intros Hm. destruct (m s) as [x s'] eqn:E1. by eapply Hm. Qed.

(** An action that leaves the state alone. *)
Lemma along_read {E A} (m : action S E A) : (forall s, (m s).2 = s) -> Along R m.
Proof. intros Hm s x s' E1. specialize (Hm s). rewrite E1 in Hm. cbn in Hm. by subst. Qed.

#[export] Instance along_bind {E A B} (m : action S E A) (f : A -> action S E B) :
  Along R m -> (forall a, Along R (f a)) -> Along R (mbind f m).
Proof.
  intros Hm Hf s x s' [(a & s1 & E1 & E2)|(e & E1 & _)]%act_bind_inv.
  - transitivity s1; [by eapply Hm | by eapply Hf].
  - by eapply Hm.
Qed.
#[export] Instance along_lift {E A} (r : result E A) : Along R (lift r).
Proof. by apply along_read. Qed.
#[export] Instance along_ret {E A} (a : A) : Along R (E := E) (mret a).
Proof. by apply along_read. Qed.
#[export] Instance along_reject {E} b (e : E) : Along R (act_reject b e).
Proof. by apply along_read. Qed.
#[export] Instance along_map_err {E F A} (f : E -> F) (m : action S E A) :
  Along R m -> Along R (act_map_err f m).
Proof. intros Hm s x s' (y & E1 & _)%act_map_err_inv. by eapply Hm. Qed.
#[export] Instance along_if {E A} (b : bool) (m n : action S E A) :
  Along R m -> Along R n -> Along R (if b then m else n).
Proof. by destruct b. Qed.
End along.

(** Split a run of an action into the runs of its steps, keeping the branch in
    which it succeeds. *)
Ltac action_inv :=
  repeat match goal with
  | H : mbind _ _ _ = (Ok _, _) |- _ =>
      apply act_bind_ok in H as (? & ? & ? & ?)
  | H : lift _ _ = (_, _) |- _ => unfold lift in H; injection H as ? ?
  | H : act_reject ?b _ _ = (Ok _, _) |- _ =>
      let E := fresh "E" in
      unfold act_reject in H; destruct b eqn:E; [discriminate H|]; injection H as ?
  | H : mret _ _ = (_, _) |- _ => unfold mret, action_ret in H; injection H as ? ?
  | H : act_map_err _ _ _ = (_, _) |- _ =>
      apply act_map_err_inv in H as (? & ? & ?)
  | H : Ok _ = map_err _ _ |- _ => symmetry in H; apply map_err_ok in H
  | H : map_err _ _ = Ok _ |- _ => apply map_err_ok in H
  end; subst.

(** ** Bytes *)

Lemma byte_Z_range (b : byte) : 0 <= byte_Z b < 256.
Proof. unfold byte_Z. pose proof (Byte.to_N_bounded b). lia. Qed.

Lemma Z_byte_Z (b : byte) : Z_byte (byte_Z b) = b.
Proof.
  unfold Z_byte. rewrite Z.mod_small by apply byte_Z_range.
  unfold byte_Z. by rewrite N2Z.id, Byte.of_to_N.
Qed.

Lemma byte_Z_byte (z : Z) : byte_Z (Z_byte z) = z `mod` 256.
Proof.
  unfold Z_byte, byte_Z.
  pose proof (Z.mod_pos_bound z 256 ltac:(lia)) as Hb.
  destruct (Byte.of_N (Z.to_N (z `mod` 256))) as [b|] eqn:E.
  - apply Byte.to_of_N in E. rewrite E. lia.
  - apply Byte.of_N_None_iff in E. lia.
Qed.

Lemma byte_Z_inj (a b : byte) : byte_Z a = byte_Z b -> a = b.
Proof. intros H. by rewrite <- (Z_byte_Z a), H, Z_byte_Z. Qed.

Lemma length_to_be_bytes n z : length (to_be_bytes n z) = n.
Proof. induction n; cbn; congruence. Qed.

Lemma from_be_bytes_acc (l : list byte) (a : Z) :
  fold_left (fun acc b => acc * 256 + byte_Z b) l a =
  a * 256 ^ Z.of_nat (length l) + from_be_bytes l.
Proof.
  unfold from_be_bytes. revert a.
  induction l as [|b l IH]; intros a; cbn [fold_left length].
  - rewrite Z.pow_0_r. lia.
  - rewrite IH, (IH (0 * 256 + _)). rewrite Nat2Z.inj_succ, Z.pow_succ_r by lia. lia.
Qed.

Lemma from_be_bytes_cons (b : byte) (l : list byte) :
  from_be_bytes (b :: l) = byte_Z b * 256 ^ Z.of_nat (length l) + from_be_bytes l.
Proof. unfold from_be_bytes at 1. cbn [fold_left]. by rewrite from_be_bytes_acc. Qed.

Lemma from_be_bytes_range (l : list byte) :
  0 <= from_be_bytes l < 256 ^ Z.of_nat (length l).
Proof.
  induction l as [|b l IH]; [cbn; lia|].
  rewrite from_be_bytes_cons. cbn [length].
  rewrite Nat2Z.inj_succ, Z.pow_succ_r by lia.
  pose proof (byte_Z_range b). nia.
Qed.

(** The big-endian encoding of [n] bytes loses nothing below [256^n]. *)
Lemma from_to_be_bytes n z :
  from_be_bytes (to_be_bytes n z) = z `mod` 256 ^ Z.of_nat n.
Proof.
  induction n as [|n IH].
  - cbn [to_be_bytes]. unfold from_be_bytes; cbn [fold_left]. by rewrite Z.mod_1_r.
  - cbn [to_be_bytes]. rewrite from_be_bytes_cons, IH, length_to_be_bytes, byte_Z_byte.
    rewrite Z.shiftr_div_pow2, Z.pow_mul_r by lia. change (2 ^ 8) with 256.
    rewrite Nat2Z.inj_succ, Z.pow_succ_r, (Z.mul_comm 256) by lia.
    rewrite Z.rem_mul_r by lia. lia.
Qed.

Lemma to_be_bytes_inj n a b :
  0 <= a < 256 ^ Z.of_nat n -> 0 <= b < 256 ^ Z.of_nat n ->
  to_be_bytes n a = to_be_bytes n b -> a = b.
Proof.
  intros Ha Hb H. apply (f_equal from_be_bytes) in H.
  rewrite !from_to_be_bytes, !Z.mod_small in H by lia. done.
Qed.

(** Two concatenations with prefixes of one length split the same way. *)
Lemma app_inj_length {A} (a a' b b' : list A) :
  length a = length a' -> a ++ b = a' ++ b' -> a = a' /\ b = b'.
Proof. intros Hl H. by apply app_inj_1 in H. Qed.

(** ** Orders *)

Lemma cmp_refl {A} `{CmpLaws A} (x : A) : cmp x x = Eq.
Proof. by apply cmp_eq. Qed.

Lemma cmp_le_refl {A} `{CmpLaws A} (x : A) : cmp_le x x = true.
Proof. unfold cmp_le. by rewrite cmp_refl. Qed.

Lemma cmp_le_total {A} `{CmpLaws A} (x y : A) : cmp_le x y = true \/ cmp_le y x = true.
Proof. unfold cmp_le. rewrite (cmp_anti x y). destruct (cmp x y); auto. Qed.

Lemma cmp_le_antisym {A} `{CmpLaws A} (x y : A) :
  cmp_le x y = true -> cmp_le y x = true -> x = y.
Proof.
  unfold cmp_le. rewrite (cmp_anti x y).
  destruct (cmp x y) eqn:E; cbn; try done. by apply cmp_eq in E.
Qed.

Lemma cmp_le_iff {A} `{CmpLaws A} (x y : A) : cmp_le x y = true <-> cmp x y = Lt \/ x = y.
Proof. unfold cmp_le. rewrite <- cmp_eq. destruct (cmp x y); naive_solver. Qed.

Lemma cmp_le_trans {A} `{CmpLaws A} (x y z : A) :
  cmp_le x y = true -> cmp_le y z = true -> cmp_le x z = true.
Proof. rewrite !cmp_le_iff. intros [?| ->] [?| ->]; eauto using cmp_trans. Qed.

Lemma cmp_le_gt {A} `{CmpLaws A} (x y : A) :
  cmp_le x y = false -> cmp_le y x = true /\ x <> y.
Proof.
  intros Hn. split; [destruct (cmp_le_total x y); congruence|].
  intros ->. rewrite cmp_le_refl in Hn. done.
Qed.

Lemma CompOpp_then c d : CompOpp (then_with c d) = then_with (CompOpp c) (CompOpp d).
Proof. by destruct c. Qed.

Lemma then_with_eq c d : then_with c d = Eq <-> c = Eq /\ d = Eq.
Proof. destruct c; naive_solver. Qed.

Lemma then_with_lt c d : then_with c d = Lt <-> c = Lt \/ (c = Eq /\ d = Lt).
Proof. destruct c; naive_solver. Qed.

#[export] Instance Z_cmp_laws : CmpLaws Z.
Proof.
  split; unfold cmp, Z_cmp; intros.
  - apply Z.compare_eq_iff.
  - apply Z.compare_antisym.
  - rewrite Z.compare_lt_iff in *. lia.
Qed.

#[export] Instance byte_cmp_laws : CmpLaws byte.
Proof.
  split; unfold cmp, byte_cmp; intros.
  - rewrite N.compare_eq_iff. split; [|by intros ->].
    intros E. apply (f_equal Byte.of_N) in E. rewrite !Byte.of_to_N in E. congruence.
  - apply N.compare_antisym.
  - rewrite N.compare_lt_iff in *. lia.
Qed.

#[export] Instance prod_cmp_laws {A B} `{CmpLaws A} `{CmpLaws B} : CmpLaws (A * B).
Proof.
  split; unfold cmp, prod_cmp; intros.
  - rewrite then_with_eq, !cmp_eq. destruct x, y; naive_solver.
  - rewrite CompOpp_then. by rewrite <- !cmp_anti.
  - rewrite then_with_lt, !cmp_eq in *.
    destruct x as [x1 x2], y as [y1 y2], z as [z1 z2]; cbn in *.
    destruct H3 as [?|[-> ?]], H4 as [?|[-> ?]]; eauto using cmp_trans.
Qed.

#[export] Instance sum_cmp_laws {A B} `{CmpLaws A} `{CmpLaws B} : CmpLaws (A + B).
Proof.
  split; unfold cmp, sum_cmp; intros.
  - destruct x, y; rewrite ?cmp_eq; naive_solver.
  - destruct x, y; cbn; auto using cmp_anti.
  - destruct x, y, z; try done; eauto using cmp_trans.
Qed.

#[export] Instance list_cmp_laws {A} `{CmpLaws A} : CmpLaws (list A).
Proof.
  split; unfold cmp.
  - induction x as [|a x IH]; intros [|b y]; cbn; try naive_solver.
    rewrite then_with_eq, cmp_eq, IH. naive_solver.
  - induction x as [|a x IH]; intros [|b y]; cbn; try done.
    rewrite CompOpp_then, IH. by rewrite <- cmp_anti.
  - induction x as [|a x IH]; intros [|b y] [|c z]; cbn; try done.
    rewrite !then_with_lt, !cmp_eq.
    intros [?|[-> ?]] [?|[-> ?]]; eauto using cmp_trans.
Qed.

#[export] Instance string_cmp_laws : CmpLaws string.
Proof.
  assert (Ha : forall x y, Ascii.compare x y = Eq <-> x = y).
  { intros x y. split; [apply Ascii.compare_eq_iff|intros ->].
    unfold Ascii.compare. apply N.compare_refl. }
  split; unfold cmp, string_cmp.
  - intros x y. split; [apply String.compare_eq_iff | intros <-].
    induction x as [|a x IH]; cbn; [done|].
    by rewrite (proj2 (Ha a a) eq_refl).
  - intros x y. rewrite String.compare_antisym. done.
  - induction x as [|a x IH]; intros [|b y] [|c z]; cbn; try done.
    destruct (Ascii.compare a b) eqn:E1, (Ascii.compare b c) eqn:E2; try done;
      repeat match goal with H : Ascii.compare _ _ = Eq |- _ => apply Ha in H as -> end.
    + rewrite (proj2 (Ha c c) eq_refl). apply IH.
    + by rewrite E2.
    + by rewrite E1.
    + assert (E : Ascii.compare a c = Lt).
      { unfold Ascii.compare in *. rewrite N.compare_lt_iff in *. lia. }
      by rewrite E.
Qed.

(** The order a type inherits along an injective encoding into an ordered
    type, as [#[derive(PartialOrd, Ord)]] on a struct or an enum gives it. *)
Definition cmp_via {A B} `{Cmp B} (f : A -> B) : Cmp A := fun x y => cmp (f x) (f y).

Lemma cmp_via_laws {A B} `{CmpLaws B} (f : A -> B) :
  (forall x y, f x = f y -> x = y) -> @CmpLaws A (cmp_via f).
Proof.
  intros Hinj. split; unfold cmp, cmp_via; intros.
  - rewrite cmp_eq. split; [apply Hinj | congruence].
  - apply cmp_anti.
  - eauto using cmp_trans.
Qed.

(** ** Sorting *)

Section sorting.
Context {A : Type} (le : A -> A -> bool).

Lemma insert_by_Permutation x l : insert_by le x l ≡ₚ x :: l.
Proof.
  induction l as [|y l IH]; cbn; [done|].
  destruct (le x y); [done|]. rewrite IH. constructor.
Qed.

Lemma sort_by_Permutation l : sort_by le l ≡ₚ l.
Proof. induction l as [|x l IH]; cbn; [done|]. by rewrite insert_by_Permutation, IH. Qed.

Lemma elem_of_sort_by x l : x ∈ sort_by le l <-> x ∈ l.
Proof. by rewrite sort_by_Permutation. Qed.

Lemma length_sort_by l : length (sort_by le l) = length l.
Proof. by rewrite sort_by_Permutation. Qed.

Context (le_total : forall x y, le x y = true \/ le y x = true).
Context (le_trans : forall x y z, le x y = true -> le y z = true -> le x z = true).

Lemma insert_by_sorted x l :
  StronglySorted (fun a b => le a b = true) l ->
  StronglySorted (fun a b => le a b = true) (insert_by le x l).
Proof.
  induction 1 as [|y l Hs IH Hy]; cbn; [repeat constructor|].
  destruct (le x y) eqn:E.
  - constructor; [by constructor|]. constructor; [done|].
    eapply Forall_impl; [exact Hy|]. cbn. eauto.
  - constructor; [done|]. rewrite insert_by_Permutation. constructor; [|done].
    destruct (le_total x y); congruence.
Qed.

Lemma sort_by_sorted l : StronglySorted (fun a b => le a b = true) (sort_by le l).
Proof. induction l; cbn; [constructor | by apply insert_by_sorted]. Qed.

(** Sorting leaves a sorted list alone, so a stable sort of it is the
    identity. *)
Lemma sort_by_id l : StronglySorted (fun a b => le a b = true) l -> sort_by le l = l.
Proof.
  induction 1 as [|x l Hs IH Hx]; cbn; [done|]. rewrite IH.
  destruct l as [|y l]; cbn; [done|]. inversion Hx; subst. by rewrite H1.
Qed.

(** An element strictly below every other one ends up first. *)
Lemma sort_by_head x l :
  Forall (fun y => le y x = false) l -> sort_by le (l ++ [x]) = x :: sort_by le l.
Proof.
  induction 1 as [|y l Hy Hl IH]; cbn; [done|]. rewrite IH; cbn. by rewrite Hy.
Qed.
End sorting.

(** A strictly least element comes first. *)
Lemma sort_by_least {A} `{EqDecision A} (le : A -> A -> bool)
    (le_total : forall x y, le x y = true \/ le y x = true)
    (le_trans : forall x y z, le x y = true -> le y z = true -> le x z = true) (x : A) l :
  x ∈ l -> (forall y, y ∈ l -> y <> x -> le y x = false) -> exists k, sort_by le l = x :: k.
Proof.
  intros Hx Hmin. pose proof (sort_by_sorted le le_total le_trans l) as Hs.
  assert (Hmin' : forall y, y ∈ sort_by le l -> y <> x -> le y x = false)
    by (intros y Hy; apply elem_of_sort_by in Hy; auto).
  apply (elem_of_sort_by le) in Hx.
  destruct (sort_by le l) as [|h k]; [set_solver|].
  apply StronglySorted_inv in Hs as [_ Hh]. rewrite Forall_forall in Hh.
  apply elem_of_cons in Hx as [->|Hx]; [by exists k|].
  destruct (decide (h = x)) as [->|Hne]; [by exists k|].
  specialize (Hh _ Hx). specialize (Hmin' h ltac:(set_solver) Hne). congruence.
Qed.

Section dedup.
Context {A : Type} `{CmpLaws A} `{EqDecision A}.

Lemma elem_of_dedup (x : A) l : x ∈ dedup l <-> x ∈ l.
Proof.
  induction l as [|y [|z l] IH]; [done|done|].
  cbn [dedup] in *. destruct (decide (y = z)) as [->|Hne]; set_solver.
Qed.

Lemma dedup_sorted (l : list A) :
  StronglySorted (fun a b => cmp_le a b = true) l ->
  StronglySorted (fun a b => cmp a b = Lt) (dedup l).
Proof.
  induction 1 as [|x l Hs IH Hx]; [constructor|].
  destruct l as [|y l]; [repeat constructor|].
  cbn [dedup] in *. destruct (decide (x = y)) as [->|Hne]; [done|].
  constructor; [done|]. rewrite Forall_forall. intros z Hz.
  change (z ∈ dedup (y :: l)) in Hz. rewrite elem_of_dedup in Hz.
  pose proof Hx as Hx'. rewrite Forall_forall in Hx'.
  pose proof (Hx' y ltac:(set_solver)) as Hxy. apply cmp_le_iff in Hxy as [Hxy| ->]; [|done].
  apply StronglySorted_inv in Hs as [_ Hy]. rewrite Forall_forall in Hy.
  apply elem_of_cons in Hz as [->|Hz]; [done|].
  apply Hy in Hz. apply cmp_le_iff in Hz as [Hz| ->]; eauto using cmp_trans.
Qed.

Lemma lt_sorted_NoDup (l : list A) :
  StronglySorted (fun a b => cmp a b = Lt) l -> NoDup l.
Proof.
  induction 1 as [|x l Hs IH Hx]; constructor; [|done].
  intros Hin. rewrite Forall_forall in Hx. apply Hx in Hin.
  rewrite cmp_refl in Hin. done.
Qed.

Lemma sort_sorted (l : list A) : StronglySorted (fun a b => cmp_le a b = true) (sort l).
Proof. apply sort_by_sorted; [apply cmp_le_total | apply cmp_le_trans]. Qed.

Lemma sort_dedup_sorted (l : list A) :
  StronglySorted (fun a b => cmp a b = Lt) (sort_dedup l).
Proof. apply dedup_sorted, sort_sorted. Qed.

Lemma elem_of_sort_dedup (x : A) l : x ∈ sort_dedup l <-> x ∈ l.
Proof. unfold sort_dedup. rewrite elem_of_dedup. apply elem_of_sort_by. Qed.

Lemma NoDup_sort_dedup (l : list A) : NoDup (sort_dedup l).
Proof. apply lt_sorted_NoDup, sort_dedup_sorted. Qed.

(** Strictly sorted lists with the same elements are equal. *)
Lemma lt_sorted_unique (l k : list A) :
  StronglySorted (fun a b => cmp a b = Lt) l ->
  StronglySorted (fun a b => cmp a b = Lt) k ->
  (forall x, x ∈ l <-> x ∈ k) -> l = k.
Proof.
  intros Hl Hk Hin. eapply (StronglySorted_unique_strong (fun a b => cmp a b = Lt)); try done.
  - intros x y _ _ Hxy Hyx. rewrite cmp_anti, Hxy in Hyx. done.
  - apply NoDup_Permutation; eauto using lt_sorted_NoDup.
Qed.

(** [sort_dedup] computes a canonical representative of a set. *)
Lemma sort_dedup_canonical (l k : list A) :
  sort_dedup l = sort_dedup k <-> (forall x, x ∈ l <-> x ∈ k).
Proof.
  split.
  - intros E x. by rewrite <- elem_of_sort_dedup, E, elem_of_sort_dedup.
  - intros E. apply lt_sorted_unique; auto using sort_dedup_sorted.
    intros x. by rewrite !elem_of_sort_dedup.
Qed.

Lemma sort_dedup_idemp (l : list A) : sort_dedup (sort_dedup l) = sort_dedup l.
Proof. apply sort_dedup_canonical. intros x. apply elem_of_sort_dedup. Qed.

Lemma sort_dedup_id (l : list A) :
  StronglySorted (fun a b => cmp a b = Lt) l -> sort_dedup l = l.
Proof.
  intros Hl. apply lt_sorted_unique; auto using sort_dedup_sorted.
  intros x. apply elem_of_sort_dedup.
Qed.

(** A list is as long as its sorted set exactly when it has no repetition:
    the duplicate test [unique.len() != v.len()]. *)
Lemma length_sort_dedup (l : list A) : length (sort_dedup l) = length l <-> NoDup l.
Proof.
  split; intros Hl.
  - assert (E : sort_dedup l ≡ₚ l); [|by rewrite <- E; apply NoDup_sort_dedup].
    apply submseteq_length_Permutation; [|lia].
    apply NoDup_submseteq; [apply NoDup_sort_dedup|]. intros x. by rewrite elem_of_sort_dedup.
  - apply Permutation_length, NoDup_Permutation; auto using NoDup_sort_dedup.
    intros x. apply elem_of_sort_dedup.
Qed.
End dedup.

(** ** Finding and updating in lists *)

Lemma find_first_Some {A} (p : A -> bool) l x :
  find_first p l = Some x -> x ∈ l /\ p x = true.
Proof.
  induction l as [|y l IH]; cbn; [done|].
  destruct (p y) eqn:E; intros H; [injection H as ->; set_solver|]. set_solver.
Qed.

Lemma find_first_None {A} (p : A -> bool) l :
  find_first p l = None <-> Forall (fun x => p x = false) l.
Proof.
  induction l as [|y l IH]; cbn; [split; [constructor|done]|].
  rewrite Forall_cons. destruct (p y); naive_solver.
Qed.

Lemma update_first_none {A} (p : A -> bool) f l :
  find_first p l = None -> update_first p f l = l.
Proof.
  induction l as [|y l IH]; cbn; [done|]. destruct (p y); [done|].
  intros Hl. by rewrite IH.
Qed.

Lemma length_update_first {A} (p : A -> bool) f l : length (update_first p f l) = length l.
Proof. induction l as [|y l IH]; cbn; [done|]. destruct (p y); cbn; congruence. Qed.

Lemma elem_of_update_first {A} (p : A -> bool) f l x :
  x ∈ update_first p f l -> x ∈ l \/ exists y, y ∈ l /\ p y = true /\ x = f y.
Proof.
  induction l as [|y l IH]; cbn; [set_solver|].
  destruct (p y) eqn:E; intros Hx; apply elem_of_cons in Hx as [->|Hx].
  - right. exists y. set_solver.
  - set_solver.
  - set_solver.
  - destruct (IH Hx) as [?|(z & ? & ? & ?)]; [set_solver|].
    right. exists z. set_solver.
Qed.

(** An update that keeps a key field keeps the list of keys. *)
Lemma map_update_first {A B} (g : A -> B) (p : A -> bool) f l :
  (forall x, p x = true -> g (f x) = g x) -> map g (update_first p f l) = map g l.
Proof.
  intros Hf. induction l as [|y l IH]; cbn; [done|].
  destruct (p y) eqn:E; cbn; [by rewrite Hf | by rewrite IH].
Qed.

#[export] Hint Resolve sort_dedup_sorted NoDup_sort_dedup sort_sorted : net.
#[export] Hint Rewrite @length_to_be_bytes @sort_dedup_idemp : net.
