(* ===== verification/Errors.v ===== *)
(** * Errors

    [NetworkError] of lib.rs and its stable machine-readable categories.  The
    payloads of the foreign error types ([std::io::Error],
    [arcrelay_transport::FrameError]) are their displayed text. *)

From S2P Require Import Prelude.

Inductive NetworkError : Type :=
| Io (e : string)
| Tls (e : string)
| InvalidIdentity (e : string)
| Discovery (e : string)
| Quic (e : string)
| Protocol (e : string)
| Connect (e : string)
| Unpaired
| Unauthorized (e : string)
| Repository (e : string)
| Timeout
| SelfConnection
| Busy (e : string)
| RuntimeUnavailable
| Frame (e : string).

#[export] Instance NetworkError_eq_dec : EqDecision NetworkError.
Proof. solve_decision. Defined.

(** [NetworkError::code] *)
Definition code (e : NetworkError) : string :=
  match e with
  | Io _ | Discovery _ | Quic _ | Connect _ => "network.unavailable"
  | Tls _ => "network.tls_configuration"
  | InvalidIdentity _ => "network.invalid_identity"
  | Protocol _ | Frame _ => "network.protocol"
  | Unpaired => "network.unpaired"
  | Unauthorized _ => "network.permission_denied"
  | Repository _ => "network.repository"
  | Timeout => "network.deadline_exceeded"
  | SelfConnection => "network.self_connection"
  | Busy _ => "network.busy"
  | RuntimeUnavailable => "network.runtime_unavailable"
  end.

(** The displayed text. *)
Definition error_text (e : NetworkError) : string :=
  match e with
  | Io e => "network I/O failed: " +:+ e
  | Tls e => "TLS configuration failed: " +:+ e
  | InvalidIdentity e => "invalid device identity: " +:+ e
  | Discovery e => "discovery failed: " +:+ e
  | Quic e => "QUIC failed: " +:+ e
  | Protocol e => "protocol violation: " +:+ e
  | Connect e => "connection failed: " +:+ e
  | Unpaired => "peer is not paired"
  | Unauthorized e => "peer is not authorized: " +:+ e
  | Repository e => "peer repository failed: " +:+ e
  | Timeout => "operation timed out"
  | SelfConnection => "cannot connect to this device"
  | Busy e => "network runtime is busy: " +:+ e
  | RuntimeUnavailable => "an active Tokio runtime is required"
  | Frame e => e
  end.

(** A fallible operation of the crate. *)
Abbreviation net_result := (result NetworkError).
