(* ===== verification/Addr.v ===== *)
(** * Addr

    The address types of [std::net] the crate computes with, and the crate's
    own functions on them: [canonical_endpoint] (runtime/dial.rs),
    [is_dialable] (runtime.rs), [network_scope] (endpoint.rs), the /24 helpers
    of runtime/scan.rs and the address diagnostics of runtime/diagnostics.rs. *)

From stdpp Require Import pretty.
From S2P Require Import Prelude.

(** ** Data *)

(** Four octets, most significant first. *)
Record Ipv4Addr := mkIpv4 { o0 : Z; o1 : Z; o2 : Z; o3 : Z }.

(** The 128 bits of the address, as [u128::from_be_bytes] reads them. *)
Record Ipv6Addr := mkIpv6 { bits : Z }.

Inductive IpAddr :=
| IpV4 (ip : Ipv4Addr)
| IpV6 (ip : Ipv6Addr).

Record SocketAddrV4 := mkSockV4 { v4_ip : Ipv4Addr; v4_port : Z }.
Record SocketAddrV6 := mkSockV6 { v6_ip : Ipv6Addr; v6_port : Z; v6_flowinfo : Z; v6_scope_id : Z }.

Inductive SocketAddr :=
| SockV4 (a : SocketAddrV4)
| SockV6 (a : SocketAddrV6).

#[export] Instance Ipv4Addr_eq_dec : EqDecision Ipv4Addr.
Proof. solve_decision. Defined.
#[export] Instance Ipv6Addr_eq_dec : EqDecision Ipv6Addr.
Proof. solve_decision. Defined.
#[export] Instance IpAddr_eq_dec : EqDecision IpAddr.
Proof. solve_decision. Defined.
#[export] Instance SocketAddrV4_eq_dec : EqDecision SocketAddrV4.
Proof. solve_decision. Defined.
#[export] Instance SocketAddrV6_eq_dec : EqDecision SocketAddrV6.
Proof. solve_decision. Defined.
#[export] Instance SocketAddr_eq_dec : EqDecision SocketAddr.
Proof. solve_decision. Defined.

(** Field tuples: the derived [Ord] of each type compares them
    lexicographically, an [IpV4] (a [SockV4]) before every [IpV6]. *)
Definition ipv4_key (a : Ipv4Addr) : Z * (Z * (Z * Z)) := (o0 a, (o1 a, (o2 a, o3 a))).
Definition ip_key (a : IpAddr) : (Z * (Z * (Z * Z))) + Z :=
  match a with
  | IpV4 ip => inl (ipv4_key ip)
  | IpV6 ip => inr (bits ip)
  end.
Definition sock_key (a : SocketAddr) : ((Z * (Z * (Z * Z))) * Z) + (Z * (Z * (Z * Z))) :=
  match a with
  | SockV4 s => inl (ipv4_key (v4_ip s), v4_port s)
  | SockV6 s => inr (bits (v6_ip s), (v6_port s, (v6_flowinfo s, v6_scope_id s)))
  end.

Lemma ipv4_key_inj (a b : Ipv4Addr) : ipv4_key a = ipv4_key b -> a = b.
Proof. destruct a, b; cbv [ipv4_key o0 o1 o2 o3]. congruence. Qed.

Lemma ip_key_inj (a b : IpAddr) : ip_key a = ip_key b -> a = b.
Proof. destruct a as [[]|[]], b as [[]|[]]; cbn; cbv [ipv4_key]; cbn; congruence. Qed.

Lemma sock_key_inj (a b : SocketAddr) : sock_key a = sock_key b -> a = b.
Proof. destruct a as [[[] ?]|[[] ? ? ?]], b as [[[] ?]|[[] ? ? ?]]; cbn; cbv [ipv4_key]; cbn; congruence. Qed.

#[export] Instance Ipv4Addr_cmp : Cmp Ipv4Addr := cmp_via ipv4_key.
#[export] Instance Ipv4Addr_cmp_laws : CmpLaws Ipv4Addr := cmp_via_laws _ ipv4_key_inj.
#[export] Instance IpAddr_cmp : Cmp IpAddr := cmp_via ip_key.
#[export] Instance IpAddr_cmp_laws : CmpLaws IpAddr := cmp_via_laws _ ip_key_inj.
#[export] Instance SocketAddr_cmp : Cmp SocketAddr := cmp_via sock_key.
#[export] Instance SocketAddr_cmp_laws : CmpLaws SocketAddr := cmp_via_laws _ sock_key_inj.

#[export] Instance IpAddr_countable : Countable IpAddr.
Proof.
  refine (inj_countable' ip_key (fun k =>
    match k with
    | inl (a, (b, (c, d))) => IpV4 (mkIpv4 a b c d)
    | inr z => IpV6 (mkIpv6 z)
    end) _).
  by intros [[]|[]].
Defined.

#[export] Instance SocketAddr_countable : Countable SocketAddr.
Proof.
  refine (inj_countable' sock_key (fun k =>
    match k with
    | inl ((a, (b, (c, d))), p) => SockV4 (mkSockV4 (mkIpv4 a b c d) p)
    | inr (z, (p, (f, i))) => SockV6 (mkSockV6 (mkIpv6 z) p f i)
    end) _).
  by intros [[[] ?]|[[] ? ? ?]].
Defined.

(** ** The parts of [std::net] that are used *)

(** [SocketAddr::new] *)
Definition sock_new (ip : IpAddr) (port : Z) : SocketAddr :=
  match ip with
  | IpV4 a => SockV4 (mkSockV4 a port)
  | IpV6 a => SockV6 (mkSockV6 a port 0 0)
  end.

Definition sock_ip (a : SocketAddr) : IpAddr :=
  match a with
  | SockV4 s => IpV4 (v4_ip s)
  | SockV6 s => IpV6 (v6_ip s)
  end.

Definition sock_port (a : SocketAddr) : Z :=
  match a with
  | SockV4 s => v4_port s
  | SockV6 s => v6_port s
  end.

Definition v4_is_loopback (a : Ipv4Addr) : bool := o0 a =? 127.
Definition v4_is_private (a : Ipv4Addr) : bool :=
  (o0 a =? 10) || ((o0 a =? 172) && (16 <=? o1 a) && (o1 a <=? 31))
  || ((o0 a =? 192) && (o1 a =? 168)).

Definition is_loopback (ip : IpAddr) : bool :=
  match ip with
  | IpV4 a => v4_is_loopback a
  | IpV6 a => bits a =? 1
  end.

Definition is_unspecified (ip : IpAddr) : bool :=
  match ip with
  | IpV4 a => bool_decide (a = mkIpv4 0 0 0 0)
  | IpV6 a => bits a =? 0
  end.

Definition is_multicast (ip : IpAddr) : bool :=
  match ip with
  | IpV4 a => (224 <=? o0 a) && (o0 a <=? 239)
  | IpV6 a => Z.shiftr (bits a) 120 =? 255
  end.

(** [Ipv6Addr::to_ipv4_mapped]: the [::ffff:a.b.c.d] form. *)
Definition to_ipv4_mapped (a : Ipv6Addr) : option Ipv4Addr :=
  if Z.shiftr (bits a) 32 =? 65535 then
    Some (mkIpv4 (Z.land (Z.shiftr (bits a) 24) 255) (Z.land (Z.shiftr (bits a) 16) 255)
                 (Z.land (Z.shiftr (bits a) 8) 255) (Z.land (bits a) 255))
  else None.

(** [Ipv4Addr::to_ipv6_mapped], used to state what [to_ipv4_mapped] undoes. *)
Definition to_ipv6_mapped (a : Ipv4Addr) : Ipv6Addr :=
  mkIpv6 (65535 * 2 ^ 32 + o0 a * 2 ^ 24 + o1 a * 2 ^ 16 + o2 a * 2 ^ 8 + o3 a).

Definition wf_ipv4 (a : Ipv4Addr) : Prop :=
  in_u8 (o0 a) /\ in_u8 (o1 a) /\ in_u8 (o2 a) /\ in_u8 (o3 a).

(** The text of an address leaves out the flow label of an IPv6 one. *)
Definition clear_flowinfo (a : SocketAddr) : SocketAddr :=
  match a with
  | SockV6 s => SockV6 (mkSockV6 (v6_ip s) (v6_port s) 0 (v6_scope_id s))
  | _ => a
  end.

Definition plain_address (a : SocketAddr) : Prop := clear_flowinfo a = a.

(** ** runtime/dial.rs, runtime.rs, endpoint.rs *)

Definition canonical_endpoint (address : SocketAddr) : SocketAddr :=
  match address with
  | SockV6 a =>
      match to_ipv4_mapped (v6_ip a) with
      | Some ip => sock_new (IpV4 ip) (v6_port a)
      | None => SockV6 a
      end
  | a => a
  end.

(** [cfg!(test)] is false in the library that is shipped. *)
Definition cfg_test : bool := false.

Definition is_dialable (address : SocketAddr) : bool :=
  negb (sock_port address =? 0)
  && negb (is_unspecified (sock_ip address))
  && negb (is_multicast (sock_ip address))
  && (negb (is_loopback (sock_ip address)) || cfg_test).

Definition dec (z : Z) : string := pretty z.

Definition network_scope (address : SocketAddr) : string :=
  match address with
  | SockV4 a =>
      let ip := v4_ip a in
      (dec (o0 ip) +:+ "." +:+ dec (o1 ip) +:+ "." +:+ dec (o2 ip) +:+ ".0/24")%string
  | SockV6 a => ("ipv6-if-" +:+ dec (v6_scope_id a))%string
  end.

(** ** runtime/scan.rs *)

Definition subnet_prefix (a : Ipv4Addr) : Z * (Z * Z) := (o0 a, (o1 a, o2 a)).

(** [(1_u8..=254).map(..)] *)
Definition subnet_hosts (prefix : Z * (Z * Z)) : list Ipv4Addr :=
  map (fun host => mkIpv4 prefix.1 prefix.2.1 prefix.2.2 (Z.of_nat host)) (seq 1 254).

(** ** runtime/diagnostics.rs *)

Definition address_family (address : SocketAddr) : string :=
  match sock_ip address with
  | IpV4 _ => "ipv4"
  | IpV6 ip => match to_ipv4_mapped ip with Some _ => "ipv4" | None => "ipv6" end
  end.

Definition scope_id (address : SocketAddr) : Z :=
  match address with
  | SockV6 v6 => v6_scope_id v6
  | _ => 0
  end.

(** ** Facts *)

Lemma land_255 (z : Z) : Z.land z 255 = z `mod` 256.
Proof. change 255 with (Z.ones 8). rewrite Z.land_ones by lia. done. Qed.

Lemma mod_digit (q r : Z) : 0 <= r < 256 -> (q * 256 + r) `mod` 256 = r.
Proof. intros. rewrite Z.add_comm, Z_mod_plus_full. by apply Z.mod_small. Qed.

(** [to_ipv4_mapped] inverts the IPv4-mapped embedding. *)
Lemma to_ipv4_mapped_mapped (a : Ipv4Addr) :
  wf_ipv4 a -> to_ipv4_mapped (to_ipv6_mapped a) = Some a.
Proof.
  destruct a as [a b c d]. unfold wf_ipv4, in_u8, u8_max, to_ipv4_mapped, to_ipv6_mapped; cbn.
  intros (? & ? & ? & ?).
  rewrite !Z.shiftr_div_pow2 by lia. rewrite !land_255.
  set (z := 65535 * 2 ^ 32 + a * 2 ^ 24 + b * 2 ^ 16 + c * 2 ^ 8 + d).
  assert (E0 : z / 2 ^ 32 = 65535)
    by (symmetry; apply (Z.div_unique z _ _ (a * 2 ^ 24 + b * 2 ^ 16 + c * 2 ^ 8 + d)); lia).
  assert (E1 : z / 2 ^ 24 = 65535 * 256 + a)
    by (symmetry; apply (Z.div_unique z _ _ (b * 2 ^ 16 + c * 2 ^ 8 + d)); lia).
  assert (E2 : z / 2 ^ 16 = (65535 * 256 + a) * 256 + b)
    by (symmetry; apply (Z.div_unique z _ _ (c * 2 ^ 8 + d)); lia).
  assert (E3 : z / 2 ^ 8 = ((65535 * 256 + a) * 256 + b) * 256 + c)
    by (symmetry; apply (Z.div_unique z _ _ d); lia).
  assert (E4 : z = (((65535 * 256 + a) * 256 + b) * 256 + c) * 256 + d) by lia.
  rewrite E0, E1, E2, E3, E4, !mod_digit by lia. done.
Qed.

Lemma canonical_endpoint_idemp (a : SocketAddr) :
  canonical_endpoint (canonical_endpoint a) = canonical_endpoint a.
Proof.
  destruct a as [a|a]; cbn; [done|].
  destruct (to_ipv4_mapped (v6_ip a)) eqn:E; cbn; [done | by rewrite E].
Qed.

Lemma canonical_plain (a : SocketAddr) : plain_address a -> plain_address (canonical_endpoint a).
Proof. destruct a as [a|a]; [done|]. unfold canonical_endpoint. by destruct (to_ipv4_mapped (v6_ip a)). Qed.

Lemma canonical_endpoint_port (a : SocketAddr) : sock_port (canonical_endpoint a) = sock_port a.
Proof. destruct a as [a|a]; cbn; [done|]. by destruct (to_ipv4_mapped (v6_ip a)). Qed.

Lemma canonical_endpoint_mapped (ip : Ipv4Addr) (port flow scope : Z) :
  wf_ipv4 ip ->
  canonical_endpoint (SockV6 (mkSockV6 (to_ipv6_mapped ip) port flow scope)) =
  SockV4 (mkSockV4 ip port).
Proof. intros Hip. cbn. by rewrite to_ipv4_mapped_mapped. Qed.

Lemma is_dialable_true (a : SocketAddr) :
  is_dialable a = true <->
  sock_port a <> 0 /\ is_unspecified (sock_ip a) = false /\
  is_multicast (sock_ip a) = false /\ is_loopback (sock_ip a) = false.
Proof.
  unfold is_dialable, cfg_test. rewrite orb_false_r, !andb_true_iff, !negb_true_iff, Z.eqb_neq.
  naive_solver.
Qed.

Lemma length_subnet_hosts p : length (subnet_hosts p) = 254%nat.
Proof. unfold subnet_hosts. by rewrite length_map, length_seq. Qed.

Lemma elem_of_subnet_hosts p (a : Ipv4Addr) :
  a ∈ subnet_hosts p <-> subnet_prefix a = p /\ 1 <= o3 a <= 254.
Proof.
  unfold subnet_hosts, subnet_prefix. rewrite list_elem_of_In, in_map_iff.
  setoid_rewrite in_seq. destruct a as [a b c d], p as (x & y & z); cbn. split.
  - intros (n & E & Hn). injection E as -> -> -> <-. split; [done|lia].
  - intros [E Hd]. injection E as -> -> ->. exists (Z.to_nat d). split; [f_equal; lia | lia].
Qed.

Lemma NoDup_subnet_hosts p : NoDup (subnet_hosts p).
Proof.
  unfold subnet_hosts. apply NoDup_fmap_2_strong; [|apply NoDup_seq].
  intros i j _ _ E. injection E. lia.
Qed.

(** The /24 of a private address holds private addresses only. *)
Lemma subnet_private (a b : Ipv4Addr) :
  subnet_prefix a = subnet_prefix b -> v4_is_private a = v4_is_private b.
Proof. destruct a, b. unfold subnet_prefix, v4_is_private; cbn. congruence. Qed.

(** *** Scope names *)

Definition no_dot (s : string) : bool := forallb (fun c => negb (Ascii.eqb c ".")) (list_ascii_of_string s).

Lemma dec_no_dot (z : Z) : in_u8 z -> no_dot (dec z) = true.
Proof.
  unfold in_u8, u8_max. intros Hz.
  assert (Ht : forallb (fun n => no_dot (dec (Z.of_nat n))) (seq 0 256) = true) by (vm_compute; done).
  rewrite forallb_forall in Ht. specialize (Ht (Z.to_nat z)).
  rewrite Z2Nat.id in Ht by lia. apply Ht, in_seq. lia.
Qed.

Lemma dec_inj (a b : Z) : dec a = dec b -> a = b.
Proof. unfold dec. apply (inj pretty). Qed.

(** A field without dots is determined by the text up to the next dot. *)
Lemma split_at_dot (s t u v : string) :
  no_dot s = true -> no_dot t = true ->
  (s +:+ String "." u)%string = (t +:+ String "." v)%string -> s = t /\ u = v.
Proof.
  revert t. induction s as [|a s IH]; intros [|b t]; unfold no_dot; cbn; intros Hs Ht E.
  - injection E. auto.
  - injection E as <- E. cbn in Ht. done.
  - injection E as -> E. cbn in Hs. done.
  - apply andb_prop in Hs as [_ Hs]. apply andb_prop in Ht as [_ Ht].
    injection E as -> E. destruct (IH t Hs Ht E) as [-> ->]. done.
Qed.

(** ** Properties *)

(** What [network_scope] is meant to identify: the /24 of an IPv4 address, the
    interface of an IPv6 one. *)
Definition same_scope (a b : SocketAddr) : Prop :=
  match a, b with
  | SockV4 x, SockV4 y => subnet_prefix (v4_ip x) = subnet_prefix (v4_ip y)
  | SockV6 x, SockV6 y => v6_scope_id x = v6_scope_id y
  | _, _ => False
  end.

Definition wf_sock (a : SocketAddr) : Prop :=
  match a with
  | SockV4 x => wf_ipv4 (v4_ip x) /\ in_u16 (v4_port x)
  | SockV6 x => 0 <= bits (v6_ip x) < 2 ^ 128 /\ in_u16 (v6_port x)
  end.

Lemma network_scope_v4 (x y : SocketAddrV4) :
  wf_ipv4 (v4_ip x) -> wf_ipv4 (v4_ip y) ->
  network_scope (SockV4 x) = network_scope (SockV4 y) ->
  subnet_prefix (v4_ip x) = subnet_prefix (v4_ip y).
Proof.
  destruct x as [[a b c d] p], y as [[a' b' c' d'] p'].
  intros (?&?&?&?) (?&?&?&?) E. cbn in *.
  apply split_at_dot in E as [Ea E]; [|by apply dec_no_dot..].
  apply split_at_dot in E as [Eb E]; [|by apply dec_no_dot..].
  apply split_at_dot in E as [Ec _]; [|by apply dec_no_dot..].
  apply dec_inj in Ea, Eb, Ec. unfold subnet_prefix; cbn. congruence.
Qed.

Lemma dec_not_ipv6 (z : Z) (t u : string) :
  in_u8 z -> (dec z +:+ String "." t)%string <> ("ipv6-if-" +:+ u)%string.
Proof.
  intros Hz E.
  assert (Ht : forallb (fun n => match dec (Z.of_nat n) with
      String c _ => negb (Ascii.eqb c "i") | EmptyString => true end) (seq 0 256) = true)
    by (vm_compute; done).
  rewrite forallb_forall in Ht. specialize (Ht (Z.to_nat z)).
  unfold in_u8, u8_max in Hz. rewrite Z2Nat.id in Ht by lia.
  specialize (Ht ltac:(apply in_seq; lia)).
  destruct (dec z) as [|c s]; cbn in E; [done|]. injection E as -> _. done.
Qed.

(** Two endpoints have the same network scope exactly when they are IPv4
    addresses of one /24 or IPv6 addresses of one interface: the printed scope
    never confuses two networks. *)
Theorem network_scope_iff (a b : SocketAddr) :
  wf_sock a -> wf_sock b -> (network_scope a = network_scope b <-> same_scope a b).
Proof.
  destruct a as [x|x], b as [y|y]; cbn [wf_sock same_scope]; intros [Hx _] [Hy _].
  - split; [by apply network_scope_v4|]. unfold subnet_prefix. intros [= E1 E2 E3].
    unfold network_scope. by rewrite E1, E2, E3.
  - split; [|done]. intros E. by apply (dec_not_ipv6 (o0 (v4_ip x))) in E; destruct Hx.
  - split; [|done]. intros E. symmetry in E.
    by apply (dec_not_ipv6 (o0 (v4_ip y))) in E; destruct Hy.
  - split; [|intros E; cbn; by rewrite E]. intros E. cbn in E.
    injection E as E. by apply dec_inj.
Qed.

(** [is_dialable] judges an IPv4-mapped address by its IPv6 form only: every
    such address with a port passes, the mapped loopback and unspecified ones
    included, although [canonical_endpoint] then dials the IPv4 address, which
    [is_dialable] itself refuses for a loopback. *)
Theorem mapped_loopback_is_dialable (ip : Ipv4Addr) (port flow scope : Z) :
  wf_ipv4 ip -> 0 < port -> v4_is_loopback ip = true ->
  let mapped := SockV6 (mkSockV6 (to_ipv6_mapped ip) port flow scope) in
  is_dialable mapped = true /\
  canonical_endpoint mapped = SockV4 (mkSockV4 ip port) /\
  is_dialable (canonical_endpoint mapped) = false.
Proof.
  intros Hip Hport Hlo mapped. pose proof (canonical_endpoint_mapped ip port flow scope Hip) as E.
  fold mapped in E. split_and!; [|done|].
  - apply is_dialable_true. unfold mapped; cbn -[Z.shiftr to_ipv6_mapped].
    destruct ip as [a b c d], Hip as (?&?&?&?). unfold in_u8, u8_max, to_ipv6_mapped in *; cbn in *.
    split_and!; [lia | apply Z.eqb_neq; lia | | apply Z.eqb_neq; lia].
    apply Z.eqb_neq. rewrite Z.shiftr_div_pow2 by lia.
    rewrite Z.div_small by lia. lia.
  - rewrite E. unfold is_dialable; cbn [sock_ip sock_port v4_ip v4_port is_loopback].
    rewrite Hlo. by rewrite andb_false_r.
Qed.

(** ** Witnesses *)

Lemma network_scope_iff_witness :
  network_scope (sock_new (IpV4 (mkIpv4 192 168 1 7)) 80) <>
  network_scope (sock_new (IpV4 (mkIpv4 192 168 11 7)) 80).
Proof.
  intros E. apply network_scope_iff in E; [discriminate E | |];
    cbn; unfold wf_ipv4, in_u8, in_u16, u8_max, u16_max; cbn; lia.
Defined.

Lemma mapped_loopback_is_dialable_witness :
  is_dialable (SockV6 (mkSockV6 (to_ipv6_mapped (mkIpv4 127 0 0 1)) 4433 0 0)) = true.
Proof.
  refine (proj1 (mapped_loopback_is_dialable (mkIpv4 127 0 0 1) 4433 0 0 _ _ _));
    cbn; unfold wf_ipv4, in_u8, u8_max; cbn; try lia; reflexivity.
Defined.
