(* ===== verification/Quic.v ===== *)
(** * Quic

    The sockets and the TLS configuration under the QUIC endpoints: [bind_socket]
    and the client configuration (runtime/protocol.rs), the server configuration
    (identity.rs), and the opening of a recovery endpoint (runtime/dial.rs) and
    of the endpoint and proxy of an input relay (runtime/relay.rs).  A socket
    that a failing function owns is closed when the function returns. *)

From S2P Require Import Prelude Errors Addr.

(** ** TLS *)

(** [rustls], and [arcrelay_wire::ALPN].  [builder_provider] is the one its
    configuration builders take, [quic_suite] whether it has the cipher suite
    QUIC starts with, as [QuicClientConfig] and [QuicServerConfig] ask. *)
Class Rustls := {
  CryptoProvider : Type;
  ring_default_provider : CryptoProvider;
  builder_provider : CryptoProvider;
  verify_tls12 : CryptoProvider -> list byte -> list byte -> list byte -> result string unit;
  verify_tls13 : CryptoProvider -> list byte -> list byte -> list byte -> result string unit;
  supported_schemes : CryptoProvider -> list Z;
  ALPN : list byte;
  single_cert : list byte -> list byte -> result string unit;
  quic_suite : CryptoProvider -> result string unit
}.

Section tls.
Context `{Rustls}.

(** The fields [transport_config] sets: milliseconds and stream counts. *)
Record TransportConfig := mkTransportConfig {
  initial_rtt : Z;
  keep_alive_interval : option Z;
  max_concurrent_bidi_streams : Z;
  max_concurrent_uni_streams : Z
}.

Definition transport_config : TransportConfig := mkTransportConfig 20 (Some 10000) 64 32.

(** The trait [rustls::client::danger::ServerCertVerifier]. *)
Record ServerCertVerifier := mkVerifier {
  verify_server_cert : list byte -> list (list byte) -> result string unit;
  verify_tls12_signature : list byte -> list byte -> list byte -> result string unit;
  verify_tls13_signature : list byte -> list byte -> list byte -> result string unit;
  supported_verify_schemes : list Z
}.

(** [SkipServerVerification]: any certificate, but a signature of its key. *)
Definition SkipServerVerification (provider : CryptoProvider) : ServerCertVerifier :=
  mkVerifier (fun _ _ => Ok tt) (verify_tls12 provider) (verify_tls13 provider) (supported_schemes provider).

Record ClientConfig := mkClientConfig {
  cc_verifier : ServerCertVerifier;
  cc_client_cert : option (list byte);
  cc_alpn : list (list byte);
  cc_transport : TransportConfig
}.

Record ServerConfig := mkServerConfig {
  sc_client_auth : bool;
  sc_certificate : list byte;
  sc_key : list byte;
  sc_alpn : list (list byte);
  sc_transport : TransportConfig
}.

Definition client_config : net_result ClientConfig :=
  map_err Tls (quic_suite builder_provider) ;;
  Ok (mkClientConfig (SkipServerVerification ring_default_provider) None [ALPN] transport_config).

(** [server_config], before its errors are wrapped in [Tls]. *)
Definition server_config (certificate_der private_key_der : list byte) : result string ServerConfig :=
  single_cert certificate_der private_key_der ;;
  quic_suite builder_provider ;;
  Ok (mkServerConfig false certificate_der private_key_der [ALPN] transport_config).
End tls.

(** ** Sockets *)

Inductive Domain := IPV4 | IPV6.

(** [socket2], [std::net], [tokio::net] and [quinn] on the sockets of the system
    [T]; a socket is its descriptor, and an endpoint the descriptor of its
    socket. *)
Class SocketApi (T : Type) `{Rustls} := {
  os_socket : Domain -> action T string nat;
  os_set_only_v6 : nat -> bool -> action T string unit;
  os_bind : nat -> IpAddr -> Z -> action T string unit;
  os_set_nonblocking : nat -> bool -> action T string unit;
  os_connect : nat -> SocketAddr -> action T string unit;
  os_local_addr : nat -> action T string SocketAddr;
  os_close : nat -> T -> T;
  tokio_socket : nat -> action T string unit;
  quinn_endpoint : option ServerConfig -> nat -> action T string unit
}.

Section sockets.
Context {T : Type} `{SocketApi T}.

(** The rest of a function that owns the socket [s]. *)
Definition owning {A} (s : nat) (m : action T NetworkError A) : action T NetworkError A := fun w =>
  match m w with
  | (Ok a, w') => (Ok a, w')
  | (Err e, w') => (Err e, os_close s w')
  end.

(** [let _ = ...] *)
Definition ignored {A} (m : action T string A) : action T NetworkError unit := fun w => (Ok tt, (m w).2).

Definition is_ipv6 (address : IpAddr) : bool := match address with IpV6 _ => true | IpV4 _ => false end.
Definition domain_of (address : IpAddr) : Domain := if is_ipv6 address then IPV6 else IPV4.

Definition bind_socket (address : IpAddr) (port : Z) : action T NetworkError nat :=
  socket ← act_map_err Io (os_socket (domain_of address));
  owning socket
    ((if is_ipv6 address then ignored (os_set_only_v6 socket false) else mret tt) ;;
     act_map_err Io (os_bind socket address port) ;;
     act_map_err Io (os_set_nonblocking socket true) ;;
     mret socket).

(** [reserve_udp_socket] *)
Definition reserve_udp_socket (address : IpAddr) (port : Z) : action T NetworkError nat :=
  bind_socket address port.

(** [quinn::Endpoint::new] and [set_default_client_config(client_config()?)].  A
    dropped endpoint closes its socket, in a task of quinn's own. *)
Definition open_endpoint (server : option ServerConfig) (socket : nat) : action T NetworkError nat :=
  owning socket
    (act_map_err Quic (quinn_endpoint server socket) ;;
     lift client_config ;;
     mret socket).

(** What [new_recovery_endpoint] does after it looked at the flag; the socket
    of the listener is [main]. *)
Definition open_recovery_endpoint (main : nat) : action T NetworkError nat :=
  address ← act_map_err Io (os_local_addr main);
  socket ← bind_socket (sock_ip address) 0;
  open_endpoint None socket.

Definition LOCALHOST : IpAddr := IpV4 (mkIpv4 127 0 0 1).

(** What [new_input_relay_tunnel] opens: the proxy socket and the endpoint.  The
    bridge owns the proxy once it is spawned. *)
Definition open_relay_endpoint (server : option ServerConfig) : action T NetworkError (nat * nat) :=
  proxy ← bind_socket LOCALHOST 0;
  owning proxy
    (act_map_err Io (tokio_socket proxy) ;;
     act_map_err Io (os_local_addr proxy) ;;
     socket ← bind_socket LOCALHOST 0;
     endpoint ← open_endpoint server socket;
     owning endpoint
       (act_map_err Io (os_local_addr endpoint) ;;
        mret (proxy, endpoint))).

(** [IpAddr::to_canonical] *)
Definition to_canonical (address : IpAddr) : IpAddr :=
  match address with
  | IpV6 ip => match to_ipv4_mapped ip with Some ip => IpV4 ip | None => address end
  | IpV4 _ => address
  end.

(** A function that owns the socket [s] and drops it however it ends. *)
Definition scoped {A} (s : nat) (m : action T NetworkError A) : action T NetworkError A := fun w =>
  let (x, w') := m w in (x, os_close s w').

(** The closure of [log_route_probe]: [UdpSocket::bind] to any address, connect
    and look at the local address. *)
Definition route_probe (address : SocketAddr) : action T NetworkError SocketAddr :=
  let bind := match address with
              | SockV4 _ => IpV4 (mkIpv4 0 0 0 0)
              | SockV6 _ => IpV6 (mkIpv6 0)
              end in
  socket ← act_map_err Io (os_socket (domain_of bind));
  scoped socket
    (act_map_err Io (os_bind socket bind 0) ;;
     act_map_err Io (os_connect socket address) ;;
     act_map_err Io (os_local_addr socket)).

(** [log_route_probe]: what it writes to the log, if anything, the local address
    and the interfaces that have it; [interfaces] is [get_if_addrs()]. *)
Definition log_route_probe (debug : bool) (interfaces : result string (list (IpAddr * option Z)))
    (address : SocketAddr) (w : T) : option (net_result (IpAddr * list Z)) * T :=
  if negb debug then (None, w)
  else
    let (result, w') := route_probe address w in
    (Some (local ← result;
           let ip := to_canonical (sock_ip local) in
           Ok (ip, omap snd (List.filter (fun i => bool_decide (to_canonical i.1 = ip))
                               (default [] (to_option interfaces))))), w').
End sockets.

(** ** What the system documents *)

Record SocketInfo := mkSocketInfo {
  si_domain : Domain;
  si_bound : option (IpAddr * Z);
  si_nonblocking : bool
}.

Abbreviation table := (gmap nat SocketInfo).

(** The open sockets of a system.  A call that fails changes none of them; port
    0 asks for any free port. *)
Class SocketLaws (T : Type) `{SocketApi T} := {
  sockets : T -> table;
  os_socket_spec : forall d w x w', os_socket d w = (x, w') ->
    match x with
    | Ok s => sockets w !! s = None /\ sockets w' = <[s := mkSocketInfo d None false]> (sockets w)
    | Err _ => sockets w' = sockets w
    end;
  os_set_only_v6_spec : forall s b w x w', os_set_only_v6 s b w = (x, w') -> sockets w' = sockets w;
  os_bind_spec : forall s a port i w x w', os_bind s a port w = (x, w') -> sockets w !! s = Some i ->
    match x with
    | Ok _ => exists p, (port <> 0 -> p = port) /\ (port = 0 -> 0 < p) /\
        sockets w' = <[s := mkSocketInfo (si_domain i) (Some (a, p)) (si_nonblocking i)]> (sockets w)
    | Err _ => sockets w' = sockets w
    end;
  os_set_nonblocking_spec : forall s b i w x w', os_set_nonblocking s b w = (x, w') -> sockets w !! s = Some i ->
    match x with
    | Ok _ => sockets w' = <[s := mkSocketInfo (si_domain i) (si_bound i) b]> (sockets w)
    | Err _ => sockets w' = sockets w
    end;
  os_connect_spec : forall s a w x w', os_connect s a w = (x, w') -> forall i, sockets w !! s = Some i ->
    exists j, sockets w' = <[s := j]> (sockets w);
  os_local_addr_spec : forall s w x w', os_local_addr s w = (x, w') -> sockets w' = sockets w;
  os_close_spec : forall s w, sockets (os_close s w) = delete s (sockets w);
  tokio_socket_spec : forall s w x w', tokio_socket s w = (x, w') -> sockets w' = sockets w;
  quinn_endpoint_spec : forall c s w x w', quinn_endpoint c s w = (x, w') -> sockets w' = sockets w
}.

(** ** Facts *)

Section facts.
Context {T : Type} `{SocketLaws T}.

(** [m], run on the open sockets [t], answers [a] on sockets [P a] describes, or
    fails on sockets [Q] describes. *)
Definition leaves {A} (m : action T NetworkError A) (w : T) (P : A -> table -> Prop) (Q : table -> Prop) : Prop :=
  match m w with
  | (Ok a, w') => P a (sockets w')
  | (Err _, w') => Q (sockets w')
  end.

Lemma leaves_bind {A B} (m : action T NetworkError A) (f : A -> action T NetworkError B) w P P' Q :
  leaves m w P Q -> (forall a w', P a (sockets w') -> leaves (f a) w' P' Q) -> leaves (mbind f m) w P' Q.
Proof. unfold leaves, mbind, action_bind. destruct (m w) as [[a|e] w']; [|done]. intros Hp Hf. by apply Hf. Qed.

(** A step that keeps the sockets. *)
Lemma leaves_keep {E A} (g : E -> NetworkError) (m : action T E A) w (Q : table -> Prop) :
  (forall x w', m w = (x, w') -> sockets w' = sockets w) -> Q (sockets w) ->
  leaves (act_map_err g m) w (fun _ t => t = sockets w) Q.
Proof.
  intros Hm Hq. unfold leaves, act_map_err. destruct (m w) as [x w']. specialize (Hm x w' eq_refl).
  destruct x; cbn; congruence.
Qed.

Lemma leaves_owning {A} s (m : action T NetworkError A) w P Q :
  leaves m w P (fun t => Q (delete s t)) -> leaves (owning s m) w P Q.
Proof.
  unfold leaves, owning. destruct (m w) as [[a|e] w']; [done|]. by rewrite os_close_spec.
Qed.

Lemma leaves_scoped {A} s (m : action T NetworkError A) w (P : A -> table -> Prop) Q :
  leaves m w (fun a t => P a (delete s t)) (fun t => Q (delete s t)) -> leaves (scoped s m) w P Q.
Proof. unfold leaves, scoped. destruct (m w) as [[a|e] w']; by rewrite os_close_spec. Qed.

Lemma leaves_weaken {A} (m : action T NetworkError A) w (P P' : A -> table -> Prop) (Q Q' : table -> Prop) :
  leaves m w P Q -> (forall a t, P a t -> P' a t) -> (forall t, Q t -> Q' t) -> leaves m w P' Q'.
Proof. unfold leaves. destruct (m w) as [[a|e] w']; auto. Qed.

(** A socket of the table [t] is opened for [address]. *)
Definition opened_in (t : table) (address : IpAddr) (s : nat) (t' : table) : Prop :=
  t !! s = None /\ exists p, 0 < p /\ t' = <[s := mkSocketInfo (domain_of address) (Some (address, p)) true]> t.

Lemma bind_socket_spec address port w : 0 <= port ->
  leaves (bind_socket address port) w
    (fun s t => opened_in (sockets w) address s t /\
       (port <> 0 -> t = <[s := mkSocketInfo (domain_of address) (Some (address, port)) true]> (sockets w)))
    (fun t => t = sockets w).
Proof.
  intros Hport. unfold bind_socket. set (t := sockets w).
  apply (leaves_bind _ _ _ (fun s u => t !! s = None /\ u = <[s := mkSocketInfo (domain_of address) None false]> t)).
  { unfold leaves, act_map_err. destruct (os_socket _ w) as [x w1] eqn:E1. apply os_socket_spec in E1. by destruct x. }
  intros s w1 [Hs Hw1]. apply leaves_owning.
  apply (leaves_bind _ _ _ (fun _ u => u = <[s := mkSocketInfo (domain_of address) None false]> t)).
  { destruct (is_ipv6 address); unfold leaves; cbn; [|done].
    destruct (os_set_only_v6 s false w1) as [x w2] eqn:E2. apply os_set_only_v6_spec in E2. cbn. congruence. }
  intros _ w2 Hw2.
  apply (leaves_bind _ _ _ (fun _ u => exists p, (port <> 0 -> p = port) /\ 0 < p /\ u = <[s := mkSocketInfo (domain_of address) (Some (address, p)) false]> t)).
  { unfold leaves, act_map_err. destruct (os_bind s address port w2) as [x w3] eqn:E3.
    eapply os_bind_spec in E3; [|by rewrite Hw2, lookup_insert_eq]. destruct x as [a|e]; cbn.
    - destruct E3 as (p & Hp & Hp0 & ->). exists p. rewrite Hw2, insert_insert_eq. split_and!; [done| |done].
      destruct (decide (port = 0)); [auto|]. rewrite Hp by done. lia.
    - rewrite E3, Hw2. by rewrite delete_insert_id. }
  intros _ w3 (p & Hp & Hp0 & Hw3).
  apply (leaves_bind _ _ _ (fun _ u => u = <[s := mkSocketInfo (domain_of address) (Some (address, p)) true]> t)).
  { unfold leaves, act_map_err. destruct (os_set_nonblocking s true w3) as [x w4] eqn:E4.
    eapply os_set_nonblocking_spec in E4; [|by rewrite Hw3, lookup_insert_eq]. destruct x as [a|e]; cbn.
    - by rewrite E4, Hw3, insert_insert_eq.
    - rewrite E4, Hw3. by rewrite delete_insert_id. }
  intros _ w4 Hw4. unfold leaves. cbn. rewrite Hw4. split; [split; [done|eauto]|].
  intros Hn. by rewrite Hp.
Qed.

(** Opening an endpoint on a socket of its own keeps it, or closes it. *)
Lemma open_endpoint_spec server s w :
  leaves (open_endpoint server s) w (fun e t => e = s /\ t = sockets w) (fun t => t = delete s (sockets w)).
Proof.
  apply leaves_owning.
  apply (leaves_bind _ _ _ (fun _ u => u = sockets w)).
  { apply leaves_keep; [apply quinn_endpoint_spec|done]. }
  intros _ w1 Hw1. unfold leaves, mbind, action_bind, lift. destruct client_config; cbn; [done|congruence].
Qed.

(** The route probe closes the socket it opened. *)
Lemma route_probe_spec address w : leaves (route_probe address) w (fun _ t => t = sockets w) (fun t => t = sockets w).
Proof.
  unfold route_probe. set (t := sockets w). set (bind := match address with SockV4 _ => _ | _ => _ end).
  apply (leaves_bind _ _ _ (fun s u => t !! s = None /\ exists i, u = <[s := i]> t)).
  { unfold leaves, act_map_err. destruct (os_socket _ w) as [x w1] eqn:E1. apply os_socket_spec in E1.
    destruct x; [|done]. naive_solver. }
  intros s w1 [Hs Hw1].
  apply leaves_scoped.
  assert (Hback : forall u, (exists i, u = <[s := i]> t) -> delete s u = t).
  { intros u [i ->]. by rewrite delete_insert_id. }
  eapply (leaves_weaken _ _ (fun _ u => exists i, u = <[s := i]> t) _ (fun u => exists i, u = <[s := i]> t));
    [|auto..]. destruct Hw1 as [i Hi].
  apply (leaves_bind _ _ _ (fun _ u => exists i, u = <[s := i]> t)).
  { unfold leaves, act_map_err. destruct (os_bind s bind 0 w1) as [x w2] eqn:E2.
    eapply os_bind_spec in E2; [|by rewrite Hi, lookup_insert_eq]. destruct x as [a|e]; cbn.
    - destruct E2 as (p & _ & _ & ->). rewrite Hi, insert_insert_eq. eauto.
    - rewrite E2. eauto. }
  intros _ w2 [j Hj].
  apply (leaves_bind _ _ _ (fun _ u => exists i, u = <[s := i]> t)).
  { unfold leaves, act_map_err. destruct (os_connect s address w2) as [x w3] eqn:E3.
    eapply os_connect_spec in E3 as [k E3]; [|by rewrite Hj, lookup_insert_eq].
    rewrite Hj, insert_insert_eq in E3. destruct x; cbn; eauto. }
  intros _ w3 [k Hk]. unfold leaves, act_map_err. destruct (os_local_addr s w3) as [x w4] eqn:E4.
  apply os_local_addr_spec in E4. destruct x; cbn; rewrite E4; eauto.
Qed.
End facts.

(** ** Properties *)

Section properties.
Context {T : Type} `{SocketLaws T}.

(** The answer of an opening function and the sockets after it: the ones it
    answers, opened on [address], or none at all. *)
Definition opens {A} (m : action T NetworkError A) (w : T) (P : A -> table -> Prop) : Prop :=
  leaves m w P (fun t => t = sockets w).

(** C35. Opening the sockets of the runtime leaks nothing, whichever of their
    calls fails: a failing [bind_socket], recovery endpoint or relay tunnel
    leaves exactly the sockets that were open before, and so does the route
    probe of the log, however it ends.  One that succeeds adds
    one non-blocking socket on the asked address, at the asked port if it is
    not 0, for a recovery endpoint on the address of the listener, and for a
    relay two different sockets, both on the loopback address. *)
Theorem opening_leaks_nothing (w : T) (address : IpAddr) (port : Z) (main : nat) (server : option ServerConfig)
    (debug : bool) (interfaces : result string (list (IpAddr * option Z))) (route : SocketAddr) (Hport : 0 <= port) :
  opens (bind_socket address port) w (fun s t => opened_in (sockets w) address s t /\
    (port <> 0 -> t !! s = Some (mkSocketInfo (domain_of address) (Some (address, port)) true))) /\
  opens (open_recovery_endpoint main) w (fun s t => exists local,
    (os_local_addr main w).1 = Ok local /\ opened_in (sockets w) (sock_ip local) s t) /\
  opens (open_relay_endpoint server) w (fun '(proxy, endpoint) t => proxy <> endpoint /\
    exists t', opened_in (sockets w) LOCALHOST proxy t' /\ opened_in t' LOCALHOST endpoint t) /\
  sockets (log_route_probe debug interfaces route w).2 = sockets w.
Proof.
  split_and!.
  - eapply leaves_weaken; [by apply bind_socket_spec| |done]. cbn. intros s t [Ho Hp]. split; [done|].
    intros Hn. rewrite (Hp Hn). apply lookup_insert_eq.
  - unfold opens, open_recovery_endpoint.
    apply (leaves_bind _ _ _ (fun a u => (os_local_addr main w).1 = Ok a /\ u = sockets w)).
    { unfold leaves, act_map_err. destruct (os_local_addr main w) as [x w1] eqn:E1. apply os_local_addr_spec in E1.
      by destruct x. }
    intros a w1 [Ha Hw1]. eapply leaves_bind.
    { eapply leaves_weaken; [by apply bind_socket_spec| |].
      - intros s t [Ho _]. exact Ho.
      - cbn. congruence. }
    cbn. intros s w2 Ho. eapply leaves_weaken; [apply open_endpoint_spec| |]; cbn; rewrite Hw1 in Ho.
    + intros e t [-> ->]. eauto.
    + intros t ->. destruct Ho as (Hs & p & _ & ->). by rewrite delete_insert_id.
  - unfold opens, open_relay_endpoint. eapply leaves_bind.
    { eapply leaves_weaken; [by apply bind_socket_spec| |done]. intros s t [Ho _]. exact Ho. }
    cbn. intros proxy w1 Ho. apply leaves_owning.
    assert (Hback : delete proxy (sockets w1) = sockets w).
    { destruct Ho as (Hs & p & _ & ->). by rewrite delete_insert_id. }
    eapply leaves_bind; [apply leaves_keep; [apply tokio_socket_spec|done]|]. cbn. intros _ w2 Hw2.
    eapply leaves_bind; [apply leaves_keep; [apply os_local_addr_spec|by rewrite Hw2]|]. cbn. intros _ w3 Hw3.
    rewrite Hw2 in Hw3. eapply leaves_bind.
    { eapply leaves_weaken; [by apply bind_socket_spec| |].
      - intros s t [Hs _]. exact Hs.
      - cbn. intros t ->. by rewrite Hw3. }
    cbn. intros s w4 Hs. rewrite Hw3 in Hs.
    assert (Hback' : delete proxy (delete s (sockets w4)) = sockets w).
    { destruct Hs as (Hn & p & _ & ->). by rewrite delete_insert_id. }
    eapply leaves_bind.
    { eapply leaves_weaken; [apply open_endpoint_spec|intros e t He; exact He|]. cbn. by intros t ->. }
    cbn. intros e w5 [-> Hw5]. apply leaves_owning.
    eapply leaves_bind; [apply leaves_keep; [apply os_local_addr_spec|by rewrite Hw5]|]. cbn. intros _ w6 Hw6.
    unfold leaves. cbn. rewrite Hw6, Hw5. split; [|eauto].
    intros ->. destruct Ho as (_ & p & _ & Ho), Hs as (Hn & _). rewrite Ho, lookup_insert_eq in Hn. discriminate Hn.
  - unfold log_route_probe. destruct debug; [|done]. cbn. pose proof (route_probe_spec route w) as Hr. revert Hr.
    unfold leaves. by destruct (route_probe route w) as [[|] w'].
Qed.
End properties.

(** ** A concrete instance *)

Module SampleSystem.

#[export] Instance rustls : Rustls := {|
  CryptoProvider := unit;
  ring_default_provider := tt;
  builder_provider := tt;
  verify_tls12 := fun _ _ _ _ => Err "unsupported"%string;
  verify_tls13 := fun _ m c s => if bool_decide (s = c ++ m) then Ok tt else Err "signature"%string;
  supported_schemes := fun _ => [2055];
  ALPN := [x61];
  single_cert := fun c k => if bool_decide (head c = head k) then Ok tt else Err "mismatch"%string;
  quic_suite := fun _ => Ok tt
|}.

(** A system of open sockets; each call takes the next fault, if any. *)
Record System := mkSystem { descriptors : table; call_faults : list bool }.

Definition call {A} (f : table -> A * table) : action System string A := fun w =>
  match call_faults w with
  | true :: l => (Err "fault"%string, mkSystem (descriptors w) l)
  | l => let (a, t) := f (descriptors w) in (Ok a, mkSystem t (tail l))
  end.

Definition on_socket (s : nat) (f : SocketInfo -> SocketInfo) (t : table) : unit * table := (tt, alter f s t).

#[export] Instance socket_api : SocketApi System := {|
  os_socket := fun d => call (fun t => let s := fresh (dom t) in (s, <[s := mkSocketInfo d None false]> t));
  os_set_only_v6 := fun _ _ => call (fun t => (tt, t));
  os_bind := fun s a port => call (on_socket s (fun i =>
    mkSocketInfo (si_domain i) (Some (a, if port =? 0 then 49152 else port)) (si_nonblocking i)));
  os_set_nonblocking := fun s b => call (on_socket s (fun i => mkSocketInfo (si_domain i) (si_bound i) b));
  os_connect := fun s _ => call (fun t => (tt, t));
  os_local_addr := fun s => call (fun t =>
    (match t !! s with Some (mkSocketInfo _ (Some (a, p)) _) => sock_new a p | _ => sock_new LOCALHOST 0 end, t));
  os_close := fun s w => mkSystem (delete s (descriptors w)) (call_faults w);
  tokio_socket := fun _ => call (fun t => (tt, t));
  quinn_endpoint := fun _ _ => call (fun t => (tt, t))
|}.

Lemma call_inv {A} (f : table -> A * table) w x w' : call f w = (x, w') ->
  match x with
  | Ok a => f (descriptors w) = (a, descriptors w')
  | Err _ => descriptors w' = descriptors w
  end.
Proof.
  unfold call. destruct w as [t [|[] l]]; cbn; try destruct (f t) eqn:E; intros [= <- <-]; cbn; congruence.
Qed.

#[export, refine] Instance socket_laws : SocketLaws System := { sockets := descriptors }.
Proof.
  all: cbn -[call]; intros; try match goal with E : call _ _ = _ |- _ => apply call_inv in E end.
  - destruct x as [s|]; [|done]. match goal with E : _ = _ |- _ => injection E as <- <- end. split; [|done].
    pose proof (is_fresh (dom (descriptors w))) as Hf. by apply not_elem_of_dom in Hf.
  - destruct x; [by match goal with E : _ = _ |- _ => injection E as _ <- end|done].
  - destruct x as [[]|]; [|done]. exists (if port =? 0 then 49152 else port). split_and!.
    + intros Hn. by apply Z.eqb_neq in Hn as ->.
    + by intros ->.
    + match goal with E : _ = (tt, _) |- _ => injection E as <- end. apply map_eq. intros k.
      destruct (decide (k = s)) as [->|Hk].
      * by rewrite lookup_alter_eq, lookup_insert_eq, H0.
      * by rewrite lookup_alter_ne, lookup_insert_ne.
  - destruct x as [[]|]; [|done]. match goal with E : _ = (tt, _) |- _ => injection E as <- end.
    apply map_eq. intros k. destruct (decide (k = s)) as [->|Hk].
    + by rewrite lookup_alter_eq, lookup_insert_eq, H0.
    + by rewrite lookup_alter_ne, lookup_insert_ne.
  - exists i. rewrite insert_id by done. destruct x; [by match goal with E : _ = _ |- _ => injection E as _ <- end|done].
  - destruct x; [by match goal with E : _ = _ |- _ => injection E as _ <- end|done].
  - done.
  - destruct x; [by match goal with E : _ = _ |- _ => injection E as _ <- end|done].
  - destruct x; [by match goal with E : _ = _ |- _ => injection E as _ <- end|done].
Qed.

(** The listener is open on all addresses. *)
Definition UNSPECIFIED : IpAddr := IpV6 (mkIpv6 0).
Definition listening : table := {[ 3%nat := mkSocketInfo IPV6 (Some (UNSPECIFIED, 4433)) true ]}.

(** The last call of the relay tunnel fails; without a fault it opens two. *)
Example relay_fails_last :
  (open_relay_endpoint None (mkSystem listening (repeat false 9 ++ [true]))).2 = mkSystem listening [].
Proof. vm_compute. reflexivity. Qed.

Lemma opening_leaks_nothing_witness :
  let w := mkSystem listening [false; false; true] in
  (open_recovery_endpoint 3 w).1 = Ok 4%nat /\
  opens (open_recovery_endpoint 3) w (fun s t => exists local,
    (os_local_addr 3%nat w).1 = Ok local /\ opened_in (sockets w) (sock_ip local) s t).
Proof.
  split; [vm_compute; reflexivity|].
  destruct (opening_leaks_nothing (mkSystem listening [false; false; true]) UNSPECIFIED 4433 3 None
    true (Ok []) (sock_new LOCALHOST 1)) as (_ & E & _);
    [lia|]. exact E.
Defined.
End SampleSystem.
