(* ===== verification/Peer.v ===== *)
(** * Peer

    What the crate uses of [arcrelay_peer]: a class of the operations on device
    identities, keys, signatures and capabilities, with the laws the code
    relies on, and the record and enum types whose shape the crate's own
    literals and exhaustive matches fix.  [SamplePeer] is a concrete instance
    used by witnesses. *)

From S2P Require Import Prelude.

(** ** Operations *)

Class PeerApi := {
  DeviceId : Type;
  DevicePublicKey : Type;
  CapabilityId : Type;
  SigningContext : Type;

  DeviceId_eq_dec :: EqDecision DeviceId;
  DeviceId_countable :: Countable DeviceId;
  DeviceId_cmp :: Cmp DeviceId;
  DevicePublicKey_eq_dec :: EqDecision DevicePublicKey;
  CapabilityId_eq_dec :: EqDecision CapabilityId;
  CapabilityId_countable :: Countable CapabilityId;
  CapabilityId_cmp :: Cmp CapabilityId;

  (** [DeviceId::as_str] (also its [Display]), [DeviceId::parse],
      [DeviceId::from_public_key], [DeviceId::verify_key] *)
  as_str : DeviceId -> string;
  parse_device_id : string -> result string DeviceId;
  from_public_key : DevicePublicKey -> DeviceId;
  verify_key : DeviceId -> DevicePublicKey -> result string unit;

  (** [DevicePublicKey::as_bytes], [DevicePublicKey::from_bytes] *)
  key_bytes : DevicePublicKey -> list byte;
  key_from_bytes : list byte -> result string DevicePublicKey;

  (** [DeviceSignature::from_bytes]; [as_bytes] is the identity, a signature
      being its bytes. *)
  signature_from_bytes : list byte -> result string (list byte);

  (** [SigningContext::domain] and the contexts the crate signs in *)
  domain : SigningContext -> list byte;
  EndpointBinding : SigningContext;
  SessionAuthentication : SigningContext;
  FeaturePayloadContext : SigningContext;

  (** [CapabilityId::token], [CapabilityId::parse_token] and the capabilities
      the crate names *)
  token : CapabilityId -> string;
  parse_token : string -> option CapabilityId;
  RemoteFilesRead : CapabilityId;
  RemoteFilesWrite : CapabilityId;
  CrossScreenInject : CapabilityId;

  (** [RepositoryError] with the variant the crate builds, and its [Display] *)
  RepositoryError : Type;
  Backend : string -> RepositoryError;
  repository_error_text : RepositoryError -> string
}.

(** The documented behaviour of these operations: identities and capabilities
    print to text that parses back, keys and signatures are their bytes, and a
    device id is derived from the root public key. *)
Class PeerLaws `{PeerApi} : Prop := {
  DeviceId_cmp_laws :: CmpLaws DeviceId;
  CapabilityId_cmp_laws :: CmpLaws CapabilityId;
  parse_as_str : forall d, parse_device_id (as_str d) = Ok d;
  key_from_bytes_bytes : forall k, key_from_bytes (key_bytes k) = Ok k;
  key_bytes_from_bytes : forall b k, key_from_bytes b = Ok k -> key_bytes k = b;
  key_from_bytes_32 : forall b, blen b = 32 -> exists k, key_from_bytes b = Ok k;
  signature_from_bytes_64 : forall s, blen s = 64 -> exists s', signature_from_bytes s = Ok s';
  signature_from_bytes_id : forall s s', signature_from_bytes s = Ok s' -> s' = s;
  verify_key_iff : forall d k, verify_key d k = Ok tt <-> d = from_public_key k;
  parse_token_token : forall c, parse_token (token c) = Some c
}.

(** ** Records and enums *)

Inductive GrantDirection := DirInbound | DirOutbound.
#[export] Instance GrantDirection_eq_dec : EqDecision GrantDirection.
Proof. solve_decision. Defined.
#[export] Instance GrantDirection_countable : Countable GrantDirection.
Proof.
  refine (inj_countable' (fun d => match d with DirInbound => true | DirOutbound => false end)
                         (fun b : bool => if b then DirInbound else DirOutbound) _).
  by intros [].
Defined.
#[export] Instance GrantDirection_cmp : Cmp GrantDirection :=
  cmp_via (fun d => match d with DirInbound => 1 | DirOutbound => 2 end).
#[export] Instance GrantDirection_cmp_laws : CmpLaws GrantDirection.
Proof. apply cmp_via_laws. by intros [] []. Qed.

Inductive TrustState := Paired | Revoked.
#[export] Instance TrustState_eq_dec : EqDecision TrustState.
Proof. solve_decision. Defined.

Inductive GrantConstraints :=
| ConstraintsNone
| RemoteFileShares (share_ids : list string) (writable : bool).
#[export] Instance GrantConstraints_eq_dec : EqDecision GrantConstraints.
Proof. solve_decision. Defined.

Section records.
Context `{PeerApi}.

Record Grant := mkGrant {
  grant_peer_id : DeviceId;
  grant_capability : CapabilityId;
  grant_direction : GrantDirection;
  grant_constraints : GrantConstraints;
  granted_at_ms : Z
}.

Record PeerRecord := mkPeerRecord {
  rec_device_id : DeviceId;
  rec_public_key : DevicePublicKey;
  display_name : string;
  rec_platform : string;
  rec_model : string;
  trust_state : TrustState;
  auto_connect : bool;
  paired_at_ms : Z;
  updated_at_ms : Z
}.

#[export] Instance Grant_eq_dec : EqDecision Grant.
Proof. solve_decision. Defined.

(** [DeviceMetadata] (discovery.rs) and [SessionPeer] (session.rs) are used
    by every component. *)
Record DeviceMetadata := mkMetadata { name : string; platform : string; model : string }.

Record SessionPeer := mkSessionPeer {
  peer_device_id : DeviceId;
  peer_public_key : DevicePublicKey;
  peer_metadata : DeviceMetadata;
  peer_certificate_sha256 : list byte;
  listen_port : Z
}.

#[export] Instance PeerRecord_eq_dec : EqDecision PeerRecord.
Proof. solve_decision. Defined.
#[export] Instance DeviceMetadata_eq_dec : EqDecision DeviceMetadata.
Proof. solve_decision. Defined.
#[export] Instance SessionPeer_eq_dec : EqDecision SessionPeer.
Proof. solve_decision. Defined.

(** The text of an id determines it. *)
Lemma as_str_inj `{!PeerLaws} (a b : DeviceId) : as_str a = as_str b -> a = b.
Proof.
  intros E. pose proof (parse_as_str a) as Ha. rewrite E, parse_as_str in Ha.
  congruence.
Qed.
End records.

#[export] Hint Resolve as_str_inj : net.

(** ** The peer repository interface *)

(** [arcrelay_peer::PeerRepository] with the operations the crate implements;
    [S] is the state behind the trait object. *)
Class PeerRepository `{PeerApi} (S : Type) := {
  find_peer : DeviceId -> action S RepositoryError (option PeerRecord);
  save_peer : PeerRecord -> action S RepositoryError unit;
  save_pairing : PeerRecord -> list Grant -> action S RepositoryError unit;
  forget_peer : DeviceId -> action S RepositoryError bool;
  list_grants : DeviceId -> action S RepositoryError (list Grant);
  save_grant : Grant -> action S RepositoryError unit;
  revoke_grant : DeviceId -> CapabilityId -> GrantDirection -> action S RepositoryError bool
}.

Section repository_view.
Context `{PeerApi}.

(** What a repository knows, as partial functions. *)
Record PeerView := mkView {
  known : DeviceId -> option PeerRecord;
  held : DeviceId -> CapabilityId -> GrantDirection -> option Grant
}.

Definition view_eq (v w : PeerView) : Prop :=
  (forall id, known v id = known w id) /\ (forall id c d, held v id c d = held w id c d).

#[export] Instance view_eq_equiv : Equivalence view_eq.
Proof.
  split.
  - intros v. by split.
  - intros v w [Hk Hh]. by split.
  - intros u v w [Hk Hh] [Hk' Hh']. split; intros; [by rewrite Hk | by rewrite Hh].
Qed.

Definition set_trust (t : TrustState) (r : PeerRecord) : PeerRecord :=
  mkPeerRecord (rec_device_id r) (rec_public_key r) (display_name r) (rec_platform r)
    (rec_model r) t (auto_connect r) (paired_at_ms r) (updated_at_ms r).

(** The effect of each operation that succeeds. *)
Definition view_save_peer (r : PeerRecord) (v w : PeerView) : Prop :=
  (forall id, known w id = if decide (id = rec_device_id r) then Some r else known v id) /\
  (forall id c d, held w id c d = held v id c d).

Definition view_save_pairing (r : PeerRecord) (gs : list Grant) (v w : PeerView) : Prop :=
  (forall id, known w id = if decide (id = rec_device_id r) then Some (set_trust Paired r)
                           else known v id) /\
  (forall id c d, id <> rec_device_id r -> held w id c d = held v id c d) /\
  (forall c d g, held w (rec_device_id r) c d = Some g <->
     g ∈ gs /\ grant_capability g = c /\ grant_direction g = d).

Definition view_forget (id : DeviceId) (v w : PeerView) : Prop :=
  (forall q, known w q = if decide (q = id) then None else known v q) /\
  (forall q c d, held w q c d = if decide (q = id) then None else held v q c d).

Definition view_save_grant (g : Grant) (v w : PeerView) : Prop :=
  (forall q, known w q = known v q) /\
  (forall q c d, held w q c d =
     if decide (q = grant_peer_id g /\ c = grant_capability g /\ d = grant_direction g)
     then Some g else held v q c d).

Definition view_revoke (id : DeviceId) (c : CapabilityId) (d : GrantDirection) (v w : PeerView)
    : Prop :=
  (forall q, known w q = known v q) /\
  (forall q c' d', held w q c' d' =
     if decide (q = id /\ c' = c /\ d' = d) then None else held v q c' d').
End repository_view.

(** Each operation acts on the view as its name says when it succeeds, and does
    nothing to it when it fails. *)
Class PeerRepositoryLaws `{PeerApi} (S : Type) `{!PeerRepository S} := {
  peer_repo_ok : S -> Prop;
  view : S -> PeerView;

  known_key : forall s id r, peer_repo_ok s -> known (view s) id = Some r ->
    rec_device_id r = id /\ verify_key id (rec_public_key r) = Ok tt;
  held_key : forall s id c d g, peer_repo_ok s -> held (view s) id c d = Some g ->
    grant_peer_id g = id /\ grant_capability g = c /\ grant_direction g = d;

  find_peer_spec : forall id s r s', peer_repo_ok s -> find_peer id s = (r, s') ->
    peer_repo_ok s' /\ view_eq (view s) (view s') /\ forall o, r = Ok o -> o = known (view s) id;
  list_grants_spec : forall id s r s', peer_repo_ok s -> list_grants id s = (r, s') ->
    peer_repo_ok s' /\ view_eq (view s) (view s') /\
    forall l, r = Ok l -> forall g, g ∈ l <->
      held (view s) id (grant_capability g) (grant_direction g) = Some g;
  save_peer_spec : forall p s r s', peer_repo_ok s -> save_peer p s = (r, s') ->
    peer_repo_ok s' /\
    if is_ok r then view_save_peer p (view s) (view s') else view_eq (view s) (view s');
  save_pairing_spec : forall p gs s r s', peer_repo_ok s -> save_pairing p gs s = (r, s') ->
    peer_repo_ok s' /\
    if is_ok r then view_save_pairing p gs (view s) (view s') else view_eq (view s) (view s');
  forget_peer_spec : forall id s r s', peer_repo_ok s -> forget_peer id s = (r, s') ->
    peer_repo_ok s' /\
    if is_ok r then view_forget id (view s) (view s') else view_eq (view s) (view s');
  save_grant_spec : forall g s r s', peer_repo_ok s -> save_grant g s = (r, s') ->
    peer_repo_ok s' /\
    if is_ok r then view_save_grant g (view s) (view s') else view_eq (view s) (view s');
  revoke_grant_spec : forall id c d s r s', peer_repo_ok s -> revoke_grant id c d s = (r, s') ->
    peer_repo_ok s' /\
    if is_ok r then view_revoke id c d (view s) (view s') else view_eq (view s) (view s')
}.

(** ** A concrete instance *)

Module SamplePeer.
Inductive cap := RemoteRead | RemoteWrite | Inject | Clipboard.

#[export] Instance cap_eq_dec : EqDecision cap.
Proof. solve_decision. Defined.

Definition cap_token (c : cap) : string :=
  match c with
  | RemoteRead => "files.read"
  | RemoteWrite => "files.write"
  | Inject => "screen.inject"
  | Clipboard => "clipboard.sync"
  end.

Definition cap_parse (s : string) : option cap :=
  find_first (fun c => String.eqb (cap_token c) s) [RemoteRead; RemoteWrite; Inject; Clipboard].

Lemma cap_parse_token c : cap_parse (cap_token c) = Some c.
Proof. by destruct c. Qed.

#[export] Instance cap_countable : Countable cap.
Proof. exact (inj_countable cap_token cap_parse cap_parse_token). Defined.

#[export] Instance cap_cmp : Cmp cap := cmp_via cap_token.

Inductive context := CtxEndpoint | CtxSession | CtxFeature.

Definition context_domain (c : context) : list byte :=
  as_bytes (match c with
            | CtxEndpoint => "endpoint;"
            | CtxSession => "session;"
            | CtxFeature => "feature;"
            end).

(** A public key is its 32 bytes, an id the text of its key. *)
Definition id_of_key (k : list byte) : string := string_of_list_byte k.

#[export] Instance peer_api : PeerApi := {|
  DeviceId := string;
  DevicePublicKey := list byte;
  CapabilityId := cap;
  SigningContext := context;
  as_str := fun d => d;
  parse_device_id := fun s => Ok s;
  from_public_key := id_of_key;
  verify_key := fun d k =>
    if String.eqb d (id_of_key k) then Ok tt else Err "key does not match the device id"%string;
  key_bytes := fun k => k;
  key_from_bytes := fun b => Ok b;
  signature_from_bytes := fun b => Ok b;
  domain := context_domain;
  EndpointBinding := CtxEndpoint;
  SessionAuthentication := CtxSession;
  FeaturePayloadContext := CtxFeature;
  token := cap_token;
  parse_token := cap_parse;
  RemoteFilesRead := RemoteRead;
  RemoteFilesWrite := RemoteWrite;
  CrossScreenInject := Inject;
  RepositoryError := string;
  Backend := fun e => e;
  repository_error_text := fun e => e
|}.

Definition dev (s : string) : @DeviceId peer_api := s.

#[export] Instance peer_laws : PeerLaws.
Proof.
  split; cbn; try done; try typeclasses eauto.
  - apply cmp_via_laws. by intros [] [].
  - congruence.
  - eauto.
  - eauto.
  - congruence.
  - intros d k. destruct (String.eqb_spec d (id_of_key k)); naive_solver.
  - apply cap_parse_token.
Qed.
End SamplePeer.
