(* ===== verification/Wire.v ===== *)
(** * Wire

    [SessionKind] (runtime.rs) and the protobuf messages the crate builds and
    reads.  The message types, the protocol constants and the codec belong to
    [arcrelay_wire] and [prost]: they are the operations of [WireApi] and
    [Prost]. *)

From S2P Require Import Prelude Errors Peer.

(** ** Session kinds *)

Inductive SessionKind :=
| Pairing
| Control
| RealtimeInput
| FileTransfer
| Print
| DiscoveryProbe.

#[export] Instance SessionKind_eq_dec : EqDecision SessionKind.
Proof. solve_decision. Defined.

Definition kind_index (k : SessionKind) : Z :=
  match k with
  | Pairing => 0
  | Control => 1
  | RealtimeInput => 2
  | FileTransfer => 3
  | Print => 4
  | DiscoveryProbe => 5
  end.

#[export] Instance SessionKind_cmp : Cmp SessionKind := cmp_via kind_index.
#[export] Instance SessionKind_cmp_laws : CmpLaws SessionKind.
Proof. apply cmp_via_laws. by intros [] []. Qed.

Definition all_kinds : list SessionKind :=
  [Pairing; Control; RealtimeInput; FileTransfer; Print; DiscoveryProbe].

#[export] Instance SessionKind_countable : Countable SessionKind.
Proof.
  refine (inj_countable kind_index (fun z => find_first (fun k => kind_index k =? z) all_kinds) _).
  by intros [].
Defined.

(** [matches!(kind, Pairing | FileTransfer | DiscoveryProbe)]: the kinds a
    device that is not paired may open. *)
Definition nearby_kind (k : SessionKind) : bool :=
  match k with
  | Pairing | FileTransfer | DiscoveryProbe => true
  | _ => false
  end.

(** ** Messages *)

Record SessionHello := mkHello {
  protocol_major : Z;
  session_kind : Z;
  hello_device_id : string;
  device_name : string;
  hello_platform : string;
  hello_model : string;
  nonce : list byte;
  root_public_key : list byte;
  endpoint_certificate_sha256 : list byte;
  endpoint_binding_signature : list byte;
  min_protocol_minor : Z;
  max_protocol_minor : Z
}.

Record SessionAuth := mkAuth { auth_device_id : string; auth_signature : list byte }.

Record SessionAccepted := mkAccepted {
  acc_session_id : Z;
  accepted_at_ms : Z;
  acc_listen_port : Z;
  acc_protocol_minor : Z;
  process_instance_id : list byte
}.

Record FeaturePayload := mkFeaturePayload {
  fp_feature_id : string;
  fp_body : list byte;
  fp_feature_major : Z;
  fp_min_feature_minor : Z;
  fp_max_feature_minor : Z;
  fp_stream_id : Z;
  fp_operation : string
}.

(** [common::GrantConstraints { kind: Option<Kind> }] with its one kind,
    [RemoteFileShareConstraints { share_ids, writable }]. *)
Record WireGrantConstraints := mkWireConstraints { wire_kind : option (list string * bool) }.

Record CapabilityGrant := mkCapabilityGrant {
  cg_capability : string;
  cg_direction : Z;
  cg_constraints : option WireGrantConstraints;
  cg_granted_at_ms : Z
}.

Record PairingResult := mkPairingResult { paired : bool; pr_peer_id : string; pr_error : string }.

Record PairingResponse := mkPairingResponse {
  pairing_result : option PairingResult;
  granted_grants : list CapabilityGrant
}.

Record PairingRequest := mkPairingRequest { requested_grants : list CapabilityGrant }.

(** ** Constants, enumerations and codec *)

(** A prost message: encoding into a growable buffer and decoding. *)
Class Prost (M : Type) := {
  encode : M -> result string (list byte);
  decode : list byte -> result string M
}.

Class ProstLaws (M : Type) `{Prost M} : Prop :=
  decode_encode : forall (m : M) b, encode m = Ok b -> decode b = Ok m.

Class WireApi := {
  PROTOCOL_MAJOR : Z;
  MIN_PROTOCOL_MINOR : Z;
  MAX_PROTOCOL_MINOR : Z;
  MAX_CONTROL_FRAME_SIZE : Z;

  (** [common::SessionKind::K as i32] and [common::SessionKind::try_from]:
      [None] is the conversion error, [Some None] a variant without a
      counterpart in the crate. *)
  kind_as_i32 : SessionKind -> Z;
  kind_try_from : Z -> option (option SessionKind);

  (** The same for [common::GrantDirection]. *)
  direction_as_i32 : GrantDirection -> Z;
  direction_try_from : Z -> option (option GrantDirection);

  hello_prost :: Prost SessionHello;
  auth_prost :: Prost SessionAuth;
  accepted_prost :: Prost SessionAccepted;
  feature_prost :: Prost FeaturePayload;
  pairing_request_prost :: Prost PairingRequest;
  pairing_response_prost :: Prost PairingResponse
}.

Class WireLaws `{WireApi} : Prop := {
  minor_range : 0 <= MIN_PROTOCOL_MINOR <= MAX_PROTOCOL_MINOR /\ MAX_PROTOCOL_MINOR <= u32_max;
  kind_try_from_as : forall k, kind_try_from (kind_as_i32 k) = Some (Some k);
  direction_try_from_as : forall d, direction_try_from (direction_as_i32 d) = Some (Some d);
  hello_prost_laws :: ProstLaws SessionHello;
  auth_prost_laws :: ProstLaws SessionAuth;
  accepted_prost_laws :: ProstLaws SessionAccepted;
  feature_prost_laws :: ProstLaws FeaturePayload;
  pairing_request_prost_laws :: ProstLaws PairingRequest;
  pairing_response_prost_laws :: ProstLaws PairingResponse
}.

Section kinds.
Context `{WireApi}.

(** [SessionKind::encode] *)
Definition encode_kind (k : SessionKind) : Z := kind_as_i32 k.

(** [SessionKind::decode] *)
Definition decode_kind (value : Z) : net_result SessionKind :=
  match kind_try_from value with
  | Some (Some k) => Ok k
  | _ => Err (Protocol "invalid session kind")
  end.

Lemma decode_encode_kind `{!WireLaws} (k : SessionKind) : decode_kind (encode_kind k) = Ok k.
Proof. unfold decode_kind, encode_kind. by rewrite kind_try_from_as. Qed.
End kinds.

(** ** A concrete instance *)

Module SampleWire.
(** The bits of a positive, one per byte. *)
Fixpoint bits_of (p : positive) : list byte :=
  match p with
  | xH => []
  | xO q => x00 :: bits_of q
  | xI q => x01 :: bits_of q
  end.

Fixpoint of_bits (l : list byte) : positive :=
  match l with
  | [] => xH
  | x00 :: l' => xO (of_bits l')
  | _ :: l' => xI (of_bits l')
  end.

Lemma of_bits_bits p : of_bits (bits_of p) = p.
Proof. induction p; cbn; congruence. Qed.

(** A list of fields as bytes: each byte after a mark, each field closed. *)
Definition write_field (b : list byte) : list byte := flat_map (fun x => [x01; x]) b ++ [x00].
Definition write_fields (l : list (list byte)) : list byte := flat_map write_field l.

Fixpoint read_fields (cur : list byte) (l : list byte) : option (list (list byte)) :=
  match l with
  | [] => Some []
  | x00 :: l' => cons (rev cur) <$> read_fields [] l'
  | _ :: x :: l' => read_fields (x :: cur) l'
  | [_] => None
  end.

Lemma read_write_field cur b l :
  read_fields cur (write_field b ++ l) = cons (rev cur ++ b) <$> read_fields [] l.
Proof.
  unfold write_field. revert cur. induction b as [|x b IH]; intros cur; cbn.
  - by rewrite app_nil_r.
  - rewrite IH. cbn. by rewrite <- app_assoc.
Qed.

Lemma read_write_fields l : read_fields [] (write_fields l) = Some l.
Proof.
  induction l as [|b l IH]; [done|]. unfold write_fields in *. cbn [flat_map].
  rewrite read_write_field, IH. done.
Qed.

(** A codec of what is written as fields. *)
Definition fields_prost {M} (f : M -> list (list byte)) (g : list (list byte) -> option M) : Prost M := {|
  encode m := Ok (write_fields (f m));
  decode b := match read_fields [] b ≫= g with
              | Some m => Ok m
              | None => Err "malformed message"%string
              end
|}.

Lemma fields_prost_laws {M} (f : M -> list (list byte)) g :
  (forall m, g (f m) = Some m) -> @ProstLaws M (fields_prost f g).
Proof. intros Hg m b [= <-]. cbn. rewrite read_write_fields. cbn. by rewrite Hg. Qed.

(** Fields of the scalar types. *)
Definition put_Z (z : Z) : list byte := bits_of (countable.encode z).
Definition get_Z (b : list byte) : Z := default 0 (countable.decode (of_bits b)).
Definition put_string (s : string) : list byte := as_bytes s.
Definition get_string (b : list byte) : string := string_of_list_byte b.
Definition put_bool (b : bool) : list byte := if b then [x01] else [].
Definition get_bool (b : list byte) : bool := negb (is_empty b).

Lemma get_put_Z z : get_Z (put_Z z) = z.
Proof. unfold get_Z, put_Z. by rewrite of_bits_bits, countable.decode_encode. Qed.
Lemma get_put_string s : get_string (put_string s) = s.
Proof. apply string_of_list_byte_of_string. Qed.
Lemma get_put_bool b : get_bool (put_bool b) = b.
Proof. by destruct b. Qed.

(** A field of fields. *)
Definition put_list {A} (f : A -> list byte) (l : list A) : list byte := write_fields (map f l).
Definition get_list {A} (g : list byte -> A) (b : list byte) : list A :=
  map g (default [] (read_fields [] b)).

Lemma get_put_list {A} (f : A -> list byte) g l :
  (forall x, g (f x) = x) -> get_list g (put_list f l) = l.
Proof.
  intros Hg. unfold get_list, put_list. rewrite read_write_fields. cbn. rewrite map_map.
  induction l; cbn; congruence.
Qed.

Definition put_option {A} (f : A -> list byte) (o : option A) : list byte :=
  put_list f (match o with Some a => [a] | None => [] end).
Definition get_option {A} (g : list byte -> A) (b : list byte) : option A := head (get_list g b).

Lemma get_put_option {A} (f : A -> list byte) g o :
  (forall x, g (f x) = x) -> get_option g (put_option f o) = o.
Proof. intros Hg. unfold get_option, put_option. rewrite get_put_list by done. by destruct o. Qed.

Definition put_pair {A B} (f : A -> list byte) (g : B -> list byte) (p : A * B) : list byte :=
  write_fields [f p.1; g p.2].
Definition get_pair {A B} (f : list byte -> A) (g : list byte -> B) (b : list byte) : A * B :=
  match read_fields [] b with
  | Some [x; y] => (f x, g y)
  | _ => (f [], g [])
  end.

Lemma get_put_pair {A B} (f : A -> list byte) (g : B -> list byte) f' g' p :
  (forall x, f' (f x) = x) -> (forall y, g' (g y) = y) -> get_pair f' g' (put_pair f g p) = p.
Proof.
  intros Hf Hg. unfold get_pair, put_pair. rewrite read_write_fields, Hf, Hg. by destruct p.
Qed.

Definition put_constraints (c : WireGrantConstraints) : list byte :=
  put_option (put_pair (put_list put_string) put_bool) (wire_kind c).
Definition get_constraints (b : list byte) : WireGrantConstraints :=
  mkWireConstraints (get_option (get_pair (get_list get_string) get_bool) b).

Lemma get_put_constraints c : get_constraints (put_constraints c) = c.
Proof.
  destruct c as [k]. unfold get_constraints, put_constraints. cbn [wire_kind].
  rewrite get_put_option; [done|]. intros [l b].
  apply get_put_pair; [|apply get_put_bool]. intros ?. apply get_put_list, get_put_string.
Qed.

Definition put_grant (g : CapabilityGrant) : list byte :=
  put_pair (put_pair put_string put_Z) (put_pair (put_option put_constraints) put_Z)
    (cg_capability g, cg_direction g, (cg_constraints g, cg_granted_at_ms g)).
Definition get_grant (b : list byte) : CapabilityGrant :=
  let '(c, d, (e, t)) := get_pair (get_pair get_string get_Z)
                           (get_pair (get_option get_constraints) get_Z) b in
  mkCapabilityGrant c d e t.

Lemma get_put_grant g : get_grant (put_grant g) = g.
Proof.
  unfold get_grant, put_grant. rewrite get_put_pair; [by destruct g| |]; intros p;
    apply get_put_pair; auto using get_put_string, get_put_Z.
  intros ?. apply get_put_option, get_put_constraints.
Qed.

Definition put_result (r : PairingResult) : list byte :=
  put_pair put_bool (put_pair put_string put_string) (paired r, (pr_peer_id r, pr_error r)).
Definition get_result (b : list byte) : PairingResult :=
  let '(p, (i, e)) := get_pair get_bool (get_pair get_string get_string) b in mkPairingResult p i e.

Lemma get_put_result r : get_result (put_result r) = r.
Proof.
  unfold get_result, put_result. rewrite get_put_pair; [by destruct r|apply get_put_bool|].
  intros p. apply get_put_pair; apply get_put_string.
Qed.

Definition hello_fields (m : SessionHello) : list (list byte) :=
  [put_Z (protocol_major m); put_Z (session_kind m); put_string (hello_device_id m);
   put_string (device_name m); put_string (hello_platform m); put_string (hello_model m); nonce m;
   root_public_key m; endpoint_certificate_sha256 m; endpoint_binding_signature m;
   put_Z (min_protocol_minor m); put_Z (max_protocol_minor m)].
Definition hello_of (l : list (list byte)) : option SessionHello :=
  match l with
  | [a; b; c; d; e; f; g; h; i; j; k; l] =>
      Some (mkHello (get_Z a) (get_Z b) (get_string c) (get_string d) (get_string e) (get_string f)
              g h i j (get_Z k) (get_Z l))
  | _ => None
  end.

Definition auth_fields (m : SessionAuth) : list (list byte) :=
  [put_string (auth_device_id m); auth_signature m].
Definition auth_of (l : list (list byte)) : option SessionAuth :=
  match l with
  | [a; b] => Some (mkAuth (get_string a) b)
  | _ => None
  end.

Definition accepted_fields (m : SessionAccepted) : list (list byte) :=
  [put_Z (acc_session_id m); put_Z (accepted_at_ms m); put_Z (acc_listen_port m);
   put_Z (acc_protocol_minor m); process_instance_id m].
Definition accepted_of (l : list (list byte)) : option SessionAccepted :=
  match l with
  | [a; b; c; d; e] => Some (mkAccepted (get_Z a) (get_Z b) (get_Z c) (get_Z d) e)
  | _ => None
  end.

Definition feature_fields (m : FeaturePayload) : list (list byte) :=
  [put_string (fp_feature_id m); fp_body m; put_Z (fp_feature_major m);
   put_Z (fp_min_feature_minor m); put_Z (fp_max_feature_minor m); put_Z (fp_stream_id m);
   put_string (fp_operation m)].
Definition feature_of (l : list (list byte)) : option FeaturePayload :=
  match l with
  | [a; b; c; d; e; f; g] =>
      Some (mkFeaturePayload (get_string a) b (get_Z c) (get_Z d) (get_Z e) (get_Z f) (get_string g))
  | _ => None
  end.

Definition request_fields (m : PairingRequest) : list (list byte) :=
  [put_list put_grant (requested_grants m)].
Definition request_of (l : list (list byte)) : option PairingRequest :=
  match l with
  | [a] => Some (mkPairingRequest (get_list get_grant a))
  | _ => None
  end.

Definition response_fields (m : PairingResponse) : list (list byte) :=
  [put_option put_result (pairing_result m); put_list put_grant (granted_grants m)].
Definition response_of (l : list (list byte)) : option PairingResponse :=
  match l with
  | [a; b] => Some (mkPairingResponse (get_option get_result a) (get_list get_grant b))
  | _ => None
  end.

Definition direction_index (d : GrantDirection) : Z :=
  match d with
  | DirInbound => 1
  | DirOutbound => 2
  end.

#[export] Instance wire_api : WireApi := {|
  PROTOCOL_MAJOR := 1;
  MIN_PROTOCOL_MINOR := 0;
  MAX_PROTOCOL_MINOR := 2;
  MAX_CONTROL_FRAME_SIZE := 1048576;
  kind_as_i32 := fun k => kind_index k + 1;
  kind_try_from := fun z =>
    Some <$> find_first (fun k => kind_index k + 1 =? z) all_kinds;
  direction_as_i32 := direction_index;
  direction_try_from := fun z =>
    Some <$> find_first (fun d => direction_index d =? z) [DirInbound; DirOutbound];
  hello_prost := fields_prost hello_fields hello_of;
  auth_prost := fields_prost auth_fields auth_of;
  accepted_prost := fields_prost accepted_fields accepted_of;
  feature_prost := fields_prost feature_fields feature_of;
  pairing_request_prost := fields_prost request_fields request_of;
  pairing_response_prost := fields_prost response_fields response_of
|}.

#[export] Instance wire_laws : WireLaws.
Proof.
  split; try apply fields_prost_laws.
  - cbn. unfold u32_max. lia.
  - by intros [].
  - by intros [].
  - intros []. cbn -[get_Z put_Z get_string put_string]. by rewrite !get_put_Z, !get_put_string.
  - intros []. cbn -[get_Z put_Z get_string put_string]. by rewrite get_put_string.
  - intros []. cbn -[get_Z put_Z get_string put_string]. by rewrite !get_put_Z.
  - intros []. cbn -[get_Z put_Z get_string put_string]. by rewrite !get_put_Z, !get_put_string.
  - intros [g]. cbn -[get_list put_list]. by rewrite get_put_list by apply get_put_grant.
  - intros [r g]. cbn -[get_option put_option get_list put_list]. rewrite get_put_option by apply get_put_result.
    by rewrite get_put_list by apply get_put_grant.
Qed.
End SampleWire.
