(* ===== verification/Grants.v ===== *)
(** * Grants

    Grant constraints (runtime.rs): their wire form, the checks on a request
    made locally and on a grant received from a peer. *)

From S2P Require Import Prelude Errors Peer Wire.

(** ** Definitions *)

Definition encode_grant_constraints (constraints : GrantConstraints) : option WireGrantConstraints :=
  match constraints with
  | ConstraintsNone => None
  | RemoteFileShares share_ids writable =>
      Some (mkWireConstraints (Some (share_ids, writable)))
  end.

(** [id.is_empty() || id.len() > 256] *)
Definition bad_share_id (id : string) : bool := (slen id =? 0) || (slen id >? 256).

(** [unique.sort(); unique.dedup(); unique.len() != share_ids.len()] *)
Definition has_duplicate (share_ids : list string) : bool :=
  negb (length (sort_dedup share_ids) =? length share_ids)%nat.

Definition validate_local_grant_request `{PeerApi} (capability : CapabilityId)
    (constraints : GrantConstraints) : net_result unit :=
  match constraints with
  | RemoteFileShares share_ids writable =>
      if negb (bool_decide (capability = RemoteFilesRead) || bool_decide (capability = RemoteFilesWrite))
         || (bool_decide (capability = RemoteFilesRead) && writable)
         || (bool_decide (capability = RemoteFilesWrite) && negb writable)
         || (128 <? length share_ids)%nat
         || has_duplicate share_ids
         || existsb bad_share_id share_ids
      then Err (Protocol "invalid requested grant constraints")
      else Ok tt
  | ConstraintsNone => Ok tt
  end.

Definition decode_grant_constraints (constraints : option WireGrantConstraints)
    : net_result GrantConstraints :=
  match constraints with
  | None => Ok ConstraintsNone
  | Some wire =>
      match wire_kind wire with
      | None => Err (Protocol "unknown or empty grant constraints")
      | Some (share_ids, writable) =>
          if (128 <? length share_ids)%nat || existsb bad_share_id share_ids then
            Err (Protocol "invalid remote-file grant constraints")
          else if has_duplicate share_ids then
            Err (Protocol "duplicate remote-file share constraint")
          else Ok (RemoteFileShares share_ids writable)
      end
  end.

(** ** Lemmas *)

(** What a list of share ids must satisfy on either side. *)
Definition share_ids_ok (share_ids : list string) : Prop :=
  (length share_ids <= 128)%nat /\ NoDup share_ids /\
  Forall (fun id => 0 < slen id <= 256) share_ids.

Lemma has_duplicate_false (l : list string) : has_duplicate l = false <-> NoDup l.
Proof. unfold has_duplicate. rewrite negb_false_iff, Nat.eqb_eq. apply length_sort_dedup. Qed.

Lemma bad_share_ids_false (l : list string) :
  existsb bad_share_id l = false <-> Forall (fun id => 0 < slen id <= 256) l.
Proof.
  unfold bad_share_id. induction l as [|x l IH]; cbn [existsb]; [by split|].
  rewrite Forall_cons, orb_false_iff, IH. unfold slen.
  assert (0 <= Z.of_nat (String.length x)) by lia.
  rewrite orb_false_iff, Z.eqb_neq, Z.gtb_ltb, Z.ltb_ge. split; intros [? ?]; split; auto; lia.
Qed.

Lemma share_count_false (l : list string) : (128 <? length l)%nat = false <-> (length l <= 128)%nat.
Proof. unfold Nat.ltb. rewrite Nat.leb_gt. lia. Qed.

Lemma decode_shares_ok (share_ids : list string) (writable : bool) :
  share_ids_ok share_ids ->
  decode_grant_constraints (Some (mkWireConstraints (Some (share_ids, writable)))) =
  Ok (RemoteFileShares share_ids writable).
Proof.
  intros (Hl & Hd & Hf). unfold decode_grant_constraints; cbn [wire_kind].
  apply share_count_false in Hl. apply has_duplicate_false in Hd. apply bad_share_ids_false in Hf.
  by rewrite Hl, Hf, Hd.
Qed.

Lemma validate_shares_ok `{PeerApi} (c : CapabilityId) share_ids writable :
  validate_local_grant_request c (RemoteFileShares share_ids writable) = Ok tt <->
  share_ids_ok share_ids /\
  (c = RemoteFilesRead \/ c = RemoteFilesWrite) /\
  (c = RemoteFilesRead -> writable = false) /\ (c = RemoteFilesWrite -> writable = true).
Proof.
  unfold share_ids_ok. rewrite <- share_count_false, <- has_duplicate_false, <- bad_share_ids_false.
  cbn [validate_local_grant_request].
  destruct (128 <? length share_ids)%nat, (has_duplicate share_ids),
    (existsb bad_share_id share_ids), writable;
    repeat case_bool_decide; cbn; naive_solver.
Qed.

Lemma decode_grant_constraints_ok (w : option WireGrantConstraints) (c : GrantConstraints) :
  decode_grant_constraints w = Ok c ->
  encode_grant_constraints c = w /\
  (forall ids rw, c = RemoteFileShares ids rw -> share_ids_ok ids).
Proof.
  unfold decode_grant_constraints.
  destruct w as [[[[ids rw]|]]|]; cbn [wire_kind]; try (intros; result_inv; split; cbn; congruence).
  destruct ((128 <? length ids)%nat || existsb bad_share_id ids) eqn:E; [done|].
  destruct (has_duplicate ids) eqn:Ed; [done|]. intros; result_inv.
  split; [done|]. intros ? ? [= <- <-]. apply orb_false_elim in E as [E1 E2].
  split_and!; [by apply share_count_false | by apply has_duplicate_false
              | by apply bad_share_ids_false].
Qed.

(** Constraints that passed the local check survive the trip to the peer and
    back unchanged. *)
Lemma decode_encode_constraints `{PeerApi} (c : CapabilityId) (k : GrantConstraints) :
  validate_local_grant_request c k = Ok tt ->
  decode_grant_constraints (encode_grant_constraints k) = Ok k.
Proof.
  destruct k as [|ids rw]; [done|]. intros Hv. apply validate_shares_ok in Hv as [Hs _].
  by apply decode_shares_ok.
Qed.

(** ** Properties *)

(** Decoding received constraints succeeds exactly on the encodings of
    constraints whose share ids are at most 128, distinct, not empty and at
    most 256 bytes long, and gives these constraints. *)
Theorem decode_grant_constraints_iff (w : option WireGrantConstraints) (c : GrantConstraints) :
  decode_grant_constraints w = Ok c <->
  encode_grant_constraints c = w /\
  (forall ids rw, c = RemoteFileShares ids rw -> share_ids_ok ids).
Proof.
  split; [apply decode_grant_constraints_ok|]. intros [<- Hc].
  destruct c as [|ids rw]; [done|]. apply decode_shares_ok. by eapply Hc.
Qed.

(** A locally validated grant request reaches the peer unchanged, and names
    a capability that its constraints allow: remote-file shares only for the
    two remote-file capabilities, read-only for reading and writable for
    writing. *)
Theorem validated_request_roundtrip `{PeerApi} (c : CapabilityId) (k : GrantConstraints) :
  RemoteFilesRead <> RemoteFilesWrite ->
  validate_local_grant_request c k = Ok tt ->
  decode_grant_constraints (encode_grant_constraints k) = Ok k /\
  forall ids rw, k = RemoteFileShares ids rw ->
    c = if rw then RemoteFilesWrite else RemoteFilesRead.
Proof.
  intros Hrw Hv. split; [by eapply decode_encode_constraints|]. intros ids rw ->.
  apply validate_shares_ok in Hv as (_ & Hc & Hr & Hw). destruct rw; naive_solver.
Qed.

(** ** Witnesses *)

Lemma validated_request_roundtrip_witness :
  decode_grant_constraints (encode_grant_constraints (RemoteFileShares ["docs"%string] true)) =
  Ok (RemoteFileShares ["docs"%string] true).
Proof.
  apply (@validated_request_roundtrip SamplePeer.peer_api SamplePeer.RemoteWrite);
    [discriminate | reflexivity].
Defined.
