(* ===== verification/Registry.v ===== *)
(** * Registry

    The live-session registry of runtime.rs: the [Session] handles of
    runtime/session.rs, the [ActiveSession] entries kept per
    (device, session kind), and every operation that reads or changes them:
    [register_session] with its duplicate arbitration, [active],
    [disconnect], [connected_peers], and the registry parts of [forget],
    [grant] and of the relay clean-up task.

    Sharing is modelled where the code shares: a [quinn::Connection] is a
    handle into a transport state seen by every holder, an [Arc<Session>] is a
    pointer into [arcs] (the sessions with a strong reference left), and the
    [Weak<Session>] of an entry is such a pointer, which [upgrade] follows. *)

From S2P Require Import Prelude Errors Peer Wire.

(** ** The transport *)

(** What is used of [quinn::Connection]: [close_reason().is_some()] and
    [close]. *)
Class Transport := {
  Net : Type;
  Conn : Type;
  Conn_eq_dec :: EqDecision Conn;
  is_closed : Net -> Conn -> bool;
  close : Conn -> Z -> string -> Net -> Net
}.

(** [close] makes [close_reason] present on its connection and leaves the
    other connections alone. *)
Class TransportLaws `{Transport} : Prop := {
  close_closed : forall c k r n, is_closed (close c k r n) c = true;
  close_other : forall c c' k r n, c <> c' -> is_closed (close c k r n) c' = is_closed n c'
}.

Section registry.
Context `{PeerApi} `{Transport}.

(** ** Data *)

Record SessionRank := mkRank { initiator_id : DeviceId; initiator_nonce : list byte }.

#[export] Instance SessionRank_eq_dec : EqDecision SessionRank.
Proof. solve_decision. Defined.

(** The derived order: initiator first, then nonce. *)
#[export] Instance SessionRank_cmp : Cmp SessionRank :=
  cmp_via (fun r => (initiator_id r, initiator_nonce r)).

#[export] Instance SessionRank_cmp_laws `{!PeerLaws} : CmpLaws SessionRank.
Proof. apply cmp_via_laws. intros [] []; cbn. congruence. Qed.

Record Session := mkSession {
  peer_process_instance_id : option (list byte);
  relay_tunnel : option nat;
  recovery_endpoint : option nat;
  id : Z;
  kind : SessionKind;
  peer : SessionPeer;
  verification_code : string;
  rank : SessionRank;
  connection : Conn;
  protocol_minor : Z
}.

Definition is_relayed (s : Session) : bool :=
  match relay_tunnel s with
  | Some _ => true
  | None => false
  end.

Record ActiveSession := mkActive {
  a_peer_process_instance_id : option (list byte);
  retired_peer_instances : list (list byte);
  a_rank : SessionRank;
  a_session : nat;
  a_connection : Conn;
  a_recovery_endpoint : option nat;
  a_relay_tunnel : option nat
}.

#[export] Instance Session_eq_dec : EqDecision Session.
Proof. solve_decision. Defined.
#[export] Instance ActiveSession_eq_dec : EqDecision ActiveSession.
Proof. solve_decision. Defined.

Record Registry := mkRegistry {
  net : Net;
  arcs : gmap nat Session;
  sessions : gmap (DeviceId * SessionKind) ActiveSession
}.

Definition MAX_RETIRED_PEER_INSTANCES : nat := 32.

(** ** Operations *)

Definition session_key (s : Session) : (DeviceId * SessionKind) := (peer_device_id (peer s), kind s).

Definition close_conn (c : Conn) (code : Z) (reason : string) (st : Registry) : Registry :=
  mkRegistry (close c code reason (net st)) (arcs st) (sessions st).

(** [Weak::upgrade] *)
Definition upgrade (st : Registry) (p : nat) : option Session := arcs st !! p.

Definition conn_open (st : Registry) (c : Conn) : bool := negb (is_closed (net st) c).

(** [session.peer_process_instance_id.is_some_and(|i| retired.contains(&i))] *)
Definition instance_retired (s : Session) (retired : list (list byte)) : bool :=
  match peer_process_instance_id s with
  | Some instance => bool_decide (instance ∈ retired)
  | None => false
  end.

(** [while retired.len() > MAX_RETIRED_PEER_INSTANCES { retired.pop_front(); }] *)
Fixpoint trim_retired (retired : list (list byte)) : list (list byte) :=
  if (MAX_RETIRED_PEER_INSTANCES <? length retired)%nat then
    match retired with
    | [] => []
    | _ :: rest => trim_retired rest
    end
  else retired.

(** The branch of [register_session] for an authenticated peer process that
    is not the one of the current entry. *)
Definition retire_previous (current : ActiveSession) (s : Session) (st : Registry)
    : list (list byte) * Registry :=
  match a_peer_process_instance_id current, peer_process_instance_id s with
  | Some previous, Some incoming =>
      if decide (previous = incoming) then (retired_peer_instances current, st)
      else (trim_retired (retired_peer_instances current ++ [previous]),
            close_conn (a_connection current) 409 "peer process restarted" st)
  | _, _ => (retired_peer_instances current, st)
  end.

Definition active_of (p : nat) (s : Session) (retired : list (list byte)) : ActiveSession :=
  mkActive (peer_process_instance_id s) retired (rank s) p (connection s)
           (recovery_endpoint s) (relay_tunnel s).

Definition insert_session (p : nat) (s : Session) (retired : list (list byte)) (st : Registry)
    : net_result nat * Registry :=
  (Ok p, mkRegistry (net st) (arcs st)
                    (<[session_key s := active_of p s retired]> (sessions st))).

(** Whether the live session of [current] is kept over [s]. *)
Definition keeps_current (current : ActiveSession) (active s : Session) : bool :=
  let same_initiator := bool_decide (initiator_id (a_rank current) = initiator_id (rank s)) in
  let keep_direct := negb same_initiator && negb (is_relayed active) && is_relayed s in
  let prefer_direct := is_relayed active && negb (is_relayed s) in
  keep_direct
  || (negb prefer_direct && negb same_initiator && cmp_le (a_rank current) (rank s)).

(** [register_session]: [s] is the session [p] points to; the result is the
    pointer of the session that is active afterwards. *)
Definition register_session (p : nat) (s : Session) (st : Registry)
    : net_result nat * Registry :=
  match sessions st !! session_key s with
  | None => insert_session p s [] st
  | Some current =>
      if instance_retired s (retired_peer_instances current) then
        let st1 := close_conn (connection s) 409 "obsolete peer process instance" st in
        (match upgrade st1 (a_session current) with
         | Some active =>
             if conn_open st1 (connection active) then Ok (a_session current)
             else Err (Connect "obsolete peer process instance")
         | None => Err (Connect "obsolete peer process instance")
         end, st1)
      else
        let '(retired, st1) := retire_previous current s st in
        match upgrade st1 (a_session current) with
        | Some active =>
            if decide (a_session current = p) then (Ok (a_session current), st1)
            else if conn_open st1 (connection active) && keeps_current current active s then
              (Ok (a_session current), close_conn (connection s) 409 "duplicate session" st1)
            else
              insert_session p s retired
                (if conn_open st1 (connection active)
                 then close_conn (a_connection current) 409 "session replaced" st1
                 else st1)
        | None => insert_session p s retired st1
        end
  end.

(** [NetworkRuntime::active] *)
Definition active (device : DeviceId) (k : SessionKind) (st : Registry) : option nat * Registry :=
  let found :=
    match sessions st !! (device, k) with
    | Some a =>
        match upgrade st (a_session a) with
        | Some s => if conn_open st (connection s) then Some (a_session a) else None
        | None => None
        end
    | None => None
    end in
  match found with
  | Some p => (Some p, st)
  | None => (None, mkRegistry (net st) (arcs st) (delete (device, k) (sessions st)))
  end.

(** [sessions.remove(&key)] followed by a close of the removed connection. *)
Definition remove_and_close (code : Z) (reason : string) (st : Registry) (key : DeviceId * SessionKind)
    : Registry :=
  match sessions st !! key with
  | Some a => mkRegistry (close (a_connection a) code reason (net st)) (arcs st)
                         (delete key (sessions st))
  | None => st
  end.

(** The keys of the [BTreeMap] in order. *)
Definition registry_keys (st : Registry) : list (DeviceId * SessionKind) := sort (map_to_list (sessions st)).*1.

Definition keys_of (device : DeviceId) (st : Registry) : list (DeviceId * SessionKind) :=
  List.filter (fun key => bool_decide (key.1 = device)) (registry_keys st).

(** [NetworkRuntime::disconnect] *)
Definition disconnect (device : DeviceId) (reason : string) (st : Registry) : nat * Registry :=
  let keys := keys_of device st in
  (length keys, fold_left (remove_and_close 0 reason) keys st).

(** The last part of [NetworkRuntime::forget]. *)
Definition forget_sessions (device : DeviceId) (st : Registry) : Registry :=
  fold_left (remove_and_close 403 "peer forgotten") (keys_of device st) st.

(** The last part of [NetworkRuntime::grant]. *)
Definition grant_sessions (device : DeviceId) (capability : CapabilityId) (st : Registry)
    : Registry :=
  if decide (capability = CrossScreenInject) then
    remove_and_close 0 "authorization changed" st (device, RealtimeInput)
  else (disconnect device "authorization changed" st).2.

(** [NetworkRuntime::connected_peers] *)
Definition connected_peers (st : Registry) : list DeviceId :=
  sort_dedup (map fst (List.filter (fun key =>
    match sessions st !! key with
    | Some a => conn_open st (a_connection a)
    | None => false
    end) (registry_keys st))).

(** The task [register_input_relay] spawns, once the connection of the relay
    session has closed. *)
Definition relay_cleanup (key : DeviceId * SessionKind) (c : Conn) (st : Registry) : Registry :=
  match sessions st !! key with
  | Some a =>
      if decide (a_connection a = c) then
        mkRegistry (net st) (arcs st) (delete key (sessions st))
      else st
  | None => st
  end.
End registry.

(** ** Reachable registries *)

Section reachable.
Context `{PeerApi} `{Transport}.

(** The pointer [p] is not referenced: neither a strong nor a weak handle of
    that address exists, as for a new [Arc]. *)
Definition fresh_arc (p : nat) (st : Registry) : Prop :=
  arcs st !! p = None /\ forall key a, sessions st !! key = Some a -> a_session a <> p.

Definition fresh_conn (c : Conn) (st : Registry) : Prop :=
  (forall q t, arcs st !! q = Some t -> connection t <> c) /\
  (forall key a, sessions st !! key = Some a -> a_connection a <> c).

(** What happens to a registry: authentication produces a new session on a
    new connection, the runtime runs one of its operations under the
    registry lock, the last strong handle of a session is dropped, or the
    transport evolves (connections close by time-out or from the peer; none
    reopens). *)
Inductive step : Registry -> Registry -> Prop :=
| step_authenticated p s st :
    fresh_arc p st -> fresh_conn (connection s) st ->
    step st (mkRegistry (net st) (<[p := s]> (arcs st)) (sessions st))
| step_register p s st :
    arcs st !! p = Some s -> step st (register_session p s st).2
| step_active device k st : step st (active device k st).2
| step_disconnect device reason st : step st (disconnect device reason st).2
| step_forget device st : step st (forget_sessions device st)
| step_grant device capability st : step st (grant_sessions device capability st)
| step_relay_closed key c st :
    is_closed (net st) c = true -> step st (relay_cleanup key c st)
| step_drop p st : step st (mkRegistry (net st) (delete p (arcs st)) (sessions st))
| step_net n st :
    (forall c, is_closed (net st) c = true -> is_closed n c = true) ->
    step st (mkRegistry n (arcs st) (sessions st)).

Definition initial (st : Registry) : Prop := arcs st = ∅ /\ sessions st = ∅.

Inductive reachable : Registry -> Prop :=
| reachable_initial st : initial st -> reachable st
| reachable_step st st' : reachable st -> step st st' -> reachable st'.

(** *** The invariant *)

Record entry_ok (st : Registry) (key : DeviceId * SessionKind) (a : ActiveSession) : Prop := {
  eo_length : (length (retired_peer_instances a) <= MAX_RETIRED_PEER_INSTANCES)%nat;
  eo_nodup : NoDup (retired_peer_instances a);
  eo_current : forall i, a_peer_process_instance_id a = Some i -> i ∉ retired_peer_instances a;
  eo_session : forall s, arcs st !! a_session a = Some s ->
    key = session_key s /\ a = active_of (a_session a) s (retired_peer_instances a)
}.

Record registry_ok (st : Registry) : Prop := {
  ro_entries : forall key a, sessions st !! key = Some a -> entry_ok st key a;
  ro_arcs : forall p q s t, arcs st !! p = Some s -> arcs st !! q = Some t ->
    connection s = connection t -> p = q;
  ro_entry_arc : forall key a q t, sessions st !! key = Some a -> arcs st !! q = Some t ->
    a_connection a = connection t -> q = a_session a;
  ro_entries_conn : forall key a key' a', sessions st !! key = Some a ->
    sessions st !! key' = Some a' -> a_connection a = a_connection a' -> key = key'
}.
End reachable.

#[export] Hint Constructors reachable step : net.

Section facts.
Context `{PeerApi} `{Transport}.

(** *** The list of retired instances *)

Lemma trim_retired_drop (l : list (list byte)) :
  trim_retired l = drop (length l - MAX_RETIRED_PEER_INSTANCES) l.
Proof.
  induction l as [|x l IH]; [done|]. cbn [trim_retired].
  destruct (Nat.ltb_spec MAX_RETIRED_PEER_INSTANCES (length (x :: l))) as [Hl|Hl].
  - rewrite IH. cbn [length] in *. rewrite Nat.sub_succ_l by lia. done.
  - replace (length (x :: l) - MAX_RETIRED_PEER_INSTANCES)%nat with 0%nat by lia. done.
Qed.

Lemma length_trim_retired l : (length (trim_retired l) <= MAX_RETIRED_PEER_INSTANCES)%nat.
Proof. rewrite trim_retired_drop, length_drop. lia. Qed.

Lemma elem_of_trim_retired i l : i ∈ trim_retired l -> i ∈ l.
Proof. rewrite trim_retired_drop. apply subseteq_drop. Qed.

Lemma NoDup_trim_retired l : NoDup l -> NoDup (trim_retired l).
Proof. rewrite trim_retired_drop. intros Hl. by eapply sublist_NoDup, sublist_drop. Qed.

(** The list and the entry's instance stay apart when a new process takes
    over. *)
Lemma retire_previous_ok st key current (s : Session) l st' :
  entry_ok st key current ->
  instance_retired s (retired_peer_instances current) = false ->
  retire_previous current s st = (l, st') ->
  (length l <= MAX_RETIRED_PEER_INSTANCES)%nat /\ NoDup l /\
  (forall i, peer_process_instance_id s = Some i -> i ∉ l).
Proof.
  intros [Hlen Hnd Hcur _] Hret Hrp. unfold retire_previous in Hrp.
  assert (Hs : forall i, peer_process_instance_id s = Some i -> i ∉ retired_peer_instances current).
  { unfold instance_retired in Hret. intros i Hi. rewrite Hi in Hret. by destruct_bools. }
  destruct (a_peer_process_instance_id current) as [i|] eqn:Ei,
    (peer_process_instance_id s) as [j|] eqn:Ej; try case_decide as Hij;
    injection Hrp as <- _; split_and!; auto using length_trim_retired.
  - apply NoDup_trim_retired, NoDup_app. split_and!; [done| |repeat constructor; set_solver].
    intros x Hx Hxi. apply list_elem_of_singleton in Hxi as ->. by eapply Hcur.
  - intros k [= <-] Hin. apply elem_of_trim_retired in Hin.
    apply elem_of_app in Hin as [Hin|Hin]; [by eapply Hs | set_solver].
Qed.

Lemma retire_previous_state current s st :
  arcs (retire_previous current s st).2 = arcs st /\
  sessions (retire_previous current s st).2 = sessions st.
Proof. unfold retire_previous. repeat case_match; try case_decide; done. Qed.

(** *** Preservation *)

Lemma registry_ok_ext st st' :
  arcs st' = arcs st -> sessions st' = sessions st -> registry_ok st -> registry_ok st'.
Proof.
  destruct st, st'; cbn; intros -> -> [He Ha Hea Hc].
  split; cbn in *; eauto. intros key a Hk. destruct (He _ _ Hk). split; done.
Qed.

Lemma insert_session_ok st p s l :
  registry_ok st -> arcs st !! p = Some s ->
  (length l <= MAX_RETIRED_PEER_INSTANCES)%nat -> NoDup l ->
  (forall i, peer_process_instance_id s = Some i -> i ∉ l) ->
  registry_ok (insert_session p s l st).2.
Proof.
  intros [He Ha Hea Hc] Hp Hlen Hnd Hcur. cbn. split; cbn.
  - intros key a Hk. rewrite lookup_insert in Hk. case_decide as Hkey.
    + injection Hk as <-. subst key. split; cbn; auto. intros t Ht. split; congruence.
    + destruct (He _ _ Hk). split; done.
  - done.
  - intros key a q t Hk Hq Hcon. rewrite lookup_insert in Hk. case_decide; [|eauto].
    injection Hk as <-. cbn in *. eauto.
  - assert (Hnew : forall key a, sessions st !! key = Some a ->
      a_connection a = connection s -> key = session_key s).
    { intros key a Hk Hcon. pose proof (Hea _ _ _ _ Hk Hp Hcon) as ->.
      by destruct (eo_session _ _ _ (He _ _ Hk) _ Hp) as [-> _]. }
    intros key a key' a' Hk Hk' Hcon. rewrite lookup_insert in Hk, Hk'.
    repeat case_decide; subst; simplify_eq/=; eauto.
    symmetry. eauto.
Qed.

Lemma register_session_ok st p s :
  registry_ok st -> arcs st !! p = Some s -> registry_ok (register_session p s st).2.
Proof.
  intros Hok Hp. unfold register_session.
  destruct (sessions st !! session_key s) as [current|] eqn:Hcur.
  2:{ apply insert_session_ok; auto using NoDup_nil_2; [unfold MAX_RETIRED_PEER_INSTANCES; cbn; lia | set_solver]. }
  destruct (instance_retired s (retired_peer_instances current)) eqn:Hret.
  { by eapply registry_ok_ext; [..|exact Hok]. }
  destruct (retire_previous current s st) as [l st1] eqn:Hrp.
  pose proof (retire_previous_state current s st) as [Earcs Esess]. rewrite Hrp in Earcs, Esess.
  cbn in Earcs, Esess.
  destruct (retire_previous_ok _ _ _ _ _ _ (ro_entries _ Hok _ _ Hcur) Hret Hrp) as (? & ? & ?).
  assert (Hok1 : registry_ok st1) by (by eapply registry_ok_ext; [..|exact Hok]).
  assert (Hins : forall st2, arcs st2 = arcs st1 -> sessions st2 = sessions st1 ->
    registry_ok (insert_session p s l st2).2).
  { intros st2 E1 E2. apply insert_session_ok; auto; [|congruence].
    by eapply registry_ok_ext; [..|exact Hok1]. }
  unfold upgrade. destruct (arcs st1 !! a_session current) as [act|]; [|by apply Hins].
  case_decide; [done|].
  destruct (conn_open st1 (connection act) && keeps_current current act s).
  - by eapply registry_ok_ext; [..|exact Hok1].
  - apply Hins; by destruct (conn_open st1 (connection act)).
Qed.

Lemma registry_ok_delete st key n :
  registry_ok st -> registry_ok (mkRegistry n (arcs st) (delete key (sessions st))).
Proof.
  intros [He Ha Hea Hc]. split; cbn.
  - intros key' a [_ Hk]%lookup_delete_Some. by destruct (He _ _ Hk).
  - done.
  - intros key' a q t [_ Hk]%lookup_delete_Some. eauto.
  - intros key1 a key2 a' [_ Hk]%lookup_delete_Some [_ Hk']%lookup_delete_Some. eauto.
Qed.

Lemma remove_and_close_ok code reason st key :
  registry_ok st -> registry_ok (remove_and_close code reason st key).
Proof.
  intros Hok. unfold remove_and_close. case_match; [by apply registry_ok_delete | done].
Qed.

Lemma remove_all_ok code reason keys st :
  registry_ok st -> registry_ok (fold_left (remove_and_close code reason) keys st).
Proof. revert st. induction keys; cbn; auto using remove_and_close_ok. Qed.

Lemma step_ok st st' : step st st' -> registry_ok st -> registry_ok st'.
Proof.
  intros [p s ? [Hp Hw] [Hca Hce]| | | | | | | |] Hok;
    auto using register_session_ok.
  - destruct Hok as [He Ha Hea Hc]. split; cbn.
    + intros key a Hk. destruct (He _ _ Hk) as [? ? ? Hs]. split; auto; cbn.
      intros t Ht. rewrite lookup_insert_ne in Ht by (intros E; by eapply Hw). auto.
    + intros q r t u. rewrite !lookup_insert.
      repeat case_decide; naive_solver.
    + intros key a q t Hk. rewrite lookup_insert. case_decide; [|eauto].
      intros [= <-] E. exfalso. by eapply Hce.
    + done.
  - unfold active. repeat case_match; cbn; auto using registry_ok_delete.
  - by apply remove_all_ok.
  - by apply remove_all_ok.
  - unfold grant_sessions, disconnect.
    destruct (decide (capability = CrossScreenInject)); cbn;
      auto using remove_and_close_ok, remove_all_ok.
  - unfold relay_cleanup. case_match; [|done]. case_decide; auto using registry_ok_delete.
  - destruct Hok as [He Ha Hea Hc]. split; cbn.
    + intros key a Hk. destruct (He _ _ Hk) as [? ? ? Hs]. split; auto; cbn.
      intros t [_ Ht]%lookup_delete_Some. auto.
    + intros q r t u [_ ?]%lookup_delete_Some [_ ?]%lookup_delete_Some. eauto.
    + intros key a q t Hk [_ ?]%lookup_delete_Some. eauto.
    + done.
  - by eapply registry_ok_ext; [..|exact Hok].
Qed.

Lemma reachable_ok st : reachable st -> registry_ok st.
Proof.
  induction 1 as [st [Ha Hs]|st st' _ IH Hst]; [|by eapply step_ok].
  destruct st as [n a s]; cbn in *; subst.
  split; cbn; intros *; rewrite ?lookup_empty; done.
Qed.
End facts.

(** ** Abstract specification of [register_session] *)

Section arbitration.
Context `{PeerApi} `{Transport}.

(** [n'] is [n] with exactly the connections of [cs] closed in addition. *)
Definition closes (n n' : Net) (cs : list Conn) : Prop :=
  forall c, is_closed n' c = is_closed n c || bool_decide (c ∈ cs).

(** The previous process of the peer, when [s] comes from another one. *)
Definition restarted_from (current : ActiveSession) (s : Session) : option (list byte) :=
  match a_peer_process_instance_id current, peer_process_instance_id s with
  | Some previous, Some incoming => if decide (previous = incoming) then None else Some previous
  | _, _ => None
  end.

Definition next_retired (current : ActiveSession) (s : Session) : list (list byte) :=
  match restarted_from current s with
  | Some previous => trim_retired (retired_peer_instances current ++ [previous])
  | None => retired_peer_instances current
  end.

(** [arbitration st p s r entry cs]: registering the session [s] at [p] in
    [st] answers [r], writes [entry] under the key of [s] (nothing, when it
    is [None]) and closes the connections [cs]. *)
Inductive arbitration (st : Registry) (p : nat) (s : Session)
    : net_result nat -> option ActiveSession -> list Conn -> Prop :=
| arb_new :
    sessions st !! session_key s = None ->
    arbitration st p s (Ok p) (Some (active_of p s [])) []
| arb_same current :
    sessions st !! session_key s = Some current -> a_session current = p ->
    arbitration st p s (Ok p) None []
| arb_obsolete_kept current t :
    sessions st !! session_key s = Some current -> a_session current <> p ->
    instance_retired s (retired_peer_instances current) = true ->
    arcs st !! a_session current = Some t -> conn_open st (connection t) = true ->
    arbitration st p s (Ok (a_session current)) None [connection s]
| arb_obsolete current :
    sessions st !! session_key s = Some current ->
    instance_retired s (retired_peer_instances current) = true ->
    (forall t, arcs st !! a_session current = Some t -> conn_open st (connection t) = false) ->
    arbitration st p s (Err (Connect "obsolete peer process instance")) None [connection s]
| arb_duplicate current t :
    sessions st !! session_key s = Some current -> a_session current <> p ->
    arcs st !! a_session current = Some t -> conn_open st (connection t) = true ->
    instance_retired s (retired_peer_instances current) = false ->
    restarted_from current s = None -> keeps_current current t s = true ->
    arbitration st p s (Ok (a_session current)) None [connection s]
| arb_restarted current previous :
    sessions st !! session_key s = Some current -> a_session current <> p ->
    instance_retired s (retired_peer_instances current) = false ->
    restarted_from current s = Some previous ->
    arbitration st p s (Ok p) (Some (active_of p s (next_retired current s)))
                [a_connection current]
| arb_replaced current t :
    sessions st !! session_key s = Some current -> a_session current <> p ->
    arcs st !! a_session current = Some t ->
    instance_retired s (retired_peer_instances current) = false ->
    restarted_from current s = None ->
    (conn_open st (connection t) = true -> keeps_current current t s = false) ->
    arbitration st p s (Ok p) (Some (active_of p s (next_retired current s)))
                [a_connection current]
| arb_handle_dropped current :
    sessions st !! session_key s = Some current -> a_session current <> p ->
    arcs st !! a_session current = None ->
    instance_retired s (retired_peer_instances current) = false ->
    restarted_from current s = None ->
    arbitration st p s (Ok p) (Some (active_of p s (next_retired current s))) [].

(** What the specification says of the state after. *)
Definition arbitrated (st : Registry) (s : Session) (entry : option ActiveSession)
    (cs : list Conn) (st' : Registry) : Prop :=
  closes (net st) (net st') cs /\ arcs st' = arcs st /\
  sessions st' = match entry with
                 | Some a => <[session_key s := a]> (sessions st)
                 | None => sessions st
                 end.

Context `{!TransportLaws}.

Lemma closes_refl n : closes n n [].
Proof. intros c. rewrite bool_decide_false by set_solver. by rewrite orb_false_r. Qed.

Lemma is_closed_close c d k r n :
  is_closed (close c k r n) d = is_closed n d || bool_decide (d = c).
Proof.
  destruct (decide (d = c)) as [->|Hne].
  - by rewrite close_closed, bool_decide_true, orb_true_r.
  - by rewrite close_other, bool_decide_false, orb_false_r by congruence.
Qed.

Lemma closes_one c k r n : closes n (close c k r n) [c].
Proof.
  intros d. rewrite is_closed_close. f_equal.
  apply bool_decide_ext. by rewrite list_elem_of_singleton.
Qed.

(** Closing a closed connection again changes nothing observable. *)
Lemma closes_absorb c n : is_closed n c = true -> closes n n [c].
Proof.
  intros Hc d. case_bool_decide as Hd; [|by rewrite orb_false_r].
  apply list_elem_of_singleton in Hd as ->. by rewrite Hc.
Qed.

Lemma retire_previous_spec cur s st :
  retire_previous cur s st =
  (next_retired cur s,
   match restarted_from cur s with
   | Some _ => close_conn (a_connection cur) 409 "peer process restarted" st
   | None => st
   end).
Proof.
  unfold retire_previous, next_retired, restarted_from.
  destruct (a_peer_process_instance_id cur), (peer_process_instance_id s); try done.
  by case_decide.
Qed.

(** A session that is already the active one is neither obsolete nor a
    restart. *)
Lemma registered_session_current st key cur s :
  entry_ok st key cur -> arcs st !! a_session cur = Some s ->
  instance_retired s (retired_peer_instances cur) = false /\ restarted_from cur s = None.
Proof.
  intros Hent Hp. destruct (eo_session _ _ _ Hent _ Hp) as [_ Ea].
  pose proof (eo_current _ _ _ Hent) as Hcur. unfold instance_retired, restarted_from.
  rewrite Ea in Hcur |- *; cbn in *.
  destruct (peer_process_instance_id s) as [i|]; [|done].
  rewrite bool_decide_false by auto. by rewrite decide_True.
Qed.

Lemma register_obsolete st p s cur :
  registry_ok st -> arcs st !! p = Some s ->
  sessions st !! session_key s = Some cur ->
  instance_retired s (retired_peer_instances cur) = true ->
  exists entry cs, arbitration st p s (register_session p s st).1 entry cs /\
    arbitrated st s entry cs (register_session p s st).2.
Proof.
  intros Hok Hp Hcur Hret. unfold register_session. rewrite Hcur, Hret.
  assert (Hne : a_session cur <> p).
  { intros <-. destruct (registered_session_current _ _ _ _ (ro_entries _ Hok _ _ Hcur) Hp).
    congruence. }
  exists None, [connection s]. split; [|by split; [apply closes_one|]].
  unfold upgrade, close_conn, conn_open; cbn.
  destruct (arcs st !! a_session cur) as [t|] eqn:Ht; [|by eapply arb_obsolete; naive_solver].
  rewrite close_other by (intros E; apply Hne; symmetry; by eapply (ro_arcs _ Hok)).
  destruct (is_closed (net st) (connection t)) eqn:Ho; cbn.
  - eapply arb_obsolete; [done..|]. intros u Hu. unfold conn_open.
    by assert (u = t) as -> by congruence; rewrite Ho.
  - eapply arb_obsolete_kept; try done. unfold conn_open. by rewrite Ho.
Qed.

Lemma register_restarted st p s cur previous :
  registry_ok st -> arcs st !! p = Some s -> a_session cur <> p ->
  sessions st !! session_key s = Some cur ->
  instance_retired s (retired_peer_instances cur) = false ->
  restarted_from cur s = Some previous ->
  exists entry cs, arbitration st p s (register_session p s st).1 entry cs /\
    arbitrated st s entry cs (register_session p s st).2.
Proof.
  intros Hok Hp Hne Hcur Hret Hrs. unfold register_session.
  rewrite Hcur, Hret, retire_previous_spec, Hrs. unfold upgrade; cbn.
  exists (Some (active_of p s (next_retired cur s))), [a_connection cur].
  destruct (arcs st !! a_session cur) as [t|] eqn:Ht.
  2:{ split; [by eapply arb_restarted | by split; [apply closes_one|]]. }
  destruct (eo_session _ _ _ (ro_entries _ Hok _ _ Hcur) _ Ht) as [_ Ea].
  rewrite decide_False by done. unfold conn_open; cbn.
  assert (Ec : a_connection cur = connection t) by (by rewrite Ea).
  rewrite Ec, close_closed; cbn. rewrite <- Ec.
  split; [by eapply arb_restarted | by split; [apply closes_one|]].
Qed.

(** [register_session] refines [arbitration]. *)
Lemma register_session_arbitration st p s :
  registry_ok st -> arcs st !! p = Some s ->
  exists entry cs, arbitration st p s (register_session p s st).1 entry cs /\
    arbitrated st s entry cs (register_session p s st).2.
Proof.
  intros Hok Hp.
  destruct (sessions st !! session_key s) as [cur|] eqn:Hcur.
  2:{ unfold register_session. rewrite Hcur. eexists _, [].
      split; [by apply arb_new | by split; [apply closes_refl|]]. }
  destruct (instance_retired s (retired_peer_instances cur)) eqn:Hret.
  { by eapply register_obsolete. }
  destruct (decide (a_session cur = p)) as [<-|Hne].
  { destruct (registered_session_current _ _ _ _ (ro_entries _ Hok _ _ Hcur) Hp) as [_ Hrs].
    unfold register_session. rewrite Hcur, Hret, retire_previous_spec, Hrs.
    unfold upgrade. rewrite Hp, decide_True by done. exists None, [].
    split; [by eapply arb_same | by split; [apply closes_refl|]]. }
  destruct (restarted_from cur s) as [prev|] eqn:Hrs.
  { by eapply register_restarted. }
  unfold register_session. rewrite Hcur, Hret, retire_previous_spec, Hrs.
  unfold upgrade. destruct (arcs st !! a_session cur) as [t|] eqn:Ht.
  2:{ eexists _, []. split; [by eapply arb_handle_dropped | by split; [apply closes_refl|]]. }
  rewrite decide_False by done.
  destruct (eo_session _ _ _ (ro_entries _ Hok _ _ Hcur) _ Ht) as [_ Ea].
  destruct (conn_open st (connection t)) eqn:Ho; cbn [andb].
  - destruct (keeps_current cur t s) eqn:Hk.
    + exists None, [connection s].
      split; [by eapply arb_duplicate | by split; [apply closes_one|]].
    + eexists _, [a_connection cur].
      split; [by eapply arb_replaced | by split; [apply closes_one|]].
  - eexists _, [a_connection cur]. split; [by eapply arb_replaced; try done; congruence|].
    split; [|done]. apply closes_absorb. rewrite Ea; cbn.
    unfold conn_open in Ho. by apply negb_false_iff in Ho.
Qed.
End arbitration.

(** ** Two sessions competing for one key *)

Section convergence.
Context `{PeerApi} `{Transport}.

(** The order in which sessions of different initiators are preferred: a
    direct path before a relayed one, then the smaller rank. *)
Definition preferred (s t : Session) : bool :=
  (negb (is_relayed s) && is_relayed t)
  || (Bool.eqb (is_relayed s) (is_relayed t) && cmp_le (rank s) (rank t)).

(** Two sessions of one peer and kind, dialled by the two devices at once and
    authenticated against the same peer process, none registered yet. *)
Record opposing_dials (st : Registry) (p : nat) (s : Session) (q : nat) (t : Session) : Prop := {
  od_reachable : reachable st;
  od_first : arcs st !! p = Some s;
  od_second : arcs st !! q = Some t;
  od_key : session_key s = session_key t;
  od_initiators : initiator_id (rank s) <> initiator_id (rank t);
  od_instance : peer_process_instance_id s = peer_process_instance_id t;
  od_vacant : sessions st !! session_key s = None
}.

(** Register [s], let the transport evolve to [n], register [t]. *)
Definition settle (st : Registry) (p : nat) (s : Session) (n : Net) (q : nat) (t : Session)
    : Registry :=
  let st1 := (register_session p s st).2 in
  (register_session q t (mkRegistry n (arcs st1) (sessions st1))).2.

Context `{!TransportLaws} `{!PeerLaws}.

Lemma keeps_current_preferred p s t l :
  initiator_id (rank s) <> initiator_id (rank t) ->
  keeps_current (active_of p s l) s t = preferred s t.
Proof.
  intros Hne. unfold keeps_current, preferred, active_of; cbn.
  rewrite bool_decide_false by done.
  by destruct (is_relayed s), (is_relayed t), (cmp_le (rank s) (rank t)).
Qed.

Lemma preferred_antisym s t :
  initiator_id (rank s) <> initiator_id (rank t) -> preferred t s = negb (preferred s t).
Proof.
  intros Hne. unfold preferred.
  destruct (is_relayed s) eqn:Es, (is_relayed t) eqn:Et; cbn; try done;
    destruct (cmp_le (rank s) (rank t)) eqn:E1, (cmp_le (rank t) (rank s)) eqn:E2; try done.
  all: try (apply cmp_le_gt in E1 as [? _]; congruence).
  all: pose proof (cmp_le_antisym _ _ E1 E2) as E; by rewrite E in Hne.
Qed.

Lemma opposing_dials_sym st p s q t : opposing_dials st p s q t -> opposing_dials st q t p s.
Proof. intros [? ? ? Hk ? ? ?]. split; try done. by rewrite <- Hk. Qed.

Lemma register_vacant st p s :
  sessions st !! session_key s = None ->
  register_session p s st =
  (Ok p, mkRegistry (net st) (arcs st) (<[session_key s := active_of p s []]> (sessions st))).
Proof. intros Hv. unfold register_session. by rewrite Hv. Qed.

(** Whatever the order, the preferred session ends up registered and open
    and the other one closed. *)
Lemma settle_preferred st p s n q t :
  opposing_dials st p s q t ->
  is_closed n (connection (if preferred s t then s else t)) = false ->
  let st' := settle st p s n q t in
  sessions st' !! session_key s =
    Some (if preferred s t then active_of p s [] else active_of q t []) /\
  is_closed (net st') (connection (if preferred s t then s else t)) = false /\
  is_closed (net st') (connection (if preferred s t then t else s)) = true.
Proof.
  intros Hod Hw. cbv zeta. unfold settle.
  destruct Hod as [Hr Hp Hq Hkey Hini Hinst Hvac].
  pose proof (reachable_ok _ Hr) as Hok.
  assert (Hpq : p <> q) by (intros ->; by simplify_eq).
  assert (Hcon : connection t <> connection s).
  { intros E. apply Hpq. by eapply (ro_arcs _ Hok). }
  rewrite (register_vacant st p s Hvac). cbn [snd arcs sessions].
  unfold register_session. cbn [sessions]. rewrite <- Hkey, lookup_insert_eq.
  assert (Hret : instance_retired t [] = false).
  { unfold instance_retired. by destruct (peer_process_instance_id t). }
  assert (Hrs : restarted_from (active_of p s []) t = None).
  { unfold restarted_from; cbn. rewrite Hinst.
    destruct (peer_process_instance_id t); [by rewrite decide_True | done]. }
  cbn [retired_peer_instances active_of]. fold (active_of p s []).
  rewrite Hret, retire_previous_spec, Hrs. unfold next_retired. rewrite Hrs.
  unfold upgrade; cbn [arcs a_session active_of]. fold (active_of p s []). rewrite Hp.
  rewrite decide_False by done. rewrite keeps_current_preferred by done.
  unfold conn_open; cbn [net]. destruct (preferred s t).
  - rewrite Hw; cbn. split_and!; [by rewrite lookup_insert_eq| |apply close_closed].
    by rewrite close_other.
  - rewrite andb_false_r. cbn. rewrite <- Hkey, !lookup_insert_eq. split; [done|].
    destruct (is_closed n (connection s)) eqn:Hs; cbn; [done|].
    rewrite close_closed. split; [by rewrite close_other | done].
Qed.
End convergence.

(** ** Removing sessions *)

Section removal.
Context `{PeerApi} `{Transport} `{!TransportLaws} `{!PeerLaws}.

Lemma remove_and_close_lookup code reason st key key' :
  sessions (remove_and_close code reason st key) !! key' =
  if decide (key = key') then None else sessions st !! key'.
Proof.
  unfold remove_and_close. destruct (sessions st !! key) as [a|] eqn:E; cbn.
  - apply lookup_delete.
  - by case_decide; subst.
Qed.

Lemma remove_and_close_closed code reason st key c :
  is_closed (net (remove_and_close code reason st key)) c = true <->
  is_closed (net st) c = true \/ exists a, sessions st !! key = Some a /\ a_connection a = c.
Proof.
  unfold remove_and_close. destruct (sessions st !! key) as [a|] eqn:E; cbn; [|naive_solver].
  rewrite is_closed_close, orb_true_iff, bool_decide_eq_true. naive_solver.
Qed.

Lemma remove_all_lookup code reason keys st key :
  sessions (fold_left (remove_and_close code reason) keys st) !! key =
  if decide (key ∈ keys) then None else sessions st !! key.
Proof.
  revert st. induction keys as [|k keys IH]; intros st; cbn [fold_left].
  - by rewrite decide_False by set_solver.
  - rewrite IH, remove_and_close_lookup. repeat case_decide; set_solver.
Qed.

Lemma remove_all_closed code reason keys st c :
  is_closed (net (fold_left (remove_and_close code reason) keys st)) c = true <->
  is_closed (net st) c = true \/
  exists key a, key ∈ keys /\ sessions st !! key = Some a /\ a_connection a = c.
Proof.
  revert st. induction keys as [|k keys IH]; intros st; cbn [fold_left]; [set_solver|].
  rewrite IH, remove_and_close_closed. setoid_rewrite remove_and_close_lookup. split.
  - intros [[?|(a & ? & ?)]|(key & a & Hin & Hk & ?)]; [auto|right|right].
    + exists k, a. set_solver.
    + case_decide; [done|]. exists key, a. set_solver.
  - intros [?|(key & a & [->|Hin]%elem_of_cons & Hk & ?)]; [auto|left; right; eauto|].
    destruct (decide (k = key)) as [->|Hne]; [left; right; eauto|right].
    exists key, a. by rewrite decide_False.
Qed.

Lemma remove_all_arcs code reason keys st :
  arcs (fold_left (remove_and_close code reason) keys st) = arcs st.
Proof.
  revert st. induction keys as [|k keys IH]; intros st; cbn [fold_left]; [done|].
  rewrite IH. unfold remove_and_close. by case_match.
Qed.

Lemma elem_of_registry_keys st key :
  key ∈ registry_keys st <-> is_Some (sessions st !! key).
Proof.
  unfold registry_keys, sort. rewrite elem_of_sort_by, list_elem_of_fmap. split.
  - intros ([k a] & -> & Hin). apply elem_of_map_to_list in Hin. eauto.
  - intros [a Ha]. exists (key, a). by rewrite elem_of_map_to_list.
Qed.

Lemma NoDup_registry_keys st : NoDup (registry_keys st).
Proof.
  unfold registry_keys, sort. rewrite sort_by_Permutation. apply NoDup_fst_map_to_list.
Qed.

Lemma elem_of_keys_of device st key :
  key ∈ keys_of device st <-> key.1 = device /\ is_Some (sessions st !! key).
Proof.
  unfold keys_of. rewrite list_elem_of_In, filter_In, <- list_elem_of_In.
  rewrite elem_of_registry_keys, bool_decide_eq_true. tauto.
Qed.

(** One key per session kind: the count [disconnect] answers. *)
Lemma length_keys_of device st :
  length (keys_of device st) =
  length (filter (fun k => is_Some (sessions st !! (device, k))) all_kinds).
Proof.
  rewrite <- (length_fmap (pair device : SessionKind -> (DeviceId * SessionKind)) (filter _ _)).
  apply Permutation_length, NoDup_Permutation.
  - unfold keys_of. apply NoDup_ListNoDup, List.NoDup_filter, NoDup_ListNoDup,
      NoDup_registry_keys.
  - apply (NoDup_fmap_2 (pair device)), NoDup_filter.
    repeat constructor; set_solver.
  - intros [d k]. rewrite elem_of_keys_of, list_elem_of_fmap. setoid_rewrite list_elem_of_filter.
    split.
    + intros [E Hs]; cbn in E; subst. exists k. split_and!; [done..|]. destruct k; set_solver.
    + intros (k' & [= -> ->] & Hs & _). done.
Qed.

(** The connections of the entries that are kept are not touched. *)
Lemma remove_all_frame code reason keys st key a :
  registry_ok st -> sessions st !! key = Some a -> key ∉ keys ->
  is_closed (net (fold_left (remove_and_close code reason) keys st)) (a_connection a) =
  is_closed (net st) (a_connection a).
Proof.
  intros Hok Hk Hin. apply eq_true_iff_eq. rewrite remove_all_closed. split; [|auto].
  intros [?|(key' & a' & Hin' & Hk' & Hc)]; [done|].
  by rewrite (ro_entries_conn _ Hok _ _ _ _ Hk Hk' (eq_sym Hc)) in Hin.
Qed.

(** The fate of one entry when the keys of a list are removed. *)
Lemma remove_all_entry code reason keys st key a :
  registry_ok st -> sessions st !! key = Some a ->
  let st' := fold_left (remove_and_close code reason) keys st in
  if decide (key ∈ keys)
  then sessions st' !! key = None /\ conn_open st' (a_connection a) = false
  else sessions st' !! key = Some a /\
       conn_open st' (a_connection a) = conn_open st (a_connection a).
Proof.
  intros Hok Hk. cbv zeta. unfold conn_open. rewrite remove_all_lookup. case_decide.
  - split; [done|]. apply negb_false_iff, remove_all_closed. right. by exists key, a.
  - split; [done|]. f_equal. by eapply remove_all_frame.
Qed.

(** The same when the keys are all those of a device. *)
Lemma remove_device_entry code reason device st key a :
  registry_ok st -> sessions st !! key = Some a ->
  let st' := fold_left (remove_and_close code reason) (keys_of device st) st in
  if decide (key.1 = device)
  then sessions st' !! key = None /\ conn_open st' (a_connection a) = false
  else sessions st' !! key = Some a /\
       conn_open st' (a_connection a) = conn_open st (a_connection a).
Proof.
  intros Hok Hk. pose proof (remove_all_entry code reason (keys_of device st) _ _ _ Hok Hk) as Hall.
  cbv zeta in *. rewrite (decide_ext _ (key.1 = device)) in Hall; [done|].
  rewrite elem_of_keys_of, Hk. naive_solver.
Qed.

Lemma remove_device_absent code reason device st key :
  sessions st !! key = None ->
  sessions (fold_left (remove_and_close code reason) (keys_of device st) st) !! key = None.
Proof. intros Hk. rewrite remove_all_lookup, Hk. by case_decide. Qed.
End removal.

(** ** Concrete registries *)

Module SampleRegistry.
Import SamplePeer.

(** Connections are numbers, the transport the set of the closed ones. *)
#[export] Instance transport : Transport := {|
  Net := gset nat;
  Conn := nat;
  is_closed := fun n c => bool_decide (c ∈ n);
  close := fun c _ _ n => {[c]} ∪ n
|}.

#[export] Instance transport_laws : TransportLaws.
Proof.
  split; cbn; intros.
  - apply bool_decide_eq_true. set_solver.
  - apply bool_decide_ext. set_solver.
Qed.

Definition meta : DeviceMetadata := mkMetadata "desk" "linux" "m1".

Definition peer_of (device : string) : SessionPeer :=
  mkSessionPeer (dev device) ([] : list byte) meta [] 8765.

(** A direct session with [device], dialled by [initiator], over [c]. *)
Definition direct (device initiator : string) (instance : list byte) (k : SessionKind) (c : nat)
    : Session :=
  mkSession (Some instance) None None 1 k (peer_of device) "123456"
            (mkRank (dev initiator) [x01]) c 0.

Definition start : Registry := mkRegistry ∅ ∅ ∅.

Definition add (p : nat) (s : Session) (st : Registry) : Registry :=
  mkRegistry (net st) (<[p := s]> (arcs st)) (sessions st).

Lemma reachable_start : reachable start.
Proof. by constructor. Qed.

(** A registry in which nothing is registered reaches the one with another
    authenticated session. *)
Lemma reachable_add p s st :
  reachable st -> arcs st !! p = None ->
  bool_decide (map_Forall (fun _ t => connection t <> connection s) (arcs st)) = true ->
  bool_decide (map_Forall (fun _ a => a_session a <> p /\ a_connection a <> connection s)
                          (sessions st)) = true ->
  reachable (add p s st).
Proof.
  intros Hr Hp Ha Hs. apply bool_decide_eq_true in Ha, Hs.
  eapply reachable_step; [exact Hr|].
  apply step_authenticated; split.
  - done.
  - intros key a Hk. by destruct (Hs _ _ Hk).
  - intros q t Hq. by apply (Ha q).
  - intros key a Hk. by destruct (Hs _ _ Hk).
Qed.

Lemma reachable_register p s st :
  reachable st -> arcs st !! p = Some s -> reachable (register_session p s st).2.
Proof. intros Hr Hp. eapply reachable_step; [exact Hr | by apply step_register]. Qed.

(** Device "A" sees its own dial (pointer 1, connection 11) and the dial of
    "B" (pointer 2, connection 12). *)
Definition sA : Session := direct "B" "A" [x07] Control 11.
Definition tA : Session := direct "B" "B" [x07] Control 12.
Definition both_dials : Registry := add 2 tA (add 1 sA start).

Lemma both_dials_reachable : reachable both_dials.
Proof. repeat apply reachable_add; try apply reachable_start; by_evaluation. Qed.

(** "B" sees the same two sessions over its own handles, and a later process
    of "A". *)
Definition sB : Session := direct "A" "A" [x05] Control 21.
Definition tB : Session := direct "A" "B" [x05] Control 22.
Definition both_dials_B : Registry := add 4 tB (add 3 sB start).

Lemma both_dials_B_reachable : reachable both_dials_B.
Proof. repeat apply reachable_add; try apply reachable_start; by_evaluation. Qed.

Definition restarted : Session := direct "B" "B" [x09] Control 13.

(** "A" with its own dial registered and a session of a restarted "B"
    authenticated. *)
Definition with_restart : Registry :=
  add 3 restarted (register_session 1 sA both_dials).2.

Lemma with_restart_reachable : reachable with_restart.
Proof.
  apply reachable_add; [|by_evaluation..].
  apply reachable_register; [apply both_dials_reachable | done].
Qed.
End SampleRegistry.

(** ** Properties *)

Section properties.
Context `{PeerApi} `{Transport}.

(** C9. In every reachable registry an entry remembers at most 32 retired peer
    processes, without repetition and never the process it is serving; when
    its [Weak] handle still upgrades, the session found has the entry's key,
    connection, rank and process; and no two entries share a connection. *)
Theorem registry_invariant st key a :
  reachable st -> sessions st !! key = Some a ->
  (length (retired_peer_instances a) <= 32)%nat /\
  NoDup (retired_peer_instances a) /\
  (forall i, a_peer_process_instance_id a = Some i -> i ∉ retired_peer_instances a) /\
  (forall s, upgrade st (a_session a) = Some s ->
    session_key s = key /\ connection s = a_connection a /\ rank s = a_rank a /\
    peer_process_instance_id s = a_peer_process_instance_id a) /\
  (forall key' a', sessions st !! key' = Some a' -> a_connection a' = a_connection a -> key' = key).
Proof.
  intros Hr Hk. apply reachable_ok in Hr as Hok.
  destruct (ro_entries _ Hok _ _ Hk) as [? ? ? Hs]. split_and!; auto.
  - intros s Hu. destruct (Hs _ Hu) as [-> ->]. done.
  - intros key' a' Hk' E. by eapply (ro_entries_conn _ Hok).
Qed.

Context `{!TransportLaws}.

(** C10. [register_session] refines the arbitration rules of the specification:
    its answer, the entry it writes and the set of connections it closes are
    those of one rule of [arbitration], and nothing else of the registry
    changes. *)
Theorem register_session_refines st p s :
  reachable st -> arcs st !! p = Some s ->
  exists entry cs, arbitration st p s (register_session p s st).1 entry cs /\
    arbitrated st s entry cs (register_session p s st).2.
Proof. intros Hr. by apply register_session_arbitration, reachable_ok. Qed.

(** The session at [q] is the live session registered under the key of [s]
    in [st'], and it is the only one of [p] and the session [st] held there
    whose connection is still open. *)
Definition sole_survivor (st : Registry) (p : nat) (s : Session) (q : nat) (st' : Registry)
    : Prop :=
  exists a t,
    sessions st' !! session_key s = Some a /\ a_session a = q /\
    upgrade st' q = Some t /\ session_key t = session_key s /\
    conn_open st' (connection t) = true /\
    (q <> p -> conn_open st' (connection s) = false) /\
    (forall cur u, sessions st !! session_key s = Some cur -> a_session cur <> q ->
      upgrade st (a_session cur) = Some u -> conn_open st' (connection u) = false).

Lemma conn_open_closes st st' cs c :
  closes (net st) (net st') cs ->
  conn_open st' c = conn_open st c && negb (bool_decide (c ∈ cs)).
Proof. intros Hcl. unfold conn_open. by rewrite (Hcl c), negb_orb. Qed.

Lemma kept_survives st p s cur t st' :
  registry_ok st -> arcs st !! p = Some s ->
  sessions st !! session_key s = Some cur -> a_session cur <> p ->
  arcs st !! a_session cur = Some t -> conn_open st (connection t) = true ->
  arbitrated st s None [connection s] st' ->
  sole_survivor st p s (a_session cur) st'.
Proof.
  intros Hok Hp Hcur Hne Ht Ho (Hcl & Ha & Hs).
  destruct (eo_session _ _ _ (ro_entries _ Hok _ _ Hcur) _ Ht) as [Hkey _].
  exists cur, t. unfold upgrade. rewrite Ha, Hs, !(conn_open_closes _ _ _ _ Hcl).
  split_and!; try done.
  - rewrite Ho, bool_decide_false; [done|]. intros E%list_elem_of_singleton.
    apply Hne. by eapply (ro_arcs _ Hok).
  - intros _. rewrite bool_decide_true by set_solver. apply andb_false_r.
  - intros cur' u ? ?. by simplify_eq.
Qed.

Lemma inserted_survives st p s l cs st' :
  registry_ok st -> arcs st !! p = Some s -> conn_open st (connection s) = true ->
  (forall cur, sessions st !! session_key s = Some cur ->
     a_session cur <> p /\ (forall c, c ∈ cs -> c = a_connection cur) /\
     (is_Some (arcs st !! a_session cur) -> a_connection cur ∈ cs)) ->
  (sessions st !! session_key s = None -> cs = []) ->
  arbitrated st s (Some (active_of p s l)) cs st' ->
  sole_survivor st p s p st'.
Proof.
  intros Hok Hp Ho Hcur Hnone (Hcl & Ha & Hs).
  exists (active_of p s l), s. unfold upgrade. rewrite Ha, Hs, lookup_insert_eq.
  split_and!; try done.
  - rewrite (conn_open_closes _ _ _ _ Hcl), Ho, bool_decide_false; [done|]. intros Hin.
    destruct (sessions st !! session_key s) as [cur|] eqn:E; [|rewrite Hnone in Hin; set_solver].
    destruct (Hcur _ eq_refl) as (Hne & Hc & _). apply Hc in Hin. apply Hne. symmetry.
    by eapply (ro_entry_arc _ Hok).
  - intros cur u Hk Hne Hu. destruct (Hcur _ Hk) as (_ & _ & Hin).
    destruct (eo_session _ _ _ (ro_entries _ Hok _ _ Hk) _ Hu) as [_ Ea].
    rewrite (conn_open_closes _ _ _ _ Hcl), bool_decide_true; [apply andb_false_r|].
    assert (E : connection u = a_connection cur) by (by rewrite Ea). rewrite E. eauto.
Qed.

(** C6. When an open session is registered with success, the session answered
    is the one the registry now holds under its key, its connection is open,
    and the connection of the losing session (the one just registered, or the
    live session it replaced) is closed. *)
Theorem register_session_survivor st p s q st' :
  reachable st -> arcs st !! p = Some s -> conn_open st (connection s) = true ->
  register_session p s st = (Ok q, st') -> sole_survivor st p s q st'.
Proof.
  intros Hr Hp Ho Hreg. apply reachable_ok in Hr as Hok.
  destruct (register_session_arbitration st p s Hok Hp) as (e & cs & Harb & Hst).
  rewrite Hreg in Harb, Hst; cbn [fst snd] in *.
  inversion Harb; subst; try (by eapply kept_survives); try
    (eapply inserted_survives; [done..| | |done]; [intros ? ?; simplify_eq; set_solver | congruence]).
  - destruct Hst as (Hcl & Ha & Hs). exists current, s. unfold upgrade. rewrite Ha, Hs.
    split_and!; try done; [|intros ? ? ? ?; simplify_eq].
    rewrite (conn_open_closes _ _ _ _ Hcl), Ho. by rewrite bool_decide_false by set_solver.
  - eapply inserted_survives; [done..| | |done]; [|congruence].
    intros ? ?; simplify_eq. split_and!; [done|set_solver|]. intros [? ?]. congruence.
Qed.

(** Registering a session leaves every other key alone: its entry, and the
    state of its connection; and when the registration fails, no entry at all
    has changed and the connection of the rejected session is closed. *)
Theorem register_session_frame st p s r st' :
  reachable st -> arcs st !! p = Some s -> register_session p s st = (r, st') ->
  arcs st' = arcs st /\
  (forall key a, key <> session_key s -> sessions st !! key = Some a ->
     sessions st' !! key = Some a /\
     conn_open st' (a_connection a) = conn_open st (a_connection a)) /\
  (is_ok r = false ->
     sessions st' = sessions st /\ conn_open st' (connection s) = false).
Proof.
  intros Hr Hp Hreg. apply reachable_ok in Hr as Hok.
  destruct (register_session_arbitration st p s Hok Hp) as (e & cs & Harb & Hcl & Ha & Hs).
  rewrite Hreg in Harb, Hcl, Ha, Hs; cbn [fst snd] in *. split_and!; [done| |].
  - intros key a Hne Hk. split; [by rewrite Hs; case_match; [rewrite lookup_insert_ne|]|].
    rewrite (conn_open_closes _ _ _ _ Hcl), bool_decide_false; [apply andb_true_r|].
    intros Hin.
    assert (Hc : a_connection a = connection s \/
      exists cur, sessions st !! session_key s = Some cur /\ a_connection a = a_connection cur)
      by (inversion Harb; subst; set_solver).
    destruct Hc as [E|(cur & Hcur & E)]; [|by apply Hne; eapply (ro_entries_conn _ Hok)].
    pose proof (ro_entry_arc _ Hok _ _ _ _ Hk Hp E) as ->.
    by destruct (eo_session _ _ _ (ro_entries _ Hok _ _ Hk) _ Hp) as [? _].
  - intros Herr. inversion Harb; subst; try done.
    split; [done|]. rewrite (conn_open_closes _ _ _ _ Hcl), bool_decide_true by set_solver.
    apply andb_false_r.
Qed.

(** A session of a new process of the peer always takes the key over from
    the process that was serving it, whatever the ranks and paths; the old
    connection is closed and the old process is remembered as retired. *)
Theorem peer_restart_replaces st p s cur previous instance :
  reachable st -> arcs st !! p = Some s -> sessions st !! session_key s = Some cur ->
  a_peer_process_instance_id cur = Some previous ->
  peer_process_instance_id s = Some instance ->
  previous <> instance -> instance ∉ retired_peer_instances cur ->
  let (r, st') := register_session p s st in
  r = Ok p /\ conn_open st' (a_connection cur) = false /\
  exists a, sessions st' !! session_key s = Some a /\ a_session a = p /\
    a_peer_process_instance_id a = Some instance /\ previous ∈ retired_peer_instances a.
Proof.
  intros Hr Hp Hcur Hprev Hinst Hne Hnot. apply reachable_ok in Hr as Hok.
  assert (Hret : instance_retired s (retired_peer_instances cur) = false).
  { unfold instance_retired. rewrite Hinst. by rewrite bool_decide_false. }
  assert (Hrs : restarted_from cur s = Some previous).
  { unfold restarted_from. by rewrite Hprev, Hinst, decide_False. }
  destruct (register_session_arbitration st p s Hok Hp) as (e & cs & Harb & Hcl & Ha & Hs).
  destruct (register_session p s st) as [r st']; cbn [fst snd] in *.
  inversion Harb; subst; simplify_eq; try congruence.
  - destruct (registered_session_current _ _ _ _ (ro_entries _ Hok _ _ Hcur) Hp). congruence.
  - split_and!; [done| |].
    + rewrite (conn_open_closes _ _ _ _ Hcl), bool_decide_true by set_solver.
      apply andb_false_r.
    + eexists. rewrite Hs, lookup_insert_eq. split_and!; [done..|]. cbn.
      unfold next_retired. rewrite Hrs, trim_retired_drop, length_app; cbn.
      rewrite drop_app_le; [set_solver|].
      pose proof (eo_length _ _ _ (ro_entries _ Hok _ _ Hcur)).
      unfold MAX_RETIRED_PEER_INSTANCES in *. lia.
Qed.

(** C17. A handshake that completes late for a retired process never displaces
    anything: its connection is closed, every entry stays as it was and no
    registered connection is closed. *)
Theorem obsolete_process_cannot_return st p s cur instance :
  reachable st -> arcs st !! p = Some s -> sessions st !! session_key s = Some cur ->
  peer_process_instance_id s = Some instance -> instance ∈ retired_peer_instances cur ->
  let (r, st') := register_session p s st in
  sessions st' = sessions st /\ conn_open st' (connection s) = false /\
  (forall key a, sessions st !! key = Some a ->
     conn_open st' (a_connection a) = conn_open st (a_connection a)) /\
  (r = Ok (a_session cur) \/ is_ok r = false).
Proof.
  intros Hr Hp Hcur Hinst Hin. apply reachable_ok in Hr as Hok.
  assert (Hret : instance_retired s (retired_peer_instances cur) = true).
  { unfold instance_retired. rewrite Hinst. by rewrite bool_decide_true. }
  assert (Hne : a_session cur <> p).
  { intros <-. destruct (registered_session_current _ _ _ _ (ro_entries _ Hok _ _ Hcur) Hp).
    congruence. }
  assert (Hsame : forall key a, sessions st !! key = Some a -> a_connection a <> connection s).
  { intros key a Hk E. pose proof (ro_entry_arc _ Hok _ _ _ _ Hk Hp E) as ->.
    destruct (eo_session _ _ _ (ro_entries _ Hok _ _ Hk) _ Hp) as [Ek _].
    rewrite Ek in Hk. congruence. }
  destruct (register_session_arbitration st p s Hok Hp) as (e & cs & Harb & Hcl & Ha & Hs).
  destruct (register_session p s st) as [r st']; cbn [fst snd] in *.
  assert (Hcs : e = None /\ cs = [connection s] /\ (r = Ok (a_session cur) \/ is_ok r = false))
    by (inversion Harb; subst; simplify_eq; try congruence; auto).
  destruct Hcs as (-> & -> & Hres). split_and!; [done| | |done].
  - rewrite (conn_open_closes _ _ _ _ Hcl), bool_decide_true by set_solver. apply andb_false_r.
  - intros key a Hk. rewrite (conn_open_closes _ _ _ _ Hcl), bool_decide_false.
    + apply andb_true_r.
    + intros E%list_elem_of_singleton. by eapply Hsame.
Qed.
End properties.

Section more_properties.
Context `{PeerApi} `{Transport} `{!TransportLaws} `{!PeerLaws}.

(** C7. Two devices that dial each other at once converge: each registers the
    two sessions in its own order, the transport may close the losing
    connection at any moment in between, and both end up with the same
    session (the same rank, hence the same initiator), open on both sides,
    while the other one is closed on both sides.  Between two sessions of the
    same path the smaller rank wins. *)
Theorem opposing_dials_converge stA pA sA qA tA nA stB pB sB qB tB nB :
  opposing_dials stA pA sA qA tA -> opposing_dials stB pB sB qB tB ->
  (rank sA = rank sB /\ is_relayed sA = is_relayed sB /\
   rank tA = rank tB /\ is_relayed tA = is_relayed tB) ->
  let keepA := preferred sA tA in
  is_closed nA (connection (if keepA then sA else tA)) = false ->
  is_closed nB (connection (if keepA then sB else tB)) = false ->
  forall firstA firstB : bool,
  let stA' := if firstA then settle stA pA sA nA qA tA else settle stA qA tA nA pA sA in
  let stB' := if firstB then settle stB pB sB nB qB tB else settle stB qB tB nB pB sB in
  exists a b, sessions stA' !! session_key sA = Some a /\
    sessions stB' !! session_key sB = Some b /\
    a_rank a = a_rank b /\
    conn_open stA' (a_connection a) = true /\ conn_open stB' (a_connection b) = true /\
    conn_open stA' (connection (if keepA then tA else sA)) = false /\
    conn_open stB' (connection (if keepA then tB else sB)) = false /\
    (is_relayed sA = is_relayed tA ->
       cmp_le (a_rank a) (rank sA) = true /\ cmp_le (a_rank a) (rank tA) = true).
Proof.
  intros HA HB (Er & Ep & Er' & Ep') keepA HnA HnB firstA firstB stA' stB'.
  assert (Hpref : preferred sB tB = keepA) by (unfold keepA, preferred; congruence).
  assert (Hside : forall st p s q t n (first : bool),
    opposing_dials st p s q t ->
    is_closed n (connection (if preferred s t then s else t)) = false ->
    let st' := if first then settle st p s n q t else settle st q t n p s in
    sessions st' !! session_key s =
      Some (if preferred s t then active_of p s [] else active_of q t []) /\
    conn_open st' (connection (if preferred s t then s else t)) = true /\
    conn_open st' (connection (if preferred s t then t else s)) = false).
  { intros st p s q t n first Hod Hn. unfold conn_open. destruct first.
    - destruct (settle_preferred _ _ _ n _ _ Hod Hn) as (-> & -> & ->). done.
    - pose proof (preferred_antisym _ _ (od_initiators _ _ _ _ _ Hod)) as Hanti.
      assert (Hn' : is_closed n (connection (if preferred t s then t else s)) = false)
        by (rewrite Hanti; by destruct (preferred s t)).
      destruct (settle_preferred _ _ _ n _ _ (opposing_dials_sym _ _ _ _ _ Hod) Hn')
        as (Hs & Ho & Hc).
      rewrite Hanti in Hs, Ho, Hc. rewrite (od_key _ _ _ _ _ Hod).
      by destruct (preferred s t); cbn [negb] in *; rewrite Hs, Ho, Hc. }
  destruct (Hside _ _ _ _ _ _ firstA HA HnA) as (HsA & HoA & HcA). rewrite <- Hpref in HnB.
  destruct (Hside _ _ _ _ _ _ firstB HB HnB) as (HsB & HoB & HcB).
  rewrite Hpref in HsB, HoB, HcB. fold keepA in HsA, HoA, HcA. do 2 eexists.
  split; [exact HsA|]. split; [exact HsB|].
  split_and!; try done; destruct keepA eqn:Ek; cbn; try done.
  - intros Erel. unfold keepA, preferred in Ek. rewrite Erel, andb_comm, andb_negb_r in Ek.
    cbn in Ek. rewrite eqb_reflx in Ek. by rewrite cmp_le_refl.
  - intros Erel. unfold keepA, preferred in Ek. rewrite Erel, andb_comm, andb_negb_r in Ek.
    cbn in Ek. rewrite eqb_reflx in Ek. apply cmp_le_gt in Ek as [? _]. by rewrite cmp_le_refl.
Qed.

(** [active] answers a session exactly when the registry holds a live
    handle with an open connection for that device and kind; the session it
    answers is one of that device and kind.  Otherwise the entry is gone
    afterwards, and no other entry nor any connection is affected. *)
Theorem active_returns_live st device k :
  reachable st ->
  let (r, st') := active device k st in
  net st' = net st /\ arcs st' = arcs st /\
  (forall key, key <> (device, k) -> sessions st' !! key = sessions st !! key) /\
  match r with
  | Some p => sessions st' = sessions st /\ exists s, upgrade st p = Some s /\
      session_key s = (device, k) /\ conn_open st (connection s) = true
  | None => sessions st' !! (device, k) = None /\
      forall a s, sessions st !! (device, k) = Some a -> upgrade st (a_session a) = Some s ->
        conn_open st (connection s) = false
  end.
Proof.
  intros Hr. apply reachable_ok in Hr as Hok. unfold active.
  destruct (sessions st !! (device, k)) as [a|] eqn:Hk; cbn.
  2:{ split_and!; auto; [intros; by rewrite lookup_delete_ne | by rewrite lookup_delete_eq | done]. }
  destruct (upgrade st (a_session a)) as [s|] eqn:Hu; cbn.
  2:{ split_and!; auto; [intros; by rewrite lookup_delete_ne | by rewrite lookup_delete_eq |].
      intros ? ? [= <-]. congruence. }
  destruct (conn_open st (connection s)) eqn:Ho; cbn.
  - split_and!; auto. exists s. split_and!; auto.
    by destruct (eo_session _ _ _ (ro_entries _ Hok _ _ Hk) _ Hu) as [-> _].
  - split_and!; auto; [intros; by rewrite lookup_delete_ne | by rewrite lookup_delete_eq |].
    intros ? ? [= <-]. congruence.
Qed.

(** Forgetting a device removes every session registered for it, whatever
    its kind, and closes their connections; the sessions of other devices
    keep their entries and the state of their connections. *)
Theorem forget_tears_down st device :
  reachable st ->
  let st' := forget_sessions device st in
  (forall k, sessions st' !! (device, k) = None) /\
  (forall k a, sessions st !! (device, k) = Some a -> conn_open st' (a_connection a) = false) /\
  (forall key a, sessions st !! key = Some a -> key.1 <> device ->
     sessions st' !! key = Some a /\
     conn_open st' (a_connection a) = conn_open st (a_connection a)).
Proof.
  intros Hr. apply reachable_ok in Hr as Hok. cbv zeta. unfold forget_sessions.
  pose proof (fun key a => remove_device_entry 403 "peer forgotten" device st key a Hok) as He.
  cbv zeta in He. split_and!.
  - intros k. destruct (sessions st !! (device, k)) as [a|] eqn:E.
    + specialize (He _ _ E). rewrite decide_True in He by done. apply He.
    + by apply remove_device_absent.
  - intros k a Hk. specialize (He _ _ Hk). rewrite decide_True in He by done. apply He.
  - intros key a Hk Hne. specialize (He _ _ Hk). by rewrite decide_False in He.
Qed.

(** [disconnect] counts one session per kind registered for the device and
    has the effect of tearing exactly these down. *)
Theorem disconnect_counts st device reason :
  reachable st ->
  let (n, st') := disconnect device reason st in
  n = length (filter (fun k => is_Some (sessions st !! (device, k))) all_kinds) /\
  forall key, sessions st' !! key = (if decide (key.1 = device) then None else sessions st !! key) /\
    (forall a, sessions st !! key = Some a ->
       conn_open st' (a_connection a) =
       if decide (key.1 = device) then false else conn_open st (a_connection a)).
Proof.
  intros Hr. apply reachable_ok in Hr as Hok. unfold disconnect.
  split; [apply length_keys_of|]. intros key.
  destruct (sessions st !! key) as [a|] eqn:Hk.
  - pose proof (remove_device_entry 0 reason device st key a Hok Hk) as He. cbv zeta in He.
    case_decide; destruct He as [-> Ho]; split; auto; intros ? [= <-]; done.
  - rewrite remove_device_absent by done. split; [by case_decide | done].
Qed.

(** Granting cross-screen injection interrupts only the realtime-input
    session of the device; granting any other capability interrupts all of
    its sessions. *)
Theorem grant_interrupts st device capability :
  reachable st ->
  let st' := grant_sessions device capability st in
  forall key a, sessions st !! key = Some a ->
    if decide (key = (device, RealtimeInput) \/
               (key.1 = device /\ capability <> CrossScreenInject))
    then sessions st' !! key = None /\ conn_open st' (a_connection a) = false
    else sessions st' !! key = Some a /\
         conn_open st' (a_connection a) = conn_open st (a_connection a).
Proof.
  intros Hr. apply reachable_ok in Hr as Hok. cbv zeta. intros key a Hk.
  unfold grant_sessions. destruct (decide (capability = CrossScreenInject)) as [->|Hc].
  - pose proof (remove_all_entry 0 "authorization changed" [(device, RealtimeInput)] _ _ _ Hok Hk)
      as He. cbv zeta in He. cbn [fold_left] in He.
    rewrite (decide_ext _ (key ∈ [(device, RealtimeInput)])); [done | set_solver].
  - pose proof (remove_device_entry 0 "authorization changed" device _ _ _ Hok Hk) as He.
    cbv zeta in He. unfold disconnect. cbn [snd].
    rewrite (decide_ext _ (key.1 = device)); [done | naive_solver].
Qed.

(** [connected_peers] lists, in order and once each, the devices with at
    least one registered session whose connection is open. *)
Theorem connected_peers_spec st :
  StronglySorted (fun a b => cmp a b = Lt) (connected_peers st) /\
  forall d, d ∈ connected_peers st <->
    exists k a, sessions st !! (d, k) = Some a /\ conn_open st (a_connection a) = true.
Proof.
  unfold connected_peers. split; [apply sort_dedup_sorted|]. intros d.
  rewrite elem_of_sort_dedup, list_elem_of_In, in_map_iff. split.
  - intros ([d' k] & <- & Hin). apply filter_In in Hin as [_ Ho]. cbn.
    exists k. destruct (sessions st !! (d', k)) as [a|]; [eauto|done].
  - intros (k & a & Hk & Ho). exists (d, k). split; [done|]. apply filter_In.
    rewrite <- list_elem_of_In, elem_of_registry_keys, Hk. eauto.
Qed.
End more_properties.

Section dropped_handle.
Context `{PeerApi} `{Transport} `{!TransportLaws} `{!PeerLaws}.

(** A connection whose last [Session] handle was dropped while a raw
    transport handle keeps it open leaves the registry, still open, at the
    next [active] of its device and kind: forgetting the device afterwards
    does not close it. *)
Theorem dropped_handle_escapes_forget st device k a :
  reachable st -> sessions st !! (device, k) = Some a ->
  upgrade st (a_session a) = None -> conn_open st (a_connection a) = true ->
  conn_open (forget_sessions device (active device k st).2) (a_connection a) = true.
Proof.
  intros Hr Hk Hu Ho. apply reachable_ok in Hr as Hok.
  assert (E : (active device k st).2 =
    mkRegistry (net st) (arcs st) (delete (device, k) (sessions st))).
  { unfold active. by rewrite Hk, Hu. }
  rewrite E. unfold forget_sessions, conn_open in *. apply negb_true_iff in Ho.
  apply negb_true_iff, not_true_iff_false. rewrite remove_all_closed; cbn.
  intros [?|(key & b & _ & Hb & Hc)]; [congruence|].
  apply lookup_delete_Some in Hb as [Hne Hb].
  apply Hne. by eapply (ro_entries_conn _ Hok).
Qed.
End dropped_handle.

(** ** Witnesses *)

Section witnesses.
Import SamplePeer SampleRegistry.

Definition A_registered : Registry := (register_session 1%nat sA both_dials).2.

Lemma A_registered_reachable : reachable A_registered.
Proof. apply reachable_register; [apply both_dials_reachable | done]. Qed.

(** The registry of "A" once the restarted "B" has taken over, with a session
    of the old process completing late. *)
Definition late : Session := direct "B" "B" [x07] Control 14.
Definition with_late : Registry := add 4 late (register_session 3%nat restarted with_restart).2.

Lemma with_late_reachable : reachable with_late.
Proof.
  apply reachable_add; [|by_evaluation..].
  apply reachable_register; [apply with_restart_reachable | done].
Qed.

(** The handle of the registered session dropped. *)
Definition handle_dropped : Registry :=
  mkRegistry (net A_registered) (delete 1%nat (arcs A_registered)) (sessions A_registered).

Lemma handle_dropped_reachable : reachable handle_dropped.
Proof. eapply reachable_step; [apply A_registered_reachable | apply step_drop]. Qed.

Lemma registry_invariant_witness : exists a,
  sessions A_registered !! (dev "B", Control) = Some a /\ NoDup (retired_peer_instances a).
Proof.
  exists (active_of 1%nat sA []). split; [by_evaluation|].
  eapply (registry_invariant A_registered (dev "B", Control) (active_of 1%nat sA []));
    [apply A_registered_reachable | by_evaluation].
Defined.

Lemma register_session_refines_witness :
  exists entry cs, arbitration A_registered 2%nat tA (register_session 2%nat tA A_registered).1 entry cs.
Proof.
  destruct (register_session_refines A_registered 2%nat tA) as (e & cs & Ha & _);
    [apply A_registered_reachable | by_evaluation | by exists e, cs].
Defined.

(** "A" < "B": the dial of "A" is kept when the one of "B" is registered. *)
Lemma register_session_survivor_witness :
  sole_survivor A_registered 2%nat tA 1%nat (register_session 2%nat tA A_registered).2.
Proof.
  apply (register_session_survivor A_registered 2%nat tA 1%nat);
    [apply A_registered_reachable | by_evaluation | by_evaluation |].
  assert (E : (register_session 2%nat tA A_registered).1 = Ok 1%nat) by by_evaluation.
  rewrite <- E. apply surjective_pairing.
Defined.

Lemma register_session_frame_witness :
  arcs (register_session 2%nat tA A_registered).2 = arcs A_registered.
Proof.
  eapply (register_session_frame A_registered 2%nat tA);
    [apply A_registered_reachable | by_evaluation | apply surjective_pairing].
Defined.

Lemma peer_restart_replaces_witness :
  (register_session 3%nat restarted with_restart).1 = Ok 3%nat.
Proof.
  pose proof (peer_restart_replaces with_restart 3%nat restarted (active_of 1%nat sA []) [x07] [x09]
    with_restart_reachable eq_refl ltac:(by_evaluation) eq_refl eq_refl
    ltac:(discriminate) ltac:(apply not_elem_of_nil)) as Hp.
  destruct (register_session 3%nat restarted with_restart). apply Hp.
Defined.

Lemma obsolete_process_cannot_return_witness :
  conn_open (register_session 4%nat late with_late).2 14%nat = false.
Proof.
  pose proof (obsolete_process_cannot_return with_late 4%nat late
    (active_of 3%nat restarted [[x07]]) [x07] with_late_reachable eq_refl
    ltac:(by_evaluation) eq_refl ltac:(apply list_elem_of_singleton; reflexivity)) as Hp.
  destruct (register_session 4%nat late with_late). apply Hp.
Defined.

(** "A" and "B" register in opposite orders. *)
Lemma opposing_dials_converge_witness : exists a b,
  sessions (settle both_dials 1%nat sA ∅ 2%nat tA) !! (dev "B", Control) = Some a /\
  sessions (settle both_dials_B 4%nat tB ∅ 3%nat sB) !! (dev "A", Control) = Some b /\
  a_rank a = a_rank b.
Proof.
  destruct (opposing_dials_converge both_dials 1%nat sA 2%nat tA ∅ both_dials_B 3%nat sB 4%nat tB ∅)
    with (firstA := true) (firstB := false) as (a & b & Ha & Hb & Hab & _).
  - split; [apply both_dials_reachable | by_evaluation.. | discriminate
           | reflexivity | by_evaluation].
  - split; [apply both_dials_B_reachable | by_evaluation.. | discriminate
           | reflexivity | by_evaluation].
  - split_and!; by_evaluation.
  - vm_compute. reflexivity.
  - vm_compute. reflexivity.
  - exists a, b. auto.
Defined.

Lemma active_returns_live_witness : exists s,
  upgrade A_registered 1%nat = Some s /\ conn_open A_registered (connection s) = true.
Proof.
  pose proof (active_returns_live A_registered (dev "B") Control A_registered_reachable) as Hp.
  assert (E : (active (dev "B") Control A_registered).1 = Some 1%nat) by by_evaluation.
  destruct (active (dev "B") Control A_registered) as [r st']. cbn [fst] in E. subst r.
  destruct Hp as (_ & _ & _ & _ & s & Hu & _ & Ho). by exists s.
Defined.

Lemma forget_tears_down_witness :
  sessions (forget_sessions (dev "B") A_registered) !! (dev "B", Control) = None.
Proof. apply (forget_tears_down A_registered (dev "B") A_registered_reachable). Defined.

Lemma disconnect_counts_witness :
  (disconnect (dev "B") "bye" A_registered).1 = 1%nat.
Proof.
  pose proof (disconnect_counts A_registered (dev "B") "bye" A_registered_reachable) as Hp.
  destruct (disconnect (dev "B") "bye" A_registered) as [n st'].
  destruct Hp as [-> _]. vm_compute. reflexivity.
Defined.

Lemma grant_interrupts_witness :
  sessions (grant_sessions (dev "B") Inject A_registered) !! (dev "B", Control) =
  Some (active_of 1%nat sA []).
Proof.
  pose proof (grant_interrupts A_registered (dev "B") Inject A_registered_reachable
    (dev "B", Control) (active_of 1%nat sA []) ltac:(by_evaluation)) as Hp.
  rewrite decide_False in Hp; [apply Hp | intros [?|[_ ?]]; [discriminate|done]].
Defined.

Lemma connected_peers_spec_witness : dev "B" ∈ connected_peers A_registered.
Proof.
  apply (proj2 (connected_peers_spec A_registered)).
  exists Control, (active_of 1%nat sA []). split; by_evaluation.
Defined.

Lemma dropped_handle_escapes_forget_witness :
  conn_open (forget_sessions (dev "B") (active (dev "B") Control handle_dropped).2) 11%nat
  = true.
Proof.
  apply (dropped_handle_escapes_forget handle_dropped (dev "B") Control
    (active_of 1%nat sA [])); [apply handle_dropped_reachable | by_evaluation..].
Defined.
End witnesses.
