(* ===== verification/Endpoint.v ===== *)
(** * Endpoint

    Remembered endpoints (endpoint.rs): the sources and their stored codes, the
    repository interface as a class with the laws its clients rely on, and the
    in-memory implementation, which discharges them.  The current time in
    milliseconds is an argument of each operation. *)

From S2P Require Import Prelude Errors Addr Peer.

(** ** Data *)

Inductive EndpointSource := Mdns | Inbound | History | Scan | Manual | Relayed.

#[export] Instance EndpointSource_eq_dec : EqDecision EndpointSource.
Proof. solve_decision. Defined.

(** [EndpointSource::encode] *)
Definition encode_source (s : EndpointSource) : Z :=
  match s with
  | Mdns => 1
  | Inbound => 2
  | History => 3
  | Scan => 4
  | Manual => 5
  | Relayed => 6
  end.

(** [EndpointSource::decode] *)
Definition decode_source (value : Z) : net_result EndpointSource :=
  match value with
  | 1 => Ok Mdns
  | 2 => Ok Inbound
  | 3 => Ok History
  | 4 => Ok Scan
  | 5 => Ok Manual
  | 6 => Ok Relayed
  | _ => Err (Repository "unknown remembered endpoint source")
  end.

Section data.
Context `{PeerApi}.

Record RememberedEndpoint := mkEndpoint {
  ep_peer_id : DeviceId;
  ep_address : SocketAddr;
  ep_certificate_sha256 : list byte;
  ep_source : EndpointSource;
  ep_network_scope : string;
  first_seen_at_ms : Z;
  last_seen_at_ms : Z;
  last_success_at_ms : Z;
  consecutive_failures : Z;
  retry_after_ms : Z
}.

#[export] Instance RememberedEndpoint_eq_dec : EqDecision RememberedEndpoint.
Proof. solve_decision. Defined.
End data.

(** ** The repository interface *)

(** [trait EndpointRepository]; [S] is the state behind the trait object. *)
Class EndpointRepository `{PeerApi} (S : Type) := {
  endpoints : Z -> DeviceId -> S -> net_result (list RememberedEndpoint) * S;
  record_authenticated :
    Z -> DeviceId -> SocketAddr -> list byte -> EndpointSource -> S -> net_result unit * S;
  record_failure : Z -> DeviceId -> SocketAddr -> S -> net_result unit * S;
  forget_endpoints : DeviceId -> S -> net_result unit * S
}.

Section spec.
Context `{PeerApi}.

(** What a failed dial does to an endpoint. *)
Definition back_off (now : Z) (e : RememberedEndpoint) : RememberedEndpoint :=
  let failures := u32_saturating_add (consecutive_failures e) 1 in
  mkEndpoint (ep_peer_id e) (ep_address e) (ep_certificate_sha256 e) (ep_source e)
    (ep_network_scope e) (first_seen_at_ms e) (last_seen_at_ms e) (last_success_at_ms e)
    failures (i64_saturating_add now (Z.shiftl 1 (Z.min failures 8) * 1000)).

(** What an authenticated session leaves, over the previous entry if any. *)
Definition authenticated (now : Z) (peer : DeviceId) (address : SocketAddr) (cert : list byte)
    (source : EndpointSource) (previous : option RememberedEndpoint) : RememberedEndpoint :=
  mkEndpoint
    (match previous with Some e => ep_peer_id e | None => peer end)
    (match previous with Some e => ep_address e | None => address end)
    cert source (network_scope address)
    (match previous with Some e => first_seen_at_ms e | None => now end)
    now now 0 0.
End spec.

(** The laws, over a view [stored] of the entries a repository holds and an
    invariant [repo_ok].  A repository may evict entries of the peer it records
    for, but not the entry it records when that is the most recent one. *)
Class EndpointRepositoryLaws `{PeerApi} (S : Type) `{!EndpointRepository S} := {
  repo_ok : S -> Prop;
  stored : S -> DeviceId -> SocketAddr -> option RememberedEndpoint;

  stored_keys : forall s p a e, repo_ok s -> stored s p a = Some e ->
    ep_peer_id e = p /\ ep_address e = a;

  endpoints_frame : forall now p s r s', repo_ok s -> endpoints now p s = (r, s') ->
    repo_ok s' /\ forall q a, stored s' q a = stored s q a;
  endpoints_spec : forall now p s l s', repo_ok s -> endpoints now p s = (Ok l, s') ->
    (length l <= 16)%nat /\ NoDup (map ep_address l) /\
    forall e, e ∈ l -> stored s p (ep_address e) = Some e /\ retry_after_ms e <= now;

  record_failure_spec : forall now p a s r s', in_i64 now -> plain_address a -> repo_ok s ->
    record_failure now p a s = (r, s') ->
    repo_ok s' /\
    forall q b, stored s' q b =
      if decide (is_ok r = true /\ q = p /\ b = a) then back_off now <$> stored s q b
      else stored s q b;

  record_authenticated_spec : forall now p a cert source s r s', in_i64 now -> plain_address a -> blen cert = 32 ->
    repo_ok s ->
    record_authenticated now p a cert source s = (r, s') ->
    repo_ok s' /\
    (forall q b, is_ok r = false \/ q <> p -> stored s' q b = stored s q b) /\
    (forall b e, is_ok r = true -> stored s' p b = Some e ->
       if decide (b = a) then e = authenticated now p a cert source (stored s p a)
       else stored s p b = Some e) /\
    (is_ok r = true -> (forall b e, stored s p b = Some e -> last_success_at_ms e < now) ->
       is_Some (stored s' p a));

  forget_endpoints_spec : forall p s r s', repo_ok s -> forget_endpoints p s = (r, s') ->
    repo_ok s' /\
    forall q b, stored s' q b =
      if decide (is_ok r = true /\ q = p) then None else stored s q b
}.

(** ** The in-memory repository *)

Section in_memory.
Context `{PeerApi}.

Abbreviation InMemory := (gmap DeviceId (list RememberedEndpoint)).

(** The comparator of [endpoints]: latest success, then latest sighting. *)
Definition recent_first (left right : RememberedEndpoint) : bool :=
  not_gt (then_with (cmp (last_success_at_ms right) (last_success_at_ms left))
                    (cmp (last_seen_at_ms right) (last_seen_at_ms left))).

Definition mem_endpoints (now : Z) (peer_id : DeviceId) (all : InMemory)
    : net_result (list RememberedEndpoint) * InMemory :=
  let endpoints := default [] (all !! peer_id) in
  let endpoints := List.filter (fun e => retry_after_ms e <=? now) endpoints in
  let endpoints := sort_by recent_first endpoints in
  (Ok (take 16 endpoints), all).

Definition at_address (address : SocketAddr) (e : RememberedEndpoint) : bool :=
  bool_decide (ep_address e = address).

(** [sort_by_key(|endpoint| Reverse(endpoint.last_success_at_ms))] *)
Definition success_first (left right : RememberedEndpoint) : bool :=
  cmp_le (last_success_at_ms right) (last_success_at_ms left).

Definition mem_record_authenticated (now : Z) (peer_id : DeviceId) (address : SocketAddr)
    (certificate_sha256 : list byte) (source : EndpointSource) (all : InMemory)
    : net_result unit * InMemory :=
  let endpoints := default [] (all !! peer_id) in
  let endpoints :=
    match find_first (at_address address) endpoints with
    | Some _ =>
        update_first (at_address address) (fun endpoint =>
          mkEndpoint (ep_peer_id endpoint) (ep_address endpoint) certificate_sha256 source
            (network_scope address) (first_seen_at_ms endpoint) now now 0 0) endpoints
    | None =>
        endpoints ++ [mkEndpoint peer_id address certificate_sha256 source
                                 (network_scope address) now now now 0 0]
    end in
  let endpoints := sort_by success_first endpoints in
  (Ok tt, <[peer_id := take 16 endpoints]> all).

Definition mem_record_failure (now : Z) (peer_id : DeviceId) (address : SocketAddr) (all : InMemory)
    : net_result unit * InMemory :=
  match all !! peer_id with
  | Some endpoints =>
      (Ok tt, <[peer_id := update_first (at_address address) (fun endpoint =>
        let failures := u32_saturating_add (consecutive_failures endpoint) 1 in
        let exponent := Z.min failures 8 in
        mkEndpoint (ep_peer_id endpoint) (ep_address endpoint) (ep_certificate_sha256 endpoint)
          (ep_source endpoint) (ep_network_scope endpoint) (first_seen_at_ms endpoint)
          (last_seen_at_ms endpoint) (last_success_at_ms endpoint)
          failures (i64_saturating_add now (Z.shiftl 1 exponent * 1000))) endpoints]> all)
  | None => (Ok tt, all)
  end.

Definition mem_forget (peer_id : DeviceId) (all : InMemory) : net_result unit * InMemory :=
  (Ok tt, delete peer_id all).

#[export] Instance in_memory_repository : EndpointRepository InMemory := {|
  endpoints := mem_endpoints;
  record_authenticated := mem_record_authenticated;
  record_failure := mem_record_failure;
  forget_endpoints := mem_forget
|}.

(** *** Invariant *)

Record list_ok (peer : DeviceId) (l : list RememberedEndpoint) : Prop := {
  lo_length : (length l <= 16)%nat;
  lo_nodup : NoDup (map ep_address l);
  lo_peer : forall e, e ∈ l -> ep_peer_id e = peer;
  lo_failures : forall e, e ∈ l -> in_u32 (consecutive_failures e)
}.

Definition mem_ok (all : InMemory) : Prop := forall p l, all !! p = Some l -> list_ok p l.

Definition mem_stored (all : InMemory) (p : DeviceId) (a : SocketAddr) : option RememberedEndpoint :=
  find_first (at_address a) (default [] (all !! p)).
End in_memory.

(** ** Facts *)

Section facts.
Context `{PeerApi}.

Lemma success_first_total x y : success_first x y = true \/ success_first y x = true.
Proof. apply cmp_le_total. Qed.

Lemma success_first_trans x y z :
  success_first x y = true -> success_first y z = true -> success_first x z = true.
Proof. unfold success_first. intros ? ?. by eapply cmp_le_trans. Qed.

(** In a list without repeated addresses, [find] is membership. *)
Lemma find_address (l : list RememberedEndpoint) a e :
  NoDup (map ep_address l) ->
  find_first (at_address a) l = Some e <-> e ∈ l /\ ep_address e = a.
Proof.
  unfold at_address. induction l as [|x l IH]; cbn; [set_solver|].
  intros [Hx Hl]%NoDup_cons. case_bool_decide as Ha.
  - split; [intros [= <-]; set_solver|]. intros [[->|Hin]%elem_of_cons He]; [done|].
    exfalso. apply Hx. rewrite Ha, <- He. apply list_elem_of_In, in_map, list_elem_of_In. done.
  - rewrite IH by done. set_solver.
Qed.

Lemma update_address (l : list RememberedEndpoint) a f e :
  NoDup (map ep_address l) ->
  e ∈ update_first (at_address a) f l <->
  (exists x, x ∈ l /\ ep_address x = a /\ e = f x) \/ (e ∈ l /\ ep_address e <> a).
Proof.
  unfold at_address. induction l as [|x l IH]; cbn; [set_solver|].
  intros [Hx Hl]%NoDup_cons. case_bool_decide as Ha.
  - rewrite !elem_of_cons. split.
    + intros [->|Hin]; [set_solver|]. right. split; [by right|]. intros He. apply Hx.
      rewrite Ha, <- He. apply list_elem_of_In, in_map, list_elem_of_In. done.
    + intros [(y & Hy & Hya & ->)|[[->|?] ?]]; [|done|by right].
      apply elem_of_cons in Hy as [->|Hy]; [by left|]. exfalso. apply Hx.
      rewrite Ha, <- Hya. apply list_elem_of_In, in_map, list_elem_of_In. done.
  - rewrite !elem_of_cons, IH by done. set_solver.
Qed.

Lemma find_address_ext (l k : list RememberedEndpoint) a b :
  NoDup (map ep_address l) -> NoDup (map ep_address k) ->
  (forall e, e ∈ l /\ ep_address e = a <-> e ∈ k /\ ep_address e = b) ->
  find_first (at_address a) l = find_first (at_address b) k.
Proof.
  intros Hl Hk He. apply option_eq. intros e. by rewrite !find_address.
Qed.

(** *** What keeps [list_ok] *)

Lemma addresses_update (l : list RememberedEndpoint) a f :
  (forall e, ep_address (f e) = ep_address e) ->
  map ep_address (update_first (at_address a) f l) = map ep_address l.
Proof. intros Hf. by apply map_update_first. Qed.

Lemma list_ok_update p l a f :
  list_ok p l ->
  (forall e, ep_address (f e) = ep_address e /\ ep_peer_id (f e) = ep_peer_id e) ->
  (forall e, in_u32 (consecutive_failures e) -> in_u32 (consecutive_failures (f e))) ->
  list_ok p (update_first (at_address a) f l).
Proof.
  intros [Hl Hn Hp Hf] Hk Hu. split.
  - by rewrite length_update_first.
  - rewrite addresses_update; [done | apply Hk].
  - intros e He. apply update_address in He as [(x & Hx & _ & ->)|[He _]]; auto.
    rewrite (proj2 (Hk x)). auto.
  - intros e He. apply update_address in He as [(x & Hx & _ & ->)|[He _]]; auto.
Qed.

Lemma list_ok_take p (l : list RememberedEndpoint) :
  NoDup (map ep_address l) ->
  (forall e, e ∈ l -> ep_peer_id e = p /\ in_u32 (consecutive_failures e)) ->
  list_ok p (take 16 (sort_by success_first l)).
Proof.
  intros Hn He. set (k := sort_by success_first l).
  assert (Hk : NoDup (map ep_address k)) by (unfold k; by rewrite sort_by_Permutation).
  assert (Hs : forall e, e ∈ take 16 k -> e ∈ l).
  { intros e Hin. apply subseteq_take in Hin. by apply elem_of_sort_by in Hin. }
  split.
  - rewrite length_take. lia.
  - rewrite <- (take_drop 16 k), map_app in Hk. by apply NoDup_app in Hk as [? _].
  - intros e Hin. apply He. auto.
  - intros e Hin. apply He. auto.
Qed.

Lemma list_ok_nil p : list_ok p [].
Proof. split; cbn; auto using NoDup_nil_2 with lia; set_solver. Qed.

Lemma mem_ok_default all p : mem_ok all -> list_ok p (default [] (all !! p)).
Proof.
  intros Hok. destruct (all !! p) as [l|] eqn:E; cbn; [by apply Hok | apply list_ok_nil].
Qed.

(** The list [record_authenticated] sorts. *)
Definition touched (now : Z) (p : DeviceId) a cert src (l : list RememberedEndpoint)
    : list RememberedEndpoint :=
  match find_first (at_address a) l with
  | Some _ => update_first (at_address a) (fun e =>
      mkEndpoint (ep_peer_id e) (ep_address e) cert src
        (network_scope a) (first_seen_at_ms e) now now 0 0) l
  | None => l ++ [mkEndpoint p a cert src (network_scope a) now now now 0 0]
  end.

Lemma touched_nodup now p a cert src l :
  NoDup (map ep_address l) -> NoDup (map ep_address (touched now p a cert src l)).
Proof.
  intros Hn. unfold touched. destruct (find_first (at_address a) l) eqn:E.
  - by rewrite addresses_update.
  - rewrite map_app. apply NoDup_app. split_and!; [done| |apply NoDup_singleton].
    intros b (x & <- & Hx)%list_elem_of_In%in_map_iff Hb.
    apply list_elem_of_singleton in Hb. rewrite find_first_None, Forall_forall in E.
    apply list_elem_of_In in Hx. apply E in Hx. unfold at_address in Hx.
    apply bool_decide_eq_false in Hx. done.
Qed.

(** The entry of the address is the fresh one, the others are as before. *)
Lemma elem_of_touched now p a cert src l e :
  list_ok p l ->
  e ∈ touched now p a cert src l <->
  e = authenticated now p a cert src (find_first (at_address a) l) \/
  (e ∈ l /\ ep_address e <> a).
Proof.
  intros Hok. unfold touched. destruct (find_first (at_address a) l) as [x|] eqn:E.
  - rewrite update_address by apply Hok. apply find_address in E as [Hx Ha]; [|apply Hok].
    split; intros [Hl|Hr]; auto; left.
    + destruct Hl as (y & Hy & Hya & ->). f_equal.
      assert (Exy : find_first (at_address a) l = Some y) by (apply find_address; [apply Hok|done]).
      assert (Exx : find_first (at_address a) l = Some x) by (apply find_address; [apply Hok|done]).
      assert (x = y) as -> by congruence. done.
    + exists x. subst e. auto.
  - rewrite elem_of_app, list_elem_of_singleton. unfold authenticated. cbn.
    rewrite find_first_None, Forall_forall in E.
    assert (Hne : forall y, y ∈ l -> ep_address y <> a).
    { intros y Hy Ha. apply E in Hy. unfold at_address in Hy. by rewrite bool_decide_true in Hy. }
    split; intros [?|?]; auto; [by left..|]. tauto.
Qed.

Lemma authenticated_key now p a cert src l :
  list_ok p l ->
  let e := authenticated now p a cert src (find_first (at_address a) l) in
  ep_peer_id e = p /\ ep_address e = a.
Proof.
  intros Hok. cbn. destruct (find_first (at_address a) l) as [x|] eqn:E; cbn; [|done].
  apply find_address in E as [Hx Ha]; [|apply Hok]. split; [by apply Hok | done].
Qed.

Lemma touched_ok now p a cert src l :
  list_ok p l -> list_ok p (take 16 (sort_by success_first (touched now p a cert src l))).
Proof.
  intros Hok. apply list_ok_take; [by apply touched_nodup, Hok|].
  intros e He. apply elem_of_touched in He as [->|[He _]]; [|by split; apply Hok|done].
  split; [by apply authenticated_key|]. unfold authenticated, in_u32, u32_max; cbn. lia.
Qed.

(** An endpoint more recent than every other one heads the sorted list. *)
Lemma most_recent_kept (l : list RememberedEndpoint) e :
  e ∈ l -> (forall x, x ∈ l -> x <> e -> last_success_at_ms x < last_success_at_ms e) ->
  e ∈ take 16 (sort_by success_first l).
Proof.
  intros He Hmax.
  destruct (sort_by_least _ success_first_total success_first_trans e l He) as [k ->];
    [|cbn; set_solver].
  intros x Hx Hne. specialize (Hmax x Hx Hne). unfold success_first, cmp_le, cmp, Z_cmp.
  by rewrite (proj2 (Z.compare_gt_iff _ _)).
Qed.

Lemma recent_first_key x y :
  recent_first x y =
  cmp_le (last_success_at_ms y, last_seen_at_ms y) (last_success_at_ms x, last_seen_at_ms x).
Proof. done. Qed.

Lemma recent_first_total x y : recent_first x y = true \/ recent_first y x = true.
Proof. rewrite !recent_first_key. apply cmp_le_total. Qed.

Lemma recent_first_trans x y z :
  recent_first x y = true -> recent_first y z = true -> recent_first x z = true.
Proof. rewrite !recent_first_key. intros ? ?. by eapply cmp_le_trans. Qed.

Lemma recent_first_older x e :
  last_success_at_ms x < last_success_at_ms e -> recent_first x e = false.
Proof.
  intros Hlt. unfold recent_first, cmp, Z_cmp. by rewrite (proj2 (Z.compare_gt_iff _ _)).
Qed.
End facts.

(** ** The in-memory repository discharges the interface *)

Section laws.
Context `{PeerApi}.

Lemma mem_stored_find all p a :
  mem_stored all p a = find_first (at_address a) (default [] (all !! p)).
Proof. done. Qed.

Lemma mem_stored_insert (all : gmap DeviceId (list RememberedEndpoint)) p l q a :
  mem_stored (<[p := l]> all) q a =
  if decide (q = p) then find_first (at_address a) l else mem_stored all q a.
Proof.
  unfold mem_stored. rewrite lookup_insert. case_decide as E; case_decide; subst; done.
Qed.

Lemma mem_ok_insert (all : gmap DeviceId (list RememberedEndpoint)) p l :
  mem_ok all -> list_ok p l -> mem_ok (<[p := l]> all).
Proof. intros Hok Hl q k. rewrite lookup_insert. case_decide; [intros [= <-]; by subst|eauto]. Qed.

Lemma elem_of_mem_endpoints now p (all : gmap DeviceId (list RememberedEndpoint)) e l s' :
  mem_ok all -> mem_endpoints now p all = (Ok l, s') ->
  e ∈ l <-> e ∈ default [] (all !! p) /\ retry_after_ms e <= now.
Proof.
  intros Hok [= <- _]. pose proof (mem_ok_default _ p Hok) as Hl.
  rewrite take_ge.
  - rewrite elem_of_sort_by, list_elem_of_In, filter_In, <- list_elem_of_In, Z.leb_le. done.
  - rewrite length_sort_by. etransitivity; [apply filter_length_le | apply Hl].
Qed.

Lemma back_off_update now a e l :
  list_ok e l ->
  forall b, find_first (at_address b) (update_first (at_address a) (back_off now) l) =
    if decide (b = a) then back_off now <$> find_first (at_address b) l
    else find_first (at_address b) l.
Proof.
  intros Hok b. assert (Hn : NoDup (map ep_address (update_first (at_address a) (back_off now) l)))
    by (rewrite addresses_update; [apply Hok | done]).
  apply option_eq. intros x. rewrite find_address, update_address by (done || apply Hok).
  case_decide as Hb.
  - rewrite fmap_Some. setoid_rewrite find_address; [|apply Hok]. subst b. split.
    + intros [[(y & ? & ? & ->)|[? ?]] ?]; naive_solver.
    + intros (y & [? ?] & ->). naive_solver.
  - rewrite find_address by apply Hok. split.
    + intros [[(y & ? & ? & ->)|[? ?]] Ha]; [cbn in Ha; congruence | done].
    + intros [? ?]. split; [right; split; [done|congruence] | done].
Qed.

#[export] Program Instance in_memory_laws :
  EndpointRepositoryLaws (gmap DeviceId (list RememberedEndpoint)) := {|
  repo_ok := mem_ok;
  stored := mem_stored
|}.
Next Obligation.
  intros s p a e Hok Hs. unfold mem_stored in Hs. apply mem_ok_default with (p := p) in Hok as Hl.
  apply find_address in Hs as [Hin Ha]; [|apply Hl]. split; [by apply Hl | done].
Qed.
Next Obligation. intros now p s r s' Hok [= _ <-]. done. Qed.
Next Obligation.
  intros now p s l s' Hok E. pose proof (mem_ok_default _ p Hok) as Hl. split_and!.
  - injection E as <- _. rewrite length_take. lia.
  - injection E as <- _. set (k := sort_by _ _).
    assert (Hk : NoDup (map ep_address k)).
    { unfold k. rewrite sort_by_Permutation.
      pose proof (lo_nodup _ _ Hl) as Hn. generalize (default [] (s !! p)) Hn.
      intros m. induction m as [|x m IH]; cbn; [done|]. intros [Hx Hm]%NoDup_cons.
      case_match; cbn; auto. apply NoDup_cons. split; auto.
      intros (y & Ey & [Hy _]%filter_In)%list_elem_of_In%in_map_iff. apply Hx.
      apply list_elem_of_In, in_map_iff. eauto. }
    rewrite <- (take_drop 16 k), map_app in Hk. by apply NoDup_app in Hk as [? _].
  - intros e He. apply (elem_of_mem_endpoints now p s e l s' Hok E) in He as [Hin Hr].
    split; [|done]. by apply find_address; [apply Hl|].
Qed.
Next Obligation.
  intros now p a s r s' _ _ Hok E. cbn in E. unfold mem_record_failure in E.
  destruct (s !! p) as [l|] eqn:Hp; injection E as <- <-.
  - fold (back_off now). specialize (Hok _ _ Hp) as Hl. split.
    + apply mem_ok_insert, list_ok_update; try done.
      intros e. unfold back_off, in_u32, u32_saturating_add, u32_max; cbn [consecutive_failures]. lia.
    + intros q b. rewrite mem_stored_insert. case_decide as Hq; cbn.
      * subst q. rewrite (back_off_update now a p l Hl), mem_stored_find, Hp.
        cbn. apply decide_ext. naive_solver.
      * rewrite decide_False; naive_solver.
  - split; [done|]. intros q b. case_decide as Hd; [|done].
    destruct Hd as (_ & -> & ->). by rewrite mem_stored_find, Hp.
Qed.
Next Obligation.
  intros now p a cert src s r s' _ _ _ Hok E. cbn in E. unfold mem_record_authenticated in E.
  pose proof (mem_ok_default _ p Hok) as Hl. fold (touched now p a cert src (default [] (s !! p))) in E.
  injection E as <- <-. pose proof (touched_ok now p a cert src _ Hl) as Ht. split_and!.
  - by apply mem_ok_insert.
  - intros q b [?|Hq]; [done|]. rewrite mem_stored_insert. by rewrite decide_False.
  - intros b e _. rewrite mem_stored_insert, decide_True by done. intros Hb.
    apply find_address in Hb as [Hb Hba]; [|apply Ht].
    apply subseteq_take, elem_of_sort_by, elem_of_touched in Hb as [Hb|[Hb Hba']]; [| |done].
    + rewrite decide_True; [done|].
      destruct (authenticated_key now p a cert src _ Hl) as [_ Ea]. congruence.
    + rewrite decide_False by congruence. rewrite mem_stored_find.
      by apply find_address; [apply Hl|].
  - intros _ Hlt. rewrite mem_stored_insert, decide_True by done.
    exists (authenticated now p a cert src (mem_stored s p a)).
    apply find_address; [apply Ht|]. split; [|by apply authenticated_key].
    apply most_recent_kept; [by apply elem_of_touched; [|left]|].
    intros x Hx Hne. apply elem_of_touched in Hx as [->|[Hx _]]; [done| |done].
    cbn. apply (Hlt (ep_address x)). by apply find_address; [apply Hl|].
Qed.
Next Obligation.
  intros p s r s' Hok [= <- <-]. split.
  - intros q l [_ Hq]%lookup_delete_Some. eauto.
  - intros q b. unfold mem_stored. rewrite lookup_delete.
    case_decide as E; case_decide as E'; naive_solver.
Qed.
End laws.

(** ** Properties *)

(** Reading a stored source code gives back the source, and no other code
    is accepted. *)
Theorem source_code_roundtrip (value : Z) (s : EndpointSource) :
  decode_source value = Ok s <-> value = encode_source s.
Proof.
  split; [|intros ->; by destruct s]. intros Hd. unfold decode_source in Hd.
  repeat case_match; try discriminate; injection Hd as <-; reflexivity.
Qed.

Section client.
Context `{PeerApi} {S : Type} `{!EndpointRepository S} `{!EndpointRepositoryLaws S}.

(** The delay of a back-off after [n] earlier failures in a row. *)
Definition delay_ms (n : Z) : Z := 1000 * 2 ^ Z.min (n + 1) 8.

Lemma delay_bounds n : 0 <= n -> 2000 <= delay_ms n <= 256000.
Proof.
  intros Hn. unfold delay_ms.
  assert (2 ^ 1 <= 2 ^ Z.min (n + 1) 8 <= 2 ^ 8) by (split; apply Z.pow_le_mono_r; lia). lia.
Qed.

Lemma back_off_retry now e :
  in_i64 now -> now + 256000 <= i64_max -> in_u32 (consecutive_failures e) ->
  retry_after_ms (back_off now e) = now + delay_ms (consecutive_failures e).
Proof.
  unfold in_i64, in_u32. intros Hn Hmax Hf. unfold back_off; cbn [retry_after_ms].
  assert (E : Z.min (u32_saturating_add (consecutive_failures e) 1) 8
    = Z.min (consecutive_failures e + 1) 8) by (unfold u32_saturating_add, u32_max in *; lia).
  rewrite E, Z.shiftl_mul_pow2, Z.mul_1_l, (Z.mul_comm _ 1000) by lia.
  pose proof (delay_bounds (consecutive_failures e) ltac:(lia)) as Hd.
  unfold delay_ms in *. unfold i64_saturating_add, i64_saturate, i64_min, i64_max in *. lia.
Qed.

(** Whatever repository is plugged in, an endpoint whose dial failed is not
    offered again before its delay has passed: two seconds after the first
    failure, doubled by each further one, never more than 256 seconds.  The
    endpoints of other peers and the other endpoints of the peer are not
    affected. *)
Theorem failed_endpoint_backs_off now p a s s1 e :
  repo_ok s -> in_i64 now -> now + 256000 <= i64_max -> plain_address a ->
  stored s p a = Some e -> in_u32 (consecutive_failures e) ->
  record_failure now p a s = (Ok tt, s1) ->
  2000 <= delay_ms (consecutive_failures e) <= 256000 /\
  (forall q b, q <> p \/ b <> a -> stored s1 q b = stored s q b) /\
  (forall t l s2, endpoints t p s1 = (Ok l, s2) -> a ∈ map ep_address l ->
     now + delay_ms (consecutive_failures e) <= t).
Proof.
  intros Hok Hnow Hmax Hpl He Hf Hr. split; [by apply delay_bounds; destruct Hf|].
  destruct (record_failure_spec _ _ _ _ _ _ Hnow Hpl Hok Hr) as [Hok1 Hst]. split.
  - intros q b Hq. rewrite Hst, decide_False; [done|]. intros (_ & -> & ->). destruct Hq; done.
  - intros t l s2 Hl (x & Hxa & Hx)%list_elem_of_In%in_map_iff.
    apply list_elem_of_In in Hx.
    destruct (endpoints_spec _ _ _ _ _ Hok1 Hl) as (_ & _ & Hin).
    destruct (Hin _ Hx) as [Hs Hrt]. rewrite Hxa, Hst, decide_True, He in Hs by done.
    cbn in Hs. injection Hs as <-. by rewrite back_off_retry in Hrt.
Qed.
End client.

Section in_memory_properties.
Context `{PeerApi}.

(** One call of the in-memory repository. *)
Inductive RepoCall :=
| CallEndpoints (now : Z) (p : DeviceId)
| CallAuthenticated (now : Z) (p : DeviceId) (a : SocketAddr) (cert : list byte) (src : EndpointSource)
| CallFailure (now : Z) (p : DeviceId) (a : SocketAddr)
| CallForget (p : DeviceId).

Definition run_call (s : gmap DeviceId (list RememberedEndpoint)) (c : RepoCall)
    : gmap DeviceId (list RememberedEndpoint) :=
  match c with
  | CallEndpoints now p => (mem_endpoints now p s).2
  | CallAuthenticated now p a cert src => (mem_record_authenticated now p a cert src s).2
  | CallFailure now p a => (mem_record_failure now p a s).2
  | CallForget p => (mem_forget p s).2
  end.

Lemma run_call_ok s c : mem_ok s -> mem_ok (run_call s c).
Proof.
  intros Hok. destruct c as [now p|now p a cert src|now p a|p]; cbn.
  - done.
  - by apply mem_ok_insert, touched_ok, mem_ok_default.
  - unfold mem_record_failure. destruct (s !! p) as [l|] eqn:Hp; [|done].
    apply mem_ok_insert, list_ok_update; [done|by apply Hok|done|].
    intros e. unfold in_u32, u32_saturating_add, u32_max; cbn [consecutive_failures]. lia.
  - intros q l [_ Hq]%lookup_delete_Some. eauto.
Qed.

(** However the in-memory repository is used, it keeps at most 16 endpoints
    per peer, one per address, each filed under its own peer. *)
Theorem in_memory_bounded (calls : list RepoCall) (p : DeviceId) :
  let l := default [] (fold_left run_call calls ∅ !! p) in
  (length l <= 16)%nat /\ NoDup (map ep_address l) /\ (forall e, e ∈ l -> ep_peer_id e = p).
Proof.
  intros l. assert (Hok : mem_ok (fold_left run_call calls ∅)).
  { assert (H0 : mem_ok ∅) by (intros q k; by rewrite lookup_empty).
    revert H0. generalize (∅ : gmap DeviceId (list RememberedEndpoint)).
    induction calls as [|c calls IH]; cbn; [done|]. auto using run_call_ok. }
  apply mem_ok_default with (p := p) in Hok as [? ? ? _]. done.
Qed.

(** An endpoint authenticated after all earlier successes is offered at once
    and first, with the certificate just seen and its back-off cleared. *)
Theorem authenticated_endpoint_first now p a cert src s :
  mem_ok s ->
  (forall e, e ∈ default [] (s !! p) -> last_success_at_ms e < now) -> 0 <= now ->
  exists e l, (mem_endpoints now p (mem_record_authenticated now p a cert src s).2).1 = Ok (e :: l) /\
    ep_address e = a /\ ep_peer_id e = p /\ ep_certificate_sha256 e = cert /\
    consecutive_failures e = 0 /\ last_success_at_ms e = now.
Proof.
  intros Hok Hlt Hnow. pose proof (mem_ok_default _ p Hok) as Hl.
  set (e := authenticated now p a cert src (find_first (at_address a) (default [] (s !! p)))).
  set (s' := (mem_record_authenticated now p a cert src s).2).
  assert (Hok' : mem_ok s') by (apply (run_call_ok s (CallAuthenticated now p a cert src) Hok)).
  assert (Es : default [] (s' !! p) =
    take 16 (sort_by success_first (touched now p a cert src (default [] (s !! p)))))
    by (unfold s'; cbn; by rewrite lookup_insert_eq).
  assert (Hin : e ∈ default [] (s' !! p)).
  { rewrite Es. apply most_recent_kept; [by apply elem_of_touched; [|left]|].
    intros x Hx Hne. apply elem_of_touched in Hx as [->|[Hx _]]; [done| |done]. by apply Hlt. }
  assert (Hrest : forall x, x ∈ default [] (s' !! p) -> x <> e -> last_success_at_ms x < now).
  { rewrite Es. intros x Hx Hne. apply subseteq_take, elem_of_sort_by, elem_of_touched in Hx
      as [->|[Hx _]]; [done| |done]. by apply Hlt. }
  destruct (authenticated_key now p a cert src _ Hl) as [Ep Ea].
  set (kept := List.filter (fun x => retry_after_ms x <=? now) (default [] (s' !! p))).
  assert (Hkept : forall x, x ∈ kept <-> x ∈ default [] (s' !! p) /\ retry_after_ms x <= now)
    by (intros x; unfold kept; by rewrite list_elem_of_In, filter_In, <- list_elem_of_In, Z.leb_le).
  destruct (sort_by_least _ recent_first_total recent_first_trans e kept) as [k Ek].
  - apply Hkept. split; [done | cbn; lia].
  - intros x [Hx _]%Hkept Hne. by apply recent_first_older, Hrest.
  - exists e, (take 15 k). split_and!; try done. 
    change (Ok (E := NetworkError) (take 16 (sort_by recent_first kept)) = Ok (e :: take 15 k)).
    by rewrite Ek.
Qed.
End in_memory_properties.

(** ** Witnesses *)

Section witnesses.
Import SamplePeer.

Definition sample_address : SocketAddr := sock_new (IpV4 (mkIpv4 10 42 7 8)) 8767.
Definition one_endpoint : gmap DeviceId (list RememberedEndpoint) :=
  (mem_record_authenticated 1000 (dev "B") sample_address (repeat x03 32) Manual ∅).2.
Definition sample_entry : RememberedEndpoint :=
  authenticated 1000 (dev "B") sample_address (repeat x03 32) Manual None.

Lemma one_endpoint_ok : mem_ok one_endpoint.
Proof.
  apply (run_call_ok ∅ (CallAuthenticated 1000 (dev "B") sample_address (repeat x03 32) Manual)).
  intros p l. by rewrite lookup_empty.
Qed.

(** The endpoint is hidden for two seconds after its first failure. *)
Lemma failed_endpoint_backs_off_witness :
  (mem_endpoints 6999 (dev "B") (mem_record_failure 5000 (dev "B") sample_address one_endpoint).2).1
  <> Ok [back_off 5000 sample_entry].
Proof.
  intros E.
  destruct (failed_endpoint_backs_off (S := gmap DeviceId (list RememberedEndpoint))
    5000 (dev "B") sample_address one_endpoint
    (mem_record_failure 5000 (dev "B") sample_address one_endpoint).2 sample_entry) as (_ & _ & Hl).
  - exact one_endpoint_ok.
  - unfold in_i64, i64_min, i64_max. lia.
  - unfold i64_max. lia.
  - reflexivity.
  - by_evaluation.
  - unfold in_u32, u32_max. cbn. lia.
  - reflexivity.
  - specialize (Hl 6999 [back_off 5000 sample_entry] _
      (eq_trans (surjective_pairing _) (f_equal (fun r => (r, _)) E))).
    assert (Hin : sample_address ∈ map ep_address [back_off 5000 sample_entry]) by by_evaluation.
    specialize (Hl Hin). vm_compute in Hl. by apply Hl.
Defined.

Lemma authenticated_endpoint_first_witness : exists e l,
  (mem_endpoints 2000 (dev "B") (mem_record_authenticated 2000 (dev "B") sample_address
     (repeat x04 32) History one_endpoint).2).1 = Ok (e :: l) /\
  ep_certificate_sha256 e = repeat x04 32.
Proof.
  destruct (authenticated_endpoint_first 2000 (dev "B") sample_address (repeat x04 32) History
    one_endpoint) as (e & l & El & _ & _ & Hc & _); [exact one_endpoint_ok | | lia | by exists e, l].
  intros e He.
  assert (Hall : forallb (fun x => last_success_at_ms x <? 2000)
    (default [] (one_endpoint !! dev "B")) = true) by (vm_compute; reflexivity).
  rewrite forallb_forall in Hall. apply Z.ltb_lt, Hall, list_elem_of_In, He.
Defined.
End witnesses.
