(* ===== verification/RepositoryDb.v ===== *)
(** * RepositoryDb

    The SQLite repository (repository.rs): its three tables, the statements it
    executes with their primary keys, foreign keys and conflict clauses, and
    the row codecs.  A statement may fail for a reason of the storage: the
    failures to come are a list consumed one element per statement.  A failed
    statement, and a transaction that is not committed, leave the tables as
    they were. *)

From S2P Require Import Prelude Errors Addr Peer Endpoint.

(** ** Foreign code *)

(** [serde_json] on grant constraints. *)
Class ConstraintsJson := {
  constraints_to_json : GrantConstraints -> result string string;
  constraints_from_json : string -> result string GrantConstraints
}.

Class ConstraintsJsonLaws `{ConstraintsJson} : Prop :=
  constraints_json_roundtrip : forall c j, constraints_to_json c = Ok j ->
    constraints_from_json j = Ok c.

(** ** Tables *)

(** A [TEXT] column that holds the text of an address is modelled by what the
    text denotes: an address without flow label, or text that does not parse. *)
Definition address_text : Type := SocketAddr + string.

Definition address_to_string (a : SocketAddr) : address_text := inl (clear_flowinfo a).

Definition parse_address (t : address_text) : result string SocketAddr :=
  match t with
  | inl a => Ok a
  | inr _ => Err "invalid socket address syntax"%string
  end.

Record PeerRow := mkPeerRow {
  row_public_key : list byte;
  row_display_name : string;
  row_platform : string;
  row_model : string;
  row_trust_state : Z;
  row_auto_connect : Z;
  row_paired_at_ms : Z;
  row_updated_at_ms : Z
}.

Record GrantRow := mkGrantRow { row_constraints_json : string; row_granted_at_ms : Z }.

Record EndpointRow := mkEndpointRow {
  row_certificate_sha256 : list byte;
  row_source : Z;
  row_network_scope : string;
  row_first_seen_at_ms : Z;
  row_last_seen_at_ms : Z;
  row_last_success_at_ms : Z;
  row_consecutive_failures : Z;
  row_retry_after_ms : Z
}.

(** The tables, by primary key. *)
Record Database := mkDatabase {
  peers : gmap string PeerRow;
  grants : gmap (string * string * Z) GrantRow;
  peer_endpoints : gmap (string * address_text) EndpointRow
}.

Record Sqlite := mkSqlite { db : Database; faults : list (option string) }.

(** ** Row codecs *)

Definition encode_trust (value : TrustState) : Z :=
  match value with
  | Paired => 1
  | Revoked => 2
  end.

Section codecs.
Context `{PeerApi} `{ConstraintsJson}.

Definition decode_trust (value : Z) : result RepositoryError TrustState :=
  match value with
  | 1 => Ok Paired
  | 2 => Ok Revoked
  | _ => Err (Backend "unknown trust state")
  end.

Definition encode_direction (value : GrantDirection) : Z :=
  match value with
  | DirInbound => 1
  | DirOutbound => 2
  end.

Definition decode_direction (value : Z) : result RepositoryError GrantDirection :=
  match value with
  | 1 => Ok DirInbound
  | 2 => Ok DirOutbound
  | _ => Err (Backend "unknown grant direction")
  end.

Definition decode_peer (device_id : string) (row : PeerRow) : result RepositoryError PeerRecord :=
  device_id ← map_err Backend (parse_device_id device_id);
  public_key ← map_err Backend (key_from_bytes (row_public_key row));
  _ ← map_err Backend (verify_key device_id public_key);
  trust ← decode_trust (row_trust_state row);
  Ok (mkPeerRecord device_id public_key (row_display_name row) (row_platform row) (row_model row)
        trust (negb (row_auto_connect row =? 0)) (row_paired_at_ms row) (row_updated_at_ms row)).

Definition decode_grant (key : string * string * Z) (row : GrantRow) : result RepositoryError Grant :=
  capability ← ok_or (parse_token key.1.2) (Backend ("unknown capability " +:+ key.1.2)%string);
  peer_id ← map_err Backend (parse_device_id key.1.1);
  direction ← decode_direction key.2;
  constraints ← map_err Backend (constraints_from_json (row_constraints_json row));
  Ok (mkGrant peer_id capability direction constraints (row_granted_at_ms row)).

(** [failures.try_into().unwrap_or(u32::MAX)] *)
Definition failures_u32 (failures : Z) : Z :=
  if (0 <=? failures) && (failures <=? u32_max) then failures else u32_max.

Definition decode_endpoint (key : string * address_text) (row : EndpointRow)
    : net_result RememberedEndpoint :=
  peer_id ← map_err Repository (parse_device_id key.1);
  address ← map_err Repository (parse_address key.2);
  if negb (blen (row_certificate_sha256 row) =? 32)
  then Err (Repository "remembered certificate digest length")
  else
    source ← decode_source (row_source row);
    Ok (mkEndpoint peer_id address (row_certificate_sha256 row) source (row_network_scope row)
          (row_first_seen_at_ms row) (row_last_seen_at_ms row) (row_last_success_at_ms row)
          (failures_u32 (row_consecutive_failures row)) (row_retry_after_ms row)).

(** The values bound for a peer. *)
Definition peer_row (trust : TrustState) (p : PeerRecord) : PeerRow :=
  mkPeerRow (key_bytes (rec_public_key p)) (display_name p) (rec_platform p) (rec_model p)
    (encode_trust trust) (if auto_connect p then 1 else 0) (paired_at_ms p) (updated_at_ms p).
End codecs.

(** ** Statements *)

Definition foreign_key_failed : string := "FOREIGN KEY constraint failed".
Definition unique_failed : string := "UNIQUE constraint failed".
Definition not_an_integer : string := "cannot store REAL value in INTEGER column".

(** An integer result out of the range of 64 bits is a REAL, which a STRICT
    table refuses. *)
Definition sql_integer (z : Z) : result string Z :=
  if (i64_min <=? z) && (z <=? i64_max) then Ok z else Err not_an_integer.

(** [query.execute(..).await] *)
Definition exec {A} (f : Database -> result string (A * Database)) : action Sqlite string A :=
  fun s =>
  match faults s with
  | Some e :: rest => (Err e, mkSqlite (db s) rest)
  | _ =>
      match f (db s) with
      | Ok (a, d) => (Ok a, mkSqlite d (tail (faults s)))
      | Err e => (Err e, mkSqlite (db s) (tail (faults s)))
      end
  end.

(** [pool.begin()], the statements of [body], [transaction.commit()]; a
    transaction dropped before its commit is rolled back. *)
Definition transaction {A} (body : action Sqlite string A) : action Sqlite string A := fun s =>
  match exec (fun d => Ok (tt, d)) s with
  | (Err e, s1) => (Err e, s1)
  | (Ok _, s1) =>
      match (a ← body; exec (fun d => Ok (tt, d)) ;; mret a) s1 with
      | (Ok a, s2) => (Ok a, s2)
      | (Err e, s2) => (Err e, mkSqlite (db s) (faults s2))
      end
  end.

(** [INSERT INTO peers .. ON CONFLICT(device_id) DO UPDATE SET ..], every other
    column being set from [excluded]. *)
Definition upsert_peer (device_id : string) (row : PeerRow) (d : Database)
    : result string (unit * Database) :=
  Ok (tt, mkDatabase (<[device_id := row]> (peers d)) (grants d) (peer_endpoints d)).

(** [DELETE FROM grants WHERE peer_id = ?] *)
Definition delete_grants_of (device_id : string) (d : Database) : result string (unit * Database) :=
  Ok (tt, mkDatabase (peers d) (filter (fun kv => kv.1.1.1 <> device_id) (grants d))
                     (peer_endpoints d)).

(** [INSERT INTO grants ..] *)
Definition insert_grant (key : string * string * Z) (row : GrantRow) (d : Database)
    : result string (unit * Database) :=
  match grants d !! key, peers d !! key.1.1 with
  | Some _, _ => Err unique_failed
  | None, None => Err foreign_key_failed
  | None, Some _ =>
      Ok (tt, mkDatabase (peers d) (<[key := row]> (grants d)) (peer_endpoints d))
  end.

(** [INSERT INTO grants .. ON CONFLICT(..) DO UPDATE SET ..] *)
Definition upsert_grant (key : string * string * Z) (row : GrantRow) (d : Database)
    : result string (unit * Database) :=
  match peers d !! key.1.1 with
  | Some _ => Ok (tt, mkDatabase (peers d) (<[key := row]> (grants d)) (peer_endpoints d))
  | None => Err foreign_key_failed
  end.

(** [DELETE FROM peers WHERE device_id = ?]: the number of rows affected, with
    [ON DELETE CASCADE] on both other tables. *)
Definition delete_peer (device_id : string) (d : Database) : result string (nat * Database) :=
  match peers d !! device_id with
  | Some _ =>
      Ok (1%nat, mkDatabase (delete device_id (peers d))
                            (filter (fun kv => kv.1.1.1 <> device_id) (grants d))
                            (filter (fun kv => kv.1.1 <> device_id) (peer_endpoints d)))
  | None => Ok (0%nat, d)
  end.

(** [DELETE FROM grants WHERE peer_id = ? AND capability = ? AND direction = ?] *)
Definition delete_grant (key : string * string * Z) (d : Database) : result string (nat * Database) :=
  match grants d !! key with
  | Some _ => Ok (1%nat, mkDatabase (peers d) (delete key (grants d)) (peer_endpoints d))
  | None => Ok (0%nat, d)
  end.

(** [INSERT INTO peer_endpoints .. ON CONFLICT(peer_id, address) DO UPDATE SET ..]:
    the first sighting is kept. *)
Definition upsert_endpoint (key : string * address_text) (cert : list byte) (source : Z)
    (scope : string) (now : Z) (d : Database) : result string (unit * Database) :=
  match peers d !! key.1 with
  | Some _ =>
      let first := match peer_endpoints d !! key with
                   | Some row => row_first_seen_at_ms row
                   | None => now
                   end in
      Ok (tt, mkDatabase (peers d) (grants d)
                (<[key := mkEndpointRow cert source scope first now now 0 0]> (peer_endpoints d)))
  | None => Err foreign_key_failed
  end.

(** [retry_after_ms=? + MIN(300000, (1 << MIN(consecutive_failures + 1, 8)) * 1000)] *)
Definition sql_retry (now failures : Z) : Z :=
  now + Z.min 300000 (Z.shiftl 1 (Z.min (failures + 1) 8) * 1000).

(** [UPDATE peer_endpoints SET .. WHERE peer_id=? AND address=?] *)
Definition update_failure (key : string * address_text) (now : Z) (d : Database)
    : result string (unit * Database) :=
  match peer_endpoints d !! key with
  | Some row =>
      failures ← sql_integer (row_consecutive_failures row + 1);
      retry ← sql_integer (sql_retry now (row_consecutive_failures row));
      Ok (tt, mkDatabase (peers d) (grants d)
        (<[key := mkEndpointRow (row_certificate_sha256 row) (row_source row)
             (row_network_scope row) (row_first_seen_at_ms row) (row_last_seen_at_ms row)
             (row_last_success_at_ms row) failures retry]> (peer_endpoints d)))
  | None => Ok (tt, d)
  end.

(** [DELETE FROM peer_endpoints WHERE peer_id = ?] *)
Definition delete_endpoints_of (device_id : string) (d : Database) : result string (unit * Database) :=
  Ok (tt, mkDatabase (peers d) (grants d)
                     (filter (fun kv => kv.1.1 <> device_id) (peer_endpoints d))).
