(* ===== verification/Schema.v ===== *)
(** * Schema

    Opening the SQLite repository ([SqlitePeerRepository::open] and [migrate],
    repository.rs): the directory and the file, the tables that are created when
    they are missing, and the column [auto_connect] that is added to a database
    of an earlier version.  Several processes may open one file at once. *)

From S2P Require Import Prelude Errors Addr Peer Endpoint RepositoryDb.

(** ** The file *)

(** A row of [peers] before the column [auto_connect]. *)
Record OldPeerRow := mkOldPeerRow {
  old_public_key : list byte;
  old_display_name : string;
  old_platform : string;
  old_model : string;
  old_trust_state : Z;
  old_paired_at_ms : Z;
  old_updated_at_ms : Z
}.

Inductive PeersTable :=
| OldPeers (rows : gmap string OldPeerRow)
| Peers (rows : gmap string PeerRow).

(** A database file; [None] is a table that does not exist. *)
Record DbFile := mkDbFile {
  f_peers : option PeersTable;
  f_grants : option (gmap (string * string * Z) GrantRow);
  f_endpoints : option (gmap (string * address_text) EndpointRow)
}.

Definition empty_file : DbFile := mkDbFile None None None.

(** [PRAGMA table_info(peers)]: the names of the columns. *)
Definition table_info (t : option PeersTable) : list string :=
  match t with
  | None => []
  | Some (OldPeers _) =>
      ["device_id"; "public_key"; "display_name"; "platform"; "model"; "trust_state"; "paired_at_ms"; "updated_at_ms"]
  | Some (Peers _) =>
      ["device_id"; "public_key"; "display_name"; "platform"; "model"; "trust_state"; "auto_connect";
       "paired_at_ms"; "updated_at_ms"]
  end%string.

(** [CREATE TABLE IF NOT EXISTS ..] *)
Definition create_peers (f : DbFile) : result string (unit * DbFile) :=
  Ok (tt, mkDbFile (Some (default (Peers ∅) (f_peers f))) (f_grants f) (f_endpoints f)).
Definition create_grants (f : DbFile) : result string (unit * DbFile) :=
  Ok (tt, mkDbFile (f_peers f) (Some (default ∅ (f_grants f))) (f_endpoints f)).
Definition create_endpoints (f : DbFile) : result string (unit * DbFile) :=
  Ok (tt, mkDbFile (f_peers f) (f_grants f) (Some (default ∅ (f_endpoints f)))).

(** [ALTER TABLE peers ADD COLUMN auto_connect INTEGER NOT NULL DEFAULT 1] *)
Definition with_auto_connect (r : OldPeerRow) : PeerRow :=
  mkPeerRow (old_public_key r) (old_display_name r) (old_platform r) (old_model r) (old_trust_state r) 1
    (old_paired_at_ms r) (old_updated_at_ms r).

Definition duplicate_column : string := "duplicate column name: auto_connect".

Definition add_auto_connect (f : DbFile) : result string (unit * DbFile) :=
  match f_peers f with
  | Some (OldPeers rows) => Ok (tt, mkDbFile (Some (Peers (with_auto_connect <$> rows))) (f_grants f) (f_endpoints f))
  | Some (Peers _) => Err duplicate_column
  | None => Err "no such table: peers"%string
  end.

(** ** Opening it *)

(** What a call of [open] finds: whether the directory and the file are there,
    and the failures of the system and storage calls to come. *)
Record Place := mkPlace {
  pl_directory : bool;
  pl_file : option DbFile;
  pl_faults : list (option string)
}.

(** One call that may fail. *)
Definition place_call {A} (f : Place -> result string (A * Place)) : action Place string A := fun p =>
  let later q := mkPlace (pl_directory q) (pl_file q) (tail (pl_faults p)) in
  match pl_faults p with
  | Some e :: _ => (Err e, later p)
  | _ =>
      match f p with
      | Ok (a, q) => (Ok a, later q)
      | Err e => (Err e, later p)
      end
  end.

(** A statement on the open file. *)
Definition statement {A} (f : DbFile -> result string (A * DbFile)) : action Place string A :=
  place_call (fun p =>
    '(a, file) ← f (default empty_file (pl_file p));
    Ok (a, mkPlace (pl_directory p) (Some file) (pl_faults p))).

(** [tokio::fs::create_dir_all(parent)] *)
Definition create_dir_all : action Place string unit :=
  place_call (fun p => Ok (tt, mkPlace true (pl_file p) (pl_faults p))).

(** [connect_with(options)], with [create_if_missing(true)] *)
Definition connect_with : action Place string unit :=
  place_call (fun p =>
    match pl_file p with
    | Some _ => Ok (tt, p)
    | None => if pl_directory p then Ok (tt, mkPlace true (Some empty_file) (pl_faults p))
              else Err "unable to open database file"%string
    end).

Section opening.
Context `{PeerApi}.

Definition backend_call {A} (m : action Place string A) : action Place RepositoryError A := act_map_err Backend m.

(** [SqlitePeerRepository::migrate] *)
Definition migrate : action Place RepositoryError unit :=
  backend_call (statement create_peers) ;;
  peer_columns ← backend_call (statement (fun f => Ok (table_info (f_peers f), f)));
  (if negb (existsb (String.eqb "auto_connect") peer_columns)
   then backend_call (statement add_auto_connect) else mret tt) ;;
  backend_call (statement create_grants) ;;
  backend_call (statement create_endpoints).

(** [SqlitePeerRepository::open]; [has_parent] when the path has one. *)
Definition open_repository (has_parent : bool) : action Place RepositoryError unit :=
  (if has_parent then backend_call create_dir_all else mret tt) ;;
  backend_call connect_with ;;
  migrate.
End opening.

(** ** Several processes *)

(** Where a process is in [migrate]. *)
Inductive MigrateStage :=
| AtPeers
| AtInfo
| AtAlter
| AtGrants
| AtEndpoints
| Opened
| OpenFailed (e : string).

(** Its next statement; [fault] is a failure of the storage. *)
Definition migrate_statement (stage : MigrateStage) (f : DbFile) : result string (MigrateStage * DbFile) :=
  match stage with
  | AtPeers => '(_, f) ← create_peers f; Ok (AtInfo, f)
  | AtInfo =>
      Ok (if negb (existsb (String.eqb "auto_connect") (table_info (f_peers f))) then AtAlter else AtGrants, f)
  | AtAlter => '(_, f) ← add_auto_connect f; Ok (AtGrants, f)
  | AtGrants => '(_, f) ← create_grants f; Ok (AtEndpoints, f)
  | AtEndpoints => '(_, f) ← create_endpoints f; Ok (Opened, f)
  | Opened | OpenFailed _ => Ok (stage, f)
  end.

Definition is_open (stage : MigrateStage) : bool :=
  match stage with
  | Opened | OpenFailed _ => true
  | _ => false
  end.

Definition migrate_turn (fault : option string) (stage : MigrateStage) (f : DbFile) : MigrateStage * DbFile :=
  if is_open stage then (stage, f)
  else
    match fault with
    | Some e => (OpenFailed e, f)
    | None =>
        match migrate_statement stage f with
        | Ok r => r
        | Err e => (OpenFailed e, f)
        end
    end.

(** The processes on one file; an event names one and what befalls it. *)
Definition openers_step (st : list MigrateStage * DbFile) (ev : nat * option string) : list MigrateStage * DbFile :=
  match st.1 !! ev.1 with
  | Some stage => let '(stage', f) := migrate_turn ev.2 stage st.2 in (<[ev.1 := stage']> st.1, f)
  | None => st
  end.

Definition run_openers (events : list (nat * option string)) (st : list MigrateStage * DbFile)
    : list MigrateStage * DbFile := fold_left openers_step events st.

(** ** Facts *)

(** What the database holds once it is upgraded. *)
Definition upgraded (f : DbFile) : Database :=
  mkDatabase (match f_peers f with
              | None => ∅
              | Some (OldPeers rows) => with_auto_connect <$> rows
              | Some (Peers rows) => rows
              end)
    (default ∅ (f_grants f)) (default ∅ (f_endpoints f)).

(** The file of this version with these tables. *)
Definition complete (d : Database) : DbFile :=
  mkDbFile (Some (Peers (peers d))) (Some (grants d)) (Some (peer_endpoints d)).

Lemma upgraded_complete d : upgraded (complete d) = d.
Proof. by destruct d. Qed.

(** What a stage has established. *)
Definition stage_ok (stage : MigrateStage) (f : DbFile) : Prop :=
  let new := exists rows, f_peers f = Some (Peers rows) in
  match stage with
  | AtPeers | OpenFailed _ => True
  | AtInfo | AtAlter => is_Some (f_peers f)
  | AtGrants => new
  | AtEndpoints => new /\ is_Some (f_grants f)
  | Opened => f = complete (upgraded f)
  end.

(** A statement only adds tables and the column. *)
Record extends (f f' : DbFile) : Prop := {
  ex_data : upgraded f' = upgraded f;
  ex_peers : is_Some (f_peers f) -> is_Some (f_peers f');
  ex_new : (exists rows, f_peers f = Some (Peers rows)) -> exists rows, f_peers f' = Some (Peers rows);
  ex_grants : is_Some (f_grants f) -> is_Some (f_grants f');
  ex_endpoints : is_Some (f_endpoints f) -> is_Some (f_endpoints f');
  ex_old : forall rows, f_peers f' = Some (OldPeers rows) -> f_peers f = Some (OldPeers rows)
}.

#[export] Instance extends_preorder : PreOrder extends.
Proof.
  split; [by intros f; split|]. intros f g h [] []. split; [congruence|auto..].
Qed.

Lemma complete_spec f :
  f = complete (upgraded f) <->
  (exists rows, f_peers f = Some (Peers rows)) /\ is_Some (f_grants f) /\ is_Some (f_endpoints f).
Proof.
  destruct f as [t g e]. unfold complete, upgraded. cbn. split.
  - intros [= -> -> ->]. split_and!; by eexists.
  - intros ((rows & ->) & (g' & ->) & (e' & ->)). done.
Qed.

Lemma stage_kept stage f f' : extends f f' -> stage_ok stage f -> stage_ok stage f'.
Proof.
  intros [_ Hp Hn Hg He _]. destruct stage; cbn [stage_ok]; rewrite ?complete_spec; naive_solver.
Qed.

Lemma create_peers_spec f f' u : create_peers f = Ok (u, f') -> extends f f' /\ is_Some (f_peers f').
Proof.
  intros [= _ <-]. split; [|by eexists]. destruct f as [[[rows|rows]|] g e]; split; cbn; naive_solver.
Qed.

Lemma create_grants_spec f f' u : create_grants f = Ok (u, f') -> extends f f' /\ is_Some (f_grants f').
Proof.
  intros [= _ <-]. split; [|by eexists]. destruct f as [t [g|] [e|]]; split; cbn; naive_solver.
Qed.

Lemma create_endpoints_spec f f' u : create_endpoints f = Ok (u, f') -> extends f f' /\ is_Some (f_endpoints f').
Proof.
  intros [= _ <-]. split; [|by eexists]. destruct f as [t [g|] [e|]]; split; cbn; naive_solver.
Qed.

Lemma add_auto_connect_spec f f' u :
  add_auto_connect f = Ok (u, f') -> extends f f' /\ exists rows, f_peers f' = Some (Peers rows).
Proof.
  unfold add_auto_connect. destruct f as [[[rows|rows]|] g e]; cbn; [|discriminate..]. intros [= _ <-].
  split; [|by eexists]. split; cbn; try done. intros [? [=]].
Qed.

(** The column is looked for where the table is there. *)
Lemma has_auto_connect t :
  existsb (String.eqb "auto_connect") (table_info (Some t)) = match t with Peers _ => true | OldPeers _ => false end.
Proof. by destruct t. Qed.

(** One statement. *)
Lemma migrate_turn_ok fault stage f stage' f' :
  stage_ok stage f -> migrate_turn fault stage f = (stage', f') ->
  extends f f' /\ stage_ok stage' f' /\
  (forall e, stage' = OpenFailed e -> stage = OpenFailed e \/ fault = Some e \/
     (e = duplicate_column /\ stage = AtAlter /\ exists rows, f_peers f = Some (Peers rows))) /\
  (stage' = AtAlter -> stage = AtInfo /\ exists rows, f_peers f = Some (OldPeers rows)).
Proof.
  intros Hok E. unfold migrate_turn in E. destruct (is_open stage) eqn:Eo.
  { injection E as <- <-. destruct stage; try discriminate Eo; split_and!; try done. by left. }
  destruct fault as [e|].
  { injection E as <- <-. split_and!; try done. intros e' [= ->]. right. by left. }
  destruct stage; try discriminate Eo; cbn in Hok.
  - cbn in E. injection E as <- <-.
    destruct (create_peers_spec f _ tt eq_refl) as [He Hp]. by split_and!.
  - destruct Hok as [t Ht]. unfold migrate_statement in E. rewrite Ht, has_auto_connect in E.
    destruct t as [rows|rows]; injection E as <- <-; split_and!; try done.
    + cbn. rewrite Ht. by eexists.
    + intros _. split; [done|]. rewrite Ht. by eexists.
    + cbn. rewrite Ht. by eexists.
  - destruct Hok as [t Ht]. unfold migrate_statement, add_auto_connect in E. rewrite Ht in E.
    destruct t as [rows|rows]; cbn in E; injection E as <- <-.
    + assert (Ea : add_auto_connect f = Ok (tt, mkDbFile (Some (Peers (with_auto_connect <$> rows))) (f_grants f)
        (f_endpoints f))) by (unfold add_auto_connect; by rewrite Ht).
      apply add_auto_connect_spec in Ea as [He Hn]. by split_and!.
    + split_and!; try done. intros e [= <-]. right. right. split_and!; [done..|]. rewrite Ht. by eexists.
  - cbn in E. injection E as <- <-. destruct (create_grants_spec f _ tt eq_refl) as [He Hp].
    by split_and!.
  - cbn in E. injection E as <- <-. destruct (create_endpoints_spec f _ tt eq_refl) as [He Hp].
    destruct Hok as [Hn Hg]. split_and!; try done. cbn [stage_ok]. by apply complete_spec.
Qed.

(** ** The whole call *)

Section opening.
Context `{PeerApi}.

(** What the file of a place holds. *)
Definition contents (p : Place) : Database := upgraded (default empty_file (pl_file p)).

(** No storage call fails. *)
Definition faultless (p : Place) : Prop := Forall (fun f => f = None) (pl_faults p).

Lemma faultless_tail p d f : faultless p -> faultless (mkPlace d f (tail (pl_faults p))).
Proof. unfold faultless. cbn. destruct (pl_faults p); [done|]. by intros [_ ?]%Forall_cons. Qed.

Lemma statement_inv {A} (g : DbFile -> result string (A * DbFile)) p f x p' :
  pl_file p = Some f -> backend_call (statement g) p = (x, p') ->
  exists f', p' = mkPlace (pl_directory p) (Some f') (tail (pl_faults p)) /\
    match x with
    | Ok a => g f = Ok (a, f')
    | Err _ => f' = f /\ (faultless p -> exists e, g f = Err e)
    end.
Proof.
  intros Hf (y & E & ->)%act_map_err_inv. unfold statement, place_call in E. rewrite Hf in E. cbn [default] in E.
  destruct (pl_faults p) as [|[e|] fs] eqn:Efs.
  2:{ injection E as <- <-. exists f. cbn. split_and!; try done.
      unfold faultless. rewrite Efs. by intros [[=] _]%Forall_cons. }
  all: change (Datatypes.id f) with f in E; destruct (g f) as [[a f']|e]; cbn in E; injection E as <- <-; cbn.
  1, 3: by exists f'.
  all: exists f; split_and!; try done; intros _; by exists e.
Qed.

(** From the state a stage starts in, the rest of [migrate] completes the file
    or stops at an earlier state of it. *)
Definition finishes (f : DbFile) (p : Place) (x : result RepositoryError unit) (p' : Place) : Prop :=
  exists f', pl_file p' = Some f' /\ pl_directory p' = pl_directory p /\ extends f f' /\
    (x = Ok tt -> f' = complete (upgraded f)) /\ (faultless p -> x = Ok tt /\ faultless p').

Lemma finishes_after {A} (g : DbFile -> result string (A * DbFile)) (k : A -> action Place RepositoryError unit) f p x p' :
  pl_file p = Some f -> (forall e, g f <> Err e) -> (forall a f', g f = Ok (a, f') -> extends f f') ->
  (forall a f' q y q', g f = Ok (a, f') -> pl_file q = Some f' -> k a q = (y, q') -> finishes f' q y q') ->
  mbind k (backend_call (statement g)) p = (x, p') -> finishes f p x p'.
Proof.
  intros Hf Hno Hext Hk [(a & q & E1 & E)|(e & E1 & ->)]%act_bind_inv;
    destruct (statement_inv g p f _ _ Hf E1) as (f' & -> & Hg).
  - apply Hk with (f' := f') in E as (f2 & Hf2 & Hd & He & Hok & Hfl); [|done..].
    pose proof (Hext _ _ Hg) as He'. exists f2. split_and!; [done|done|by etransitivity| |].
    + intros Hx. rewrite (Hok Hx). by rewrite (ex_data _ _ He').
    + intros Hp. apply Hfl. by apply faultless_tail.
  - destruct Hg as [-> Hg]. exists f. split_and!; try done. intros Hp. by destruct (Hg Hp) as [e' ?%Hno].
Qed.

Lemma finishes_last (g : DbFile -> result string (unit * DbFile)) f p x p' :
  pl_file p = Some f -> (forall e, g f <> Err e) ->
  (forall a f', g f = Ok (a, f') -> extends f f' /\ f' = complete (upgraded f')) ->
  backend_call (statement g) p = (x, p') -> finishes f p x p'.
Proof.
  intros Hf Hno Hext E. destruct (statement_inv g p f _ _ Hf E) as (f' & -> & Hg). destruct x as [[]|e].
  - destruct (Hext _ _ Hg) as [He Hc]. exists f'. split_and!; try done.
    + intros _. by rewrite Hc, (ex_data _ _ He).
    + intros Hp. split; [done|by apply faultless_tail].
  - destruct Hg as [-> Hg]. exists f. split_and!; try done. intros Hp. by destruct (Hg Hp) as [e' ?%Hno].
Qed.

Lemma tables_finish f p x p' :
  pl_file p = Some f -> (exists rows, f_peers f = Some (Peers rows)) ->
  (backend_call (statement create_grants) ;; backend_call (statement create_endpoints)) p = (x, p') ->
  finishes f p x p'.
Proof.
  intros Hf Hn. apply finishes_after; [done|done| |].
  - intros a f' E. by apply create_grants_spec in E as [? _].
  - intros a f' q y q' E Hq. apply create_grants_spec in E as [He Hg]. apply finishes_last; [done|done|].
    intros a' f2 E. apply create_endpoints_spec in E as [He2 Hg2]. split; [done|]. apply complete_spec.
    split_and!; [by apply (ex_new _ _ He2), (ex_new _ _ He)|by apply (ex_grants _ _ He2)|done].
Qed.

Lemma migrate_finishes f p x p' : pl_file p = Some f -> migrate p = (x, p') -> finishes f p x p'.
Proof.
  intros Hf. apply finishes_after; [done|done| |].
  - intros a f' E. by apply create_peers_spec in E as [? _].
  - intros [] f1 q y q' E Hq. apply create_peers_spec in E as [_ [t Ht]].
    apply finishes_after; [done|done|by intros a f' [= _ <-]|].
    intros cols f2 q2 y2 q2' [= <- <-] Hq2. rewrite Ht, has_auto_connect. destruct t as [rows|rows]; cbn [negb].
    + apply finishes_after; [done| | |].
      * intros e. unfold add_auto_connect. by rewrite Ht.
      * intros a f' E. by apply add_auto_connect_spec in E as [? _].
      * intros [] f3 q3 y3 q3' E Hq3. apply add_auto_connect_spec in E as [_ Hn]. by apply tables_finish.
    + apply tables_finish; [done|by exists rows].
Qed.

(** *** The directory and the file *)

Lemma create_dir_inv p x p' :
  backend_call create_dir_all p = (x, p') ->
  pl_file p' = pl_file p /\ pl_faults p' = tail (pl_faults p) /\
  match x with
  | Ok _ => pl_directory p' = true
  | Err _ => pl_directory p' = pl_directory p /\ ~ faultless p
  end.
Proof.
  intros (y & E & ->)%act_map_err_inv. unfold create_dir_all, place_call in E. unfold faultless.
  destruct (pl_faults p) as [|[e|] fs]; injection E as <- <-; cbn; split_and!; try done.
  by intros [[=] _]%Forall_cons.
Qed.

Lemma connect_with_inv p x p' :
  backend_call connect_with p = (x, p') ->
  contents p' = contents p /\ pl_directory p' = pl_directory p /\ pl_faults p' = tail (pl_faults p) /\
  (is_Some (pl_file p) -> pl_file p' = pl_file p) /\
  match x with
  | Ok _ => is_Some (pl_file p')
  | Err _ => faultless p -> pl_directory p = false /\ pl_file p = None
  end.
Proof.
  intros (y & E & ->)%act_map_err_inv. unfold connect_with, place_call in E. unfold faultless, contents.
  destruct (pl_faults p) as [|[e|] fs] eqn:Efs.
  2:{ injection E as <- <-. split_and!; try done. by intros [[=] _]%Forall_cons. }
  all: destruct (pl_file p) as [f|] eqn:Ef; [|destruct (pl_directory p) eqn:Ed]; injection E as <- <-; cbn;
    rewrite ?Efs, ?Ef, ?Ed; split_and!; try done; first [by eexists|by intros [? [=]]].
Qed.

(** The directory is there or will be made. *)
Definition can_open (has_parent : bool) (p : Place) : Prop :=
  has_parent = true \/ pl_directory p = true \/ is_Some (pl_file p).

Lemma open_inv has_parent p x p' :
  open_repository has_parent p = (x, p') ->
  contents p' = contents p /\ (x = Ok tt -> pl_file p' = Some (complete (contents p))) /\
  (can_open has_parent p -> can_open has_parent p') /\
  (faultless p -> can_open has_parent p -> x = Ok tt).
Proof.
  intros E. unfold open_repository in E.
  assert (Hgo : forall q y q', (backend_call connect_with ;; migrate) q = (y, q') -> contents q = contents p ->
    contents q' = contents p /\ (y = Ok tt -> pl_file q' = Some (complete (contents p))) /\
    (pl_directory q = true -> pl_directory q' = true) /\ (is_Some (pl_file q) -> is_Some (pl_file q')) /\
    (faultless q -> pl_directory q = true \/ is_Some (pl_file q) -> y = Ok tt)).
  { clear E. intros q y q' [([] & q1 & E1 & E)|(e & E1 & ->)]%act_bind_inv Hq;
      destruct (connect_with_inv _ _ _ E1) as (Hc & Hd & Hfl & Hk & Hx).
    - destruct Hx as [f Hf]. destruct (migrate_finishes f q1 y q' Hf E) as (f' & Hf' & Hd' & He & Hok & Hend).
      assert (Ef : upgraded f = contents p) by (rewrite <- Hq, <- Hc; unfold contents; by rewrite Hf).
      split_and!.
      + rewrite <- Ef. unfold contents. rewrite Hf'. apply (ex_data _ _ He).
      + intros Hy. by rewrite Hf', (Hok Hy), Ef.
      + by rewrite Hd', Hd.
      + intros _. by exists f'.
      + intros Hq0 _. apply Hend. unfold faultless. rewrite Hfl. by apply (faultless_tail q true None).
    - split_and!; [congruence|done|congruence|intros Hs; by rewrite (Hk Hs)|].
      intros Hq0 [Hd0|[f Hf]]; destruct (Hx Hq0); congruence. }
  destruct has_parent; [|destruct (Hgo p x p') as (? & ? & ? & ? & Hfin); [exact E|done|]].
  2:{ split_and!; [done..| |]; unfold can_open; naive_solver. }
  apply act_bind_inv in E as [([] & q & E1 & E)|(e & E1 & ->)];
    destruct (create_dir_inv _ _ _ E1) as (Hf & Hfl & Hd).
  - destruct (Hgo q x p' E) as (? & ? & ? & ? & Hfin); [unfold contents; by rewrite Hf|].
    split_and!; [done..|intros _; by left|]. intros Hp _. apply Hfin; [|by left].
    unfold faultless. rewrite Hfl. by apply (faultless_tail p true None).
  - destruct Hd as [_ Hd]. split_and!; [unfold contents; by rewrite Hf|done|intros _; by left|done].
Qed.
End opening.

(** *** Several processes *)

(** What holds of all processes and the file, opened from [f0]; [faults] are the
    failures of the storage so far. *)
Record openers_ok (f0 : DbFile) (faults : list string) (st : list MigrateStage * DbFile) : Prop := {
  oo_extends : extends f0 st.2;
  oo_stages : forall stage, stage ∈ st.1 -> stage_ok stage st.2;
  oo_failed : forall e, OpenFailed e ∈ st.1 -> e ∈ faults \/
    (e = duplicate_column /\ exists rows, f_peers f0 = Some (OldPeers rows));
  oo_alter : AtAlter ∈ st.1 -> exists rows, f_peers f0 = Some (OldPeers rows)
}.

Definition fault_texts (events : list (nat * option string)) : list string := omap snd events.

Lemma openers_step_ok f0 faults st ev :
  openers_ok f0 faults st -> openers_ok f0 (faults ++ option_list ev.2) (openers_step st ev).
Proof.
  destruct st as [stages f], ev as [i fault]. intros [He Hs Hf Ha]. cbn [fst snd] in *.
  unfold openers_step. cbn [fst snd]. destruct (stages !! i) as [stage|] eqn:Hi.
  2:{ split; cbn; try done. intros e Hin. destruct (Hf e Hin) as [?|?]; [left; set_solver|by right]. }
  destruct (migrate_turn fault stage f) as [stage' f'] eqn:E.
  assert (Hin : stage ∈ stages) by by eapply list_elem_of_lookup_2.
  destruct (migrate_turn_ok _ _ _ _ _ (Hs _ Hin) E) as (He' & Hs' & Hf' & Ha').
  assert (Hmem : forall u, u ∈ <[i:=stage']> stages -> u = stage' \/ u ∈ stages).
  { intros u (j & Hj)%list_elem_of_lookup. apply list_lookup_insert_Some in Hj as [(_ & -> & _)|[_ Hj]]; [by left|].
    right. by eapply list_elem_of_lookup_2. }
  split; cbn [fst snd].
  - by etransitivity.
  - intros u [->|Hu]%Hmem; [done|]. eapply stage_kept; [exact He'|by apply Hs].
  - intros e [Eu|Hu]%Hmem.
    + destruct (Hf' e (eq_sym Eu)) as [->|[->|(-> & -> & _)]].
      * destruct (Hf e Hin) as [?|?]; [left; set_solver|by right].
      * left. set_solver.
      * right. split; [done|]. by apply Ha.
    + destruct (Hf e Hu) as [?|?]; [left; set_solver|by right].
  - intros [Eu|Hu]%Hmem; [|by apply Ha]. destruct (Ha' (eq_sym Eu)) as (_ & rows & Hr).
    exists rows. by apply (ex_old _ _ He).
Qed.

Lemma run_openers_ok f0 n events :
  openers_ok f0 (fault_texts events) (run_openers events (repeat AtPeers n, f0)).
Proof.
  assert (Hgo : forall faults st, openers_ok f0 faults st ->
    openers_ok f0 (faults ++ fault_texts events) (run_openers events st)).
  { unfold run_openers, fault_texts. induction events as [|ev events IH]; intros faults st Hst; cbn [fold_left].
    - by rewrite app_nil_r.
    - apply (openers_step_ok _ _ _ ev), IH in Hst. cbn [omap list_omap]. destruct (ev.2); cbn in Hst; [|by rewrite app_nil_r in Hst].
      by rewrite <- app_assoc in Hst. }
  apply (Hgo []). split; cbn; try done.
  - intros stage Hin. apply list_elem_of_In, repeat_spec in Hin. by subst.
  - intros e Hin. apply list_elem_of_In, repeat_spec in Hin. discriminate.
  - intros Hin. apply list_elem_of_In, repeat_spec in Hin. discriminate.
Qed.

(** ** Properties *)

Section properties.
Context `{PeerApi}.

(** C25. Opening a repository loses nothing, whatever the file holds and whichever
    calls fail: it answers with the tables of this version, filled with what was
    there, each row of an earlier version with [auto_connect] set; a call that
    failed anywhere leaves the same contents, and the next one that meets no
    failure completes the upgrade. *)
Theorem open_keeps_data has_parent p x p' :
  open_repository has_parent p = (x, p') ->
  contents p' = contents p /\
  (x = Ok tt -> pl_file p' = Some (complete (contents p))) /\
  (faultless p -> can_open has_parent p -> x = Ok tt) /\
  (can_open has_parent p -> forall y p'',
     open_repository has_parent (mkPlace (pl_directory p') (pl_file p') []) = (y, p'') ->
     y = Ok tt /\ pl_file p'' = Some (complete (contents p))).
Proof.
  intros E. destruct (open_inv _ _ _ _ E) as (Hc & Hok & Hcan & Hfl). split_and!; [done..|].
  intros Hp y p'' E2. apply Hcan in Hp. apply open_inv in E2 as (_ & Hok2 & _ & Hfl2).
  assert (Hy : y = Ok tt) by (apply Hfl2; [by constructor|exact Hp]). split; [done|].
  rewrite (Hok2 Hy). by change (contents (mkPlace _ (pl_file p') [])) with (contents p'); rewrite Hc.
Qed.

(** C26. Any number of processes may open one file at once: however their
    statements interleave and whichever fail, no row is lost, and a process that
    has opened the repository finds its tables complete.  A process fails for a
    failure of the storage, or - on a file of an earlier version only - because
    another one has added the column in between. *)
Theorem openers_keep_data n f events
    (st := run_openers events (repeat AtPeers n, f)) :
  upgraded st.2 = upgraded f /\
  (forall i, st.1 !! i = Some Opened -> st.2 = complete (upgraded f)) /\
  (forall i e, st.1 !! i = Some (OpenFailed e) ->
     (exists j, (j, Some e) ∈ events) \/
     (e = duplicate_column /\ exists rows, f_peers f = Some (OldPeers rows))).
Proof.
  pose proof (run_openers_ok f n events) as [He Hs Hf _]. fold st in He, Hs, Hf. split_and!.
  - apply (ex_data _ _ He).
  - intros i Hi. rewrite <- (ex_data _ _ He). apply (Hs Opened). by eapply list_elem_of_lookup_2.
  - intros i e Hi. apply list_elem_of_lookup_2 in Hi. destruct (Hf e Hi) as [Hin|?]; [left|by right].
    apply list_elem_of_omap in Hin as ([j o] & Hin & Eo). cbn in Eo. subst o. by exists j.
Qed.

(** Two processes that open a file of an earlier version at once: both find the
    column missing, and the second one to add it fails to open the repository. *)
Theorem concurrent_upgrade_fails rows g e :
  (run_openers [(0, None); (1, None); (0, None); (1, None); (0, None); (1, None)]%nat
     ([AtPeers; AtPeers], mkDbFile (Some (OldPeers rows)) g e)).1 = [AtGrants; OpenFailed duplicate_column].
Proof. reflexivity. Qed.

(** The call and the process are one: the statements of [migrate], with a failure
    or none for each, take a process from its start to the same end. *)
Theorem migrate_is_a_process d f e1 e2 e3 e4 e5 x p' :
  migrate (mkPlace d (Some f) [e1; e2; e3; e4; e5]) = (x, p') ->
  exists stage, run_openers (map (pair 0%nat) [e1; e2; e3; e4; e5]) ([AtPeers], f) =
      ([stage], default empty_file (pl_file p')) /\
    match x with
    | Ok _ => stage = Opened
    | Err err => exists e, err = Backend e /\ stage = OpenFailed e
    end.
Proof.
  intros E. destruct f as [t g ep].
  destruct e1 as [e1|]; [injection E as <- <-; eexists; split; [reflexivity|by eexists]|].
  destruct e2 as [e2|]; [injection E as <- <-; eexists; split; [reflexivity|by eexists]|].
  destruct t as [[rows|rows]|];
    (destruct e3 as [e3|]; [injection E as <- <-; eexists; split; [reflexivity|by eexists]|]);
    (destruct e4 as [e4|]; [injection E as <- <-; eexists; split; [reflexivity|first [done|by eexists]]|]).
  2, 3: injection E as <- <-; eexists; split; [destruct e5; reflexivity|done].
  destruct e5 as [e5|]; injection E as <- <-; eexists; (split; [reflexivity|first [done|by eexists]]).
Qed.
End properties.

(** ** Witnesses *)

Module SampleSchema.
Definition old_row : OldPeerRow := mkOldPeerRow [x01; x02] "desk" "linux" "pc" 1 10 20.

(** The file of an earlier version, with one peer and without endpoints. *)
Definition old_file : DbFile := mkDbFile (Some (OldPeers {["A"%string := old_row]})) (Some ∅) None.

(** The fifth call, which adds the column, fails. *)
Definition interrupted : Place := mkPlace true (Some old_file) [None; None; None; None; Some "disk full"%string].
End SampleSchema.

Section witnesses.
Import SampleSchema SamplePeer.

Lemma open_keeps_data_witness :
  let p' := (open_repository true interrupted).2 in
  (open_repository true interrupted).1 = Err (Backend "disk full") /\
  pl_file (open_repository true (mkPlace (pl_directory p') (pl_file p') [])).2 =
    Some (complete (mkDatabase {["A"%string := with_auto_connect old_row]} ∅ ∅)).
Proof.
  intros p'. split; [by vm_compute|].
  destruct (open_keeps_data true interrupted (open_repository true interrupted).1 p' (surjective_pairing _))
    as (_ & _ & _ & Hagain).
  destruct (Hagain (or_introl eq_refl) _ _ (surjective_pairing _)) as [_ ->]. by vm_compute.
Defined.

Lemma migrate_is_a_process_witness : exists stage,
  (run_openers (map (pair 0%nat) [None; None; Some "full"%string; None; None]) ([AtPeers], old_file)).1 = [stage] /\
  stage = OpenFailed "full".
Proof.
  destruct (migrate_is_a_process true old_file None None (Some "full"%string) None None
    (migrate (mkPlace true (Some old_file) [None; None; Some "full"%string; None; None])).1
    (migrate (mkPlace true (Some old_file) [None; None; Some "full"%string; None; None])).2
    (surjective_pairing _)) as (stage & Hrun & Hx).
  exists stage. rewrite Hrun. split; [done|]. assert (Hfail : (migrate (mkPlace true (Some old_file)
    [None; None; Some "full"%string; None; None])).1 = Err (Backend "full")) by (by vm_compute).
  rewrite Hfail in Hx. destruct Hx as (e & [= <-] & ->). done.
Defined.
End witnesses.
