(* ===== verification/Repository.v ===== *)
(** * Repository

    [SqlitePeerRepository] (repository.rs): the operations of the peer and
    endpoint repositories over the tables of RepositoryDb, the invariant of the
    tables, and the proofs that both interfaces are implemented. *)

From S2P Require Import Prelude Errors Addr Peer Endpoint RepositoryDb.

(** ** Operations *)

Section operations.
Context `{PeerApi} `{ConstraintsJson}.

(** [backend] and [network_backend] *)
Definition backend {A} (m : action Sqlite string A) : action Sqlite RepositoryError A :=
  act_map_err Backend m.
Definition network_backend {A} (m : action Sqlite string A) : action Sqlite NetworkError A :=
  act_map_err Errors.Repository m.

(** A statement that only reads. *)
Definition query {A} (f : Database -> A) : action Sqlite string A := exec (fun d => Ok (f d, d)).

(** [PeerRepository::peer] *)
Definition sql_peer (id : DeviceId) : action Sqlite RepositoryError (option PeerRecord) :=
  row ← backend (query (fun d => peers d !! as_str id));
  match row with
  | None => mret None
  | Some row => r ← lift (decode_peer (as_str id) row); mret (Some r)
  end.

(** [ORDER BY display_name, device_id] *)
Definition by_name (a b : string * PeerRow) : bool :=
  cmp_le (row_display_name a.2, a.1) (row_display_name b.2, b.1).

(** [PeerRepository::peers] *)
Definition sql_peers : action Sqlite RepositoryError (list PeerRecord) :=
  rows ← backend (query (fun d => sort_by by_name (map_to_list (peers d))));
  lift (collect (fun kv => decode_peer kv.1 kv.2) rows).

(** [PeerRepository::save_peer] *)
Definition sql_save_peer (p : PeerRecord) : action Sqlite RepositoryError unit :=
  lift (map_err Backend (verify_key (rec_device_id p) (rec_public_key p))) ;;
  backend (exec (upsert_peer (as_str (rec_device_id p)) (peer_row (trust_state p) p))).

Definition grant_row_key (g : Grant) : string * string * Z :=
  (as_str (grant_peer_id g), token (grant_capability g), encode_direction (grant_direction g)).

(** [PeerRepository::save_pairing] *)
Definition sql_save_pairing (p : PeerRecord) (grants : list Grant)
    : action Sqlite RepositoryError unit :=
  lift (map_err Backend (verify_key (rec_device_id p) (rec_public_key p))) ;;
  act_reject (existsb (fun g => negb (bool_decide (grant_peer_id g = rec_device_id p))) grants)
    (Backend "pairing grant belongs to another peer") ;;
  backend (transaction (
    exec (upsert_peer (as_str (rec_device_id p)) (peer_row Paired p)) ;;
    exec (delete_grants_of (as_str (rec_device_id p))) ;;
    act_each (fun g =>
      j ← lift (constraints_to_json (grant_constraints g));
      exec (insert_grant (grant_row_key g) (mkGrantRow j (granted_at_ms g)))) grants)).

(** [PeerRepository::forget_peer] *)
Definition sql_forget_peer (id : DeviceId) : action Sqlite RepositoryError bool :=
  n ← backend (exec (delete_peer (as_str id)));
  mret (negb (n =? 0)%nat).

(** [ORDER BY capability, direction] *)
Definition by_capability (a b : string * string * Z * GrantRow) : bool :=
  cmp_le (a.1.1.2, a.1.2) (b.1.1.2, b.1.2).

(** [PeerRepository::grants] *)
Definition sql_grants (id : DeviceId) : action Sqlite RepositoryError (list Grant) :=
  rows ← backend (query (fun d => sort_by by_capability
    (List.filter (fun kv => String.eqb kv.1.1.1 (as_str id)) (map_to_list (grants d)))));
  lift (collect (fun kv => decode_grant kv.1 kv.2) rows).

(** [PeerRepository::save_grant] *)
Definition sql_save_grant (g : Grant) : action Sqlite RepositoryError unit :=
  j ← lift (map_err Backend (constraints_to_json (grant_constraints g)));
  backend (exec (upsert_grant (grant_row_key g) (mkGrantRow j (granted_at_ms g)))).

(** [PeerRepository::revoke_grant] *)
Definition sql_revoke_grant (id : DeviceId) (capability : CapabilityId) (direction : GrantDirection)
    : action Sqlite RepositoryError bool :=
  n ← backend (exec (delete_grant (as_str id, token capability, encode_direction direction)));
  mret (negb (n =? 0)%nat).

Definition MAX_AGE_MS : Z := 90 * 24 * 60 * 60 * 1000.

(** [ORDER BY last_success_at_ms DESC, last_seen_at_ms DESC] *)
Definition newest_first (a b : string * address_text * EndpointRow) : bool :=
  cmp_le (row_last_success_at_ms b.2, row_last_seen_at_ms b.2)
         (row_last_success_at_ms a.2, row_last_seen_at_ms a.2).

(** The [WHERE] clause of [endpoints]. *)
Definition offered (id : DeviceId) (now : Z) (kv : string * address_text * EndpointRow) : bool :=
  String.eqb kv.1.1 (as_str id) && (row_retry_after_ms kv.2 <=? now)
  && (i64_saturating_sub now MAX_AGE_MS <=? row_last_success_at_ms kv.2).

(** [EndpointRepository::endpoints] *)
Definition sql_endpoints (now : Z) (id : DeviceId)
    : action Sqlite NetworkError (list RememberedEndpoint) :=
  rows ← network_backend (query (fun d =>
    take 16 (sort_by newest_first
      (List.filter (offered id now) (map_to_list (peer_endpoints d))))));
  lift (collect (fun kv => decode_endpoint kv.1 kv.2) rows).

(** [EndpointRepository::record_authenticated] *)
Definition sql_record_authenticated (now : Z) (id : DeviceId) (address : SocketAddr)
    (cert : list byte) (source : EndpointSource) : action Sqlite NetworkError unit :=
  network_backend (exec (upsert_endpoint (as_str id, address_to_string address) cert
    (encode_source source) (network_scope address) now)).

(** [EndpointRepository::record_failure] *)
Definition sql_record_failure (now : Z) (id : DeviceId) (address : SocketAddr)
    : action Sqlite NetworkError unit :=
  network_backend (exec (update_failure (as_str id, address_to_string address) now)).

(** [EndpointRepository::forget] *)
Definition sql_forget_endpoints (id : DeviceId) : action Sqlite NetworkError unit :=
  network_backend (exec (delete_endpoints_of (as_str id))).

#[export] Instance sqlite_peer_repository : PeerRepository Sqlite := {|
  find_peer := sql_peer;
  save_peer := sql_save_peer;
  save_pairing := sql_save_pairing;
  forget_peer := sql_forget_peer;
  list_grants := sql_grants;
  save_grant := sql_save_grant;
  revoke_grant := sql_revoke_grant
|}.

#[export] Instance sqlite_endpoint_repository : EndpointRepository Sqlite := {|
  endpoints := sql_endpoints;
  record_authenticated := sql_record_authenticated;
  record_failure := sql_record_failure;
  forget_endpoints := sql_forget_endpoints
|}.

(** ** The invariant of the tables *)

Record peer_row_ok (k : string) (row : PeerRow) (r : PeerRecord) : Prop := {
  pr_decodes : decode_peer k row = Ok r;
  pr_key : k = as_str (rec_device_id r)
}.

Record grant_row_ok (k : string * string * Z) (row : GrantRow) (g : Grant) : Prop := {
  gr_decodes : decode_grant k row = Ok g;
  gr_key : k = grant_row_key g
}.

Record endpoint_row_ok (k : string * address_text) (row : EndpointRow) (e : RememberedEndpoint)
    : Prop := {
  er_decodes : decode_endpoint k row = Ok e;
  er_key : k = (as_str (ep_peer_id e), address_to_string (ep_address e));
  er_plain : plain_address (ep_address e);
  er_failures : 0 <= row_consecutive_failures row
}.

(** Every row decodes to a value filed under its own key, and every row of a
    child table has its parent. *)
Record db_ok (d : Database) : Prop := {
  dk_peers : forall k row, peers d !! k = Some row -> exists r, peer_row_ok k row r;
  dk_grants : forall k row, grants d !! k = Some row ->
    (exists g, grant_row_ok k row g) /\ is_Some (peers d !! k.1.1);
  dk_endpoints : forall k row, peer_endpoints d !! k = Some row ->
    (exists e, endpoint_row_ok k row e) /\ is_Some (peers d !! k.1)
}.

(** ** The views *)

Definition db_known (d : Database) (id : DeviceId) : option PeerRecord :=
  row ← peers d !! as_str id; to_option (decode_peer (as_str id) row).

Definition grant_key (id : DeviceId) (c : CapabilityId) (dir : GrantDirection)
    : string * string * Z := (as_str id, token c, encode_direction dir).

Definition db_held (d : Database) (id : DeviceId) (c : CapabilityId) (dir : GrantDirection)
    : option Grant :=
  row ← grants d !! grant_key id c dir; to_option (decode_grant (grant_key id c dir) row).

Definition db_view (d : Database) : PeerView := mkView (db_known d) (db_held d).

Definition db_stored (d : Database) (id : DeviceId) (a : SocketAddr) : option RememberedEndpoint :=
  if decide (plain_address a) then
    row ← peer_endpoints d !! (as_str id, address_to_string a);
    to_option (decode_endpoint (as_str id, address_to_string a) row)
  else None.
End operations.

(** ** Facts *)

Section facts.
Context `{PeerApi} `{ConstraintsJson} `{!PeerLaws} `{!ConstraintsJsonLaws}.

(** *** Statements *)

Lemma exec_inv {A} (f : Database -> result string (A * Database)) s r s' :
  exec f s = (r, s') ->
  (exists a, r = Ok a /\ f (db s) = Ok (a, db s')) \/ (exists e, r = Err e /\ db s' = db s).
Proof.
  unfold exec. destruct (faults s) as [|[e|] fs]; [| intros [= <- <-]; right; eauto |];
    (destruct (f (db s)) as [[a d]|e] eqn:E; intros [= <- <-]; [left|right]; eauto).
Qed.

Lemma backend_inv {A} (m : action Sqlite string A) s r s' :
  backend m s = (r, s') -> exists r', m s = (r', s') /\ r = map_err Backend r'.
Proof. apply act_map_err_inv. Qed.

Lemma backend_exec_inv {A} (f : Database -> result string (A * Database)) s r s' :
  backend (exec f) s = (r, s') ->
  (exists a, r = Ok a /\ f (db s) = Ok (a, db s')) \/ (exists e, r = Err e /\ db s' = db s).
Proof.
  intros (r' & E & ->)%backend_inv. apply exec_inv in E as [(a & -> & ?)|(e & -> & ?)]; cbn; eauto.
Qed.

Lemma query_inv {A} (f : Database -> A) s r s' :
  backend (query f) s = (r, s') -> db s' = db s /\ forall a, r = Ok a -> a = f (db s).
Proof.
  intros [(a & -> & E)|(e & -> & E)]%backend_exec_inv; split; try done; congruence.
Qed.

Lemma transaction_inv {A} (body : action Sqlite string A) s r s' :
  transaction body s = (r, s') ->
  (exists a s1 s2, r = Ok a /\ db s1 = db s /\ body s1 = (Ok a, s2) /\ db s' = db s2) \/
  (exists e, r = Err e /\ db s' = db s).
Proof.
  unfold transaction.
  destruct (exec (fun d => Ok (tt, d)) s) as [[[]|e] s1] eqn:E1.
  - apply exec_inv in E1 as [(? & _ & E1)|(? & ? & _)]; [|done]. injection E1 as E1.
    destruct ((a ← body; exec (fun d => Ok (tt, d)) ;; mret a) s1) as [[a|e] s2] eqn:E2.
    + intros [= <- <-]. left. apply act_bind_ok in E2 as (b & s3 & Hb & E2).
      apply act_bind_ok in E2 as ([] & s4 & E2 & E3). injection E3 as <- <-.
      apply exec_inv in E2 as [(? & _ & E2)|(? & ? & _)]; [|done]. injection E2 as E2.
      exists b, s1, s3. split_and!; congruence.
    + intros [= <- <-]. right. by exists e.
  - intros [= <- <-]. right. apply exec_inv in E1 as [(? & ? & _)|(? & _ & ?)]; [done|eauto].
Qed.

(** *** Codecs *)

Lemma decode_direction_encode dir : decode_direction (encode_direction dir) = Ok dir.
Proof. by destruct dir. Qed.

Lemma encode_direction_inj a b : encode_direction a = encode_direction b -> a = b.
Proof. by destruct a, b. Qed.

Lemma token_inj a b : token a = token b -> a = b.
Proof.
  intros E. pose proof (parse_token_token a) as Ha. rewrite E, parse_token_token in Ha. congruence.
Qed.

Lemma grant_key_inj id c dir id' c' dir' :
  grant_key id c dir = grant_key id' c' dir' -> id = id' /\ c = c' /\ dir = dir'.
Proof.
  intros E. unfold grant_key in E. apply pair_equal_spec in E as [E Ed].
  apply pair_equal_spec in E as [Ei Ec].
  split_and!; [by apply as_str_inj | by apply token_inj | by apply encode_direction_inj].
Qed.

Lemma peer_row_ok_intro t p :
  verify_key (rec_device_id p) (rec_public_key p) = Ok tt ->
  peer_row_ok (as_str (rec_device_id p)) (peer_row t p) (set_trust t p).
Proof.
  intros Hv. split; [|done]. unfold decode_peer, peer_row. cbn [row_public_key].
  rewrite parse_as_str. cbn [map_err mbind result_bind].
  rewrite key_from_bytes_bytes. cbn [map_err mbind result_bind]. rewrite Hv. cbn.
  destruct t, (auto_connect p) eqn:Ea; cbn; unfold set_trust; rewrite Ea; done.
Qed.

Lemma set_trust_id p : set_trust (trust_state p) p = p.
Proof. by destruct p. Qed.

Lemma grant_row_ok_intro g j :
  constraints_to_json (grant_constraints g) = Ok j ->
  grant_row_ok (grant_row_key g) (mkGrantRow j (granted_at_ms g)) g.
Proof.
  intros Hj. split; [|done]. unfold decode_grant, grant_row_key.
  cbn [fst snd row_constraints_json row_granted_at_ms].
  rewrite parse_token_token. cbn [ok_or mbind result_bind].
  rewrite parse_as_str. cbn [map_err mbind result_bind].
  rewrite decode_direction_encode. cbn [mbind result_bind].
  rewrite (constraints_json_roundtrip _ _ Hj). cbn. by destruct g.
Qed.

Lemma decode_peer_verified k row r :
  decode_peer k row = Ok r -> verify_key (rec_device_id r) (rec_public_key r) = Ok tt.
Proof.
  unfold decode_peer. intros Hd. result_inv. cbn.
  by repeat match goal with x : unit |- _ => destruct x end.
Qed.

(** *** Views *)

Lemma db_known_some d id r :
  db_ok d -> db_known d id = Some r <->
  exists row, peers d !! as_str id = Some row /\ peer_row_ok (as_str id) row r.
Proof.
  intros Hok. unfold db_known. destruct (peers d !! as_str id) as [row|] eqn:E; cbn.
  - destruct (dk_peers _ Hok _ _ E) as (r' & Hr). rewrite (pr_decodes _ _ _ Hr). cbn. split.
    + intros [= <-]. eauto.
    + intros (? & [= <-] & Hr'). pose proof (pr_decodes _ _ _ Hr'). rewrite (pr_decodes _ _ _ Hr) in *.
      congruence.
  - split; [done|]. by intros (? & ? & _).
Qed.

Lemma db_held_some d id c dir g :
  db_ok d -> db_held d id c dir = Some g <->
  exists row, grants d !! grant_key id c dir = Some row /\ grant_row_ok (grant_key id c dir) row g.
Proof.
  intros Hok. unfold db_held. destruct (grants d !! grant_key id c dir) as [row|] eqn:E; cbn.
  - destruct (dk_grants _ Hok _ _ E) as [(r' & Hr) _]. rewrite (gr_decodes _ _ _ Hr). cbn. split.
    + intros [= <-]. eauto.
    + intros (? & [= <-] & Hr'). pose proof (gr_decodes _ _ _ Hr'). rewrite (gr_decodes _ _ _ Hr) in *.
      congruence.
  - split; [done|]. by intros (? & ? & _).
Qed.

Lemma view_eq_db d d' :
  peers d' = peers d -> grants d' = grants d -> view_eq (db_view d) (db_view d').
Proof. intros E1 E2. split; intros; cbn; [unfold db_known | unfold db_held]; congruence. Qed.
End facts.

(** ** What each statement does to tables in order *)

Section statements.
Context `{PeerApi} `{ConstraintsJson} `{!PeerLaws} `{!ConstraintsJsonLaws}.

Lemma upsert_peer_ok d k row r d' :
  db_ok d -> peer_row_ok k row r -> upsert_peer k row d = Ok (tt, d') ->
  db_ok d' /\ view_save_peer r (db_view d) (db_view d').
Proof.
  intros Hok Hr [= <-]. pose proof (pr_key _ _ _ Hr) as Hk. split.
  - destruct Hok as [Hp Hg He]. split; cbn.
    + intros k' row'. rewrite lookup_insert. case_decide; [intros [= <-]; subst k'; eauto | eauto].
    + intros k' row' Hl. destruct (Hg _ _ Hl) as [? ?]. split; [done|].
      rewrite lookup_insert. by case_decide.
    + intros k' row' Hl. destruct (He _ _ Hl) as [? ?]. split; [done|].
      rewrite lookup_insert. by case_decide.
  - split; [|done]. intros id. cbn. unfold db_known. cbn. rewrite lookup_insert.
    case_decide as Ek; case_decide as Ei; try done.
    + cbn. rewrite <- Ek. by rewrite (pr_decodes _ _ _ Hr).
    + subst k. by apply as_str_inj in Ek.
    + subst id k. done.
Qed.

Lemma grant_parents d (P : (string * string * Z) * GrantRow -> Prop) `{!forall kv, Decision (P kv)} :
  db_ok d -> db_ok (mkDatabase (peers d) (filter P (grants d)) (peer_endpoints d)).
Proof.
  intros [Hp Hg He]. split; cbn; try done.
  intros k row [Hl _]%map_lookup_filter_Some. by apply Hg.
Qed.

Lemma delete_grants_of_ok d id d' :
  db_ok d -> delete_grants_of (as_str id) d = Ok (tt, d') ->
  db_ok d' /\ peers d' = peers d /\ peer_endpoints d' = peer_endpoints d /\
  forall q c dir, db_held d' q c dir = if decide (q = id) then None else db_held d q c dir.
Proof.
  intros Hok [= <-]. split_and!; [by apply grant_parents | done | done |].
  intros q c dir. unfold db_held; cbn. case_decide as Hq.
  - subst q. rewrite map_lookup_filter_None_2; [done|]. right. intros row _ Hn. by apply Hn.
  - destruct (grants d !! grant_key q c dir) as [row|] eqn:E.
    + rewrite (map_lookup_filter_Some_2 _ _ _ row); [done..|]. cbn. intros Es.
      by apply as_str_inj in Es.
    + rewrite map_lookup_filter_None_2; [done|]. by left.
Qed.

Lemma grant_inserted_ok d k row g :
  db_ok d -> grant_row_ok k row g -> is_Some (peers d !! k.1.1) ->
  let d' := mkDatabase (peers d) (<[k := row]> (grants d)) (peer_endpoints d) in
  db_ok d' /\ view_save_grant g (db_view d) (db_view d').
Proof.
  intros Hok Hg Hpar d'. pose proof (gr_key _ _ _ Hg) as Hk. split.
  - destruct Hok as [Hp Hgr He]. split; cbn; try done.
    intros k' row'. rewrite lookup_insert. case_decide; [intros [= <-]; subst k'; eauto | eauto].
  - split; [done|]. intros q c dir. cbn. unfold db_held. cbn. rewrite lookup_insert.
    case_decide as Ek; case_decide as Ei; try done.
    + cbn. rewrite <- Ek. by rewrite (gr_decodes _ _ _ Hg).
    + exfalso. apply Ei. subst k. symmetry in Ek. by apply grant_key_inj in Ek.
    + exfalso. apply Ek. destruct Ei as (-> & -> & ->). done.
Qed.

Lemma upsert_grant_ok d k row g d' :
  db_ok d -> grant_row_ok k row g -> upsert_grant k row d = Ok (tt, d') ->
  db_ok d' /\ view_save_grant g (db_view d) (db_view d').
Proof.
  intros Hok Hg. unfold upsert_grant. destruct (peers d !! k.1.1) eqn:E; [|done].
  intros [= <-]. by apply grant_inserted_ok.
Qed.

Lemma insert_grant_ok d k row g d' :
  db_ok d -> grant_row_ok k row g -> insert_grant k row d = Ok (tt, d') ->
  db_ok d' /\ view_save_grant g (db_view d) (db_view d') /\
  db_held d (grant_peer_id g) (grant_capability g) (grant_direction g) = None.
Proof.
  intros Hok Hg. unfold insert_grant. destruct (grants d !! k) eqn:El; [done|].
  destruct (peers d !! k.1.1) eqn:E; [|done]. intros [= <-].
  destruct (grant_inserted_ok d k row g Hok Hg ltac:(done)) as [? ?].
  split_and!; [done..|]. unfold db_held. pose proof (gr_key _ _ _ Hg) as Hk.
  unfold grant_row_key in Hk. unfold grant_key. by rewrite <- Hk, El.
Qed.

Lemma delete_grant_ok d id c dir n d' :
  db_ok d -> delete_grant (grant_key id c dir) d = Ok (n, d') ->
  db_ok d' /\ view_revoke id c dir (db_view d) (db_view d').
Proof.
  intros Hok. unfold delete_grant. destruct (grants d !! grant_key id c dir) eqn:El; intros [= <- <-].
  - split.
    + destruct Hok as [Hp Hgr He]. split; cbn; try done.
      intros k row' [_ Hl]%lookup_delete_Some. by apply Hgr.
    + split; [done|]. intros q c' dir'. cbn. unfold db_held. cbn. rewrite lookup_delete.
      case_decide as Ek; case_decide as Ei; try done.
      * exfalso. apply Ei. symmetry in Ek. by apply grant_key_inj in Ek.
      * exfalso. apply Ek. destruct Ei as (-> & -> & ->). done.
  - split; [done|]. split; [done|]. intros q c' dir'. case_decide as Ei; [|done].
    destruct Ei as (-> & -> & ->). cbn. unfold db_held. by rewrite El.
Qed.

Lemma delete_peer_ok d id n d' :
  db_ok d -> delete_peer (as_str id) d = Ok (n, d') ->
  db_ok d' /\ view_forget id (db_view d) (db_view d') /\
  (forall q a, db_stored d' q a = if decide (q = id) then None else db_stored d q a).
Proof.
  intros Hok. pose proof Hok as [Hp Hgr He]. unfold delete_peer.
  assert (Hcase : forall (A : Type) (q : DeviceId) (x y : A),
    (if decide (as_str q = as_str id) then x else y) = (if decide (q = id) then x else y)).
  { intros A q x y. apply decide_ext. split; [apply as_str_inj | congruence]. }
  destruct (peers d !! as_str id) as [r|] eqn:El; intros [= <- <-].
  - split_and!; [split; cbn | split; cbn |].
    + intros k row [_ Hl]%lookup_delete_Some. by apply Hp.
    + intros k row [Hl Hne]%map_lookup_filter_Some. cbn in Hne.
      destruct (Hgr _ _ Hl) as [? ?]. split; [done|]. by rewrite lookup_delete_ne.
    + intros k row [Hl Hne]%map_lookup_filter_Some. cbn in Hne.
      destruct (He _ _ Hl) as [? ?]. split; [done|]. by rewrite lookup_delete_ne.
    + intros q. rewrite <- Hcase. unfold db_known; cbn. rewrite lookup_delete.
      by repeat case_decide.
    + intros q c dir. rewrite <- Hcase. unfold db_held; cbn. rewrite map_lookup_filter. cbn.
      destruct (grants d !! grant_key q c dir); cbn; repeat case_decide; cbn; try done.
    + intros q a. rewrite <- Hcase. unfold db_stored. case_decide as Ha; [|by case_decide].
      cbn. rewrite map_lookup_filter. cbn.
      destruct (peer_endpoints d !! (as_str q, address_to_string a)); cbn;
        repeat case_decide; cbn; try done.
  - assert (Hg0 : forall q c dir, as_str q = as_str id -> grants d !! grant_key q c dir = None).
    { intros q c dir Eq. destruct (grants d !! grant_key q c dir) eqn:E; [|done].
      destruct (Hgr _ _ E) as [_ [? Hs]]. cbn in Hs. congruence. }
    assert (He0 : forall q t, as_str q = as_str id -> peer_endpoints d !! (as_str q, t) = None).
    { intros q t Eq. destruct (peer_endpoints d !! (as_str q, t)) eqn:E; [|done].
      destruct (He _ _ E) as [_ [? Hs]]. cbn in Hs. congruence. }
    split_and!; [done | split; cbn |].
    + intros q. rewrite <- Hcase. case_decide as E; [|done]. unfold db_known. by rewrite E, El.
    + intros q c dir. rewrite <- Hcase. case_decide as E; [|done]. unfold db_held. by rewrite Hg0.
    + intros q a. rewrite <- Hcase. case_decide as E; [|done]. unfold db_stored.
      case_decide; [|done]. by rewrite He0.
Qed.
End statements.

(** ** The pairing transaction *)

Section pairing.
Context `{PeerApi} `{ConstraintsJson} `{!PeerLaws} `{!ConstraintsJsonLaws}.

Definition insert_pairing_grant (g : Grant) : action Sqlite string unit :=
  j ← lift (constraints_to_json (grant_constraints g));
  exec (insert_grant (grant_row_key g) (mkGrantRow j (granted_at_ms g))).

Lemma insert_pairing_grant_ok g s s' :
  db_ok (db s) -> insert_pairing_grant g s = (Ok tt, s') ->
  db_ok (db s') /\ view_save_grant g (db_view (db s)) (db_view (db s')) /\
  peer_endpoints (db s') = peer_endpoints (db s) /\
  db_held (db s) (grant_peer_id g) (grant_capability g) (grant_direction g) = None.
Proof.
  intros Hok Hi. unfold insert_pairing_grant in Hi.
  apply act_bind_ok in Hi as (j & s1 & Hj & Hi). injection Hj as Hj <-.
  apply exec_inv in Hi as [([] & _ & Hi)|(? & ? & _)]; [|done].
  pose proof (insert_grant_ok _ _ _ _ _ Hok (grant_row_ok_intro g j Hj) Hi) as (? & ? & ?).
  split_and!; try done. unfold insert_grant in Hi. repeat case_match; try done.
  by injection Hi as <-.
Qed.

(** Each inserted grant is new, so the loop adds exactly the grants of the
    list. *)
Lemma insert_pairing_grants_ok gs s s' :
  db_ok (db s) -> act_each insert_pairing_grant gs s = (Ok tt, s') ->
  db_ok (db s') /\ (forall q, db_known (db s') q = db_known (db s) q) /\
  peer_endpoints (db s') = peer_endpoints (db s) /\
  forall q c dir g, db_held (db s') q c dir = Some g <->
    db_held (db s) q c dir = Some g \/
    (g ∈ gs /\ q = grant_peer_id g /\ c = grant_capability g /\ dir = grant_direction g).
Proof.
  revert s. induction gs as [|x gs IH]; intros s Hok Hg; cbn in Hg.
  - injection Hg as <-. split_and!; [done..|]. intros. split; [auto|]. intros [?|[? _]]; set_solver.
  - apply act_bind_ok in Hg as ([] & s1 & Hx & Hg).
    destruct (insert_pairing_grant_ok _ _ _ Hok Hx) as (Hok1 & [Hk1 Hh1] & He1 & Hnew).
    destruct (IH s1 Hok1 Hg) as (Hok' & Hk' & He' & Hh'). cbn in Hk1, Hh1.
    split_and!; [done| |congruence|]; [intros q; by rewrite Hk'|].
    intros q c dir g. rewrite Hh', Hh1. case_decide as Hkey.
    + destruct Hkey as (-> & -> & ->). rewrite Hnew. split.
      * intros [[= <-]|(? & ?)]; right; set_solver.
      * intros [?|[[->|?]%elem_of_cons ?]]; [done|by left|right; done].
    + split; [intros [?|[? ?]]; [by left|right; set_solver]|].
      intros [?|[[->|?]%elem_of_cons Hk]]; [by left| |by right].
      exfalso. apply Hkey. destruct Hk as (-> & -> & ->). done.
Qed.

Lemma save_pairing_run p gs s r s' :
  db_ok (db s) -> sql_save_pairing p gs s = (r, s') ->
  db_ok (db s') /\
  if is_ok r then view_save_pairing p gs (db_view (db s)) (db_view (db s')) /\
                  peer_endpoints (db s') = peer_endpoints (db s) /\
                  (forall g, g ∈ gs -> grant_peer_id g = rec_device_id p)
  else db s' = db s.
Proof.
  intros Hok Hs. unfold sql_save_pairing in Hs.
  apply act_bind_inv in Hs as [([] & s0 & Hv & Hs)|(e & Hv & ->)]; injection Hv as Hv <-; [|done].
  apply map_err_ok in Hv.
  apply act_bind_inv in Hs as [([] & s1 & Ho & Hs)|(e & Ho & ->)]; unfold act_reject in Ho;
    injection Ho as Eo <-; [|done].
  destruct (existsb _ gs) eqn:Ex; [done|]. clear Eo. rename Ex into Eo.
  assert (Hown : forall g, g ∈ gs -> grant_peer_id g = rec_device_id p).
  { intros g Hg. apply not_true_iff_false in Eo. rewrite existsb_exists in Eo.
    destruct (decide (grant_peer_id g = rec_device_id p)) as [|Hne]; [done|]. exfalso. apply Eo.
    exists g. rewrite <- list_elem_of_In, bool_decide_false by done. done. }
  apply backend_inv in Hs as (r' & Ht & ->).
  apply transaction_inv in Ht as [([] & s2 & s3 & -> & E2 & Hb & E3)|(e & -> & E)];
    cbn [map_err is_ok]; [|by rewrite E].
  rewrite <- E2 in Hok.
  apply act_bind_ok in Hb as ([] & s4 & Hu & Hb). apply act_bind_ok in Hb as ([] & s5 & Hd & Hb).
  apply exec_inv in Hu as [([] & _ & Hu)|(? & ? & _)]; [|done].
  apply exec_inv in Hd as [([] & _ & Hd)|(? & ? & _)]; [|done].
  destruct (upsert_peer_ok _ _ _ _ _ Hok (peer_row_ok_intro Paired p Hv) Hu) as [Hok4 [Hk4 Hh4]].
  destruct (delete_grants_of_ok _ _ _ Hok4 Hd) as (Hok5 & Ep5 & Ee5 & Hh5).
  destruct (insert_pairing_grants_ok _ _ _ Hok5 Hb) as (Hok6 & Hk6 & Ee6 & Hh6).
  assert (Ee4 : peer_endpoints (db s4) = peer_endpoints (db s2)) by (injection Hu as <-; done).
  cbn in Hk4, Hh4. rewrite E2 in *. rewrite E3. split; [done|]. split_and!; [| congruence | done].
  split; [|split].
  - intros id. cbn. rewrite Hk6. unfold db_known at 1. rewrite Ep5. apply Hk4.
  - intros id c dir Hne. cbn. apply option_eq. intros g. rewrite Hh6, Hh5, decide_False, Hh4 by done.
    split; [|by left]. intros [?|(Hg & -> & _)]; [done|]. exfalso. apply Hne, Hown, Hg.
  - intros c dir g. cbn. rewrite Hh6, Hh5, decide_True by done. split.
    + intros [?|(? & ? & ? & ?)]; [done|auto].
    + intros (Hg & ? & ?). right. rewrite (Hown _ Hg). auto.
Qed.
End pairing.

(** ** The database implements the peer repository *)

Section peer_laws.
Context `{PeerApi} `{ConstraintsJson} `{!PeerLaws} `{!ConstraintsJsonLaws}.

Lemma grant_row_of d id c dir row g :
  db_ok d -> grants d !! grant_key id c dir = Some row ->
  decode_grant (grant_key id c dir) row = Ok g ->
  grant_peer_id g = id /\ grant_capability g = c /\ grant_direction g = dir.
Proof.
  intros Hok Hl Hd. destruct (dk_grants _ Hok _ _ Hl) as [(g' & Hg) _].
  pose proof (gr_decodes _ _ _ Hg) as Hd'. assert (g' = g) as -> by congruence.
  pose proof (gr_key _ _ _ Hg) as Hk. symmetry in Hk. by apply grant_key_inj in Hk.
Qed.

Lemma held_grant_rows d id g :
  db_ok d ->
  (exists k row, grants d !! k = Some row /\ k.1.1 = as_str id /\ decode_grant k row = Ok g) <->
  db_held d id (grant_capability g) (grant_direction g) = Some g.
Proof.
  intros Hok. rewrite db_held_some by done. split.
  - intros (k & row & Hl & Hk & Hd). destruct (dk_grants _ Hok _ _ Hl) as [(g' & Hg) _].
    pose proof (gr_decodes _ _ _ Hg) as Hd'. assert (g' = g) as -> by congruence.
    pose proof (gr_key _ _ _ Hg) as Hkey. rewrite Hkey in Hk. cbn in Hk. apply as_str_inj in Hk.
    unfold grant_row_key in Hkey. rewrite Hk in Hkey. fold (grant_key id (grant_capability g)
      (grant_direction g)) in Hkey. subst k. eauto.
  - intros (row & Hl & Hg). exists (grant_key id (grant_capability g) (grant_direction g)), row.
    split_and!; [done..|]. apply Hg.
Qed.

Lemma elem_of_collect {E A B} (f : A -> result E B) l k y :
  collect f l = Ok k -> y ∈ k <-> exists x, x ∈ l /\ f x = Ok y.
Proof.
  rewrite collect_ok. induction 1 as [|x z l k Hf _ IH]; [set_solver|].
  rewrite elem_of_cons, IH. split.
  - intros [->|(w & ? & ?)]; [exists x | exists w]; set_solver.
  - intros (w & [->|?]%elem_of_cons & ?); [left; congruence | right; eauto].
Qed.

Lemma sql_grants_run id s r s' :
  db_ok (db s) -> sql_grants id s = (r, s') ->
  db s' = db s /\ forall l, r = Ok l -> forall g, g ∈ l <->
    db_held (db s) id (grant_capability g) (grant_direction g) = Some g.
Proof.
  intros Hok Hs. unfold sql_grants in Hs.
  apply act_bind_inv in Hs as [(rows & s1 & Hq & Hs)|(e & Hq & ->)].
  - apply query_inv in Hq as [Hd Hq]. specialize (Hq _ eq_refl). injection Hs as <- <-.
    split; [done|]. intros l Hl g. rewrite (elem_of_collect _ _ _ _ Hl), <- held_grant_rows by done.
    subst rows. setoid_rewrite (elem_of_sort_by by_capability).
    setoid_rewrite list_elem_of_In. setoid_rewrite filter_In. setoid_rewrite <- list_elem_of_In.
    split.
    + intros ([k row] & [Hin Ek] & Hd'). apply elem_of_map_to_list in Hin.
      apply String.eqb_eq in Ek. eauto.
    + intros (k & row & Hl' & Ek & Hd'). exists (k, row). rewrite elem_of_map_to_list. cbn.
      by rewrite Ek, String.eqb_refl.
  - apply query_inv in Hq as [Hd _]. done.
Qed.

Lemma sql_peer_run id s r s' :
  db_ok (db s) -> sql_peer id s = (r, s') ->
  db s' = db s /\ forall o, r = Ok o -> o = db_known (db s) id.
Proof.
  intros Hok Hs. unfold sql_peer in Hs.
  apply act_bind_inv in Hs as [(row & s1 & Hq & Hs)|(e & Hq & ->)];
    apply query_inv in Hq as [Hd Hq]; [|done]. specialize (Hq _ eq_refl). subst row.
  unfold db_known. destruct (peers (db s) !! as_str id) as [row|] eqn:El.
  - destruct (dk_peers _ Hok _ _ El) as (p & Hp).
    unfold mbind, action_bind, lift in Hs. rewrite (pr_decodes _ _ _ Hp) in Hs.
    injection Hs as <- <-. split; [done|]. intros o [= <-]. cbn. by rewrite (pr_decodes _ _ _ Hp).
  - injection Hs as <- <-. split; [done|]. by intros o [= <-].
Qed.

Ltac same_db E := split; [by rewrite E | cbn [is_ok]; by rewrite E].

#[export] Program Instance sqlite_peer_laws : PeerRepositoryLaws Sqlite := {|
  peer_repo_ok := fun s => db_ok (db s);
  view := fun s => db_view (db s)
|}.
Next Obligation.
  intros s id r Hok (row & Hl & Hr)%db_known_some; [|done]. split.
  - symmetry. apply as_str_inj. by apply (pr_key _ _ _ Hr).
  - pose proof (decode_peer_verified _ _ _ (pr_decodes _ _ _ Hr)) as Hv.
    pose proof (pr_key _ _ _ Hr) as Hk. apply as_str_inj in Hk. by rewrite Hk.
Qed.
Next Obligation.
  intros s id c d g Hok (row & Hl & Hr)%db_held_some; [|done].
  exact (grant_row_of _ _ _ _ _ _ Hok Hl (gr_decodes _ _ _ Hr)).
Qed.
Next Obligation.
  intros id s r s' Hok Hs. destruct (sql_peer_run id s r s' Hok Hs) as [Hd Ho].
  split; [by rewrite Hd|]. split; [by rewrite Hd | done].
Qed.
Next Obligation.
  intros id s r s' Hok Hs. destruct (sql_grants_run id s r s' Hok Hs) as [Hd Ho].
  split; [by rewrite Hd|]. split; [by rewrite Hd | done].
Qed.
Next Obligation.
  intros p s r s' Hok Hs. cbn in Hs. unfold sql_save_peer in Hs.
  apply act_bind_inv in Hs as [([] & s0 & Hv & Hs)|(e & Hv & ->)]; injection Hv as Hv <-; [|done].
  apply map_err_ok in Hv.
  apply backend_exec_inv in Hs as [([] & -> & Hs)|(e & -> & E)]; [|same_db E].
  pose proof (peer_row_ok_intro (trust_state p) p Hv) as Hr. rewrite set_trust_id in Hr.
  by apply (upsert_peer_ok _ _ _ _ _ Hok Hr).
Qed.
Next Obligation.
  intros p gs s r s' Hok Hs. destruct (save_pairing_run p gs s r s' Hok Hs) as [Hok' Hv].
  split; [done|]. destruct (is_ok r); [apply Hv | by rewrite Hv].
Qed.
Next Obligation.
  intros id s r s' Hok Hs. cbn in Hs. unfold sql_forget_peer in Hs.
  apply act_bind_inv in Hs as [(n & s0 & Hd & Hs)|(e & Hd & ->)];
    apply backend_exec_inv in Hd as [(n' & E & Hd)|(e' & E & Hd)]; try done; [|same_db Hd].
  injection E as <-. injection Hs as <- <-. cbn [is_ok].
  destruct (delete_peer_ok _ _ _ _ Hok Hd) as (? & ? & _). done.
Qed.
Next Obligation.
  intros g s r s' Hok Hs. cbn in Hs. unfold sql_save_grant in Hs.
  apply act_bind_inv in Hs as [(j & s0 & Hv & Hs)|(e & Hv & ->)]; injection Hv as Hv <-; [|done].
  apply map_err_ok in Hv.
  apply backend_exec_inv in Hs as [([] & -> & Hs)|(e & -> & E)]; [|same_db E].
  by apply (upsert_grant_ok _ _ _ _ _ Hok (grant_row_ok_intro g j Hv)).
Qed.
Next Obligation.
  intros id c d s r s' Hok Hs. cbn in Hs. unfold sql_revoke_grant in Hs.
  apply act_bind_inv in Hs as [(n & s0 & Hd & Hs)|(e & Hd & ->)];
    apply backend_exec_inv in Hd as [(n' & E & Hd)|(e' & E & Hd)]; try done; [|same_db Hd].
  injection E as <-. injection Hs as <- <-. cbn [is_ok].
  by apply (delete_grant_ok _ _ _ _ _ _ Hok Hd).
Qed.
End peer_laws.

(** ** The database implements the endpoint repository *)

Section endpoint_laws.
Context `{PeerApi} `{ConstraintsJson} `{!PeerLaws} `{!ConstraintsJsonLaws}.

Lemma address_to_string_inj a b :
  plain_address a -> plain_address b -> address_to_string a = address_to_string b -> a = b.
Proof. unfold address_to_string. intros Ha Hb [= E]. by rewrite <- Ha, <- Hb. Qed.

Lemma db_stored_some d id a e :
  db_ok d -> db_stored d id a = Some e <->
  plain_address a /\ exists row,
    peer_endpoints d !! (as_str id, address_to_string a) = Some row /\
    endpoint_row_ok (as_str id, address_to_string a) row e.
Proof.
  intros Hok. unfold db_stored. case_decide as Ha; [|naive_solver].
  destruct (peer_endpoints d !! (as_str id, address_to_string a)) as [row|] eqn:E; cbn.
  - destruct (dk_endpoints _ Hok _ _ E) as [(e' & He) _]. rewrite (er_decodes _ _ _ He). cbn.
    split; [intros [= <-]; eauto|]. intros (_ & ? & [= <-] & He').
    pose proof (er_decodes _ _ _ He'). rewrite (er_decodes _ _ _ He) in *. congruence.
  - naive_solver.
Qed.

Lemma endpoint_row_key d id a row e :
  db_ok d -> plain_address a -> endpoint_row_ok (as_str id, address_to_string a) row e ->
  ep_peer_id e = id /\ ep_address e = a.
Proof.
  intros Hok Ha He. pose proof (er_key _ _ _ He) as Hk. apply pair_equal_spec in Hk as [Ei Et].
  split; [symmetry; by apply as_str_inj|]. symmetry. apply address_to_string_inj; [done| |done].
  by apply (er_plain _ _ _ He).
Qed.

(** The rows of one peer decode to endpoints with distinct addresses. *)
Lemma decoded_nodup d id rows l :
  db_ok d -> NoDup (map fst rows) ->
  (forall kv, kv ∈ rows -> peer_endpoints d !! kv.1 = Some kv.2 /\ kv.1.1 = as_str id) ->
  Forall2 (fun kv e => decode_endpoint kv.1 kv.2 = Ok e) rows l -> NoDup (map ep_address l).
Proof.
  intros Hok Hn Hin Hf. revert Hn Hin. induction Hf as [|[k row] e rows l Hd Hf IH]; cbn.
  - intros _ _. apply NoDup_nil_2.
  - intros [Hk Hn]%NoDup_cons Hin. constructor; [|apply IH; [done|set_solver]].
    intros (e' & Ea & He')%list_elem_of_In%in_map_iff. apply list_elem_of_In in He'.
    apply list_elem_of_lookup_1 in He' as [i Hi].
    destruct (Forall2_lookup_r _ _ _ _ _ Hf Hi) as ([k' row'] & Hrow & Hd').
    apply list_elem_of_lookup_2 in Hrow. apply Hk, list_elem_of_In, in_map_iff.
    exists (k', row'). rewrite <- list_elem_of_In. split; [|done]. cbn in *.
    assert (Hkey : forall k0 row0 e0, peer_endpoints d !! k0 = Some row0 -> k0.1 = as_str id ->
      decode_endpoint k0 row0 = Ok e0 -> k0 = (as_str id, address_to_string (ep_address e0))).
    { intros k0 row0 e0 Hl Hi0 Hd0. destruct (dk_endpoints _ Hok _ _ Hl) as [(e1 & He1) _].
      pose proof (er_decodes _ _ _ He1). assert (e1 = e0) as -> by congruence.
      rewrite (er_key _ _ _ He1) in Hi0 |- *. cbn in Hi0. by rewrite Hi0. }
    destruct (Hin (k, row)) as [Hl Hid]; [set_solver|].
    destruct (Hin (k', row')) as [Hl' Hid']; [set_solver|]. cbn in *.
    rewrite (Hkey _ _ _ Hl Hid Hd), (Hkey _ _ _ Hl' Hid' Hd'). by rewrite Ea.
Qed.

Lemma offered_rows d id now rows :
  rows = take 16 (sort_by newest_first
    (List.filter (offered id now) (map_to_list (peer_endpoints d)))) ->
  (length rows <= 16)%nat /\ NoDup (map fst rows) /\
  forall kv, kv ∈ rows -> peer_endpoints d !! kv.1 = Some kv.2 /\ kv.1.1 = as_str id /\
    row_retry_after_ms kv.2 <= now.
Proof.
  intros ->. set (k := sort_by _ _).
  assert (Hsub : forall kv, kv ∈ take 16 k -> kv ∈ map_to_list (peer_endpoints d) /\
    offered id now kv = true).
  { intros kv Hkv. apply subseteq_take, elem_of_sort_by in Hkv.
    rewrite list_elem_of_In, filter_In, <- list_elem_of_In in Hkv. done. }
  split_and!.
  - rewrite length_take. lia.
  - assert (Hk : NoDup (map fst k)).
    { unfold k. rewrite sort_by_Permutation. pose proof (NoDup_fst_map_to_list (peer_endpoints d)) as Hm.
      change (NoDup (map fst (map_to_list (peer_endpoints d)))) in Hm. revert Hm.
      generalize (map_to_list (peer_endpoints d)). intros m. induction m as [|x m IH]; cbn; [done|].
      intros [Hx Hm]%NoDup_cons. case_match; cbn; auto. apply NoDup_cons. split; auto.
      intros (y & Ey & [Hy _]%filter_In)%list_elem_of_In%in_map_iff. apply Hx.
      apply list_elem_of_In, in_map_iff. eauto. }
    rewrite <- (take_drop 16 k), map_app in Hk. by apply NoDup_app in Hk as [? _].
  - intros [key row] Hkv. destruct (Hsub _ Hkv) as [Hin Ho]. apply elem_of_map_to_list in Hin.
    unfold offered in Ho. cbn in Ho |- *. destruct_bools.
    split_and!; [done | by apply String.eqb_eq | by apply Z.leb_le].
Qed.

Lemma decode_endpoint_retry k row e :
  decode_endpoint k row = Ok e -> retry_after_ms e = row_retry_after_ms row.
Proof. unfold decode_endpoint. intros Hd. result_inv. case_match; [done|]. result_inv. done. Qed.

Lemma sql_endpoints_run now id s r s' :
  db_ok (db s) -> sql_endpoints now id s = (r, s') ->
  db s' = db s /\ forall l, r = Ok l ->
    (length l <= 16)%nat /\ NoDup (map ep_address l) /\
    forall e, e ∈ l -> db_stored (db s) id (ep_address e) = Some e /\ retry_after_ms e <= now.
Proof.
  intros Hok Hs. unfold sql_endpoints in Hs.
  apply act_bind_inv in Hs as [(rows & s1 & Hq & Hs)|(e & Hq & ->)];
    apply act_map_err_inv in Hq as (r' & Hq & Er);
    apply exec_inv in Hq as [(a & -> & Hq)|(e' & -> & Hq)]; try done.
  injection Er as <-. injection Hq as Hrows Hd. injection Hs as <- <-.
  split; [done|]. intros l Hl. apply collect_ok in Hl.
  destruct (offered_rows (db s) id now rows (eq_sym Hrows)) as (Hlen & Hn & Hin).
  split_and!.
  - apply Forall2_length in Hl. lia.
  - eapply decoded_nodup; [exact Hok | exact Hn | | exact Hl]. intros kv Hkv.
    by destruct (Hin _ Hkv) as (? & ? & _).
  - intros e He. apply list_elem_of_lookup_1 in He as [i Hi].
    destruct (Forall2_lookup_r _ _ _ _ _ Hl Hi) as ([k row] & Hrow & Hd').
    apply list_elem_of_lookup_2 in Hrow. destruct (Hin _ Hrow) as (Hlk & Hid & Hretry). cbn in *.
    rewrite (decode_endpoint_retry _ _ _ Hd'). split; [|done]. apply db_stored_some; [done|].
    destruct (dk_endpoints _ Hok _ _ Hlk) as [(e1 & He1) _].
    pose proof (er_decodes _ _ _ He1). assert (e1 = e) as -> by congruence.
    split; [apply (er_plain _ _ _ He1)|]. pose proof (er_key _ _ _ He1) as Hkey. rewrite Hkey in Hid.
    cbn in Hid. rewrite Hid in Hkey. subst k. eauto.
Qed.
End endpoint_laws.

Section endpoint_instance.
Context `{PeerApi} `{ConstraintsJson} `{!PeerLaws} `{!ConstraintsJsonLaws}.

Lemma sql_integer_ok z v : sql_integer z = Ok v -> v = z /\ in_i64 z.
Proof.
  unfold sql_integer, in_i64. destruct ((i64_min <=? z) && (z <=? i64_max)) eqn:E; [|done].
  intros [= <-]. apply andb_prop in E as [?%Z.leb_le ?%Z.leb_le]. done.
Qed.

(** The cap of 300 seconds of the statement is never reached. *)
Lemma sql_retry_uncapped now n :
  0 <= n -> sql_retry now n = now + Z.shiftl 1 (Z.min (n + 1) 8) * 1000.
Proof.
  intros Hn. unfold sql_retry. f_equal. rewrite Z.shiftl_mul_pow2, Z.mul_1_l by lia.
  assert (2 ^ Z.min (n + 1) 8 <= 2 ^ 8) by (apply Z.pow_le_mono_r; lia). lia.
Qed.

Lemma failures_u32_succ n :
  0 <= n -> failures_u32 (n + 1) = u32_saturating_add (failures_u32 n) 1 /\
            Z.min (u32_saturating_add (failures_u32 n) 1) 8 = Z.min (n + 1) 8.
Proof.
  intros Hn. unfold failures_u32, u32_saturating_add, u32_max.
  destruct (Z.leb_spec 0 n), (Z.leb_spec n 4294967295), (Z.leb_spec 0 (n + 1)),
    (Z.leb_spec (n + 1) 4294967295); cbn [andb]; lia.
Qed.

Lemma decode_failure k row e now failures retry :
  endpoint_row_ok k row e ->
  sql_integer (row_consecutive_failures row + 1) = Ok failures ->
  sql_integer (sql_retry now (row_consecutive_failures row)) = Ok retry ->
  endpoint_row_ok k (mkEndpointRow (row_certificate_sha256 row) (row_source row)
     (row_network_scope row) (row_first_seen_at_ms row) (row_last_seen_at_ms row)
     (row_last_success_at_ms row) failures retry) (back_off now e).
Proof.
  intros [Hd Hk Hp Hf] [-> _]%sql_integer_ok [-> Hr]%sql_integer_ok. split; [|done..|cbn; lia].
  rewrite sql_retry_uncapped in * by done. destruct (failures_u32_succ _ Hf) as [E1 E2].
  unfold decode_endpoint in *. cbn [row_certificate_sha256 row_source row_network_scope
    row_first_seen_at_ms row_last_seen_at_ms row_last_success_at_ms row_consecutive_failures
    row_retry_after_ms]. result_inv. destruct (negb _); [done|]. result_inv.
  unfold back_off; cbn. f_equal. f_equal; [done|]. rewrite E2. unfold i64_saturating_add.
  unfold in_i64, i64_saturate in *. lia.
Qed.

Lemma db_ok_endpoint d k row e :
  db_ok d -> endpoint_row_ok k row e -> is_Some (peers d !! k.1) ->
  db_ok (mkDatabase (peers d) (grants d) (<[k := row]> (peer_endpoints d))).
Proof.
  intros [Hp Hg He] Hr Hpar. split; cbn; try done.
  intros k' row'. rewrite lookup_insert. case_decide; [intros [= <-]; subst k'; eauto | eauto].
Qed.

(** Replacing the row of one key changes the view at that key only. *)
Lemma db_stored_insert d id a row e q b :
  plain_address a -> endpoint_row_ok (as_str id, address_to_string a) row e ->
  db_stored (mkDatabase (peers d) (grants d)
    (<[(as_str id, address_to_string a) := row]> (peer_endpoints d))) q b =
  if decide (q = id /\ b = a) then Some e else db_stored d q b.
Proof.
  intros Ha Hr. unfold db_stored. case_decide as Hb.
  - cbn. rewrite lookup_insert. case_decide as Ek; case_decide as Ei; try done.
    + cbn. rewrite <- Ek. by rewrite (er_decodes _ _ _ Hr).
    + exfalso. apply Ei. apply pair_equal_spec in Ek as [E1 E2].
      apply as_str_inj in E1. apply address_to_string_inj in E2; auto.
    + exfalso. apply Ek. by destruct Ei as [-> ->].
  - case_decide as Ei; [|done]. by destruct Ei as [_ ->].
Qed.

Lemma update_failure_ok d id a now d' :
  db_ok d -> plain_address a ->
  update_failure (as_str id, address_to_string a) now d = Ok (tt, d') ->
  db_ok d' /\ forall q b, db_stored d' q b =
    if decide (q = id /\ b = a) then back_off now <$> db_stored d q b else db_stored d q b.
Proof.
  intros Hok Ha Hu. unfold update_failure in Hu.
  destruct (peer_endpoints d !! (as_str id, address_to_string a)) as [row|] eqn:El.
  - result_inv. destruct (dk_endpoints _ Hok _ _ El) as [(e & He) Hpar].
    pose proof (decode_failure _ _ _ now _ _ He E E0) as Hr. split; [by eapply db_ok_endpoint|].
    intros q b. rewrite (db_stored_insert _ _ _ _ _ _ _ Ha Hr). case_decide as Eq; [|done].
    destruct Eq as [-> ->]. assert (Es : db_stored d id a = Some e)
      by (apply db_stored_some; [done|]; split; [done|]; eauto). by rewrite Es.
  - injection Hu as <-. split; [done|]. intros q b. case_decide as Eq; [|done].
    destruct Eq as [-> ->]. unfold db_stored. case_decide; [|done]. by rewrite El.
Qed.

Lemma fresh_row_ok id a cert src first now :
  plain_address a -> blen cert = 32 ->
  endpoint_row_ok (as_str id, address_to_string a)
    (mkEndpointRow cert (encode_source src) (network_scope a) first now now 0 0)
    (mkEndpoint id a cert src (network_scope a) first now now 0 0).
Proof.
  intros Ha Hc. split; [|done|done|done]. unfold decode_endpoint. cbn [fst snd].
  rewrite parse_as_str. cbn. rewrite Hc, Ha. by destruct src.
Qed.

Lemma upsert_endpoint_ok d id a cert src now d' :
  db_ok d -> plain_address a -> blen cert = 32 ->
  upsert_endpoint (as_str id, address_to_string a) cert (encode_source src) (network_scope a) now d
    = Ok (tt, d') ->
  db_ok d' /\ forall q b, db_stored d' q b =
    if decide (q = id /\ b = a) then Some (authenticated now id a cert src (db_stored d id a))
    else db_stored d q b.
Proof.
  intros Hok Ha Hc Hu. unfold upsert_endpoint in Hu. cbn [fst] in Hu.
  destruct (peers d !! as_str id) as [p|] eqn:Hpar; [|done]. injection Hu as <-.
  assert (Hr : exists e, endpoint_row_ok (as_str id, address_to_string a)
    (mkEndpointRow cert (encode_source src) (network_scope a)
      (match peer_endpoints d !! (as_str id, address_to_string a) with
       | Some row => row_first_seen_at_ms row | None => now end) now now 0 0) e /\
    e = authenticated now id a cert src (db_stored d id a)).
  { eexists. split; [by apply fresh_row_ok|]. unfold authenticated, db_stored.
    rewrite decide_True by done.
    destruct (peer_endpoints d !! (as_str id, address_to_string a)) as [row|] eqn:El; cbn; [|done].
    destruct (dk_endpoints _ Hok _ _ El) as [(e & He) _]. rewrite (er_decodes _ _ _ He). cbn.
    destruct (endpoint_row_key _ _ _ _ _ Hok Ha He) as [-> ->].
    pose proof (er_decodes _ _ _ He) as Hd. unfold decode_endpoint in Hd. result_inv.
    destruct (negb _); [done|]. by result_inv. }
  destruct Hr as (e & Hr & ->). split; [by eapply db_ok_endpoint|].
  intros q b. by apply db_stored_insert.
Qed.

Lemma delete_endpoints_ok d id d' :
  db_ok d -> delete_endpoints_of (as_str id) d = Ok (tt, d') ->
  db_ok d' /\ forall q b, db_stored d' q b = if decide (q = id) then None else db_stored d q b.
Proof.
  intros [Hp Hg He] [= <-]. split.
  - split; cbn; try done. intros k row [Hl _]%map_lookup_filter_Some. by apply He.
  - intros q b. unfold db_stored. case_decide as Hb; [|by case_decide]. cbn.
    rewrite map_lookup_filter. cbn.
    assert (Hi : as_str q <> as_str id <-> q <> id)
      by (split; intros Hne Eq; apply Hne; [by rewrite Eq | by apply as_str_inj]).
    destruct (peer_endpoints d !! (as_str q, address_to_string b)); cbn;
      repeat case_decide; cbn; try done; naive_solver.
Qed.

#[export] Program Instance sqlite_endpoint_laws : EndpointRepositoryLaws Sqlite := {|
  repo_ok := fun s => db_ok (db s);
  stored := fun s => db_stored (db s)
|}.
Next Obligation.
  intros s p a e Hok (Ha & row & _ & He)%db_stored_some; [|done].
  by apply (endpoint_row_key (db s) _ _ row).
Qed.
Next Obligation.
  intros now p s r s' Hok Hs. destruct (sql_endpoints_run _ _ _ _ _ Hok Hs) as [Hd _].
  split; [by rewrite Hd | intros; by rewrite Hd].
Qed.
Next Obligation.
  intros now p s l s' Hok Hs. destruct (sql_endpoints_run _ _ _ _ _ Hok Hs) as [_ Hl]. auto.
Qed.
Next Obligation.
  intros now p a s r s' Hnow Ha Hok Hs.
  apply act_map_err_inv in Hs as (r' & Hs & ->).
  apply exec_inv in Hs as [([] & -> & Hs)|(e & -> & E)]; cbn [map_err is_ok].
  - destruct (update_failure_ok _ _ _ _ _ Hok Ha Hs) as [Hok' Hst]. split; [done|].
    intros q b. rewrite Hst. apply decide_ext. naive_solver.
  - rewrite E. split; [done|]. intros q b. by rewrite decide_False by naive_solver.
Qed.
Next Obligation.
  intros now p a cert src s r s' Hnow Ha Hc Hok Hs.
  apply act_map_err_inv in Hs as (r' & Hs & ->).
  apply exec_inv in Hs as [([] & -> & Hs)|(e & -> & E)]; cbn [map_err is_ok].
  - destruct (upsert_endpoint_ok _ _ _ _ _ _ _ Hok Ha Hc Hs) as [Hok' Hst]. split_and!.
    + done.
    + intros q b [?|Hq]; [done|]. rewrite Hst. by rewrite decide_False by naive_solver.
    + intros b e _. rewrite Hst. case_decide as Eb; case_decide as Eb'; naive_solver.
    + intros _ _. rewrite Hst, decide_True by done. eauto.
  - rewrite E. split_and!; [done..|discriminate|discriminate].
Qed.
Next Obligation.
  intros p s r s' Hok Hs.
  apply act_map_err_inv in Hs as (r' & Hs & ->).
  apply exec_inv in Hs as [([] & -> & Hs)|(e & -> & E)]; cbn [map_err is_ok].
  - destruct (delete_endpoints_ok _ _ _ Hok Hs) as [Hok' Hst]. split; [done|].
    intros q b. rewrite Hst. apply decide_ext. naive_solver.
  - rewrite E. split; [done|]. intros q b. by rewrite decide_False by naive_solver.
Qed.
End endpoint_instance.

(** ** Properties *)

Section properties.
Context `{PeerApi} `{ConstraintsJson} `{!PeerLaws} `{!ConstraintsJsonLaws}.

(** C16. Saving a pairing is all or nothing, whichever statement of it fails.
    When it succeeds the peer is stored as paired and holds exactly the grants
    given, whatever it held before; its remembered endpoints and every other
    peer are untouched.  When it fails, for a fault of the storage, a key that
    is not the one of the device, a grant of another peer or a repeated grant,
    no table has changed. *)
Theorem save_pairing_atomic p gs s r s' :
  db_ok (db s) -> sql_save_pairing p gs s = (r, s') ->
  match r with
  | Ok _ =>
      db_ok (db s') /\
      verify_key (rec_device_id p) (rec_public_key p) = Ok tt /\
      db_known (db s') (rec_device_id p) = Some (set_trust Paired p) /\
      (forall c dir g, db_held (db s') (rec_device_id p) c dir = Some g <->
         g ∈ gs /\ grant_capability g = c /\ grant_direction g = dir) /\
      (forall q c dir, q <> rec_device_id p ->
         db_known (db s') q = db_known (db s) q /\ db_held (db s') q c dir = db_held (db s) q c dir) /\
      peer_endpoints (db s') = peer_endpoints (db s)
  | Err _ => db s' = db s
  end.
Proof.
  intros Hok Hs. destruct (save_pairing_run p gs s r s' Hok Hs) as [Hok' Hr].
  destruct r as [[]|e]; cbn [is_ok] in Hr; [|done].
  destruct Hr as ((Hk & Ho & Hh) & He & _). cbn in Hk, Ho, Hh.
  assert (Hown : db_known (db s') (rec_device_id p) = Some (set_trust Paired p))
    by (by rewrite Hk, decide_True).
  split_and!; [done| |done|done| |done].
  - apply db_known_some in Hown as (row & _ & Hr); [|done].
    exact (decode_peer_verified _ _ _ (pr_decodes _ _ _ Hr)).
  - intros q c dir Hne. by rewrite Hk, decide_False, Ho.
Qed.

(** Forgetting a peer removes its record together with all of its grants
    and remembered endpoints, and answers whether it was known; the other peers
    keep theirs. *)
Theorem forget_peer_cascades id s b s' :
  db_ok (db s) -> sql_forget_peer id s = (Ok b, s') ->
  db_ok (db s') /\ (b = true <-> is_Some (db_known (db s) id)) /\
  forall q,
    db_known (db s') q = (if decide (q = id) then None else db_known (db s) q) /\
    (forall c dir, db_held (db s') q c dir =
       if decide (q = id) then None else db_held (db s) q c dir) /\
    (forall a, db_stored (db s') q a = if decide (q = id) then None else db_stored (db s) q a).
Proof.
  intros Hok Hs. unfold sql_forget_peer in Hs.
  apply act_bind_ok in Hs as (n & s0 & Hd & Hs).
  apply backend_exec_inv in Hd as [(n' & E & Hd)|(? & ? & _)]; [|done].
  injection E as <-. injection Hs as <- <-.
  destruct (delete_peer_ok _ _ _ _ Hok Hd) as (Hok' & [Hk Hh] & Hst).
  split_and!; [done| |intros q; split_and!; [apply Hk | apply Hh | apply Hst]].
  unfold delete_peer in Hd. unfold db_known.
  destruct (peers (db s) !! as_str id) as [row|] eqn:E; injection Hd as <- _; cbn.
  - destruct (dk_peers _ Hok _ _ E) as (r & Hr). rewrite (pr_decodes _ _ _ Hr). cbn. by split.
  - split; [done|]. by intros [? ?].
Qed.

(** A peer that is saved is read back unchanged, on a storage without
    faults. *)
Theorem saved_peer_roundtrip p s :
  faults s = [] -> verify_key (rec_device_id p) (rec_public_key p) = Ok tt ->
  exists s1 s2, sql_save_peer p s = (Ok tt, s1) /\
    sql_peer (rec_device_id p) s1 = (Ok (Some p), s2) /\ db s2 = db s1.
Proof.
  intros Hf Hv.
  set (s1 := mkSqlite (mkDatabase (<[as_str (rec_device_id p) := peer_row (trust_state p) p]>
    (peers (db s))) (grants (db s)) (peer_endpoints (db s))) []).
  assert (E : sql_save_peer p s = (Ok tt, s1)).
  { unfold sql_save_peer, backend, act_map_err, mbind, action_bind, lift. rewrite Hv.
    cbn [map_err]. unfold exec. rewrite Hf. done. }
  exists s1, s1. split_and!; [done| |done].
  unfold sql_peer, backend, act_map_err, query, exec, mbind, action_bind, lift. cbn.
  rewrite lookup_insert_eq. pose proof (peer_row_ok_intro (trust_state p) p Hv) as Hr.
  by rewrite (pr_decodes _ _ _ Hr), set_trust_id.
Qed.

(** C20. The back-off the SQL statement computes is the one of the in-memory
    repository: started from the same entry for an address, both hold the same
    entry after a failed dial, although only the statement caps the delay. *)
Theorem backoff_equivalence now id a s s' (all : gmap DeviceId (list RememberedEndpoint)) :
  db_ok (db s) -> mem_ok all -> in_i64 now -> plain_address a ->
  db_stored (db s) id a = mem_stored all id a ->
  sql_record_failure now id a s = (Ok tt, s') ->
  db_stored (db s') id a = mem_stored (mem_record_failure now id a all).2 id a.
Proof.
  intros Hok Hmem Hnow Ha E Hs.
  pose proof (record_failure_spec now id a s (Ok tt) s') as Hsql.
  pose proof (record_failure_spec now id a all (mem_record_failure now id a all).1
    (mem_record_failure now id a all).2) as Hin.
  destruct (Hsql Hnow Ha Hok Hs) as [_ Hst].
  destruct (Hin Hnow Ha Hmem (surjective_pairing _)) as [_ Hst'].
  specialize (Hst id a). specialize (Hst' id a).
  cbn [stored sqlite_endpoint_laws in_memory_laws] in Hst, Hst'.
  rewrite Hst, Hst', E.
  assert (Hr : is_ok (mem_record_failure now id a all).1 = true)
    by (unfold mem_record_failure; by destruct (all !! id)).
  by rewrite !decide_True.
Qed.
End properties.

Section database_invariant.
Context `{PeerApi} `{ConstraintsJson}.

(** One call of the database. *)
Inductive DbCall :=
| DbSavePeer (p : PeerRecord)
| DbSavePairing (p : PeerRecord) (gs : list Grant)
| DbForget (id : DeviceId)
| DbSaveGrant (g : Grant)
| DbRevoke (id : DeviceId) (c : CapabilityId) (dir : GrantDirection)
| DbAuthenticated (now : Z) (id : DeviceId) (a : SocketAddr) (cert : list byte) (src : EndpointSource)
| DbFailure (now : Z) (id : DeviceId) (a : SocketAddr)
| DbForgetEndpoints (id : DeviceId).

(** The values have the range of their types: 64-bit times, 32-byte
    certificate digests, addresses without flow label. *)
Definition call_ok (c : DbCall) : Prop :=
  match c with
  | DbAuthenticated now _ a cert _ => in_i64 now /\ plain_address a /\ blen cert = 32
  | DbFailure now _ a => in_i64 now /\ plain_address a
  | _ => True
  end.

Definition db_call (s : Sqlite) (c : DbCall) : Sqlite :=
  match c with
  | DbSavePeer p => (sql_save_peer p s).2
  | DbSavePairing p gs => (sql_save_pairing p gs s).2
  | DbForget id => (sql_forget_peer id s).2
  | DbSaveGrant g => (sql_save_grant g s).2
  | DbRevoke id c dir => (sql_revoke_grant id c dir s).2
  | DbAuthenticated now id a cert src => (sql_record_authenticated now id a cert src s).2
  | DbFailure now id a => (sql_record_failure now id a s).2
  | DbForgetEndpoints id => (sql_forget_endpoints id s).2
  end.

Context `{!PeerLaws} `{!ConstraintsJsonLaws}.

Lemma db_call_ok s c : call_ok c -> db_ok (db s) -> db_ok (db (db_call s c)).
Proof.
  intros Hc Hok. destruct c; cbn [db_call];
    match goal with |- db_ok (db (snd ?run)) => destruct run as [r s'] eqn:E end; cbn [snd].
  - pose proof (save_peer_spec p s r s') as Hs. by apply (Hs Hok E).
  - pose proof (save_pairing_spec p gs s r s') as Hs. by apply (Hs Hok E).
  - pose proof (forget_peer_spec id s r s') as Hs. by apply (Hs Hok E).
  - pose proof (save_grant_spec g s r s') as Hs. by apply (Hs Hok E).
  - pose proof (revoke_grant_spec id c dir s r s') as Hs. by apply (Hs Hok E).
  - destruct Hc as (Hn & Ha & Hl).
    pose proof (record_authenticated_spec now id a cert src s r s') as Hs. by apply (Hs Hn Ha Hl Hok E).
  - destruct Hc as (Hn & Ha). pose proof (record_failure_spec now id a s r s') as Hs.
    by apply (Hs Hn Ha Hok E).
  - pose proof (forget_endpoints_spec id s r s') as Hs. by apply (Hs Hok E).
Qed.

(** C37. However the database is used and whichever statements fail, every row
    decodes to a value filed under its own key, the key of every stored peer is
    the one its device id is derived from, and no grant or endpoint outlives
    its peer. *)
Theorem database_invariant calls fs :
  Forall call_ok calls ->
  let d := db (fold_left db_call calls (mkSqlite (mkDatabase ∅ ∅ ∅) fs)) in
  (forall k row, peers d !! k = Some row ->
     exists p, decode_peer k row = Ok p /\ k = as_str (from_public_key (rec_public_key p))) /\
  (forall k row, grants d !! k = Some row ->
     (exists g, decode_grant k row = Ok g /\ k = grant_row_key g) /\ is_Some (peers d !! k.1.1)) /\
  (forall k row, peer_endpoints d !! k = Some row ->
     (exists e, decode_endpoint k row = Ok e /\
        k = (as_str (ep_peer_id e), address_to_string (ep_address e))) /\
     is_Some (peers d !! k.1)).
Proof.
  intros Hc d. assert (Hok : db_ok d).
  { unfold d. assert (H0' : db_ok (db (mkSqlite (mkDatabase ∅ ∅ ∅) fs)))
      by (split; cbn; intros k row; by rewrite lookup_empty).
    revert H0'. generalize (mkSqlite (mkDatabase ∅ ∅ ∅) fs).
    induction Hc as [|c calls Hc _ IH]; cbn; [done|]. auto using db_call_ok. }
  split_and!.
  - intros k row Hl. destruct (dk_peers _ Hok _ _ Hl) as (p & Hp). exists p.
    split; [apply Hp|]. rewrite (pr_key _ _ _ Hp). f_equal. apply verify_key_iff.
    exact (decode_peer_verified _ _ _ (pr_decodes _ _ _ Hp)).
  - intros k row Hl. destruct (dk_grants _ Hok _ _ Hl) as [(g & [? ?]) ?]. eauto.
  - intros k row Hl. destruct (dk_endpoints _ Hok _ _ Hl) as [(e & [? ? _ _]) ?]. eauto.
Qed.
End database_invariant.

(** ** Witnesses *)

Module SampleDb.
Import SamplePeer.

Definition one_share_to_json (c : GrantConstraints) : result string string :=
  match c with
  | ConstraintsNone => Ok "none"%string
  | RemoteFileShares [share] writable => Ok ((if writable then "w" else "r") +:+ share)%string
  | RemoteFileShares _ _ => Err "unsupported"%string
  end.

Definition one_share_from_json (j : string) : result string GrantConstraints :=
  match j with
  | String "w" share => Ok (RemoteFileShares [share] true)
  | String "r" share => Ok (RemoteFileShares [share] false)
  | _ => if String.eqb j "none" then Ok ConstraintsNone else Err "invalid"%string
  end.

#[export] Instance json : ConstraintsJson := {|
  constraints_to_json := one_share_to_json;
  constraints_from_json := one_share_from_json
|}.

#[export] Instance json_laws : ConstraintsJsonLaws.
Proof.
  intros [|[|share [|? ?]] []] j; cbn; try discriminate; intros [= <-]; reflexivity.
Qed.

Definition key : list byte := as_bytes "B".
Definition record_B : PeerRecord := mkPeerRecord (dev "B") key "Bea" "linux" "pc" Paired true 10 10.
Definition grant_B : Grant :=
  mkGrant (dev "B") RemoteRead DirOutbound (RemoteFileShares ["docs"%string] false) 20.
Definition empty : Sqlite := mkSqlite (mkDatabase ∅ ∅ ∅) [].
Definition paired : Sqlite := (sql_save_pairing record_B [grant_B] empty).2.

Lemma empty_ok : db_ok (db empty).
Proof. split; cbn; intros k row; by rewrite lookup_empty. Qed.

Lemma paired_ok : db_ok (db paired).
Proof. apply (db_call_ok empty (DbSavePairing record_B [grant_B])); [exact I | apply empty_ok]. Qed.
End SampleDb.

Section witnesses.
Import SamplePeer SampleDb.

(** The second insertion of one grant fails: the transaction of the first is
    undone. *)
Lemma save_pairing_atomic_witness :
  db (sql_save_pairing record_B [grant_B; grant_B] paired).2 = db paired.
Proof.
  pose proof (save_pairing_atomic record_B [grant_B; grant_B] paired
    (sql_save_pairing record_B [grant_B; grant_B] paired).1
    (sql_save_pairing record_B [grant_B; grant_B] paired).2 paired_ok (surjective_pairing _)) as Hp.
  assert (E : is_ok (sql_save_pairing record_B [grant_B; grant_B] paired).1 = false)
    by (vm_compute; reflexivity).
  destruct ((sql_save_pairing record_B [grant_B; grant_B] paired).1); [discriminate E | exact Hp].
Defined.

Lemma forget_peer_cascades_witness :
  db_held (db (sql_forget_peer (dev "B") paired).2) (dev "B") RemoteRead DirOutbound = None.
Proof.
  assert (E : sql_forget_peer (dev "B") paired = (Ok true, (sql_forget_peer (dev "B") paired).2)).
  { rewrite (surjective_pairing (sql_forget_peer (dev "B") paired)) at 1. f_equal. }
  destruct (forget_peer_cascades (dev "B") paired true _ paired_ok E) as (_ & _ & Hq).
  destruct (Hq (dev "B")) as (_ & Hh & _). apply Hh.
Defined.

Lemma saved_peer_roundtrip_witness : exists s1 s2, sql_peer (dev "B") s1 = (Ok (Some record_B), s2).
Proof.
  destruct (saved_peer_roundtrip record_B empty) as (s1 & s2 & _ & E & _);
    [reflexivity | reflexivity | by exists s1, s2].
Defined.

Definition remembered : Sqlite :=
  (sql_record_authenticated 1000 (dev "B") sample_address (repeat x03 32) Manual paired).2.

Lemma remembered_ok : db_ok (db remembered).
Proof.
  apply (db_call_ok paired (DbAuthenticated 1000 (dev "B") sample_address (repeat x03 32) Manual));
    [|apply paired_ok].
  cbn. unfold in_i64, i64_min, i64_max. repeat split; lia.
Qed.

Lemma backoff_equivalence_witness :
  db_stored (db (sql_record_failure 5000 (dev "B") sample_address remembered).2)
    (dev "B") sample_address =
  mem_stored (mem_record_failure 5000 (dev "B") sample_address one_endpoint).2
    (dev "B") sample_address.
Proof.
  apply (backoff_equivalence 5000 (dev "B") sample_address remembered).
  - exact remembered_ok.
  - exact one_endpoint_ok.
  - unfold in_i64, i64_min, i64_max. lia.
  - reflexivity.
  - by_evaluation.
  - rewrite (surjective_pairing (sql_record_failure _ _ _ remembered)) at 1. f_equal.
Defined.

Lemma database_invariant_witness :
  exists row p, peers (db (fold_left db_call [DbSavePeer record_B] empty)) !! "B"%string = Some row /\
    decode_peer "B" row = Ok p.
Proof.
  assert (Hs : is_Some (peers (db (fold_left db_call [DbSavePeer record_B] empty)) !! "B"%string))
    by by_evaluation.
  destruct Hs as [row Hrow]. assert (Hc : Forall call_ok [DbSavePeer record_B]) by repeat constructor.
  destruct (database_invariant [DbSavePeer record_B] [] Hc) as (Hp & _ & _).
  destruct (Hp _ _ Hrow) as (p & Hd & _). by exists row, p.
Defined.
End witnesses.
