(* ===== verification/Store.v ===== *)
(** * Store

    The object behind both repository interfaces of the runtime.  The program
    may pass one database as [repository] and as [endpoint_repository]: the
    runtime sees a single state with the operations of both interfaces, and
    this file states what the operations of one leave of the other.  The
    services of [arcrelay_peer] over the repository are an interface too. *)

From S2P Require Import Prelude Errors Addr Peer Endpoint RepositoryDb Repository.

(** ** Interfaces *)

Section store.
Context `{PeerApi} (S : Type) `{!PeerRepository S} `{!EndpointRepository S}
  `{!PeerRepositoryLaws S} `{!EndpointRepositoryLaws S}.

Definition store_ok (s : S) : Prop := peer_repo_ok s /\ repo_ok s.

Definition same_stored (s s' : S) : Prop := forall q b, stored s' q b = stored s q b.

(** An operation that leaves what the peer repository knows. *)
Definition keeps_peers {A} (m : action S NetworkError A) : Prop :=
  forall s r s', store_ok s -> m s = (r, s') -> peer_repo_ok s' /\ view_eq (view s) (view s').

(** An operation that leaves the remembered endpoints. *)
Definition keeps_endpoints {E A} (m : action S E A) : Prop :=
  forall s r s', store_ok s -> m s = (r, s') -> repo_ok s' /\ same_stored s s'.

(** The operations of each interface on the other one.  Forgetting a peer may
    take its endpoints along. *)
Class StoreLaws : Prop := {
  stored_plain : forall s id a e, store_ok s -> stored s id a = Some e -> plain_address a;
  endpoints_keeps : forall now p, keeps_peers (endpoints now p);
  record_failure_keeps : forall now p a, in_i64 now -> plain_address a ->
    keeps_peers (record_failure now p a);
  record_authenticated_keeps : forall now p a cert source, in_i64 now -> plain_address a ->
    blen cert = 32 -> keeps_peers (record_authenticated now p a cert source);
  forget_endpoints_keeps : forall p, keeps_peers (forget_endpoints p);
  find_peer_keeps : forall id, keeps_endpoints (find_peer id);
  list_grants_keeps : forall id, keeps_endpoints (list_grants id);
  save_peer_keeps : forall p, keeps_endpoints (save_peer p);
  save_pairing_keeps : forall p gs, keeps_endpoints (save_pairing p gs);
  save_grant_keeps : forall g, keeps_endpoints (save_grant g);
  revoke_grant_keeps : forall id c d, keeps_endpoints (revoke_grant id c d);
  forget_peer_keeps : forall id s r s', store_ok s -> forget_peer id s = (r, s') ->
    repo_ok s' /\ forall q b, q <> id -> stored s' q b = stored s q b
}.

(** [arcrelay_peer::PeerService] and [AuthorizationService]; an error is given
    by its text. *)
Class PeerService := {
  service_forget : DeviceId -> action S string bool;
  service_grant : Grant -> action S string unit;
  authorize : DeviceId -> CapabilityId -> action S string GrantConstraints
}.

Class PeerServiceLaws `{!PeerService} : Prop := {
  service_forget_spec : forall id s r s', store_ok s -> service_forget id s = (r, s') ->
    store_ok s' /\
    (if is_ok r then view_forget id (view s) (view s') else view_eq (view s) (view s')) /\
    forall q b, q <> id -> stored s' q b = stored s q b;
  service_grant_spec : forall g s r s', store_ok s -> service_grant g s = (r, s') ->
    store_ok s' /\
    (if is_ok r then view_save_grant g (view s) (view s') else view_eq (view s) (view s')) /\
    same_stored s s';
  authorize_spec : forall id c s r s', store_ok s -> authorize id c s = (r, s') ->
    store_ok s' /\ view_eq (view s) (view s') /\ same_stored s s' /\
    forall k, r = Ok k -> exists g, held (view s) id c DirInbound = Some g /\ grant_constraints g = k
}.
End store.

Arguments store_ok {_ _ _ _ _ _} _.
Arguments same_stored {_ _ _ _} _ _.

(** ** The database behind both *)

(** An operation that relates the tables before and after it by [R]. *)
Class Keeps (R : Database -> Database -> Prop) {E A} (m : action Sqlite E A) : Prop :=
  keeps : forall s r s', m s = (r, s') -> R (db s) (db s').

Section keeps.
Context (R : Database -> Database -> Prop) `{!PreOrder R}.

#[export] Instance keeps_bind {E A B} (m : action Sqlite E A) (f : A -> action Sqlite E B) :
  Keeps R m -> (forall a, Keeps R (f a)) -> Keeps R (mbind f m).
Proof.
  intros Hm Hf s r s' [(a & s1 & E1 & E2)|(e & E1 & _)]%act_bind_inv.
  - transitivity (db s1); [by eapply Hm | by eapply Hf].
  - by eapply Hm.
Qed.
#[export] Instance keeps_lift {E A} (r : result E A) : Keeps R (lift r).
Proof. intros s r' s' [= _ <-]. reflexivity. Qed.
#[export] Instance keeps_ret {E A} (a : A) : Keeps R (E := E) (mret a).
Proof. intros s r' s' [= _ <-]. reflexivity. Qed.
#[export] Instance keeps_reject {E} b (e : E) : Keeps R (act_reject b e).
Proof. intros s r' s' [= _ <-]. reflexivity. Qed.
#[export] Instance keeps_map_err {E F A} (f : E -> F) (m : action Sqlite E A) :
  Keeps R m -> Keeps R (act_map_err f m).
Proof. intros Hm s r s' (r' & E1 & _)%act_map_err_inv. by eapply Hm. Qed.
Lemma keeps_exec {A} (f : Database -> result string (A * Database)) :
  (forall d a d', f d = Ok (a, d') -> R d d') -> Keeps R (exec f).
Proof.
  intros Hf s r s' [(a & _ & E)|(e & _ & E)]%exec_inv; [by eapply Hf|]. rewrite E. reflexivity.
Qed.
#[export] Instance keeps_query {A} (f : Database -> A) : Keeps R (query f).
Proof. apply keeps_exec. intros d a d' [= _ <-]. reflexivity. Qed.
#[export] Instance keeps_transaction {A} (m : action Sqlite string A) :
  Keeps R m -> Keeps R (transaction m).
Proof.
  intros Hm s r s' [(a & s1 & s2 & _ & E1 & E2 & E3)|(e & _ & E)]%transaction_inv.
  - rewrite E3, <- E1. by eapply Hm.
  - rewrite E. reflexivity.
Qed.
#[export] Instance keeps_each {E A} (f : A -> action Sqlite E unit) l :
  (forall a, Keeps R (f a)) -> Keeps R (act_each f l).
Proof. intros Hf. induction l as [|x l IH]; cbn [act_each]; apply _. Qed.
End keeps.

Section sqlite.
Context `{PeerApi} `{ConstraintsJson} `{!PeerLaws} `{!ConstraintsJsonLaws}.

Definition same_peer_tables (d d' : Database) : Prop := peers d' = peers d /\ grants d' = grants d.
Definition same_endpoint_table (d d' : Database) : Prop := peer_endpoints d' = peer_endpoints d.

#[export] Instance same_peer_tables_preorder : PreOrder same_peer_tables.
Proof. split; [by split|]. intros ? ? ? [] []. split; congruence. Qed.
#[export] Instance same_endpoint_table_preorder : PreOrder same_endpoint_table.
Proof. split; [done|]. intros ? ? ? E F. unfold same_endpoint_table in *. congruence. Qed.

(** A statement whose effect can be read off its definition. *)
Ltac statement :=
  apply keeps_exec; [typeclasses eauto|]; intros d a d' E;
  unfold upsert_peer, delete_grants_of, insert_grant, upsert_grant, delete_grant, upsert_endpoint,
    update_failure, delete_endpoints_of in E;
  repeat case_match; result_inv; by repeat split.

#[export] Instance upsert_peer_keeps k row : Keeps same_endpoint_table (exec (upsert_peer k row)).
Proof. statement. Qed.
#[export] Instance delete_grants_keeps k : Keeps same_endpoint_table (exec (delete_grants_of k)).
Proof. statement. Qed.
#[export] Instance insert_grant_keeps k row : Keeps same_endpoint_table (exec (insert_grant k row)).
Proof. statement. Qed.
#[export] Instance upsert_grant_keeps k row : Keeps same_endpoint_table (exec (upsert_grant k row)).
Proof. statement. Qed.
#[export] Instance delete_grant_keeps k : Keeps same_endpoint_table (exec (delete_grant k)).
Proof. statement. Qed.
#[export] Instance upsert_endpoint_keeps k c src scope now :
  Keeps same_peer_tables (exec (upsert_endpoint k c src scope now)).
Proof. statement. Qed.
#[export] Instance update_failure_keeps k now : Keeps same_peer_tables (exec (update_failure k now)).
Proof. statement. Qed.
#[export] Instance delete_endpoints_keeps k : Keeps same_peer_tables (exec (delete_endpoints_of k)).
Proof. statement. Qed.

Lemma keeps_option {R} `{!PreOrder R} {E A B} (o : option A) (m : action Sqlite E B) (f : A -> action Sqlite E B) :
  Keeps R m -> (forall a, Keeps R (f a)) ->
  Keeps R (match o with Some a => f a | None => m end).
Proof. destruct o; auto. Qed.

Lemma same_stored_tables (s s' : Sqlite) :
  db_ok (db s') -> same_endpoint_table (db s) (db s') -> repo_ok s' /\ same_stored s s'.
Proof. intros Hok E. split; [done|]. intros q b. cbn. unfold db_stored. by rewrite E. Qed.

Lemma same_view_tables (s s' : Sqlite) :
  db_ok (db s') -> same_peer_tables (db s) (db s') ->
  peer_repo_ok s' /\ view_eq (view s) (view s').
Proof. intros Hok [Ep Eg]. split; [done|]. by apply view_eq_db. Qed.

#[export] Instance find_peer_table id : Keeps same_endpoint_table (sql_peer id).
Proof.
  unfold sql_peer, backend. apply keeps_bind; [typeclasses eauto..|].
  intros [row|]; typeclasses eauto.
Qed.

Lemma delete_peer_endpoints id d n d' q b :
  delete_peer (as_str id) d = Ok (n, d') -> q <> id -> db_stored d' q b = db_stored d q b.
Proof.
  unfold delete_peer. intros E Hq. destruct (peers d !! as_str id); injection E as <- <-; [|done].
  unfold db_stored. case_decide; [|done]. cbn. rewrite map_lookup_filter.
  destruct (peer_endpoints d !! (as_str q, address_to_string b)) as [row|]; cbn; [|done].
  case_guard as Hg; [done|]. by apply as_str_inj in Hg.
Qed.

#[export] Instance sqlite_store_laws : StoreLaws Sqlite.
Proof.
  assert (Hk : forall {A} (m : action Sqlite NetworkError A), Keeps same_peer_tables m ->
    (forall s r s', db_ok (db s) -> m s = (r, s') -> db_ok (db s')) -> keeps_peers Sqlite m).
  { intros A m Hm Hok s r s' [Hs _] E. apply same_view_tables; [exact (Hok s r s' Hs E) | exact (Hm s r s' E)]. }
  assert (He : forall {E A} (m : action Sqlite E A), Keeps same_endpoint_table m ->
    (forall s r s', db_ok (db s) -> m s = (r, s') -> db_ok (db s')) -> keeps_endpoints Sqlite m).
  { intros E A m Hm Hok s r s' [Hs _] E1. apply same_stored_tables; [exact (Hok s r s' Hs E1) | exact (Hm s r s' E1)]. }
  split.
  - intros s id a e [Hok _] Hs. by apply (db_stored_some (db s)) in Hs as [Ha _].
  - intros now p. apply Hk.
    + cbn. unfold sql_endpoints, network_backend. typeclasses eauto.
    + intros s r s' Hok E. pose proof (endpoints_frame now p s r s') as Hl. by apply (Hl Hok E).
  - intros now p a Hn Ha. apply Hk.
    + cbn. unfold sql_record_failure, network_backend. typeclasses eauto.
    + intros s r s' Hok E. pose proof (record_failure_spec now p a s r s') as Hl. by apply (Hl Hn Ha Hok E).
  - intros now p a cert src Hn Ha Hc. apply Hk.
    + cbn. unfold sql_record_authenticated, network_backend. typeclasses eauto.
    + intros s r s' Hok E. pose proof (record_authenticated_spec now p a cert src s r s') as Hl. by apply (Hl Hn Ha Hc Hok E).
  - intros p. apply Hk.
    + cbn. unfold sql_forget_endpoints, network_backend. typeclasses eauto.
    + intros s r s' Hok E. pose proof (forget_endpoints_spec p s r s') as Hl. by apply (Hl Hok E).
  - intros id. apply He; [typeclasses eauto|].
    intros s r s' Hok E. pose proof (find_peer_spec id s r s') as Hl. by apply (Hl Hok E).
  - intros id. apply He; [cbn; unfold sql_grants, backend; typeclasses eauto|].
    intros s r s' Hok E. pose proof (list_grants_spec id s r s') as Hl. by apply (Hl Hok E).
  - intros p. apply He; [cbn; unfold sql_save_peer, backend; typeclasses eauto|].
    intros s r s' Hok E. pose proof (save_peer_spec p s r s') as Hl. by apply (Hl Hok E).
  - intros p gs. apply He; [cbn; unfold sql_save_pairing, backend; typeclasses eauto|].
    intros s r s' Hok E. pose proof (save_pairing_spec p gs s r s') as Hl. by apply (Hl Hok E).
  - intros g. apply He; [cbn; unfold sql_save_grant, backend; typeclasses eauto|].
    intros s r s' Hok E. pose proof (save_grant_spec g s r s') as Hl. by apply (Hl Hok E).
  - intros id c d. apply He; [cbn; unfold sql_revoke_grant, backend; typeclasses eauto|].
    intros s r s' Hok E. pose proof (revoke_grant_spec id c d s r s') as Hl. by apply (Hl Hok E).
  - intros id s r s' [Hok _] E. pose proof (forget_peer_spec id s r s') as Hl.
    split; [by apply (Hl Hok E)|].
    intros q b Hq. cbn in E. unfold sql_forget_peer in E.
    apply act_bind_inv in E as [(n & s1 & E & E1)|(e & E & _)];
      apply backend_exec_inv in E as [(m & _ & E)|(e' & _ & E)].
    + injection E1 as _ <-. by apply (delete_peer_endpoints id (db s) m).
    + injection E1 as _ <-. cbn. by rewrite E.
    + by apply (delete_peer_endpoints id (db s) m).
    + cbn. by rewrite E.
Qed.

(** The services of [arcrelay_peer] as they may be implemented: a grant needs a
    paired peer, an authorization is a grant for the incoming direction. *)
Definition text_error {A} (m : action Sqlite RepositoryError A) : action Sqlite string A :=
  act_map_err repository_error_text m.

#[local] Instance sqlite_peer_service : PeerService Sqlite := {|
  service_forget := fun id => text_error (find_peer id) ;; text_error (forget_peer id);
  service_grant := fun g => text_error (save_grant g);
  authorize := fun id c =>
    l ← text_error (list_grants id);
    lift (ok_or (grant_constraints <$> find_first (fun g =>
      bool_decide (grant_capability g = c) && bool_decide (grant_direction g = DirInbound)) l)
      "capability is not granted"%string)
|}.

#[local] Instance sqlite_peer_service_laws : PeerServiceLaws Sqlite.
Proof.
  split.
  - intros id s r s' Hs E. cbn in E.
    assert (Hf : forall r1 s1, text_error (find_peer id) s = (r1, s1) ->
      store_ok s1 /\ view_eq (view s) (view s1) /\ same_stored s s1).
    { intros r1 s1 (r2 & E2 & _)%act_map_err_inv. pose proof (find_peer_spec id s r2 s1) as Hp.
      destruct (Hp (proj1 Hs) E2) as (Hok & Hv & _).
      destruct (find_peer_keeps Sqlite id s r2 s1 Hs E2). done. }
    apply act_bind_inv in E as [(o & s1 & E1 & E)|(e & E1 & ->)]; destruct (Hf _ _ E1) as (Hs1 & Hv & Hst).
    2:{ split_and!; [done..|]. intros q b _. apply Hst. }
    apply act_map_err_inv in E as (r2 & E & ->).
    pose proof (forget_peer_spec id s1 r2 s') as Hp. destruct (Hp (proj1 Hs1) E) as (Hok & Hf').
    destruct (forget_peer_keeps Sqlite id s1 r2 s' Hs1 E) as (Hr & Hst').
    split; [done|]. split; [|intros q b Hq; by rewrite Hst'].
    destruct r2; cbn [is_ok map_err] in *; [|by etransitivity].
    destruct Hf' as [Hk Hh], Hv as [Hk' Hh']. split; intros; rewrite ?Hk, ?Hh; by case_decide.
  - intros g s r s' Hs E. cbn in E. apply act_map_err_inv in E as (r2 & E & ->).
    pose proof (save_grant_spec g s r2 s') as Hp. destruct (Hp (proj1 Hs) E) as (Hok & Hv).
    destruct (save_grant_keeps Sqlite g s r2 s' Hs E) as (Hr & Hst).
    split_and!; [done..| |done]. by destruct r2.
  - intros id c s r s' Hs E. cbn in E.
    apply act_bind_inv in E as [(l & s1 & E1 & E)|(e & E1 & ->)];
      apply act_map_err_inv in E1 as (r1 & E1 & Er1);
      pose proof (list_grants_spec id s r1) as Hl;
      [symmetry in Er1; apply map_err_ok in Er1 as ->; injection E as <- <- |];
      destruct (Hl _ (proj1 Hs) E1) as (Hok & Hv & Hin);
      destruct (list_grants_keeps Sqlite id s _ _ Hs E1) as (Hr & Hst); (split_and!; [done..|]); [|done].
    intros k Hk. destruct (find_first _ l) as [g|] eqn:Ef; [|discriminate Hk]. injection Hk as <-.
    apply find_first_Some in Ef as [Hg Hp]. apply andb_true_iff in Hp as [Hc%bool_decide_eq_true Hd%bool_decide_eq_true].
    exists g. split; [|done]. subst c. rewrite <- Hd. by apply (Hin l eq_refl).
Qed.
End sqlite.
