(* ===== verification/Text.v ===== *)
(** * Text

    The text functions of the crate and of the standard library it uses on
    them: decimal numbers, [hex] and [unhex] (discovery.rs), the byte slices of
    device ids and [device_hostname]. *)

From stdpp Require Import pretty.
From S2P Require Import Prelude Addr Peer.

(** ** Numbers *)

Definition digit_value (c : ascii) : option Z :=
  let n := Z.of_nat (nat_of_ascii c) in
  if (48 <=? n) && (n <=? 57) then Some (n - 48) else None.

(** The value of [acc] followed by the decimal digits of [s]. *)
Fixpoint digits_value (acc : Z) (s : string) : option Z :=
  match s with
  | EmptyString => Some acc
  | String c s' => d ← digit_value c; digits_value (acc * 10 + d) s'
  end.

(** [str::parse::<u32>], [str::parse::<u16>]: one leading plus sign is
    allowed, an empty number and an overflow are errors. *)
Definition parse_unsigned (max : Z) (s : string) : option Z :=
  let digits := match s with
                | String "+" rest => rest
                | _ => s
                end in
  match digits with
  | EmptyString => None
  | _ => v ← digits_value 0 digits; if v <=? max then Some v else None
  end.

(** ** Hexadecimal *)

Definition hex_digit (n : Z) : ascii :=
  ascii_of_nat (Z.to_nat (if n <? 10 then 48 + n else 87 + n)).

(** [bytes.iter().map(|byte| format!("{byte:02x}")).collect()] *)
Fixpoint hex (bytes : list byte) : string :=
  match bytes with
  | [] => EmptyString
  | b :: rest =>
      String (hex_digit (byte_Z b / 16)) (String (hex_digit (byte_Z b `mod` 16)) (hex rest))
  end.

(** [char::to_digit(16)] *)
Definition hex_value (c : ascii) : option Z :=
  let n := Z.of_nat (nat_of_ascii c) in
  if (48 <=? n) && (n <=? 57) then Some (n - 48)
  else if (97 <=? n) && (n <=? 102) then Some (n - 87)
  else if (65 <=? n) && (n <=? 70) then Some (n - 55)
  else None.

(** [u8::from_str_radix(pair, 16)] on two bytes; a plus sign may lead.  Bytes
    that are not UTF-8 fail in [from_utf8], as they do here. *)
Definition pair_value (a b : ascii) : option byte :=
  if Ascii.eqb a "+" then v ← hex_value b; Some (Z_byte v)
  else x ← hex_value a; y ← hex_value b; Some (Z_byte (x * 16 + y)).

Fixpoint unhex_pairs (value : string) : option (list byte) :=
  match value with
  | String a (String b rest) => v ← pair_value a b; vs ← unhex_pairs rest; Some (v :: vs)
  | _ => Some []
  end.

Definition unhex (value : string) : option (list byte) :=
  if negb (Nat.even (String.length value)) then None else unhex_pairs value.

(** ** Addresses

    The [Display] of the standard library's addresses. *)

Definition ipv4_text (a : Ipv4Addr) : string :=
  dec (o0 a) +:+ "." +:+ dec (o1 a) +:+ "." +:+ dec (o2 a) +:+ "." +:+ dec (o3 a).

(** The eight 16-bit segments, the most significant first. *)
Definition segments (a : Ipv6Addr) : list Z :=
  map (fun i => Z.land (Z.shiftr (bits a) (16 * i)) 65535) [7; 6; 5; 4; 3; 2; 1; 0].

(** [{:x}] of a segment. *)
Definition segment_text (z : Z) : string :=
  let digit i := String (hex_digit (Z.land (Z.shiftr z (4 * i)) 15)) EmptyString in
  (if 4096 <=? z then digit 3 else "") +:+ (if 256 <=? z then digit 2 else "") +:+
  (if 16 <=? z then digit 1 else "") +:+ digit 0.

(** The first of the longest runs of zero segments: its start and its length;
    [current] is the run that ends at [i]. *)
Fixpoint zero_run (l : list Z) (i : nat) (current longest : nat * nat) : nat * nat :=
  match l with
  | [] => longest
  | z :: rest =>
      if z =? 0 then
        let current := (if (current.2 =? 0)%nat then i else current.1, Datatypes.S current.2) in
        zero_run rest (Datatypes.S i) current (if (longest.2 <? current.2)%nat then current else longest)
      else zero_run rest (Datatypes.S i) (O, O) longest
  end.

Definition segments_text (l : list Z) : string := String.concat ":" (map segment_text l).

Definition ipv6_text (a : Ipv6Addr) : string :=
  match to_ipv4_mapped a with
  | Some ip => "::ffff:" +:+ ipv4_text ip
  | None =>
      let '(start, n) := zero_run (segments a) O (O, O) (O, O) in
      if (1 <? n)%nat then
        segments_text (take start (segments a)) +:+ "::" +:+ segments_text (drop (start + n) (segments a))
      else segments_text (segments a)
  end.

Definition sock_text (a : SocketAddr) : string :=
  match a with
  | SockV4 a => ipv4_text (v4_ip a) +:+ ":" +:+ dec (v4_port a)
  | SockV6 a =>
      "[" +:+ ipv6_text (v6_ip a) +:+
      (if v6_scope_id a =? 0 then "" else "%" +:+ dec (v6_scope_id a)) +:+ "]:" +:+ dec (v6_port a)
  end.

(** The examples of the unit tests (dial.rs, diagnostics.rs). *)
Example sock_text_v4 : sock_text (sock_new (IpV4 (mkIpv4 10 1 1 54)) 8765) = "10.1.1.54:8765".
Proof. vm_compute. reflexivity. Qed.
Example sock_text_scoped :
  sock_text (SockV6 (mkSockV6 (mkIpv6 (Z.shiftl 65152 112 + 1)) 8765 0 12)) = "[fe80::1%12]:8765".
Proof. vm_compute. reflexivity. Qed.
Example sock_text_mapped :
  sock_text (SockV6 (mkSockV6 (to_ipv6_mapped (mkIpv4 10 1 1 54)) 8765 0 0)) = "[::ffff:10.1.1.54]:8765".
Proof. vm_compute. reflexivity. Qed.

(** ** Slices *)

(** The byte at an index starts a character. *)
Definition is_char_boundary (s : string) (n : nat) : bool :=
  match String.get n s with
  | Some c => let z := nat_of_ascii c in negb ((128 <=? z)%nat && (z <=? 191)%nat)
  | None => (n =? String.length s)%nat
  end.

(** [&s[..n]]; [None] is the panic of an index that is out of range or inside
    a character. *)
Definition slice_to (n : nat) (s : string) : option string :=
  if (n <=? String.length s)%nat && is_char_boundary s n then Some (substring 0 n s) else None.

(** [s.trim_start_matches("arc-")]: every leading repetition. *)
Fixpoint trim_arc (s : string) : string :=
  match s with
  | String "a" (String "r" (String "c" (String "-" rest))) => trim_arc rest
  | _ => s
  end.

Definition device_hostname `{PeerApi} (id : DeviceId) : option string :=
  let suffix := trim_arc (as_str id) in
  head ← slice_to (Nat.min (String.length suffix) 32) suffix;
  Some ("arcrelay-" +:+ head +:+ ".local")%string.

(** ** Facts *)

Lemma digit_value_pretty (n : N) :
  (n < 10)%N -> digit_value (pretty_N_char n) = Some (Z.of_N n).
Proof.
  intros Hn. assert (Hc : exists k, (k < 10)%nat /\ n = N.of_nat k)
    by (exists (N.to_nat n); lia).
  destruct Hc as (k & Hk & ->).
  do 10 (destruct k as [|k]; [reflexivity|]). lia.
Qed.

Lemma digits_pretty_go (x : N) (s : string) :
  digits_value 0 (pretty_N_go x s) = digits_value (Z.of_N x) s.
Proof.
  revert s. induction (N.lt_wf_0 x) as [x _ IH]; intros s.
  destruct (decide (0 < x)%N) as [Hx|Hx].
  - rewrite pretty_N_go_step by done. rewrite IH by (apply N.div_lt; lia).
    cbn [digits_value]. rewrite digit_value_pretty by (apply N.mod_lt; lia).
    cbn [mbind option_bind]. f_equal. rewrite N2Z.inj_div, N2Z.inj_mod.
    pose proof (Z.div_mod (Z.of_N x) 10). lia.
  - assert (x = 0%N) as -> by lia. done.
Qed.

(** Printing then parsing a number of the type gives it back. *)
Lemma parse_unsigned_dec (max z : Z) : 0 <= z <= max -> parse_unsigned max (dec z) = Some z.
Proof.
  intros Hz. assert (E : exists c s, dec z = String c s /\ c <> "+"%char /\
    digits_value 0 (String c s) = Some z).
  { destruct z as [|p|p]; [| |lia].
    - exists "0"%char, EmptyString. done.
    - change (dec (Z.pos p)) with (pretty_N_go (N.pos p) "").
      pose proof (digits_pretty_go (N.pos p) "") as Hd. cbn [digits_value] in Hd.
      destruct (pretty_N_go (N.pos p) "") as [|c s]; [done|]. exists c, s. split_and!; [done| |done].
      intros ->. done. }
  destruct E as (c & s & -> & Hc & Hd). unfold parse_unsigned.
  assert (Hs : match String c s with String "+" rest => rest | _ => String c s end = String c s).
  { destruct c as [[] [] [] [] [] [] [] []]; try done. }
  rewrite Hs, Hd. cbn [mbind option_bind]. by rewrite (proj2 (Z.leb_le _ _)) by lia.
Qed.

Lemma digits_value_nonneg (s : string) (acc v : Z) :
  0 <= acc -> digits_value acc s = Some v -> 0 <= v.
Proof.
  revert acc. induction s as [|c s IH]; intros acc Ha Hd; cbn in Hd; [by injection Hd as <-|].
  destruct (digit_value c) as [d|] eqn:Ed; [|done]. cbn in Hd. apply IH in Hd; [done|].
  unfold digit_value in Ed. destruct ((48 <=? _) && _) eqn:Er; [|done]. injection Ed as <-.
  apply andb_prop in Er as [?%Z.leb_le ?]. lia.
Qed.

Lemma parse_unsigned_range (max v : Z) (s : string) :
  parse_unsigned max s = Some v -> 0 <= v <= max.
Proof.
  unfold parse_unsigned. set (digits := match s with String "+" rest => rest | _ => s end).
  clearbody digits. destruct digits as [|c digits]; [done|].
  destruct (digits_value 0 (String c digits)) as [w|] eqn:Ed; [|done].
  cbn [mbind option_bind]. destruct (Z.leb_spec w max); [|done]. intros [= <-].
  split; [|done]. apply digits_value_nonneg in Ed; [done|lia].
Qed.

Lemma hex_value_digit (n : Z) : 0 <= n < 16 -> hex_value (hex_digit n) = Some n.
Proof.
  intros Hn. assert (Hc : exists k, (k < 16)%nat /\ n = Z.of_nat k)
    by (exists (Z.to_nat n); lia).
  destruct Hc as (k & Hk & ->). do 16 (destruct k as [|k]; [reflexivity|]). lia.
Qed.

Lemma hex_digit_plus (n : Z) : 0 <= n < 16 -> Ascii.eqb (hex_digit n) "+" = false.
Proof.
  intros Hn. assert (Hc : exists k, (k < 16)%nat /\ n = Z.of_nat k)
    by (exists (Z.to_nat n); lia).
  destruct Hc as (k & Hk & ->). do 16 (destruct k as [|k]; [reflexivity|]). lia.
Qed.

Lemma hex_length (b : list byte) : String.length (hex b) = (2 * length b)%nat.
Proof. induction b as [|x b IH]; cbn; [done|]. rewrite IH. lia. Qed.

Lemma unhex_pairs_hex (b : list byte) : unhex_pairs (hex b) = Some b.
Proof.
  induction b as [|x b IH]; [done|]. cbn [hex unhex_pairs]. pose proof (byte_Z_range x) as Hx.
  assert (Hhi : 0 <= byte_Z x / 16 < 16)
    by (split; [apply Z.div_pos|apply Z.div_lt_upper_bound]; lia).
  assert (Hlo : 0 <= byte_Z x `mod` 16 < 16) by (apply Z.mod_pos_bound; lia).
  unfold pair_value. rewrite hex_digit_plus, !hex_value_digit by done.
  cbn [mbind option_bind]. rewrite IH. cbn. f_equal. f_equal.
  rewrite Z.mul_comm, <- Z.div_mod by lia. apply Z_byte_Z.
Qed.

Lemma unhex_hex (b : list byte) : unhex (hex b) = Some b.
Proof.
  unfold unhex. rewrite hex_length, Nat.even_mul. cbn [Nat.even orb negb]. apply unhex_pairs_hex.
Qed.
