(* ===== verification/Identity.v ===== *)
(** * Identity

    The device identity (identity.rs): the signed transcript, signatures over
    it and their verification.  Ed25519 and SHA-256 are the operations of
    [Crypto]; loading the keys from disk is in IdentityFiles. *)

From S2P Require Import Prelude Errors Peer.

(** ** Foreign code *)

(** [ed25519_dalek] and [sha2]. *)
Class Crypto := {
  SigningKey : Type;
  VerifyingKey : Type;
  verifying_key : SigningKey -> VerifyingKey;
  verifying_bytes : VerifyingKey -> list byte;
  verifying_from_bytes : list byte -> option VerifyingKey;
  sign_bytes : SigningKey -> list byte -> list byte;
  signature_from_slice : list byte -> option (list byte);
  verify_strict : VerifyingKey -> list byte -> list byte -> bool;
  sha256 : list byte -> list byte
}.

(** Keys and signatures have their documented lengths and read back, a genuine
    signature verifies. *)
Class CryptoLaws `{Crypto} : Prop := {
  verifying_bytes_length : forall k, blen (verifying_bytes k) = 32;
  verifying_bytes_from : forall k, verifying_from_bytes (verifying_bytes k) = Some k;
  signature_from_slice_id : forall s s', signature_from_slice s = Some s' -> s' = s;
  signature_readable : forall k m, signature_from_slice (sign_bytes k m) = Some (sign_bytes k m);
  sign_bytes_length : forall k m, blen (sign_bytes k m) = 64;
  sign_verifies : forall k m, verify_strict (verifying_key k) m (sign_bytes k m) = true;
  sha256_length : forall b, blen (sha256 b) = 32
}.

(** ** Definitions *)

Section identity.
Context `{PeerApi} `{Crypto}.

Record DeviceIdentity := mkIdentity {
  signing_key : SigningKey;
  certificate_der : list byte;
  certificate_sha256 : list byte
}.

(** [DeviceIdentity::public_key_value]; [None] is the panic of its [expect]. *)
Definition public_key_value (i : DeviceIdentity) : option DevicePublicKey :=
  to_option (key_from_bytes (verifying_bytes (verifying_key (signing_key i)))).

(** [DeviceIdentity::device_id] *)
Definition identity_device_id (i : DeviceIdentity) : option DeviceId :=
  from_public_key <$> public_key_value i.

Definition signing_transcript (context : SigningContext) (message : list byte) : list byte :=
  domain context ++ to_be_bytes 8 (blen message) ++ message.

(** [DeviceIdentity::sign]; [None] is the panic of its [expect]. *)
Definition sign (i : DeviceIdentity) (context : SigningContext) (message : list byte)
    : option (list byte) :=
  to_option (signature_from_bytes (sign_bytes (signing_key i) (signing_transcript context message))).

(** [DeviceIdentity::endpoint_binding_signature] *)
Definition identity_binding_signature (i : DeviceIdentity) : option (list byte) :=
  sign i EndpointBinding (certificate_sha256 i).

Definition verify_signature (public_key : DevicePublicKey) (context : SigningContext)
    (message signature : list byte) : net_result unit :=
  if negb (blen (key_bytes public_key) =? 32) then Err (InvalidIdentity "public key length")
  else
    signature ← ok_or (signature_from_slice signature) (InvalidIdentity "signature length");
    key ← ok_or (verifying_from_bytes (key_bytes public_key)) (InvalidIdentity "public key");
    if verify_strict key (signing_transcript context message) signature then Ok tt
    else Err (InvalidIdentity "signature verification").
End identity.

(** ** Facts *)

Section facts.
Context `{PeerApi} `{Crypto}.

(** No signing domain is a prefix of another one: then transcripts of different
    contexts or messages differ. *)
Definition prefix_free : Prop := forall c d (x y : list byte), domain c ++ x = domain d ++ y -> c = d.

Lemma signing_transcript_inj (c d : SigningContext) (m m' : list byte) :
  prefix_free -> blen m <= u64_max -> blen m' <= u64_max ->
  signing_transcript c m = signing_transcript d m' -> c = d /\ m = m'.
Proof.
  intros Hd _ _ E. unfold signing_transcript in E. pose proof (Hd _ _ _ _ E) as ->.
  apply app_inv_head in E. apply app_inj_length in E as [_ E]; [done|].
  by rewrite !length_to_be_bytes.
Qed.

Lemma verify_signature_ok (k : DevicePublicKey) c m s :
  verify_signature k c m s = Ok tt ->
  exists v s', verifying_from_bytes (key_bytes k) = Some v /\ signature_from_slice s = Some s' /\
    verify_strict v (signing_transcript c m) s' = true.
Proof.
  unfold verify_signature. destruct (negb _); [done|]. intros Hv. result_inv.
  destruct (verify_strict _ _ _) eqn:E; [|done]. eauto.
Qed.

(** What an identity signs verifies under its public key. *)
Lemma sign_verify `{!PeerLaws} `{!CryptoLaws} (i : DeviceIdentity) c m s k :
  public_key_value i = Some k -> sign i c m = Some s -> verify_signature k c m s = Ok tt.
Proof.
  intros Hk Hs. unfold public_key_value in Hk.
  destruct (key_from_bytes (verifying_bytes (verifying_key (signing_key i)))) eqn:Ek; [|done].
  injection Hk as ->. apply key_bytes_from_bytes in Ek. unfold sign in Hs.
  destruct (signature_from_bytes _) eqn:Es; [|done]. injection Hs as ->.
  apply signature_from_bytes_id in Es as ->. unfold verify_signature. rewrite Ek.
  rewrite verifying_bytes_length, signature_readable, verifying_bytes_from. cbn.
  by rewrite sign_verifies.
Qed.
End facts.

(** ** A concrete instance *)

Module SampleCrypto.
Definition pad (n : nat) (b : list byte) : list byte := take n (b ++ repeat x00 n).

Lemma length_pad n b : length (pad n b) = n.
Proof. unfold pad. rewrite length_take, length_app, repeat_length. lia. Qed.

(** Keys are one byte, repeated; a signature shows the key and the head of the
    message. *)
Definition sample_sign (k : byte) (m : list byte) : list byte := repeat k 32 ++ pad 32 m.

#[export] Instance crypto : Crypto := {|
  SigningKey := byte;
  VerifyingKey := byte;
  verifying_key := fun k => k;
  verifying_bytes := fun k => repeat k 32;
  verifying_from_bytes := fun b =>
    match b with
    | [] => None
    | k :: _ => if decide (b = repeat k 32) then Some k else None
    end;
  sign_bytes := sample_sign;
  signature_from_slice := fun s => if blen s =? 64 then Some s else None;
  verify_strict := fun k m s => bool_decide (s = sample_sign k m);
  sha256 := pad 32
|}.

#[export] Instance crypto_laws : CryptoLaws.
Proof.
  assert (Hl : forall k m, blen (sample_sign k m) = 64).
  { intros k m. unfold blen, sample_sign. rewrite length_app, repeat_length, length_pad. done. }
  split; cbn -[sample_sign blen pad]; intros.
  - done.
  - by case_decide.
  - destruct (blen s =? 64); congruence.
  - by rewrite Hl.
  - apply Hl.
  - by apply bool_decide_eq_true.
  - unfold blen. by rewrite length_pad.
Qed.
End SampleCrypto.
