(* ===== verification/Diagnostics.v ===== *)
(** * Diagnostics

    The identifiers written to the log in place of device ids and addresses
    (runtime/diagnostics.rs).  The log itself is not modelled. *)

From S2P Require Import Prelude Addr Peer Text Identity.

Section diagnostics.
Context `{PeerApi} `{Crypto}.

(** [None] is the panic of the slice of the digest. *)
Definition diagnostic_id (value : string) : option string :=
  let digest := sha256 (as_bytes value) in
  if (6 <=? length digest)%nat then Some ("peer-" +:+ hex (take 6 digest))%string else None.

Definition endpoint_id (address : SocketAddr) : option string :=
  let address :=
    match address with
    | SockV6 v6 =>
        match to_ipv4_mapped (v6_ip v6) with
        | Some ip => sock_new (IpV4 ip) (v6_port v6)
        | None => address
        end
    | _ => address
    end in
  diagnostic_id (sock_text address).
End diagnostics.

(** ** Facts *)

Section facts.
Context `{PeerApi} `{Crypto} `{!CryptoLaws}.

(** An id always has seventeen characters: twelve digits of the digest are all
    that is shown of the value. *)
Lemma diagnostic_id_shape value :
  exists text, diagnostic_id value = Some ("peer-" +:+ text)%string /\ String.length text = 12%nat.
Proof.
  unfold diagnostic_id. pose proof (sha256_length (as_bytes value)) as Hl. unfold blen in Hl.
  destruct (6 <=? _)%nat eqn:E; [|apply Nat.leb_gt in E; lia]. eexists. split; [done|].
  rewrite hex_length, length_take. lia.
Qed.

(** The two forms of an IPv4 address have one id: an endpoint is known by its
    canonical address. *)
Lemma endpoint_id_canonical address :
  endpoint_id address = diagnostic_id (sock_text (canonical_endpoint address)).
Proof. destruct address as [a|a]; [done|]. unfold endpoint_id, canonical_endpoint. by destruct (to_ipv4_mapped _). Qed.
End facts.
