(* ===== verification/IdentityFiles.v ===== *)
(** * IdentityFiles

    Loading and creating the device identity on disk (identity.rs): the root
    key, the TLS pair, and the atomic private write behind both.  Every call of
    the file system may fail, a failed write may leave part of its bytes, and a
    crash is a failure of every call from some point on. *)

From stdpp Require Import pretty.
From S2P Require Import Prelude Errors Peer Quic Identity.

(** ** Foreign code *)

(** [SigningKey::to_bytes] and [from_bytes] of ed25519_dalek; rustls. *)
Class KeyFiles `{Crypto} := {
  key_to_bytes : SigningKey -> list byte;
  key_from_32 : list byte -> SigningKey;
  key_rustls :: Rustls
}.

Class KeyFilesLaws `{KeyFiles} : Prop := {
  key_to_bytes_length : forall k, blen (key_to_bytes k) = 32;
  key_from_to : forall k, key_from_32 (key_to_bytes k) = k
}.

(** ** The disk *)

(** The files of the identity directory by name.  [io_faults] is consumed by
    the calls in turn: [Some (e, n)] makes one fail with [e] after [n] bytes;
    [stat_faults] likewise by [Path::exists], which answers [false] on any
    error. *)
Record Disk := mkDisk {
  files : gmap string (list byte);
  io_faults : list (option (string * nat));
  stat_faults : list bool
}.

Definition set_files (m : gmap string (list byte)) (d : Disk) : Disk :=
  mkDisk m (io_faults d) (stat_faults d).

(** One call: [f] is its effect and answer, [broken] what it leaves when it
    fails after some bytes. *)
Definition io {A} (f : gmap string (list byte) -> result string A * gmap string (list byte))
    (broken : nat -> gmap string (list byte) -> gmap string (list byte)) : action Disk NetworkError A := fun d =>
  match io_faults d with
  | Some (e, n) :: rest => (Err (Io e), mkDisk (broken n (files d)) rest (stat_faults d))
  | None :: rest =>
      let (x, m) := f (files d) in (map_err Io x, mkDisk m rest (stat_faults d))
  | [] => let (x, m) := f (files d) in (map_err Io x, mkDisk m [] (stat_faults d))
  end.

Definition unchanged (n : nat) (m : gmap string (list byte)) : gmap string (list byte) := m.

(** A call without effect on the files: a directory, permissions, a sync. *)
Definition io_nothing : action Disk NetworkError unit := io (fun m => (Ok tt, m)) unchanged.

(** [Path::exists] *)
Definition exists_file (name : string) : action Disk NetworkError bool := fun d =>
  match stat_faults d with
  | true :: rest => (Ok false, mkDisk (files d) (io_faults d) rest)
  | false :: rest => (Ok (bool_decide (is_Some (files d !! name))), mkDisk (files d) (io_faults d) rest)
  | [] => (Ok (bool_decide (is_Some (files d !! name))), d)
  end.

(** [std::fs::read] *)
Definition read_file (name : string) : action Disk NetworkError (list byte) :=
  io (fun m => (ok_or (m !! name) "No such file or directory"%string, m)) unchanged.

(** [create_new(true)], [write_all], [rename], [remove_file] *)
Definition create_new (name : string) : action Disk NetworkError unit :=
  io (fun m => match m !! name with
               | Some _ => (Err "File exists"%string, m)
               | None => (Ok tt, <[name := []]> m)
               end) unchanged.

Definition write_all (name : string) (bytes : list byte) : action Disk NetworkError unit :=
  io (fun m => (Ok tt, <[name := bytes]> m)) (fun n m => <[name := take n bytes]> m).

Definition rename (from to : string) : action Disk NetworkError unit :=
  io (fun m => match m !! from with
               | Some bytes => (Ok tt, <[to := bytes]> (delete from m))
               | None => (Err "No such file or directory"%string, m)
               end) unchanged.

Definition remove_file (name : string) : action Disk NetworkError unit :=
  io (fun m => match m !! name with
               | Some _ => (Ok tt, delete name m)
               | None => (Err "No such file or directory"%string, m)
               end) unchanged.

(** ** identity.rs *)

Definition ROOT_KEY_FILE : string := "device-root.ed25519".
Definition TLS_CERT_FILE : string := "endpoint-cert.der".
Definition TLS_KEY_FILE : string := "endpoint-key.der".

(** The name of the temporary file; [suffix] is the random number's text. *)
Definition temporary_name (file_name suffix : string) : string :=
  ("." +:+ file_name +:+ ".tmp-" +:+ suffix)%string.

(** The closure of [private_write]. *)
Definition install (name : string) (bytes : list byte) (suffix : string) : action Disk NetworkError unit :=
  write_all (temporary_name name suffix) bytes ;;
  io_nothing ;;
  rename (temporary_name name suffix) name ;;
  io_nothing ;;
  io_nothing.

(** [if result.is_err() { let _ = std::fs::remove_file(&temporary); }] *)
Definition install_or_clean (name : string) (bytes : list byte) (suffix : string)
    : action Disk NetworkError unit := fun d =>
  match install name bytes suffix d with
  | (Ok _, d') => (Ok tt, d')
  | (Err e, d') => (Err e, (remove_file (temporary_name name suffix) d').2)
  end.

(** [private_write] *)
Definition private_write (name : string) (bytes : list byte) (suffix : string)
    : action Disk NetworkError unit :=
  create_new (temporary_name name suffix) ;;
  install_or_clean name bytes suffix.

Section identity.
Context `{PeerApi} `{Crypto} `{!KeyFiles}.

(** What an attempt draws: a root key, a certificate with its private key or
    why none could be made, the suffixes of the temporary files; and the faults
    of the file system it meets. *)
Record Attempt := mkAttempt {
  fresh_root : SigningKey;
  fresh_tls : result string (list byte * list byte);
  root_suffix : string;
  certificate_suffix : string;
  key_suffix : string;
  meets : list (option (string * nat));
  stats : list bool
}.

(** [load_or_create_root] *)
Definition load_or_create_root (a : Attempt) : action Disk NetworkError SigningKey :=
  found ← exists_file ROOT_KEY_FILE;
  if (found : bool) then
    bytes ← read_file ROOT_KEY_FILE;
    act_reject (negb (blen bytes =? 32)) (InvalidIdentity "stored root key length") ;;
    mret (key_from_32 bytes)
  else
    private_write ROOT_KEY_FILE (key_to_bytes (fresh_root a)) (root_suffix a) ;;
    mret (fresh_root a).

(** [certificate_path.exists() && key_path.exists()] *)
Definition both_exist : action Disk NetworkError bool :=
  certificate ← exists_file TLS_CERT_FILE;
  if (certificate : bool) then exists_file TLS_KEY_FILE else mret false.

(** [load_or_create_tls] *)
Definition load_or_create_tls (a : Attempt) : action Disk NetworkError (list byte * list byte) :=
  found ← both_exist;
  if (found : bool) then
    certificate ← read_file TLS_CERT_FILE;
    key ← read_file TLS_KEY_FILE;
    mret (certificate, key)
  else
    generated ← lift (map_err Tls (fresh_tls a));
    private_write TLS_CERT_FILE generated.1 (certificate_suffix a) ;;
    private_write TLS_KEY_FILE generated.2 (key_suffix a) ;;
    mret generated.

(** Whether [server_config] accepts the pair: the configuration itself has no
    part in what is on the disk. *)
Definition tls_config (certificate key : list byte) : result string unit :=
  server_config certificate key ;; Ok tt.

(** [DeviceIdentity::load_or_create] in the directory. *)
Definition load_or_create (a : Attempt) : action Disk NetworkError DeviceIdentity :=
  io_nothing ;;
  io_nothing ;;
  signing_key ← load_or_create_root a;
  tls ← load_or_create_tls a;
  lift (map_err Tls (tls_config tls.1 tls.2)) ;;
  mret (mkIdentity signing_key tls.1 (sha256 tls.1)).

(** An attempt on the files that are there. *)
Definition attempt_on (a : Attempt) (m : gmap string (list byte))
    : net_result DeviceIdentity * gmap string (list byte) :=
  let (x, d) := load_or_create a (mkDisk m (meets a) (stats a)) in (x, files d).

Definition run_attempts (l : list Attempt) (m : gmap string (list byte)) : gmap string (list byte) :=
  fold_left (fun m a => (attempt_on a m).2) l m.
End identity.

#[global] Arguments tls_config : simpl never.

(** ** Facts *)

Lemma io_inv {A} (f : gmap string (list byte) -> result string A * gmap string (list byte)) broken d x d' :
  io f broken d = (x, d') ->
  stat_faults d' = stat_faults d /\ (io_faults d = [] -> io_faults d' = []) /\
  ((exists e n, io_faults d <> [] /\ x = Err (Io e) /\ files d' = broken n (files d)) \/
   (x = map_err Io (f (files d)).1 /\ files d' = (f (files d)).2)).
Proof.
  unfold io. destruct (io_faults d) as [|[[e n]|] rest].
  2:{ intros [= <- <-]. split_and!; [done..|]. left. by exists e, n. }
  all: destruct (f (files d)) as [y m]; intros [= <- <-]; by split_and!; [| |right].
Qed.

(** A step that changes no file but [t]. *)
Definition keeps_but (t : string) (d d' : Disk) : Prop :=
  stat_faults d' = stat_faults d /\ (io_faults d = [] -> io_faults d' = []) /\
  forall name, name <> t -> files d' !! name = files d !! name.

#[export] Instance keeps_but_preorder t : PreOrder (keeps_but t).
Proof.
  split; [by intros d; split_and!|]. intros u v w (Hs & Hf & Hn) (Hs' & Hf' & Hn'). split_and!.
  - congruence.
  - auto.
  - intros name Ht. by rewrite Hn', Hn.
Qed.

Lemma io_keeps_but {A} (f : gmap string (list byte) -> result string A * gmap string (list byte)) broken t :
  (forall m name, name <> t -> (f m).2 !! name = m !! name) ->
  (forall n m name, name <> t -> broken n m !! name = m !! name) ->
  Along (keeps_but t) (io f broken).
Proof.
  intros Hf Hb d x d' (Hs & Hio & [(e & n & _ & _ & E)|[_ E]])%io_inv; (split_and!; [done..|]);
    intros name Ht; rewrite E; auto.
Qed.

#[export] Instance io_nothing_but t : Along (keeps_but t) io_nothing.
Proof. by apply io_keeps_but. Qed.
#[export] Instance read_but t name : Along (keeps_but t) (read_file name).
Proof. by apply io_keeps_but. Qed.
#[export] Instance create_but t : Along (keeps_but t) (create_new t).
Proof.
  apply io_keeps_but; [|done]. intros m other Ht. case_match; [done|]. cbn.
  by rewrite lookup_insert_ne by done.
Qed.
#[export] Instance write_but t bytes : Along (keeps_but t) (write_all t bytes).
Proof. apply io_keeps_but; cbn; intros; by rewrite lookup_insert_ne by done. Qed.
#[export] Instance remove_but t : Along (keeps_but t) (remove_file t).
Proof.
  apply io_keeps_but; [|done]. intros m other Ht. case_match; [|done]. cbn.
  by rewrite lookup_delete_ne by done.
Qed.

(** An [io] step that cannot fail on its own fails by a fault only. *)
Lemma io_fault {A} (f : gmap string (list byte) -> result string A * gmap string (list byte)) broken d e d' :
  io f broken d = (Err e, d') -> is_ok (f (files d)).1 = true -> io_faults d <> [].
Proof.
  intros (_ & _ & [(? & ? & Hne & _)|[Ex _]])%io_inv Hok; [done|].
  destruct (f (files d)) as [[a|e'] m]; [discriminate Ex|discriminate Hok].
Qed.

(** What [private_write] may do: the file is as before or complete, and all but
    it and the temporary file [t] are as before. *)
Definition written (name t : string) (bytes : list byte) (d d' : Disk) : Prop :=
  stat_faults d' = stat_faults d /\ (io_faults d = [] -> io_faults d' = []) /\
  (forall other, other <> t -> other <> name -> files d' !! other = files d !! other) /\
  (files d' !! name = files d !! name \/ files d' !! name = Some bytes).

Lemma keeps_written name t bytes d d' : name <> t -> keeps_but t d d' -> written name t bytes d d'.
Proof. intros Hv (Hs & Hf & Hn). split_and!; [done..|by intros; apply Hn|]. left. by apply Hn. Qed.

Lemma written_keeps name t bytes d d' d'' :
  name <> t -> written name t bytes d d' -> keeps_but t d' d'' -> written name t bytes d d''.
Proof.
  intros Hv (Hs & Hf & Ho & Hn) (Hs' & Hf' & Hn'). split_and!; [congruence|auto| |].
  - intros other Ht Hne. by rewrite Hn', Ho.
  - by rewrite Hn'.
Qed.

Lemma keeps_then_written name t bytes d d' d'' :
  name <> t -> keeps_but t d d' -> written name t bytes d' d'' -> written name t bytes d d''.
Proof.
  intros Hv (Hs & Hf & Hn) (Hs' & Hf' & Ho & Hn'). split_and!; [congruence|auto| |].
  - intros other Ht Hne. by rewrite Ho, Hn.
  - by rewrite <- (Hn name Hv).
Qed.

Lemma rename_spec name t bytes d x d' :
  name <> t -> files d !! t = Some bytes -> rename t name d = (x, d') ->
  written name t bytes d d' /\ (is_ok x = true -> files d' !! name = Some bytes) /\
  (io_faults d = [] -> is_ok x = true).
Proof.
  intros Hv Ht (Hs & Hf & [(e & n & Hne & -> & Ef)|[-> Ef]])%io_inv.
  - split; [|done]. apply keeps_written; [done|]. split_and!; [done..|]. intros other _. by rewrite Ef.
  - rewrite Ht in *. cbn in Ef. assert (Hname : files d' !! name = Some bytes) by by rewrite Ef, lookup_insert_eq.
    split; [|done]. split_and!; [done..| |by right]. intros other Ho Hne.
    by rewrite Ef, lookup_insert_ne, lookup_delete_ne by done.
Qed.

(** What an action that installs [bytes] under [name] promises. *)
Definition installs (name t : string) (bytes : list byte) (fine : Disk -> Prop)
    (m : action Disk NetworkError unit) : Prop := forall d x d',
  m d = (x, d') -> fine d ->
  written name t bytes d d' /\ (is_ok x = true -> files d' !! name = Some bytes) /\
  (io_faults d = [] -> is_ok x = true).

Lemma installs_before {A} name t bytes (fine fine' : Disk -> Prop)
    (f : gmap string (list byte) -> result string A * gmap string (list byte)) broken m :
  name <> t -> Along (keeps_but t) (io f broken) ->
  (forall d, fine d -> is_ok (f (files d)).1 = true) ->
  (forall d a d', io f broken d = (Ok a, d') -> fine d -> fine' d') ->
  installs name t bytes fine' m -> installs name t bytes fine (io f broken ;; m).
Proof.
  intros Hv Ha Hf Hf' Hm d x d' [(a & d1 & E1 & E)|(e & E1 & ->)]%act_bind_inv Hd;
    pose proof (along (R := keeps_but t) _ _ _ E1) as K.
  - destruct (Hm d1 x d' E) as (W & Hok & Hfree); [by eapply Hf'|]. split_and!; [|done|].
    + by eapply keeps_then_written.
    + intros Hno. apply Hfree. destruct K as (_ & K & _). auto.
  - split_and!; [by apply keeps_written|done|]. intros Hno. destruct (io_fault _ _ _ _ _ E1); auto.
Qed.

Lemma installs_after name t bytes (fine : Disk -> Prop) (k m : action Disk NetworkError unit) :
  name <> t -> (forall d, io_faults d = [] -> is_ok (k d).1 = true) -> Along (keeps_but t) k ->
  installs name t bytes fine m -> installs name t bytes fine (m ;; k).
Proof.
  intros Hv Hk Ha Hm d x d' [([] & d1 & E1 & E)|(e & E1 & ->)]%act_bind_inv Hd;
    destruct (Hm d _ _ E1 Hd) as (W & Hok & Hfree).
  2:{ split_and!; [done|done|]. intros Hno. specialize (Hfree Hno). discriminate Hfree. }
  pose proof (along (R := keeps_but t) _ _ _ E) as K. split_and!; [by eapply written_keeps| |].
  - intros _. destruct K as (_ & _ & Hn). rewrite Hn by done. by apply Hok.
  - intros Hno. destruct W as (_ & W & _). specialize (Hk d1 (W Hno)). by rewrite E in Hk.
Qed.

Lemma nothing_succeeds d : io_faults d = [] -> is_ok ((io_nothing ;; io_nothing) d).1 = true.
Proof. destruct d as [m f st]. cbn. by intros ->. Qed.

Lemma install_spec name bytes suffix :
  name <> temporary_name name suffix ->
  installs name (temporary_name name suffix) bytes (fun _ => True) (install name bytes suffix).
Proof.
  intros Hv. unfold install, write_all, io_nothing at 1. set (t := temporary_name name suffix) in *.
  assert (Hkeep : forall m, Along (keeps_but t) (write_all t m)) by (intros; apply _).
  apply installs_before with (fine' := fun d => files d !! t = Some bytes); [done|apply Hkeep|done| |].
  { intros d a d' (_ & _ & [(? & ? & _ & [=] & _)|[_ ->]])%io_inv _. cbn. by rewrite lookup_insert_eq. }
  apply installs_before with (fine' := fun d => files d !! t = Some bytes); [done|apply io_nothing_but|done| |].
  { intros d a d' (_ & _ & [(? & ? & _ & [=] & _)|[_ ->]])%io_inv. done. }
  apply installs_after; [done|apply nothing_succeeds|apply _|].
  intros d x d' E Hd. by eapply rename_spec.
Qed.

(** [private_write] installs the bytes whole or leaves the file alone, and
    succeeds when nothing fails and its temporary name is free. *)
Lemma private_write_spec name bytes suffix d x d' :
  private_write name bytes suffix d = (x, d') -> name <> temporary_name name suffix ->
  written name (temporary_name name suffix) bytes d d' /\
  (is_ok x = true -> files d' !! name = Some bytes) /\
  (io_faults d = [] -> files d !! temporary_name name suffix = None -> is_ok x = true).
Proof.
  intros E Hv. unfold private_write in E. set (t := temporary_name name suffix) in *.
  apply act_bind_inv in E as [([] & d1 & E1 & E)|(e & E1 & ->)]; pose proof (along (R := keeps_but t) _ _ _ E1) as K.
  2:{ split_and!; [by apply keeps_written|done|]. intros Hno Ht.
      destruct (io_fault _ _ _ _ _ E1); [by rewrite Ht|done]. }
  unfold install_or_clean in E. destruct (install name bytes suffix d1) as [y d2] eqn:Ei.
  destruct (install_spec name bytes suffix Hv _ _ _ Ei I) as (W & Hok & Hfree).
  pose proof (keeps_then_written _ _ _ _ _ _ Hv K W) as W'.
  destruct y as [[]|e]; injection E as <- <-; [by split_and!; [|intros _; apply Hok|]|].
  split_and!; [|done|].
  - eapply written_keeps; [done|exact W'|]. apply along_snd, _.
  - intros Hno _. destruct K as (_ & K & _). specialize (Hfree (K Hno)). discriminate Hfree.
Qed.

(** The final names and the temporary ones differ. *)
Lemma final_not_temporary name file suffix :
  String.prefix "." name = false -> name <> temporary_name file suffix.
Proof. intros Hv ->. unfold temporary_name in Hv. by destruct (file +:+ _)%string. Qed.

Lemma exists_free name d :
  stat_faults d = [] -> exists_file name d = (Ok (bool_decide (is_Some (files d !! name))), d).
Proof. unfold exists_file. by intros ->. Qed.

Lemma read_file_inv name d x d' :
  read_file name d = (x, d') ->
  stat_faults d' = stat_faults d /\ (io_faults d = [] -> io_faults d' = []) /\ files d' = files d /\
  (forall b, x = Ok b -> files d !! name = Some b) /\
  (io_faults d = [] -> is_Some (files d !! name) -> is_ok x = true).
Proof.
  intros (Hs & Hf & [(e & n & Hne & -> & Ef)|[-> Ef]])%io_inv; split_and!; try done; cbn; intros *.
  - by destruct (files d !! name); intros [= ->].
  - intros _ [b ->]. done.
Qed.

Section loading.
Context `{PeerApi} `{Crypto} `{!KeyFiles} `{!KeyFilesLaws}.

(** A root key of the right length, and a private key whose certificate goes
    with it. *)
Definition root_sound (m : gmap string (list byte)) : Prop :=
  forall b, m !! ROOT_KEY_FILE = Some b -> blen b = 32.

Definition tls_sound (m : gmap string (list byte)) : Prop :=
  forall k, m !! TLS_KEY_FILE = Some k ->
  exists c, m !! TLS_CERT_FILE = Some c /\ tls_config c k = Ok tt.

Definition accepted (a : Attempt) : Prop :=
  forall p, fresh_tls a = Ok p -> tls_config p.1 p.2 = Ok tt.

Definition root_temporary (a : Attempt) : string := temporary_name ROOT_KEY_FILE (root_suffix a).
Definition certificate_temporary (a : Attempt) : string := temporary_name TLS_CERT_FILE (certificate_suffix a).
Definition key_temporary (a : Attempt) : string := temporary_name TLS_KEY_FILE (key_suffix a).

Lemma load_root_spec a d x d' :
  load_or_create_root a d = (x, d') -> stat_faults d = [] ->
  stat_faults d' = [] /\ (io_faults d = [] -> io_faults d' = []) /\
  (forall n, n <> root_temporary a -> n <> ROOT_KEY_FILE -> files d' !! n = files d !! n) /\
  (is_Some (files d !! ROOT_KEY_FILE) -> files d' = files d) /\
  (root_sound (files d) -> root_sound (files d')) /\
  (forall k, x = Ok k -> exists b, files d' !! ROOT_KEY_FILE = Some b /\ blen b = 32 /\ k = key_from_32 b) /\
  (io_faults d = [] -> root_sound (files d) -> files d !! root_temporary a = None -> is_ok x = true).
Proof.
  intros E Hst. unfold load_or_create_root in E. rewrite (act_bind_eq _ _ _ _ _ (exists_free ROOT_KEY_FILE d Hst)) in E.
  case_bool_decide as Hin.
  - apply act_bind_inv in E as [(b & d1 & Er & E)|(e & Er & ->)];
      apply read_file_inv in Er as (Hs & Hf & Hfiles & Hb & Hok).
    2:{ rewrite Hfiles, Hs. split_and!; try done. intros Hno _ _. specialize (Hok Hno Hin). done. }
    specialize (Hb b eq_refl). apply act_bind_inv in E as [([] & d2 & E2 & E)|(e & E2 & ->)].
    + destruct (blen b =? 32) eqn:Eb; [|discriminate E2]. injection E2 as <-. injection E as <- <-.
      rewrite Hfiles, Hs. split_and!; try done. intros k [= <-]. exists b. split_and!; [done|lia|done].
    + destruct (blen b =? 32) eqn:Eb; [discriminate E2|]. injection E2 as _ <-.
      rewrite Hfiles, Hs. split_and!; try done. intros _ Hr. specialize (Hr b Hb). lia.
  - assert (Hv : ROOT_KEY_FILE <> root_temporary a) by by apply final_not_temporary.
    assert (Hnone : files d !! ROOT_KEY_FILE = None) by by apply eq_None_not_Some.
    apply act_bind_inv in E as [([] & d1 & Ew & E)|(e & Ew & ->)];
      destruct (private_write_spec _ _ _ _ _ _ Ew Hv) as ((Hs & Hf & Ho & Hn) & Hok & Hfree).
    1: injection E as <- <-. all: rewrite Hs.
    all: split_and!; [done|done|done|by intros Hs'|intros _ b|intros k [= <-]|intros Hno _ Ht; by auto].
    + destruct Hn as [->| ->]; [by rewrite Hnone|]. intros [= <-]. apply key_to_bytes_length.
    + exists (key_to_bytes (fresh_root a)). rewrite key_from_to, key_to_bytes_length. by rewrite Hok.
    + destruct Hn as [->| ->]; [by rewrite Hnone|]. intros [= <-]. apply key_to_bytes_length.
Qed.

Definition tls_there (m : gmap string (list byte)) : Prop :=
  is_Some (m !! TLS_CERT_FILE) /\ is_Some (m !! TLS_KEY_FILE).

Lemma both_exist_free d :
  stat_faults d = [] -> exists b, both_exist d = (Ok b, d) /\ (b = true <-> tls_there (files d)).
Proof.
  intros Hst. unfold both_exist. rewrite (act_bind_eq _ _ _ _ _ (exists_free TLS_CERT_FILE d Hst)).
  unfold tls_there. case_bool_decide as Hc.
  - eexists. split; [by apply exists_free|]. rewrite bool_decide_eq_true. tauto.
  - exists false. split; [done|]. split; [done|tauto].
Qed.

(** The two reads of a pair that is there. *)
Lemma read_pair_spec d x d' :
  (certificate ← read_file TLS_CERT_FILE; key ← read_file TLS_KEY_FILE; mret (certificate, key)) d = (x, d') ->
  stat_faults d' = stat_faults d /\ (io_faults d = [] -> io_faults d' = []) /\ files d' = files d /\
  (forall p, x = Ok p -> files d !! TLS_CERT_FILE = Some p.1 /\ files d !! TLS_KEY_FILE = Some p.2) /\
  (io_faults d = [] -> tls_there (files d) -> is_ok x = true).
Proof.
  intros [(c & d1 & E1 & E)|(e & E1 & ->)]%act_bind_inv;
    apply read_file_inv in E1 as (Hs1 & Hf1 & Hfiles1 & Hc & Hok1).
  2:{ split_and!; try done. intros Hno [Hin _]. specialize (Hok1 Hno Hin). done. }
  apply act_bind_inv in E as [(k & d2 & E2 & E)|(e & E2 & ->)];
    apply read_file_inv in E2 as (Hs2 & Hf2 & Hfiles2 & Hk & Hok2); rewrite Hfiles1 in *.
  - injection E as <- <-. split_and!; try done; [congruence|auto|]. intros p [= <-].
    split; [by apply Hc|by apply Hk].
  - split_and!; try done; [congruence|auto|]. intros Hno [_ Hin]. specialize (Hok2 (Hf1 Hno) Hin). done.
Qed.

(** Writing a generated pair where none was complete. *)
Definition write_pair (g : list byte * list byte) (a : Attempt) : action Disk NetworkError (list byte * list byte) :=
  private_write TLS_CERT_FILE g.1 (certificate_suffix a) ;;
  private_write TLS_KEY_FILE g.2 (key_suffix a) ;;
  mret g.

Lemma write_pair_spec g a d x d' :
  write_pair g a d = (x, d') -> ~ tls_there (files d) ->
  stat_faults d' = stat_faults d /\ (io_faults d = [] -> io_faults d' = []) /\
  files d' !! ROOT_KEY_FILE = files d !! ROOT_KEY_FILE /\
  (tls_config g.1 g.2 = Ok tt -> tls_sound (files d) -> tls_sound (files d')) /\
  (is_ok x = true -> x = Ok g /\ files d' !! TLS_CERT_FILE = Some g.1 /\ files d' !! TLS_KEY_FILE = Some g.2) /\
  (io_faults d = [] -> files d !! certificate_temporary a = None ->
   files d !! key_temporary a = None -> is_ok x = true).
Proof.
  intros E Hnot. unfold write_pair in E.
  assert (Hvc : TLS_CERT_FILE <> certificate_temporary a) by by apply final_not_temporary.
  assert (Hvk : TLS_KEY_FILE <> key_temporary a) by by apply final_not_temporary.
  assert (Hrc : ROOT_KEY_FILE <> certificate_temporary a) by by apply final_not_temporary.
  assert (Hrk : ROOT_KEY_FILE <> key_temporary a) by by apply final_not_temporary.
  assert (Hck : TLS_CERT_FILE <> key_temporary a) by by apply final_not_temporary.
  assert (Hkc : TLS_KEY_FILE <> certificate_temporary a) by by apply final_not_temporary.
  assert (Hnokey : tls_sound (files d) -> files d !! TLS_KEY_FILE = None).
  { intros Hsound. destruct (files d !! TLS_KEY_FILE) as [k|] eqn:Ek; [|done]. destruct Hnot.
    destruct (Hsound k Ek) as (c & Hc & _). by split; eauto. }
  apply act_bind_inv in E as [([] & d1 & E1 & E)|(e & E1 & ->)];
    destruct (private_write_spec _ _ _ _ _ _ E1 Hvc) as ((Hs1 & Hf1 & Ho1 & Hn1) & Hok1 & Hfree1).
  2:{ split_and!; [done..|by apply Ho1| |done|by auto].
      intros _ Hsound k. rewrite Ho1 by done. by rewrite Hnokey. }
  specialize (Hok1 eq_refl). assert (exists y, private_write TLS_KEY_FILE g.2 (key_suffix a) d1 = (y, d') /\
      x = (_ ← y; Ok g)) as (y & E2 & ->).
  { apply act_bind_inv in E as [([] & d2 & E2 & [= <- <-])|(e & E2 & ->)]; eauto. }
  destruct (private_write_spec _ _ _ _ _ _ E2 Hvk) as ((Hs2 & Hf2 & Ho2 & Hn2) & Hok2 & Hfree2).
  assert (Hc : files d' !! TLS_CERT_FILE = Some g.1) by by rewrite Ho2.
  split_and!; [congruence|by auto|by rewrite Ho2, Ho1| | |].
  - intros Hg Hsound k Hk. exists g.1. split; [done|].
    destruct Hn2 as [Hn2|Hn2]; rewrite Hn2 in Hk; [|by injection Hk as <-].
    by rewrite Ho1, Hnokey in Hk.
  - by destruct y as [[]|]; [rewrite Hok2|].
  - intros Hno _ Hfk. assert (is_ok y = true) as Hy.
    { apply Hfree2; [auto|]. rewrite Ho1; [done| |by apply not_eq_sym].
      intros Et. unfold temporary_name in Et. by cbn in Et. }
    by destruct y.
Qed.

Lemma load_tls_spec a d x d' :
  load_or_create_tls a d = (x, d') -> stat_faults d = [] ->
  stat_faults d' = [] /\ (io_faults d = [] -> io_faults d' = []) /\
  (tls_there (files d) -> files d' = files d) /\
  files d' !! ROOT_KEY_FILE = files d !! ROOT_KEY_FILE /\
  (accepted a -> tls_sound (files d) -> tls_sound (files d')) /\
  (forall p, x = Ok p -> files d' !! TLS_CERT_FILE = Some p.1 /\ files d' !! TLS_KEY_FILE = Some p.2) /\
  (io_faults d = [] -> is_ok (fresh_tls a) = true -> files d !! certificate_temporary a = None ->
   files d !! key_temporary a = None -> is_ok x = true).
Proof.
  intros E Hst. unfold load_or_create_tls in E. destruct (both_exist_free d Hst) as (found & Ef & Hfound).
  rewrite (act_bind_eq _ _ _ _ _ Ef) in E. destruct found.
  { apply read_pair_spec in E as (Hs & Hf & Hfiles & Hp & Hok). rewrite Hs, Hfiles.
    split_and!; try done. intros Hno _ _ _. apply Hok; [done|by apply Hfound]. }
  assert (Hnot : ~ tls_there (files d)) by (intros Hin%Hfound; done). clear Hfound Ef. unfold accepted.
  destruct (fresh_tls a) as [g|why] eqn:Eg; [|injection E as <- <-; by split_and!].
  apply (write_pair_spec g) in E as (Hs & Hf & Hr & Hsound & Hok & Hfree); [|done].
  rewrite Hs. split_and!; try done; [auto| |auto].
  intros p ->. by destruct Hok as ([= ->] & ?).
Qed.

(** The files hold the identity [i]. *)
Definition holds (i : DeviceIdentity) (m : gmap string (list byte)) : Prop :=
  exists root key, m !! ROOT_KEY_FILE = Some root /\ blen root = 32 /\ signing_key i = key_from_32 root /\
    m !! TLS_CERT_FILE = Some (certificate_der i) /\ m !! TLS_KEY_FILE = Some key /\
    certificate_sha256 i = sha256 (certificate_der i).

Lemma holds_unique i j m : holds i m -> holds j m -> i = j.
Proof. intros (? & ? & ? & ? & ? & ? & ? & ?) (? & ? & ? & ? & ? & ? & ? & ?). destruct i, j. cbn in *. naive_solver. Qed.

(** No check of existence fails. *)
Definition clear_sighted (a : Attempt) : Prop := stats a = [].

Definition names_free (a : Attempt) (m : gmap string (list byte)) : Prop :=
  m !! root_temporary a = None /\ m !! certificate_temporary a = None /\ m !! key_temporary a = None.

(** What one run of [load_or_create] promises on the files it finds. *)
Definition attempt_ok (a : Attempt) (fine : Prop) (m : gmap string (list byte))
    (x : net_result DeviceIdentity) (m' : gmap string (list byte)) : Prop :=
  (is_Some (m !! ROOT_KEY_FILE) -> m' !! ROOT_KEY_FILE = m !! ROOT_KEY_FILE) /\
  (is_Some (m !! ROOT_KEY_FILE) -> tls_there m -> m' = m) /\
  (accepted a -> root_sound m -> tls_sound m -> root_sound m' /\ tls_sound m') /\
  (forall i, x = Ok i -> holds i m') /\
  (fine -> is_ok (fresh_tls a) = true -> accepted a -> root_sound m -> tls_sound m ->
   names_free a m -> is_ok x = true).

Lemma attempt_failed a e fine (m : gmap string (list byte)) : ~ fine -> attempt_ok a fine m (Err e) m.
Proof. intros Hno. by split_and!. Qed.

Lemma nothing_before {A} (k : action Disk NetworkError A) (x : net_result A) d d' (P : Prop) :
  (io_nothing ;; k) d = (x, d') -> stat_faults d = [] ->
  ((exists e, x = Err e) -> files d' = files d -> io_faults d <> [] -> P) ->
  (forall d1, k d1 = (x, d') -> stat_faults d1 = [] -> files d1 = files d ->
   (io_faults d = [] -> io_faults d1 = []) -> P) -> P.
Proof.
  intros [(u & d1 & E1 & E)|(e & E1 & ->)]%act_bind_inv Hst Hfail Hgo;
    apply io_inv in E1 as (Hs & Hf & Hcase).
  - apply (Hgo d1); [done|congruence| |done]. by destruct Hcase as [(? & ? & _ & _ & ->)|[_ ->]].
  - destruct Hcase as [(? & ? & Hne & _ & Ef)|[[=] _]]. apply Hfail; eauto.
Qed.

Lemma root_keeps_tls a (m m' : gmap string (list byte)) :
  (forall n, n <> root_temporary a -> n <> ROOT_KEY_FILE -> m' !! n = m !! n) ->
  m' !! TLS_CERT_FILE = m !! TLS_CERT_FILE /\ m' !! TLS_KEY_FILE = m !! TLS_KEY_FILE /\
  (tls_sound m -> tls_sound m').
Proof.
  intros Ho. assert (Hsame : forall n, n = TLS_CERT_FILE \/ n = TLS_KEY_FILE -> m' !! n = m !! n)
    by (intros n [-> | ->]; (apply Ho; [by apply final_not_temporary|done])).
  split_and!; [by auto..|]. intros Hs k. rewrite !Hsame by tauto. apply Hs.
Qed.

Lemma load_spec a d x d' :
  (signing_key ← load_or_create_root a;
   tls ← load_or_create_tls a;
   lift (map_err Tls (tls_config tls.1 tls.2)) ;;
   mret (mkIdentity signing_key tls.1 (sha256 tls.1))) d = (x, d') ->
  stat_faults d = [] -> attempt_ok a (io_faults d = []) (files d) x (files d').
Proof.
  intros E Hst. apply act_bind_inv in E as [(sk & d1 & E1 & E)|(e & E1 & ->)];
    apply load_root_spec in E1 as (Hs1 & Hf1 & Ho1 & Hr1 & Hsound1 & Hok1 & Hfree1); try done;
    destruct (root_keeps_tls a _ _ Ho1) as (_ & _ & Hsound).
  2:{ split_and!; [by intros Hin%Hr1; rewrite Hin|by intros Hin%Hr1| |done|].
      - intros _ Hr Ht. by auto.
      - intros Hno _ _ Hr _ (Hn & _). specialize (Hfree1 Hno Hr Hn). discriminate Hfree1. }
  assert (exists y, load_or_create_tls a d1 = (y, d') /\
    x = (tls ← y; map_err Tls (tls_config tls.1 tls.2) ;; Ok (mkIdentity sk tls.1 (sha256 tls.1)))) as (y & E2 & ->).
  { apply act_bind_inv in E as [(tls & d2 & E2 & E)|(e & E2 & ->)]; [|by eauto].
    exists (Ok tls). cbn. destruct (tls_config tls.1 tls.2); injection E as <- <-; done. }
  apply load_tls_spec in E2 as (Hs2 & Hf2 & Hthere & Hroot & Hsound2 & Hok2 & Hfree2); [|done].
  clear E. split_and!.
  - intros Hin%Hr1. by rewrite Hroot, Hin.
  - intros Hin%Hr1 Hthe. by rewrite Hthere, Hin; [|rewrite Hin].
  - intros Ha Hr Ht. split; [|by auto]. intros b. rewrite Hroot. by apply Hsound1.
  - intros i Hi. destruct y as [tls|]; [|discriminate Hi]. destruct (Hok2 tls eq_refl) as [Hc Hk].
    cbn in Hi. destruct (tls_config _ _); [|discriminate Hi]. injection Hi as <-.
    destruct (Hok1 sk eq_refl) as (b & Hb & Hlen & ->). exists b, tls.2. cbn. by rewrite Hroot.
  - intros Hno Hg Ha Hr Ht (_ & Hnc & Hnk).
    assert (is_ok y = true) as Hy.
    { apply Hfree2; [by auto|done|rewrite Ho1|rewrite Ho1]; try done;
        intros Et; unfold root_temporary, temporary_name in Et; by cbn in Et. }
    destruct y as [tls|]; [|done]. destruct (Hok2 tls eq_refl) as [Hc Hk].
    destruct (Hsound2 Ha (Hsound Ht) tls.2 Hk) as (c & Hc' & Hcfg). rewrite Hc in Hc'. injection Hc' as <-.
    cbn. by rewrite Hcfg.
Qed.

Lemma attempt_spec a m x m' :
  attempt_on a m = (x, m') -> clear_sighted a ->
  (is_Some (m !! ROOT_KEY_FILE) -> m' !! ROOT_KEY_FILE = m !! ROOT_KEY_FILE) /\
  (is_Some (m !! ROOT_KEY_FILE) -> tls_there m -> m' = m) /\
  (accepted a -> root_sound m -> tls_sound m -> root_sound m' /\ tls_sound m') /\
  (forall i, x = Ok i -> holds i m') /\
  (meets a = [] -> is_ok (fresh_tls a) = true -> accepted a -> root_sound m -> tls_sound m ->
   names_free a m -> is_ok x = true).
Proof.
  unfold attempt_on, clear_sighted. destruct (load_or_create a (mkDisk m (meets a) (stats a))) as [y d'] eqn:E.
  intros [= <- <-] Hst. unfold load_or_create in E.
  refine (nothing_before _ _ _ _ _ E Hst _ _); [intros [e ->] -> Hne; by apply (attempt_failed a e)|].
  clear E. intros d1 E Hst1 Hfiles1 Hf1. cbn [files io_faults] in Hfiles1, Hf1.
  refine (nothing_before _ _ _ _ _ E Hst1 _ _).
  { intros [e ->] -> Hne. rewrite Hfiles1. apply (attempt_failed a e). auto. }
  clear E. intros d2 E Hst2 Hfiles2 Hf2. apply load_spec in E; [|done].
  rewrite Hfiles2, Hfiles1 in E. destruct E as (? & ? & ? & ? & Hfine). split_and!; [done..|]. auto.
Qed.

Lemma attempt_eta a m : attempt_on a m = ((attempt_on a m).1, (attempt_on a m).2).
Proof. by destruct (attempt_on a m). Qed.

Lemma holds_there i m : holds i m -> is_Some (m !! ROOT_KEY_FILE) /\ tls_there m.
Proof. intros (root & key & ? & _ & _ & ? & ? & _). split_and!; [eauto|]. split; eauto. Qed.

(** The files of an identity stay through any runs. *)
Lemma holds_stays i l m : Forall clear_sighted l -> holds i m -> run_attempts l m = m.
Proof.
  intros Hl Hm. induction Hl as [|a l Ha Hl IH]; [done|]. cbn.
  destruct (attempt_spec a m _ _ (attempt_eta a m) Ha) as (_ & Hsame & _).
  destruct (holds_there i m Hm). by rewrite Hsame.
Qed.

Lemma root_stays root l m :
  Forall clear_sighted l -> m !! ROOT_KEY_FILE = Some root -> run_attempts l m !! ROOT_KEY_FILE = Some root.
Proof.
  intros Hl. revert m. induction Hl as [|a l Ha Hl IH]; intros m Hm; [done|]. cbn. apply IH.
  destruct (attempt_spec a m _ _ (attempt_eta a m) Ha) as (-> & _); rewrite Hm; done.
Qed.

Lemma sound_stays l m :
  Forall (fun a => clear_sighted a /\ accepted a) l -> root_sound m -> tls_sound m ->
  root_sound (run_attempts l m) /\ tls_sound (run_attempts l m).
Proof.
  intros Hl. revert m. induction Hl as [|a l [Ha Hacc] Hl IH]; intros m Hr Ht; [done|]. cbn.
  destruct (attempt_spec a m _ _ (attempt_eta a m) Ha) as (_ & _ & Hsound & _).
  destruct (Hsound Hacc Hr Ht). by apply IH.
Qed.

(** C27. The identity is stable as long as no existence check fails: provided
    that every check of [Path::exists], in the first run, in the last one and in
    all runs between them, can look at its file, then once a run of
    [load_or_create] has answered an identity, every later run that succeeds
    answers the same one.  Under that condition the root key, the certificate and
    its private key are neither rewritten nor removed by any run, complete or
    interrupted at any other call of the file system.  Without it the root key
    is replaced: see [unreadable_root_is_replaced]. *)
Theorem identity_is_stable a l b m i j :
  clear_sighted a -> Forall clear_sighted l -> clear_sighted b ->
  (attempt_on a m).1 = Ok i ->
  (attempt_on b (run_attempts l (attempt_on a m).2)).1 = Ok j ->
  j = i /\ run_attempts l (attempt_on a m).2 = (attempt_on a m).2.
Proof.
  intros Ha Hl Hb Hi Hj.
  destruct (attempt_spec a m _ _ (attempt_eta a m) Ha) as (_ & _ & _ & Hhold & _). specialize (Hhold i Hi).
  rewrite (holds_stays i l _ Hl Hhold) in *. split; [|done].
  destruct (attempt_spec b (attempt_on a m).2 _ _ (attempt_eta b _) Hb) as (_ & Hsame & _ & Hhold' & _). specialize (Hhold' j Hj).
  destruct (holds_there i _ Hhold). rewrite Hsame in Hhold' by done. by eapply holds_unique.
Qed.

(** C28. A run interrupted at any call leaves a directory the next run can use,
    provided that no existence check fails and that the TLS configuration accepts
    the fresh certificates.  After any such runs that began with an empty
    directory, a root key in it has 32 bytes, and a private key in it goes with
    the certificate beside it: a certificate without its key, left by a failure
    between the two writes, is replaced together with it.  A root key once written
    stays through all further runs whose existence checks do not fail; one whose
    check fails replaces it ([unreadable_root_is_replaced]).  And a run that meets
    no fault at all, whose fresh pair is accepted and whose temporary names are
    free, succeeds there. *)
Theorem identity_recovers l l' b :
  Forall (fun a => clear_sighted a /\ accepted a) l ->
  Forall clear_sighted l' ->
  clear_sighted b -> meets b = [] -> is_ok (fresh_tls b) = true -> accepted b ->
  names_free b (run_attempts l ∅) ->
  root_sound (run_attempts l ∅) /\ tls_sound (run_attempts l ∅) /\
  (forall root, run_attempts l ∅ !! ROOT_KEY_FILE = Some root ->
   run_attempts l' (run_attempts l ∅) !! ROOT_KEY_FILE = Some root) /\
  is_ok (attempt_on b (run_attempts l ∅)).1 = true.
Proof.
  intros Hl Hl' Hb Hno Hg Hacc Hnames.
  destruct (sound_stays l ∅ Hl) as [Hr Ht]; [done..|]. split_and!; [done|done|by intros root; apply root_stays|].
  destruct (attempt_spec b (run_attempts l ∅) _ _ (attempt_eta b _) Hb) as (_ & _ & _ & _ & Hfine). by apply Hfine.
Qed.

(** [Path::exists] answers [false] on an error as well, so a run that
    cannot look at the stored root key takes it to be missing and writes a
    fresh one over it: the device has a new identity, with the old certificate. *)
Theorem unreadable_root_is_replaced a m i :
  stats a = [true] -> meets a = [] -> holds i m -> m !! root_temporary a = None ->
  (forall key, m !! TLS_KEY_FILE = Some key -> tls_config (certificate_der i) key = Ok tt) ->
  (attempt_on a m).1 = Ok (mkIdentity (fresh_root a) (certificate_der i) (certificate_sha256 i)) /\
  (attempt_on a m).2 !! ROOT_KEY_FILE = Some (key_to_bytes (fresh_root a)).
Proof.
  intros Hst Hno (root & key & Hroot & _ & _ & Hc & Hk & Hsha) Ht Hcfg.
  unfold attempt_on. rewrite Hst, Hno. set (d := mkDisk m [] []).
  assert (Hv : ROOT_KEY_FILE <> root_temporary a) by by apply final_not_temporary.
  assert (exists d1, load_or_create_root a (mkDisk m [] [true]) = (Ok (fresh_root a), d1) /\
    io_faults d1 = [] /\ stat_faults d1 = [] /\ files d1 !! ROOT_KEY_FILE = Some (key_to_bytes (fresh_root a)) /\
    files d1 !! TLS_CERT_FILE = Some (certificate_der i) /\ files d1 !! TLS_KEY_FILE = Some key)
    as (d1 & E1 & Hio & Hs & Hr1 & Hc1 & Hk1).
  { destruct (private_write ROOT_KEY_FILE (key_to_bytes (fresh_root a)) (root_suffix a) d) as [x d1] eqn:E.
    destruct (private_write_spec _ _ _ _ _ _ E Hv) as ((Hs & Hf & Ho & _) & Hok & Hfree).
    specialize (Hfree eq_refl Ht). destruct x as [[]|]; [|discriminate Hfree]. exists d1. split_and!; auto.
    - unfold load_or_create_root. rewrite (act_bind_eq (exists_file ROOT_KEY_FILE) _ (mkDisk m [] [true]) false d eq_refl).
      by rewrite (act_bind_eq _ _ _ _ _ E).
    - rewrite Ho; [done|by apply final_not_temporary|done].
    - rewrite Ho; [done|by apply final_not_temporary|done]. }
  destruct (both_exist_free d1 Hs) as (found & Ef & Hfound). destruct found.
  2:{ destruct Hfound as [_ Hfound]. discriminate Hfound. split; eauto. }
  assert (Hcl : load_or_create a (mkDisk m [] [true]) =
    (Ok (mkIdentity (fresh_root a) (certificate_der i) (certificate_sha256 i)), d1)).
  { unfold load_or_create. do 2 rewrite (act_bind_eq io_nothing _ (mkDisk m [] [true]) tt (mkDisk m [] [true]) eq_refl).
    rewrite (act_bind_eq _ _ _ _ _ E1). unfold load_or_create_tls.
    destruct d1 as [m1 f1 s1]. cbn in Hio, Hs, Hr1, Hc1, Hk1. subst f1 s1.
    set (d1 := mkDisk m1 [] []) in *. rewrite Hsha.
    assert (Rc : read_file TLS_CERT_FILE d1 = (Ok (certificate_der i), d1)) by (cbn; by rewrite Hc1).
    assert (Rk : read_file TLS_KEY_FILE d1 = (Ok key, d1)) by (cbn; by rewrite Hk1).
    unfold mbind, action_bind. rewrite Ef, Rc, Rk. cbn. by rewrite (Hcfg key Hk). }
  by rewrite Hcl.
Qed.
End loading.

(** ** A concrete instance *)

Module SampleFiles.
Import SamplePeer SampleCrypto.

(** A stored key starts with its byte; a private key fits a certificate with the
    same first byte. *)
#[export] Instance key_files : KeyFiles := {|
  key_to_bytes := fun k => repeat k 32;
  key_from_32 := fun b => default x00 (head b);
  key_rustls := SampleSystem.rustls
|}.

#[export] Instance key_files_laws : KeyFilesLaws.
Proof. by split. Qed.

Definition attempt (root : byte) (tls : byte) (suffix : string) (faults : list (option (string * nat))) : Attempt :=
  mkAttempt root (Ok ([tls; x01], [tls; x02])) suffix suffix suffix faults [].

(** The fifteenth call fails: with no files there, creating the temporary file
    of the private key; with a root key there, the last sync of the private key. *)
Definition full : list (option (string * nat)) := repeat None 14 ++ [Some ("disk full"%string, 1%nat)].

Definition crashed := attempt x07 x08 "a" full.
Definition crashed_later := attempt x17 x18 "b" full.
Definition fine := attempt x27 x28 "c" [].
Definition again := attempt x37 x38 "d" [].

(** The first run leaves a certificate without its key, the second writes a pair
    and fails after it, the third loads that. *)
Example crash_leaves :
  run_attempts [crashed] ∅ !! TLS_CERT_FILE = Some [x08; x01] /\
  run_attempts [crashed] ∅ !! TLS_KEY_FILE = None /\
  (attempt_on fine (run_attempts [crashed; crashed_later] ∅)).1 =
    Ok (mkIdentity x07 [x18; x01] (sha256 [x18; x01])).
Proof. by vm_compute. Qed.

Lemma identity_is_stable_witness :
  let m := (attempt_on fine (run_attempts [crashed] ∅)).2 in
  let i := mkIdentity x07 [x28; x01] (sha256 [x28; x01]) in
  (attempt_on again (run_attempts [crashed_later] m)).1 = Ok i /\ run_attempts [crashed_later] m = m.
Proof.
  intros m i. assert (E : (attempt_on again (run_attempts [crashed_later] m)).1 = Ok i) by by vm_compute.
  split; [exact E|].
  apply (identity_is_stable fine [crashed_later] again (run_attempts [crashed] ∅) i i);
    [done|by repeat constructor|done|by vm_compute|exact E].
Defined.

Lemma identity_recovers_witness :
  tls_sound (run_attempts [crashed; crashed_later] ∅) /\
  is_ok (attempt_on fine (run_attempts [crashed; crashed_later] ∅)).1 = true.
Proof.
  assert (Ha : forall r t s f, accepted (attempt r t s f)).
  { intros r t s f p [= <-]. unfold tls_config. cbn. by rewrite bool_decide_eq_true_2. }
  assert (Hl : Forall (fun a => clear_sighted a /\ accepted a) [crashed; crashed_later]).
  { repeat constructor; apply Ha. }
  assert (Hc : Forall clear_sighted [again]) by (repeat constructor).
  assert (Hn : names_free fine (run_attempts [crashed; crashed_later] ∅)) by by vm_compute.
  destruct (identity_recovers [crashed; crashed_later] [again] fine Hl Hc
    eq_refl eq_refl eq_refl (Ha _ _ _ _) Hn) as (_ & Ht & _ & Hok).
  exact (conj Ht Hok).
Defined.

Lemma unreadable_root_is_replaced_witness :
  let m := (attempt_on fine ∅).2 in
  let blind := mkAttempt x47 (Err "none"%string) "e" "e" "e" [] [true] in
  (attempt_on fine m).1 = Ok (mkIdentity x27 [x28; x01] (sha256 [x28; x01])) /\
  (attempt_on blind m).1 = Ok (mkIdentity x47 [x28; x01] (sha256 [x28; x01])).
Proof.
  split; [by vm_compute|].
  refine (proj1 (unreadable_root_is_replaced (mkAttempt x47 (Err "none"%string) "e" "e" "e" [] [true])
    (attempt_on fine ∅).2 (mkIdentity x27 [x28; x01] (sha256 [x28; x01])) eq_refl eq_refl _ _ _)).
  - exists (repeat x27 32), [x28; x02]. by vm_compute.
  - by vm_compute.
  - intros key. assert (E : (attempt_on fine ∅).2 !! TLS_KEY_FILE = Some [x28; x02]) by by vm_compute.
    rewrite E. by intros [= <-].
Defined.
End SampleFiles.
