(* ===== verification/Discovery.v ===== *)
(** * Discovery

    The discovery registry (discovery.rs): advertisements, their merge, the two
    maps of observed peers with the snapshot sent to consumers, the services
    published through the DNS-SD daemon, and the conversion between a device
    and its service record. *)

From S2P Require Import Prelude Errors Addr Peer Wire Text Identity.

(** ** Foreign code *)

(** [mdns_sd], the base64 codec and the constants of [arcrelay_wire] the module
    names.  [service_new] is [ServiceInfo::new] with automatic addresses. *)
Class MdnsApi := {
  ServiceInfo : Type;
  Daemon : Type;
  DISCOVERY_SERVICE_TYPE : string;
  DISCOVERY_PROTOCOL : string;
  service_new : string -> string -> string -> Z -> gmap string string -> result string ServiceInfo;
  get_fullname : ServiceInfo -> string;
  mdns_register : ServiceInfo -> action Daemon string unit;
  mdns_unregister : string -> action Daemon string unit;
  base64_encode : list byte -> string;
  base64_decode : string -> result string (list byte)
}.

Class MdnsLaws `{MdnsApi} : Prop :=
  base64_roundtrip : forall b, base64_decode (base64_encode b) = Ok b.

(** [mdns_sd::ScopedIp]: the enumeration is open. *)
Inductive ScopedIp :=
| ScopedV4 (addr : Ipv4Addr)
| ScopedV6 (addr : Ipv6Addr) (index : Z)
| ScopedOther (ip : IpAddr).

Definition to_ip_addr (s : ScopedIp) : IpAddr :=
  match s with
  | ScopedV4 a => IpV4 a
  | ScopedV6 a _ => IpV6 a
  | ScopedOther ip => ip
  end.

(** [mdns_sd::ResolvedService]: the properties are a lookup function. *)
Record ResolvedService := mkResolved {
  rs_fullname : string;
  rs_properties : string -> option string;
  rs_addresses : list ScopedIp
}.

(** ** Advertisements *)

Section advertisement.
Context `{PeerApi}.

Record PeerAdvertisement := mkAdvertisement {
  adv_device_id : DeviceId;
  adv_public_key : DevicePublicKey;
  adv_metadata : DeviceMetadata;
  addresses : list IpAddr;
  connection_addresses : list SocketAddr;
  port : Z;
  adv_certificate_sha256 : list byte;
  adv_last_seen_at_ms : Z
}.

#[export] Instance PeerAdvertisement_eq_dec : EqDecision PeerAdvertisement.
Proof. solve_decision. Defined.

Definition merge_advertisement (target newer : PeerAdvertisement) : PeerAdvertisement :=
  let fresher := adv_last_seen_at_ms target <=? adv_last_seen_at_ms newer in
  mkAdvertisement (adv_device_id target)
    (if fresher then adv_public_key newer else adv_public_key target)
    (if fresher then adv_metadata newer else adv_metadata target)
    (sort_dedup (addresses target ++ addresses newer))
    (sort_dedup (connection_addresses target ++ connection_addresses newer))
    (if fresher then port newer else port target)
    (if fresher then adv_certificate_sha256 newer else adv_certificate_sha256 target)
    (if fresher then adv_last_seen_at_ms newer else adv_last_seen_at_ms target).

Definition same_discovery_route (left right : PeerAdvertisement) : bool :=
  bool_decide (adv_device_id left = adv_device_id right)
  && bool_decide (adv_public_key left = adv_public_key right)
  && bool_decide (adv_metadata left = adv_metadata right)
  && bool_decide (addresses left = addresses right)
  && bool_decide (connection_addresses left = connection_addresses right)
  && bool_decide (port left = port right)
  && bool_decide (adv_certificate_sha256 left = adv_certificate_sha256 right).

Definition merge_observed_peer (peers : gmap DeviceId PeerAdvertisement) (peer : PeerAdvertisement)
    : bool * gmap DeviceId PeerAdvertisement :=
  match peers !! adv_device_id peer with
  | None => (true, <[adv_device_id peer := peer]> peers)
  | Some previous =>
      let observed := merge_advertisement previous peer in
      (negb (same_discovery_route previous observed), <[adv_device_id peer := observed]> peers)
  end.

(** ** The registry *)

Record Discovery := mkDiscovery {
  local_id : DeviceId;
  mdns_peers : gmap DeviceId PeerAdvertisement;
  authenticated_peers : gmap DeviceId PeerAdvertisement;
  service_ids : gmap string DeviceId;
  snapshot : list PeerAdvertisement;
  emitted : nat
}.

(** The map [emit] builds: the authenticated routes with those of mDNS. *)
Definition merged_peers (d : Discovery) : gmap DeviceId PeerAdvertisement :=
  union_with (fun observed mdns => Some (merge_advertisement observed mdns))
             (authenticated_peers d) (mdns_peers d).

(** [sort_by] name, then device id *)
Definition by_metadata_name (left right : PeerAdvertisement) : bool :=
  not_gt (then_with (cmp (name (adv_metadata left)) (name (adv_metadata right)))
                    (cmp (adv_device_id left) (adv_device_id right))).

Definition snapshot_of (d : Discovery) : list PeerAdvertisement :=
  sort_by by_metadata_name (map_to_list (merged_peers d)).*2.

Definition emit (d : Discovery) : Discovery :=
  mkDiscovery (local_id d) (mdns_peers d) (authenticated_peers d) (service_ids d)
              (snapshot_of d) (S (emitted d)).

(** [DiscoveryService::peer] *)
Definition discovery_peer (d : Discovery) (id : DeviceId) : option PeerAdvertisement :=
  find_first (fun peer => bool_decide (adv_device_id peer = id)) (snapshot d).

Definition set_authenticated (m : gmap DeviceId PeerAdvertisement) (d : Discovery) : Discovery :=
  mkDiscovery (local_id d) (mdns_peers d) m (service_ids d) (snapshot d) (emitted d).
Definition set_mdns (m : gmap DeviceId PeerAdvertisement) (d : Discovery) : Discovery :=
  mkDiscovery (local_id d) m (authenticated_peers d) (service_ids d) (snapshot d) (emitted d).
Definition set_service_ids (m : gmap string DeviceId) (d : Discovery) : Discovery :=
  mkDiscovery (local_id d) (mdns_peers d) (authenticated_peers d) m (snapshot d) (emitted d).

Definition observe_authenticated (peer : PeerAdvertisement) (d : Discovery) : Discovery :=
  if decide (adv_device_id peer = local_id d) then d
  else
    let (changed, peers) := merge_observed_peer (authenticated_peers d) peer in
    let d' := set_authenticated peers d in
    if changed then emit d' else d'.

Definition forget_authenticated (id : DeviceId) (d : Discovery) : Discovery :=
  match authenticated_peers d !! id with
  | Some _ => emit (set_authenticated (delete id (authenticated_peers d)) d)
  | None => d
  end.

(** [DiscoveryService::refresh] *)
Definition refresh (d : Discovery) : Discovery := emit d.

(** [DiscoveryService::resolve], after [decode_service] has given [peer]. *)
Definition resolve_peer (fullname : string) (peer : PeerAdvertisement) (d : Discovery) : Discovery :=
  if decide (adv_device_id peer = local_id d) then d
  else
    let d1 := set_service_ids (<[fullname := adv_device_id peer]> (service_ids d)) d in
    let (changed, peers) := merge_observed_peer (mdns_peers d1) peer in
    let d2 := set_mdns peers d1 in
    if changed then emit d2 else d2.

(** [DiscoveryService::remove] *)
Definition remove_service (fullname : string) (d : Discovery) : Discovery :=
  match service_ids d !! fullname with
  | None => d
  | Some id =>
      let d1 := set_service_ids (delete fullname (service_ids d)) d in
      match mdns_peers d1 !! id with
      | Some _ => emit (set_mdns (delete id (mdns_peers d1)) d1)
      | None => d1
      end
  end.
End advertisement.

(** ** Service records *)

Section service.
Context `{PeerApi} `{Crypto} `{WireApi} `{MdnsApi}.

(** The properties and names [service_info] gives to [ServiceInfo::new];
    [None] is the panic of a slice or an [expect]. *)
Definition service_properties (id : DeviceId) (key : DevicePublicKey) (certificate : list byte)
    (metadata : DeviceMetadata) (port : Z) : gmap string string :=
  <["certificate" := hex certificate]>
  (<["port" := dec port]>
  (<["public_key" := base64_encode (key_bytes key)]>
  (<["model" := model metadata]>
  (<["platform" := platform metadata]>
  (<["device_name" := name metadata]>
  (<["device_id" := as_str id]>
  (<["protocol_minor_max" := dec MAX_PROTOCOL_MINOR]>
  (<["protocol_minor_min" := dec MIN_PROTOCOL_MINOR]>
  (<["protocol" := DISCOVERY_PROTOCOL]> ∅)))))))))%string.

Definition service_info (identity : DeviceIdentity) (metadata : DeviceMetadata) (port : Z)
    : option (net_result ServiceInfo) :=
  if port =? 0 then Some (Err (Errors.Discovery "endpoint port cannot be zero"))
  else
    id ← identity_device_id identity;
    key ← public_key_value identity;
    let properties := service_properties id key (certificate_sha256 identity) metadata port in
    let suffix := trim_arc (as_str id) in
    head20 ← slice_to 20 suffix;
    head32 ← slice_to 32 suffix;
    Some (map_err Errors.Discovery
      (service_new DISCOVERY_SERVICE_TYPE ("arc-" +:+ head20)%string
         ("arcrelay-" +:+ head32 +:+ ".local.")%string port properties)).

(** The loop of [decode_service] over the addresses. *)
Definition usable (s : ScopedIp) : bool :=
  negb (is_loopback (to_ip_addr s) || is_unspecified (to_ip_addr s))
  && match s with
     | ScopedOther _ => false
     | _ => true
     end.

Definition endpoint_of (port : Z) (s : ScopedIp) : SocketAddr :=
  match s with
  | ScopedV6 a index => SockV6 (mkSockV6 a port 0 index)
  | _ => sock_new (to_ip_addr s) port
  end.

Definition decode_service (info : ResolvedService) (now : Z) : option PeerAdvertisement :=
  let property := rs_properties info in
  if negb (bool_decide (property "protocol" = Some DISCOVERY_PROTOCOL)) then None
  else
    remote_min ← parse_unsigned u32_max (default "0" (property "protocol_minor_min"));
    remote_max ← parse_unsigned u32_max (default "0" (property "protocol_minor_max"));
    if (remote_max <? remote_min) || (remote_max <? MIN_PROTOCOL_MINOR)
       || (MAX_PROTOCOL_MINOR <? remote_min) then None
    else
      text ← property "device_id";
      device_id ← to_option (parse_device_id text);
      key_text ← property "public_key";
      key_raw ← to_option (base64_decode key_text);
      public_key ← to_option (key_from_bytes key_raw);
      _ ← to_option (verify_key device_id public_key);
      port_text ← property "port";
      port ← parse_unsigned u16_max port_text;
      if port =? 0 then None
      else
        cert_text ← property "certificate";
        certificate ← unhex cert_text;
        if negb (blen certificate =? 32) then None
        else
          let values := List.filter usable (rs_addresses info) in
          let addresses := sort_dedup (map to_ip_addr values) in
          let connection_addresses := sort_dedup (map (endpoint_of port) values) in
          if is_empty addresses then None
          else Some (mkAdvertisement device_id public_key
            (mkMetadata (default "ArcRelay Device" (property "device_name"))
                        (default "unknown" (property "platform"))
                        (default "unknown" (property "model")))
            addresses connection_addresses port certificate now).

(** [DiscoveryService::resolve] *)
Definition resolve (info : ResolvedService) (now : Z) (d : Discovery) : Discovery :=
  match decode_service info now with
  | None => d
  | Some peer => resolve_peer (rs_fullname info) peer d
  end.

(** ** Published services *)

(** The daemon with the services this process has published. *)
Record Publisher := mkPublisher {
  daemon : Daemon;
  pub_fullname : string;
  pub_hostname : string;
  pub_local_id : DeviceId;
  web_fullname : option string;
  local_published : bool
}.

Definition with_daemon {A} (m : action Daemon string A) : action Publisher NetworkError A := fun p =>
  let (r, d) := m (daemon p) in
  (map_err Errors.Discovery r,
   mkPublisher d (pub_fullname p) (pub_hostname p) (pub_local_id p) (web_fullname p)
               (local_published p)).

Definition set_web (w : option string) : action Publisher NetworkError unit := fun p =>
  (Ok tt, mkPublisher (daemon p) (pub_fullname p) (pub_hostname p) (pub_local_id p) w
                      (local_published p)).

Definition set_published (b : bool) : action Publisher NetworkError unit := fun p =>
  (Ok tt, mkPublisher (daemon p) (pub_fullname p) (pub_hostname p) (pub_local_id p)
                      (web_fullname p) b).

(** [let _ = op;] *)
Definition ignore {S E A} (m : action S E A) : action S E unit := fun s => (Ok tt, (m s).2).

Definition unpublish_web_gateway : action Publisher NetworkError unit := fun p =>
  match web_fullname p with
  | Some fullname => (set_web None ;; ignore (with_daemon (mdns_unregister fullname))) p
  | None => (Ok tt, p)
  end.

Definition WEB_DISCOVERY_SERVICE_TYPE : string := "_arcrelay-web._tcp.local.".

(** [None] is the panic of the slice of the device id. *)
Definition publish_web_gateway (site_name : string) (port : Z)
    : Publisher -> option (net_result unit * Publisher) := fun p =>
  if port =? 0 then Some (Err (Errors.Discovery "web gateway port cannot be zero"), p)
  else
    let p := (unpublish_web_gateway p).2 in
    let suffix := trim_arc (as_str (pub_local_id p)) in
    let properties : gmap string string :=
      (<["version" := "1"]> (<["site_name" := site_name]> (<["feature" := "files"]> ∅)))%string in
    head ← slice_to (Nat.min (String.length suffix) 20) suffix;
    Some (match service_new WEB_DISCOVERY_SERVICE_TYPE ("arc-web-" +:+ head)%string
                  (pub_hostname p +:+ ".")%string port properties with
          | Err e => (Err (Errors.Discovery e), p)
          | Ok info => (with_daemon (mdns_register info) ;; set_web (Some (get_fullname info))) p
          end).

(** [info] is what [service_info] gives. *)
Definition update_local_metadata (info : net_result ServiceInfo) : action Publisher NetworkError unit :=
  fun p =>
  if local_published p then (i ← lift info; with_daemon (mdns_register i)) p else (Ok tt, p).

Definition set_local_published (info : net_result ServiceInfo) (published : bool)
    : action Publisher NetworkError unit := fun p =>
  if Bool.eqb (local_published p) published then (Ok tt, p)
  else
    ((if published then i ← lift info; with_daemon (mdns_register i)
      else with_daemon (mdns_unregister (pub_fullname p))) ;;
     set_published published) p.
End service.

(** ** Runs of the registry *)

Section runs.
Context `{PeerApi}.

(** One event: what the runtime or the browser task does. *)
Inductive DiscoveryEvent :=
| Observed (peer : PeerAdvertisement)
| Forgotten (id : DeviceId)
| Refreshed
| Resolved (fullname : string) (peer : PeerAdvertisement)
| Removed (fullname : string).

Definition on_event (d : Discovery) (e : DiscoveryEvent) : Discovery :=
  match e with
  | Observed peer => observe_authenticated peer d
  | Forgotten id => forget_authenticated id d
  | Refreshed => refresh d
  | Resolved fullname peer => resolve_peer fullname peer d
  | Removed fullname => remove_service fullname d
  end.

Definition started (id : DeviceId) : Discovery := mkDiscovery id ∅ ∅ ∅ [] 0.

Definition run_events (id : DeviceId) (events : list DiscoveryEvent) : Discovery :=
  fold_left on_event events (started id).

Definition observed_ids (d : Discovery) : gset DeviceId :=
  dom (authenticated_peers d) ∪ dom (mdns_peers d).

(** Entries are filed under their own id, which is not the local one. *)
Definition keyed (local : DeviceId) (m : gmap DeviceId PeerAdvertisement) : Prop :=
  forall id p, m !! id = Some p -> adv_device_id p = id /\ id <> local.

Record snapshot_ok (d : Discovery) : Prop := {
  so_sorted : StronglySorted (fun a b => by_metadata_name a b = true) (snapshot d);
  so_ids : map adv_device_id (snapshot d) ≡ₚ elements (observed_ids d)
}.

Record discovery_ok (d : Discovery) : Prop := {
  do_authenticated : keyed (local_id d) (authenticated_peers d);
  do_mdns : keyed (local_id d) (mdns_peers d);
  do_snapshot : snapshot_ok d
}.

(** *** Merging *)

Lemma merge_advertisement_id (a b : PeerAdvertisement) :
  adv_device_id (merge_advertisement a b) = adv_device_id a.
Proof. done. Qed.

Lemma merged_lookup (d : Discovery) id :
  merged_peers d !! id =
  match authenticated_peers d !! id, mdns_peers d !! id with
  | Some a, Some m => Some (merge_advertisement a m)
  | Some a, None => Some a
  | None, m => m
  end.
Proof.
  unfold merged_peers. rewrite lookup_union_with.
  by destruct (authenticated_peers d !! id), (mdns_peers d !! id).
Qed.

Lemma merged_keyed d id p :
  keyed (local_id d) (authenticated_peers d) -> keyed (local_id d) (mdns_peers d) ->
  merged_peers d !! id = Some p -> adv_device_id p = id.
Proof.
  intros Ha Hm. rewrite merged_lookup.
  destruct (authenticated_peers d !! id) as [a|] eqn:E1, (mdns_peers d !! id) as [m|] eqn:E2;
    intros [= <-]; rewrite ?merge_advertisement_id;
    first [by destruct (Ha _ _ E1) | by destruct (Hm _ _ E2)].
Qed.

Lemma dom_merged d : dom (merged_peers d) = observed_ids d.
Proof.
  apply set_eq. intros id. unfold observed_ids. rewrite elem_of_union, !elem_of_dom, merged_lookup.
  unfold is_Some. destruct (authenticated_peers d !! id), (mdns_peers d !! id); naive_solver.
Qed.

Lemma by_metadata_name_key (a b : PeerAdvertisement) :
  by_metadata_name a b =
  cmp_le (name (adv_metadata a), adv_device_id a) (name (adv_metadata b), adv_device_id b).
Proof. done. Qed.

Lemma elem_of_snapshot_of d p :
  p ∈ snapshot_of d <-> exists id, merged_peers d !! id = Some p.
Proof.
  unfold snapshot_of. rewrite elem_of_sort_by, list_elem_of_fmap. split.
  - intros ([id q] & -> & Hin). apply elem_of_map_to_list in Hin. eauto.
  - intros [id Hid]. exists (id, p). by rewrite elem_of_map_to_list.
Qed.

Context `{!PeerLaws}.

Lemma snapshot_of_sorted d :
  StronglySorted (fun a b => by_metadata_name a b = true) (snapshot_of d).
Proof.
  apply sort_by_sorted.
  - intros a b. rewrite !by_metadata_name_key. apply cmp_le_total.
  - intros a b c. rewrite !by_metadata_name_key. apply cmp_le_trans.
Qed.

Lemma snapshot_of_ids d :
  keyed (local_id d) (authenticated_peers d) -> keyed (local_id d) (mdns_peers d) ->
  map adv_device_id (snapshot_of d) ≡ₚ elements (observed_ids d).
Proof.
  intros Ha Hm. unfold snapshot_of. rewrite sort_by_Permutation.
  assert (E : map adv_device_id (map_to_list (merged_peers d)).*2 =
    (map_to_list (merged_peers d)).*1).
  { pose proof (fun id p => merged_keyed d id p Ha Hm) as Hk.
    assert (Hk' : forall kv, kv ∈ map_to_list (merged_peers d) -> adv_device_id kv.2 = kv.1)
      by (intros [id p] Hin; apply Hk; by apply elem_of_map_to_list).
    revert Hk'. generalize (map_to_list (merged_peers d)). intros l.
    induction l as [|kv l IH]; cbn; [done|]. intros Hl.
    rewrite IH by set_solver. by rewrite Hl by set_solver. }
  rewrite E, <- dom_merged. symmetry. apply NoDup_Permutation.
  - apply NoDup_elements.
  - apply NoDup_fst_map_to_list.
  - intros id. rewrite elem_of_elements, elem_of_dom, list_elem_of_fmap. split.
    + intros [p Hp]. exists (id, p). by rewrite elem_of_map_to_list.
    + intros ([? p] & -> & Hin). apply elem_of_map_to_list in Hin. eauto.
Qed.

Lemma emit_ok d :
  keyed (local_id d) (authenticated_peers d) -> keyed (local_id d) (mdns_peers d) ->
  discovery_ok (emit d).
Proof.
  intros Ha Hm. split; [done|done|]. split; cbn [snapshot emit].
  - apply snapshot_of_sorted.
  - change (observed_ids (emit d)) with (observed_ids d). by apply snapshot_of_ids.
Qed.

(** What an observation does to the map it concerns. *)
Lemma merge_observed_peer_spec local m peer changed m' :
  keyed local m -> adv_device_id peer <> local ->
  merge_observed_peer m peer = (changed, m') ->
  keyed local m' /\ (changed = false -> dom m' = dom m).
Proof.
  intros Hk Hne. unfold merge_observed_peer.
  destruct (m !! adv_device_id peer) as [prev|] eqn:E; intros [= <- <-].
  - split.
    + intros id p. rewrite lookup_insert. case_decide as Ei; [|apply Hk].
      intros [= <-]. subst id. split; [by destruct (Hk _ _ E) | done].
    + intros _. rewrite dom_insert_L. apply elem_of_dom_2 in E. set_solver.
  - split; [|done]. intros id p. rewrite lookup_insert. case_decide as Ei; [|apply Hk].
    intros [= <-]. subst id. done.
Qed.

Lemma snapshot_ok_dom d d' :
  snapshot d' = snapshot d -> observed_ids d' = observed_ids d -> snapshot_ok d -> snapshot_ok d'.
Proof. intros E1 E2 [? ?]. split; [by rewrite E1 | by rewrite E1, E2]. Qed.

Lemma keyed_delete local m id : keyed local m -> keyed local (delete id m).
Proof. intros Hk i p [_ Hi]%lookup_delete_Some. by apply Hk. Qed.

Lemma on_event_ok d e : discovery_ok d -> discovery_ok (on_event d e).
Proof.
  intros [Ha Hm Hs]. destruct e as [peer|id| |fullname peer|fullname]; cbn.
  - unfold observe_authenticated. case_decide as Hl; [done|].
    destruct (merge_observed_peer (authenticated_peers d) peer) as [changed m] eqn:E.
    destruct (merge_observed_peer_spec _ _ _ _ _ Ha Hl E) as [Hk Hd].
    destruct changed; [by apply emit_ok|]. split; [done|done|].
    apply (snapshot_ok_dom d); [done| |done]. unfold observed_ids; cbn. by rewrite Hd.
  - unfold forget_authenticated. case_match; [|done]. apply emit_ok; [by apply keyed_delete|done].
  - by apply emit_ok.
  - unfold resolve_peer. case_decide as Hl; [done|].
    destruct (merge_observed_peer (mdns_peers (set_service_ids _ d)) peer) as [changed m] eqn:E.
    destruct (merge_observed_peer_spec _ _ _ _ _ Hm Hl E) as [Hk Hd].
    destruct changed; [by apply emit_ok|]. split; [done|done|].
    apply (snapshot_ok_dom d); [done| |done]. unfold observed_ids; cbn. by rewrite Hd.
  - unfold remove_service. case_match; [|done]. cbn. case_match.
    + apply emit_ok; [done | by apply keyed_delete].
    + split; [done|done|]. by apply (snapshot_ok_dom d).
Qed.

Lemma run_events_ok id events : discovery_ok (run_events id events).
Proof.
  unfold run_events. assert (Hinit : discovery_ok (started id)).
  { split; cbn; [intros i p; by rewrite lookup_empty..|]. split; cbn; [constructor|].
    unfold observed_ids; cbn. by rewrite !dom_empty_L, union_empty_l_L, elements_empty. }
  revert Hinit. generalize (started id). induction events as [|e events IH]; cbn; auto using on_event_ok.
Qed.
End runs.

(** ** Facts about routes *)

Section routes.
Context `{PeerApi} `{!PeerLaws}.

(** A later sighting of the same route. *)
Definition refreshed (t : Z) (p : PeerAdvertisement) : PeerAdvertisement :=
  mkAdvertisement (adv_device_id p) (adv_public_key p) (adv_metadata p) (addresses p)
    (connection_addresses p) (port p) (adv_certificate_sha256 p) t.

(** The address lists of [p] are as [decode_service] and [merge_advertisement]
    leave them. *)
Definition canonical (p : PeerAdvertisement) : Prop :=
  StronglySorted (fun a b => cmp a b = Lt) (addresses p) /\
  StronglySorted (fun a b => cmp a b = Lt) (connection_addresses p).

Lemma sort_dedup_app_absorb {A} `{CmpLaws A} `{EqDecision A} (l k : list A) :
  (forall x, x ∈ k -> x ∈ l) -> StronglySorted (fun a b => cmp a b = Lt) l ->
  sort_dedup (l ++ k) = l.
Proof.
  intros Hk Hl. rewrite <- (sort_dedup_id l Hl) at 2. apply sort_dedup_canonical.
  intros x. rewrite elem_of_app. naive_solver.
Qed.

Lemma merge_canonical a b : canonical (merge_advertisement a b).
Proof. split; apply sort_dedup_sorted. Qed.

Lemma same_discovery_route_true a b :
  adv_device_id a = adv_device_id b -> adv_public_key a = adv_public_key b ->
  adv_metadata a = adv_metadata b -> addresses a = addresses b ->
  connection_addresses a = connection_addresses b -> port a = port b ->
  adv_certificate_sha256 a = adv_certificate_sha256 b -> same_discovery_route a b = true.
Proof. intros. unfold same_discovery_route. rewrite !bool_decide_true; done. Qed.

(** Merging a route into an entry that has it already, and is not newer,
    changes the time only. *)
Lemma merge_known_route a p t :
  canonical a -> adv_last_seen_at_ms a <= t ->
  adv_public_key a = adv_public_key p -> adv_metadata a = adv_metadata p -> port a = port p ->
  adv_certificate_sha256 a = adv_certificate_sha256 p ->
  (forall x, x ∈ addresses p -> x ∈ addresses a) ->
  (forall x, x ∈ connection_addresses p -> x ∈ connection_addresses a) ->
  merge_advertisement a (refreshed t p) = refreshed t a.
Proof.
  intros [Ha Hc] Ht Ek Em Ep Ec Hin Hcin. unfold merge_advertisement, refreshed.
  cbn [adv_last_seen_at_ms adv_public_key adv_metadata addresses connection_addresses port
    adv_certificate_sha256 adv_device_id].
  rewrite (proj2 (Z.leb_le _ _)), !sort_dedup_app_absorb by done. by rewrite Ek, Em, Ep, Ec.
Qed.

Lemma same_route_refreshed a t : same_discovery_route a (refreshed t a) = true.
Proof. by apply same_discovery_route_true. Qed.

(** An emission shows each entry of the merged map under its id. *)
Lemma emitted_peer d id :
  discovery_ok d -> snapshot d = snapshot_of d -> discovery_peer d id = merged_peers d !! id.
Proof.
  intros [Ha Hm _] E. unfold discovery_peer. rewrite E.
  assert (Hk : forall q, q ∈ snapshot_of d -> merged_peers d !! adv_device_id q = Some q).
  { intros q (i & Hi)%elem_of_snapshot_of. by rewrite (merged_keyed d i q Ha Hm Hi). }
  destruct (find_first _ (snapshot_of d)) as [p|] eqn:Ef.
  - apply find_first_Some in Ef as [Hp Hi]. apply bool_decide_eq_true in Hi. subst id.
    symmetry. by apply Hk.
  - destruct (merged_peers d !! id) as [p|] eqn:El; [|done]. exfalso.
    rewrite find_first_None, Forall_forall in Ef.
    assert (Hin : p ∈ snapshot_of d) by (apply elem_of_snapshot_of; eauto).
    apply Ef in Hin. rewrite (merged_keyed d id p Ha Hm El), bool_decide_true in Hin by done. done.
Qed.

Lemma observe_spec d p :
  adv_device_id p <> local_id d ->
  observe_authenticated p d =
  let (changed, m) := merge_observed_peer (authenticated_peers d) p in
  if changed then emit (set_authenticated m d) else set_authenticated m d.
Proof. intros Hl. unfold observe_authenticated. by rewrite decide_False. Qed.

(** Observing a known route again only moves its time. *)
Lemma observe_known_route d a p t :
  adv_device_id p <> local_id d -> authenticated_peers d !! adv_device_id p = Some a ->
  merge_advertisement a (refreshed t p) = refreshed t a ->
  observe_authenticated (refreshed t p) d =
  set_authenticated (<[adv_device_id p := refreshed t a]> (authenticated_peers d)) d.
Proof.
  intros Hl El Em. rewrite observe_spec by done. unfold merge_observed_peer.
  cbn [adv_device_id refreshed]. rewrite El. fold (refreshed t p). rewrite Em.
  by rewrite same_route_refreshed.
Qed.
End routes.

(** ** Properties *)

Section properties.
Context `{PeerApi} `{!PeerLaws}.

(** At any time the snapshot lists each device that is observed over mDNS
    or by authentication exactly once, in the order of their names, never the
    local device, and no other device. *)
Theorem snapshot_invariant id events :
  let d := run_events id events in
  StronglySorted (fun a b => by_metadata_name a b = true) (snapshot d) /\
  NoDup (map adv_device_id (snapshot d)) /\
  (forall i, (exists p, p ∈ snapshot d /\ adv_device_id p = i) <->
     is_Some (authenticated_peers d !! i) \/ is_Some (mdns_peers d !! i)) /\
  (forall p, p ∈ snapshot d -> adv_device_id p <> local_id d).
Proof.
  intros d. destruct (run_events_ok id events) as [Ha Hm [Hs Hi]].
  fold d in Ha, Hm, Hs, Hi.
  assert (Hids : forall i, (exists p, p ∈ snapshot d /\ adv_device_id p = i) <->
    is_Some (authenticated_peers d !! i) \/ is_Some (mdns_peers d !! i)).
  { intros i. rewrite <- !elem_of_dom, <- elem_of_union. fold (observed_ids d).
    rewrite <- elem_of_elements, <- Hi, list_elem_of_In, in_map_iff.
    setoid_rewrite list_elem_of_In. naive_solver. }
  split_and!; [done| |done|].
  - rewrite Hi. apply NoDup_elements.
  - intros p Hp. assert (Hq : exists q, q ∈ snapshot d /\ adv_device_id q = adv_device_id p)
      by eauto.
    apply Hids in Hq as [[q Hq]|[q Hq]]; [by destruct (Ha _ _ Hq) | by destruct (Hm _ _ Hq)].
Qed.

(** Authenticating a device again over a route that was observed already
    updates the time it was seen and tells no consumer: a consumer that reacts
    to discovery by opening a session does not feed itself. *)
Theorem reauthentication_is_silent d p t :
  canonical p -> adv_last_seen_at_ms p <= t ->
  (forall a, authenticated_peers d !! adv_device_id p = Some a ->
     adv_last_seen_at_ms a <= adv_last_seen_at_ms p) ->
  adv_device_id p <> local_id d ->
  let d1 := observe_authenticated p d in
  let d2 := observe_authenticated (refreshed t p) d1 in
  snapshot d2 = snapshot d1 /\ emitted d2 = emitted d1 /\
  adv_last_seen_at_ms <$> authenticated_peers d2 !! adv_device_id p = Some t.
Proof.
  intros Hc Ht Hold Hl d1 d2.
  assert (Hd1 : exists a, authenticated_peers d1 !! adv_device_id p = Some a /\
    local_id d1 = local_id d /\ merge_advertisement a (refreshed t p) = refreshed t a).
  { unfold d1. rewrite observe_spec by done. unfold merge_observed_peer.
    destruct (authenticated_peers d !! adv_device_id p) as [prev|] eqn:E.
    - exists (merge_advertisement prev p).
      assert (Hlt : (adv_last_seen_at_ms prev <=? adv_last_seen_at_ms p) = true)
        by (apply Z.leb_le; by apply Hold).
      assert (Hm : merge_advertisement (merge_advertisement prev p) (refreshed t p)
        = refreshed t (merge_advertisement prev p)).
      { apply merge_known_route; [apply merge_canonical|..]; unfold merge_advertisement; cbn;
          rewrite ?Hlt; try done; intros x Hx; rewrite elem_of_sort_dedup, elem_of_app; auto. }
      destruct (negb _); cbn; rewrite lookup_insert_eq; auto.
    - exists p. cbn. rewrite lookup_insert_eq. split_and!; [done..|].
      by apply merge_known_route. }
  destruct Hd1 as (a & Ha & Hl1 & Hm).
  assert (E : d2 = set_authenticated
    (<[adv_device_id p := refreshed t a]> (authenticated_peers d1)) d1)
    by (apply observe_known_route; [by rewrite Hl1|done|done]).
  rewrite E; cbn. by rewrite lookup_insert_eq.
Qed.

(** The silence goes too far when both sources know a device: after a
    silent refresh that makes the authenticated route the newer one, consumers
    keep seeing the port of the mDNS record until an unrelated event emits,
    although the registry would already answer the authenticated port. *)
Theorem silent_refresh_hides_newer_route d a m t :
  discovery_ok d -> snapshot d = snapshot_of d ->
  authenticated_peers d !! adv_device_id a = Some a ->
  mdns_peers d !! adv_device_id a = Some m ->
  canonical a -> adv_last_seen_at_ms a <= adv_last_seen_at_ms m < t -> port a <> port m ->
  let d' := observe_authenticated (refreshed t a) d in
  port <$> discovery_peer d' (adv_device_id a) = Some (port m) /\
  port <$> discovery_peer (refresh d') (adv_device_id a) = Some (port a).
Proof.
  intros Hok Hs Ha Hm Hc Ht Hp d'.
  assert (Hl : adv_device_id a <> local_id d) by (by destruct (do_authenticated _ Hok _ _ Ha)).
  assert (E : d' = set_authenticated
    (<[adv_device_id a := refreshed t a]> (authenticated_peers d)) d).
  { apply observe_known_route; [done..|]. apply merge_known_route; try done. lia. }
  assert (Hok' : discovery_ok (refresh d')).
  { unfold d'. apply (on_event_ok _ Refreshed), (on_event_ok _ (Observed _)). done. }
  split.
  - assert (Esnap : discovery_peer d' (adv_device_id a) = discovery_peer d (adv_device_id a))
      by (by rewrite E).
    rewrite Esnap, emitted_peer, merged_lookup, Ha, Hm by done. cbn.
    by rewrite (proj2 (Z.leb_le _ _)) by lia.
  - rewrite emitted_peer by done. rewrite merged_lookup, E. cbn. rewrite lookup_insert_eq, Hm.
    cbn. by rewrite (proj2 (Z.leb_gt _ _)) by lia.
Qed.

(** Removing a multicast service record does not erase a route that was
    learned by authentication: the device stays listed, with exactly the
    authenticated entry. *)
Theorem removal_keeps_authenticated d fullname id a :
  discovery_ok d -> service_ids d !! fullname = Some id -> is_Some (mdns_peers d !! id) ->
  authenticated_peers d !! id = Some a ->
  let d' := remove_service fullname d in
  discovery_peer d' id = Some a /\ mdns_peers d' !! id = None.
Proof.
  intros Hok Hf [m Hm] Ha d'.
  assert (Hok' : discovery_ok d') by (apply (on_event_ok _ (Removed _)); done).
  assert (E : d' = emit (set_mdns (delete id (mdns_peers d))
    (set_service_ids (delete fullname (service_ids d)) d)))
    by (unfold d', remove_service; rewrite Hf; cbn; by rewrite Hm).
  split; [|rewrite E; cbn; apply lookup_delete_eq].
  rewrite emitted_peer; [|done|by rewrite E]. rewrite merged_lookup, E. cbn.
  by rewrite Ha, lookup_delete_eq.
Qed.

(** The entry of a device gathers all observations of it: its addresses are
    those of any observation, and its key, metadata, port and certificate are
    those of one of the latest. *)
Theorem observations_accumulate local id (p : PeerAdvertisement) ps :
  id <> local -> Forall (fun q => adv_device_id q = id) (p :: ps) ->
  exists e latest,
    authenticated_peers (run_events local (map Observed (p :: ps))) !! id = Some e /\
    latest ∈ p :: ps /\
    (forall q, q ∈ p :: ps -> adv_last_seen_at_ms q <= adv_last_seen_at_ms latest) /\
    adv_public_key e = adv_public_key latest /\ adv_metadata e = adv_metadata latest /\
    port e = port latest /\ adv_certificate_sha256 e = adv_certificate_sha256 latest /\
    adv_last_seen_at_ms e = adv_last_seen_at_ms latest /\
    (forall x, x ∈ addresses e <-> exists q, q ∈ p :: ps /\ x ∈ addresses q) /\
    (forall x, x ∈ connection_addresses e <->
       exists q, q ∈ p :: ps /\ x ∈ connection_addresses q).
Proof.
  intros Hl Hids.
  assert (Hrun : forall qs, local_id (run_events local (map Observed qs)) = local).
  { intros qs. unfold run_events. assert (Hi : local_id (started local) = local) by done.
    revert Hi. generalize (started local). induction qs as [|q qs IH]; cbn; [done|].
    intros s Hs. apply IH. unfold observe_authenticated. case_decide; [done|].
    destruct (merge_observed_peer _ _) as [[] ?]; done. }
  assert (Hobs : forall d q e, local_id d = local -> adv_device_id q = id ->
    authenticated_peers d !! id = Some e ->
    authenticated_peers (observe_authenticated q d) !! id = Some (merge_advertisement e q)).
  { intros d q e Hd <- He. rewrite observe_spec by congruence. unfold merge_observed_peer.
    rewrite He. destruct (negb _); cbn; by rewrite lookup_insert_eq. }
  induction ps as [|q ps IH] using rev_ind.
  - apply Forall_cons in Hids as [Hid _]. exists p, p. cbn. unfold run_events. cbn.
    rewrite observe_spec by (cbn; congruence). unfold merge_observed_peer. cbn.
    rewrite lookup_empty. cbn. rewrite <- Hid, lookup_insert_eq. set_solver by lia.
  - rewrite app_comm_cons, Forall_app, Forall_singleton in Hids. destruct Hids as [Hids Hq].
    destruct (IH Hids) as (e & l & He & Hl' & Hmax & Ek & Em & Ep & Ec & Et & Haddr & Hconn).
    exists (merge_advertisement e q),
      (if adv_last_seen_at_ms e <=? adv_last_seen_at_ms q then q else l).
    rewrite app_comm_cons. split_and!.
    + unfold run_events. rewrite map_app, fold_left_app.
      exact (Hobs _ q e (Hrun (p :: ps)) Hq He).
    + case_match; set_solver.
    + intros r. rewrite elem_of_app, list_elem_of_singleton. rewrite Et.
      destruct (Z.leb_spec (adv_last_seen_at_ms l) (adv_last_seen_at_ms q));
        intros [Hr| ->]; try lia; specialize (Hmax r Hr); lia.
    + cbn. by case_match.
    + cbn. by case_match.
    + cbn. by case_match.
    + cbn. by case_match.
    + cbn. by case_match.
    + intros x. unfold merge_advertisement; cbn [addresses].
      rewrite elem_of_sort_dedup, elem_of_app, Haddr.
      setoid_rewrite elem_of_app. setoid_rewrite list_elem_of_singleton. naive_solver.
    + intros x. unfold merge_advertisement; cbn [connection_addresses].
      rewrite elem_of_sort_dedup, elem_of_app, Hconn.
      setoid_rewrite elem_of_app. setoid_rewrite list_elem_of_singleton. naive_solver.
Qed.
End properties.

Section service_properties.
Context `{PeerApi} `{Crypto} `{WireApi} `{MdnsApi} `{!PeerLaws} `{!WireLaws} `{!MdnsLaws}.

(** A service record is taken only when the device id is the one of the
    public key it carries, a common protocol minor exists, the port and the
    certificate digest are well formed, and at least one usable address is
    announced; the addresses listed are usable ones, in order, without
    repetition, and every dialable address is one of them at that port. *)
Theorem decode_service_sound info now p :
  decode_service info now = Some p ->
  adv_device_id p = from_public_key (adv_public_key p) /\
  (exists lo hi m, 0 <= lo <= m /\ m <= hi /\ MIN_PROTOCOL_MINOR <= m <= MAX_PROTOCOL_MINOR /\
     parse_unsigned u32_max (default "0" (rs_properties info "protocol_minor_min")) = Some lo /\
     parse_unsigned u32_max (default "0" (rs_properties info "protocol_minor_max")) = Some hi) /\
  0 < port p <= u16_max /\ blen (adv_certificate_sha256 p) = 32 /\
  addresses p <> [] /\ canonical p /\
  (forall ip, ip ∈ addresses p -> is_loopback ip = false /\ is_unspecified ip = false) /\
  (forall a, a ∈ connection_addresses p -> sock_ip a ∈ addresses p /\ sock_port a = port p).
Proof.
  unfold decode_service. destruct (negb _) eqn:Eproto; [done|].
  destruct (parse_unsigned u32_max (default "0" (rs_properties info "protocol_minor_min")))
    as [lo|] eqn:Elo; [|done]. cbn [mbind option_bind].
  destruct (parse_unsigned u32_max (default "0" (rs_properties info "protocol_minor_max")))
    as [hi|] eqn:Ehi; [|done]. cbn [mbind option_bind].
  destruct ((hi <? lo) || (hi <? MIN_PROTOCOL_MINOR) || (MAX_PROTOCOL_MINOR <? lo)) eqn:Eov; [done|].
  destruct_bools. repeat match goal with Hb : (_ <? _) = false |- _ => apply Z.ltb_ge in Hb end.
  destruct (rs_properties info "device_id") as [text|]; [|done]. cbn [mbind option_bind].
  destruct (parse_device_id text) as [id|]; [|done]. cbn [mbind option_bind to_option].
  destruct (rs_properties info "public_key") as [ktext|]; [|done]. cbn [mbind option_bind].
  destruct (base64_decode ktext) as [raw|]; [|done]. cbn [mbind option_bind to_option].
  destruct (key_from_bytes raw) as [key|]; [|done]. cbn [mbind option_bind to_option].
  destruct (verify_key id key) as [[]|] eqn:Ev; [|done]. cbn [mbind option_bind to_option].
  destruct (rs_properties info "port") as [ptext|]; [|done]. cbn [mbind option_bind].
  destruct (parse_unsigned u16_max ptext) as [prt|] eqn:Eport; [|done]. cbn [mbind option_bind].
  destruct (prt =? 0) eqn:Ep0; [done|].
  destruct (rs_properties info "certificate") as [ctext|]; [|done]. cbn [mbind option_bind].
  destruct (unhex ctext) as [cert|]; [|done]. cbn [mbind option_bind].
  destruct (negb (blen cert =? 32)) eqn:Ecert; [done|]. cbv zeta.
  set (values := List.filter usable (rs_addresses info)).
  destruct (is_empty (sort_dedup (map to_ip_addr values))) eqn:Eempty; [done|].
  intros [= <-]. cbn [adv_device_id adv_public_key port adv_certificate_sha256 addresses
    connection_addresses].
  assert (Hrange : forall mx s v, parse_unsigned mx s = Some v -> 0 <= v <= mx).
  { intros mx s v Hp. by apply parse_unsigned_range in Hp. }
  pose proof (Hrange _ _ _ Elo) as Hlo. pose proof (Hrange _ _ _ Eport) as Hport.
  apply Z.eqb_neq in Ep0. apply negb_false_iff, Z.eqb_eq in Ecert. split_and!.
  - by apply verify_key_iff.
  - destruct minor_range as [[? ?] ?]. exists lo, hi, (Z.max lo MIN_PROTOCOL_MINOR). split_and!; try done; lia.
  - lia.
  - lia.
  - done.
  - intros E. by rewrite E in Eempty.
  - split; apply sort_dedup_sorted.
  - intros ip Hip. apply elem_of_sort_dedup, list_elem_of_In, in_map_iff in Hip
      as (s & <- & [_ Hs]%filter_In).
    unfold usable in Hs. apply andb_prop in Hs as [Hs _]. apply negb_true_iff in Hs.
    by apply orb_false_elim in Hs.
  - intros a Ha. apply elem_of_sort_dedup, list_elem_of_In, in_map_iff in Ha as (s & <- & Hs).
    assert (Hip : sock_ip (endpoint_of prt s) = to_ip_addr s /\ sock_port (endpoint_of prt s) = prt)
      by (destruct s as [?|? ?|[?|?]]; done).
    destruct Hip as [-> ->]. split; [|done].
    apply elem_of_sort_dedup, list_elem_of_In, in_map_iff. eauto.
Qed.

(** C38. A peer that resolves the service this device publishes decodes exactly
    the identity, the metadata, the port and the certificate digest that were
    announced. *)
Theorem service_record_roundtrip id key cert metadata listen fullname addrs now :
  id = from_public_key key -> blen cert = 32 -> 0 < listen <= u16_max ->
  (exists s, s ∈ addrs /\ usable s = true) ->
  exists p, decode_service (mkResolved fullname
      (fun k => service_properties id key cert metadata listen !! k) addrs) now = Some p /\
    adv_device_id p = id /\ adv_public_key p = key /\ adv_metadata p = metadata /\
    port p = listen /\ adv_certificate_sha256 p = cert /\ adv_last_seen_at_ms p = now.
Proof.
  intros Hid Hcert Hport (s & Hs & Hu). destruct minor_range as [[? ?] ?].
  eexists. split.
  - unfold decode_service. cbn [rs_properties rs_addresses].
    unfold service_properties. simpl_map. rewrite bool_decide_true by done. cbn [negb default].
    unfold Datatypes.id.
    rewrite (parse_unsigned_dec u32_max MIN_PROTOCOL_MINOR) by lia. cbn [mbind option_bind].
    rewrite (parse_unsigned_dec u32_max MAX_PROTOCOL_MINOR) by lia. cbn [mbind option_bind].
    rewrite !(proj2 (Z.ltb_ge _ _)) by lia. cbn [orb].
    rewrite parse_as_str. cbn [to_option mbind option_bind].
    rewrite base64_roundtrip. cbn [to_option mbind option_bind].
    rewrite key_from_bytes_bytes. cbn [to_option mbind option_bind].
    rewrite (proj2 (verify_key_iff _ _) Hid). cbn [to_option mbind option_bind].
    rewrite parse_unsigned_dec by lia. cbn [mbind option_bind].
    rewrite (proj2 (Z.eqb_neq _ _)) by lia. rewrite unhex_hex. cbn [mbind option_bind].
    rewrite Hcert. cbn [Z.eqb negb]. cbv zeta.
    destruct (is_empty (sort_dedup (map to_ip_addr (List.filter usable addrs)))) eqn:Ee.
    + exfalso. assert (Hin : to_ip_addr s ∈ sort_dedup (map to_ip_addr (List.filter usable addrs))).
      { apply elem_of_sort_dedup, list_elem_of_In, in_map_iff. exists s. split; [done|].
        apply filter_In. split; [by apply list_elem_of_In | done]. }
      by destruct (sort_dedup _); [apply elem_of_nil in Hin|].
    + reflexivity.
  - split_and!; try done. by destruct metadata.
Qed.
End service_properties.

(** ** Witnesses *)

Module SampleDiscovery.
Import SamplePeer SampleWire SampleCrypto.

(** A daemon: what it announces, and whether the calls to come are refused. *)
Definition refusing {A} (f : gmap string (string * gmap string string) -> A * gmap string (string * gmap string string))
    : action (gmap string (string * gmap string string) * list bool) string A := fun '(m, refused) =>
  match refused with
  | true :: rest => (Err "refused"%string, (m, rest))
  | false :: rest => let (x, m') := f m in (Ok x, (m', rest))
  | [] => let (x, m') := f m in (Ok x, (m', []))
  end.

#[export] Instance mdns : MdnsApi := {|
  ServiceInfo := string * gmap string string;
  Daemon := gmap string (string * gmap string string) * list bool;
  DISCOVERY_SERVICE_TYPE := "_arcrelay._udp.local.";
  DISCOVERY_PROTOCOL := "1";
  service_new := fun type name _ _ properties => Ok (name +:+ "." +:+ type, properties)%string;
  get_fullname := fun info => info.1;
  mdns_register := fun info => refusing (fun d => (tt, <[info.1 := info]> d));
  mdns_unregister := fun name => refusing (fun d => (tt, delete name d));
  base64_encode := hex;
  base64_decode := fun s => ok_or (unhex s) "invalid base64"%string
|}.

#[export] Instance mdns_laws : MdnsLaws.
Proof. intros b. cbn. by rewrite unhex_hex. Qed.

Definition local : DeviceId := dev "L".
Definition lan : IpAddr := IpV4 (mkIpv4 10 1 1 54).
Definition advert (listen seen : Z) : PeerAdvertisement :=
  mkAdvertisement (dev "B") (as_bytes "B") (mkMetadata "Bea" "linux" "pc") [lan]
    [sock_new lan listen] listen (repeat x01 32) seen.

(** "B" known over mDNS, then by authentication at an older time. *)
Definition both_sources : Discovery :=
  run_events local [Resolved "arc-b" (advert 8765 5); Observed (advert 9000 3)].
End SampleDiscovery.

Section witnesses.
Import SamplePeer SampleWire SampleCrypto SampleDiscovery.

Lemma sample_canonical listen seen : canonical (advert listen seen).
Proof. split; repeat constructor. Qed.

Lemma snapshot_invariant_witness :
  map adv_device_id (snapshot both_sources) = [dev "B"] /\
  NoDup (map adv_device_id (snapshot both_sources)).
Proof.
  destruct (snapshot_invariant local
    [Resolved "arc-b" (advert 8765 5); Observed (advert 9000 3)]) as (_ & Hn & _).
  split; [by_evaluation | exact Hn].
Defined.

Lemma reauthentication_is_silent_witness :
  let d1 := observe_authenticated (advert 9000 7) both_sources in
  emitted (observe_authenticated (refreshed 8 (advert 9000 7)) d1) = emitted d1.
Proof.
  refine (proj1 (proj2 (reauthentication_is_silent both_sources (advert 9000 7) 8
    (sample_canonical 9000 7) _ _ _))).
  - cbn. lia.
  - intros a Ha.
    assert (E : authenticated_peers both_sources !! adv_device_id (advert 9000 7)
      = Some (advert 9000 3)) by by_evaluation.
    rewrite E in Ha. injection Ha as <-. cbn. lia.
  - discriminate.
Defined.

Lemma silent_refresh_hides_newer_route_witness :
  let d' := observe_authenticated (refreshed 8 (advert 9000 3)) both_sources in
  port <$> discovery_peer d' (dev "B") = Some 8765 /\
  port <$> discovery_peer (refresh d') (dev "B") = Some 9000.
Proof.
  refine (silent_refresh_hides_newer_route both_sources (advert 9000 3) (advert 8765 5) 8
    (run_events_ok local _) _ _ _ (sample_canonical 9000 3) _ _).
  - by_evaluation.
  - by_evaluation.
  - by_evaluation.
  - cbn. lia.
  - discriminate.
Defined.

Lemma removal_keeps_authenticated_witness :
  discovery_peer (remove_service "arc-b" both_sources) (dev "B") = Some (advert 9000 3).
Proof.
  refine (proj1 (removal_keeps_authenticated both_sources "arc-b" (dev "B") (advert 9000 3)
    (run_events_ok local _) _ _ _)).
  - by_evaluation.
  - by_evaluation.
  - by_evaluation.
Defined.

Lemma observations_accumulate_witness : exists e,
  authenticated_peers (run_events local [Observed (advert 9000 3); Observed (advert 9001 4)])
    !! dev "B" = Some e /\ lan ∈ addresses e.
Proof.
  destruct (observations_accumulate local (dev "B") (advert 9000 3) [advert 9001 4])
    as (e & l & He & _ & _ & _ & _ & _ & _ & _ & Ha & _).
  - discriminate.
  - repeat constructor.
  - exists e. split; [exact He|]. apply Ha. exists (advert 9000 3).
    split; apply list_elem_of_here.
Defined.

Definition announced : ResolvedService :=
  mkResolved "arc-b" (fun k => service_properties (dev "B") (as_bytes "B") (repeat x01 32)
    (mkMetadata "Bea" "linux" "pc") 8765 !! k) [ScopedV4 (mkIpv4 10 1 1 54)].

Lemma service_record_roundtrip_witness : exists p, decode_service announced 77 = Some p /\
  adv_metadata p = mkMetadata "Bea" "linux" "pc".
Proof.
  destruct (service_record_roundtrip (dev "B") (as_bytes "B") (repeat x01 32)
    (mkMetadata "Bea" "linux" "pc") 8765 "arc-b" [ScopedV4 (mkIpv4 10 1 1 54)] 77)
    as (p & Hp & _ & _ & Hm & _).
  - reflexivity.
  - reflexivity.
  - unfold u16_max. lia.
  - exists (ScopedV4 (mkIpv4 10 1 1 54)). split; [apply list_elem_of_here | reflexivity].
  - exists p. split; [exact Hp | exact Hm].
Defined.

Lemma decode_service_sound_witness : exists p, decode_service announced 77 = Some p /\
  adv_device_id p = from_public_key (adv_public_key p).
Proof.
  exists (advert 8765 77). assert (E : decode_service announced 77 = Some (advert 8765 77))
    by by_evaluation.
  split; [exact E|]. exact (proj1 (decode_service_sound announced 77 (advert 8765 77) E)).
Defined.
End witnesses.
