(* ===== verification/Probe.v ===== *)
(** * Probe

    The admission of discovery probes ([admit_discovery_probe], runtime.rs):
    attempts per source address in windows of ten seconds, with the purge of a
    table that has grown.  Instants are nanoseconds of the monotone clock. *)

From S2P Require Import Prelude Errors Addr.

(** ** Definitions *)

Record ProbeRate := mkProbeRate { window_started : Z; attempts : Z }.

#[export] Instance ProbeRate_eq_dec : EqDecision ProbeRate.
Proof. solve_decision. Defined.

Abbreviation ProbeRates := (gmap IpAddr ProbeRate).

(** [Duration::from_secs] *)
Definition secs (n : Z) : Z := n * 1000000000.

Definition WINDOW : Z := secs 10.
Definition MAX_ATTEMPTS : Z := 4.

(** [Instant::duration_since] saturates at zero. *)
Definition duration_since (now earlier : Z) : Z := Z.max 0 (now - earlier).

(** [if rates.len() > 512 { rates.retain(..) }] *)
Definition purge (now : Z) (rates : ProbeRates) : ProbeRates :=
  if (512 <? size rates)%nat then
    filter (fun kv => duration_since now (window_started kv.2) < secs 60) rates
  else rates.

Definition admit_discovery_probe (now : Z) (source : IpAddr) (rates : ProbeRates)
    : net_result unit * ProbeRates :=
  let rates := purge now rates in
  let rate := default (mkProbeRate now 0) (rates !! source) in
  let rate := if WINDOW <=? duration_since now (window_started rate) then mkProbeRate now 0
              else rate in
  if MAX_ATTEMPTS <=? attempts rate then
    (Err (Busy "discovery probe source is rate limited"), <[source := rate]> rates)
  else (Ok tt, <[source := mkProbeRate (window_started rate) (attempts rate + 1)]> rates).

(** ** Abstract limiter of one source *)

Definition limiter (now : Z) (st : option (Z * Z)) : bool * option (Z * Z) :=
  let '(start, n) := match st with
                     | Some (start, n) => if WINDOW <=? now - start then (now, 0) else (start, n)
                     | None => (now, 0)
                     end in
  if MAX_ATTEMPTS <=? n then (false, Some (start, n)) else (true, Some (start, n + 1)).

(** The instants at which the limiter admits, out of a list of attempts. *)
Fixpoint admitted_by (st : option (Z * Z)) (times : list Z) : list Z :=
  match times with
  | [] => []
  | now :: rest =>
      let (ok, st') := limiter now st in
      if ok then now :: admitted_by st' rest else admitted_by st' rest
  end.

(** The instants at which the table admits [source], out of attempts of any
    sources. *)
Fixpoint admitted (source : IpAddr) (rates : ProbeRates) (tries : list (IpAddr * Z)) : list Z :=
  match tries with
  | [] => []
  | (s, now) :: rest =>
      let (r, rates') := admit_discovery_probe now s rates in
      if bool_decide (s = source) && is_ok r then now :: admitted source rates' rest
      else admitted source rates' rest
  end.

(** ** Facts *)

(** The table follows the limiter: it holds its state, or has dropped a window
    that is over by [now]. *)
Definition follows (now : Z) (r : option ProbeRate) (st : option (Z * Z)) : Prop :=
  match r, st with
  | Some r, Some (start, n) => window_started r = start /\ attempts r = n /\ start <= now
  | None, Some (start, n) => start + secs 60 <= now
  | None, None => True
  | Some _, None => False
  end.

Lemma follows_later now now' r st : now <= now' -> follows now r st -> follows now' r st.
Proof. intros Hle. destruct r, st as [[? ?]|]; cbn; lia. Qed.

Lemma purge_lookup now rates source :
  purge now rates !! source = rates !! source \/
  (purge now rates !! source = None /\
   exists r, rates !! source = Some r /\ secs 60 <= duration_since now (window_started r)).
Proof.
  unfold purge. destruct (512 <? size rates)%nat; [|by left].
  rewrite map_lookup_filter. destruct (rates !! source) as [r|]; cbn; [|by left].
  case_decide as Hd; cbn; [by left|]. right. split; [done|]. exists r. split; [done|]. lia.
Qed.

Lemma purge_follows now rates source st :
  follows now (rates !! source) st -> follows now (purge now rates !! source) st.
Proof.
  intros Hf. destruct (purge_lookup now rates source) as [->|(-> & r & E & Hr)]; [done|].
  rewrite E in Hf. destruct st as [[start n]|]; cbn in *; [|done].
  unfold duration_since, secs in *. lia.
Qed.

Lemma admit_follows now source rates st :
  follows now (rates !! source) st ->
  let (r, rates') := admit_discovery_probe now source rates in
  let (ok, st') := limiter now st in
  is_ok r = ok /\ follows now (rates' !! source) st'.
Proof.
  intros Hf. apply purge_follows in Hf. unfold admit_discovery_probe, limiter.
  set (p := purge now rates) in *.
  assert (E : forall start n, (window_started (default (mkProbeRate now 0) (p !! source)) = start /\
      attempts (default (mkProbeRate now 0) (p !! source)) = n /\ start <= now) ->
      (WINDOW <=? duration_since now start) = (WINDOW <=? now - start)).
  { intros start n (_ & _ & Hle). unfold duration_since. by rewrite Z.max_r by lia. }
  destruct (p !! source) as [r|] eqn:Ep, st as [[start n]|]; cbn in Hf; try done; cbn [default].
  - unfold Datatypes.id. destruct Hf as (Es & En & Hle). rewrite Es.
    rewrite (E start n) by done. destruct (WINDOW <=? now - start);
      cbn [attempts window_started].
    + change (MAX_ATTEMPTS <=? 0) with false. cbn iota beta.
      rewrite lookup_insert_eq. cbn. lia.
    + rewrite En. destruct (MAX_ATTEMPTS <=? n) eqn:Em; cbn iota beta;
        rewrite lookup_insert_eq; cbn; lia.
  - assert (Hw : (WINDOW <=? now - start) = true)
      by (apply Z.leb_le; unfold WINDOW, secs in *; lia).
    rewrite Hw. unfold Datatypes.id, duration_since. cbn [window_started]. rewrite Z.sub_diag.
    change (WINDOW <=? Z.max 0 0) with false. cbn iota. cbn [attempts window_started].
    change (MAX_ATTEMPTS <=? 0) with false. cbn iota beta. rewrite lookup_insert_eq. cbn. lia.
  - unfold Datatypes.id, duration_since. cbn [window_started]. rewrite Z.sub_diag.
    change (WINDOW <=? Z.max 0 0) with false. cbn iota. cbn [attempts window_started].
    change (MAX_ATTEMPTS <=? 0) with false. cbn iota beta. rewrite lookup_insert_eq. cbn. lia.
Qed.

Lemma admit_other_follows now source other rates st :
  other <> source -> follows now (rates !! source) st ->
  follows now ((admit_discovery_probe now other rates).2 !! source) st.
Proof.
  intros Hne Hf. apply purge_follows in Hf. unfold admit_discovery_probe.
  destruct (MAX_ATTEMPTS <=? _); cbn [snd]; by rewrite lookup_insert_ne.
Qed.

Definition times_of (source : IpAddr) (tries : list (IpAddr * Z)) : list Z :=
  map snd (List.filter (fun t => bool_decide (t.1 = source)) tries).

(** The table treats each source as its own limiter: neither the other sources
    nor the purge make a difference. *)
Lemma admitted_limiter source tries now rates st :
  Sorted Z.le (now :: map snd tries) -> follows now (rates !! source) st ->
  admitted source rates tries = admitted_by st (times_of source tries).
Proof.
  revert now rates st. induction tries as [|[s t] tries IH]; intros now rates st Hs Hf; [done|].
  assert (Hlt : now <= t) by (apply Sorted_inv in Hs as [_ Hs]; by inversion Hs).
  assert (Hs' : Sorted Z.le (t :: map snd tries)) by (by apply Sorted_inv in Hs as [Hs _]).
  apply (follows_later now t) in Hf; [|done]. cbn [admitted].
  destruct (decide (s = source)) as [->|Hne].
  - pose proof (admit_follows t source rates st Hf) as Ha.
    unfold times_of. cbn [List.filter fst]. rewrite bool_decide_true by done.
    cbn [map snd admitted_by andb]. fold (times_of source tries).
    destruct (admit_discovery_probe t source rates) as [r rates'].
    destruct (limiter t st) as [ok st']. destruct Ha as [-> Hf'].
    destruct ok; rewrite (IH t rates' st' Hs' Hf'); done.
  - pose proof (admit_other_follows t source s rates st Hne Hf) as Hf'.
    unfold times_of. cbn [List.filter fst]. rewrite bool_decide_false by done. cbn [andb].
    fold (times_of source tries).
    destruct (admit_discovery_probe t s rates) as [r rates']. by apply (IH t).
Qed.

(** How many more attempts can be admitted inside [t, t + WINDOW), from [now]
    on. *)
Definition allowance (t now : Z) (st : option (Z * Z)) : Z :=
  match st with
  | Some (start, n) =>
      if t <=? start then MAX_ATTEMPTS - n
      else if now <? t then 2 * MAX_ATTEMPTS
      else 2 * MAX_ATTEMPTS - n
  | None => 2 * MAX_ATTEMPTS
  end.

Definition inside (t x : Z) : bool := (t <=? x) && (x <? t + WINDOW).

Lemma elem_of_admitted_by st times x : x ∈ admitted_by st times -> x ∈ times.
Proof.
  revert st. induction times as [|y times IH]; intros st; cbn; [done|].
  destruct (limiter y st) as [[] st']; [intros [->|Hx]%elem_of_cons; [set_solver|]|intros Hx];
    apply elem_of_cons; right; by eapply IH.
Qed.

Lemma none_inside t x st times :
  Sorted Z.le (x :: times) -> t + WINDOW <= x ->
  List.filter (inside t) (admitted_by st times) = [].
Proof.
  intros Hs Hx. apply Sorted_StronglySorted in Hs; [|intros ? ? ?; lia].
  apply StronglySorted_inv in Hs as [_ Hs]. rewrite Forall_forall in Hs.
  destruct (List.filter (inside t) (admitted_by st times)) as [|y l] eqn:E; [done|].
  assert (Hy : In y (List.filter (inside t) (admitted_by st times))) by (rewrite E; by left).
  apply filter_In in Hy as [Hy Hi]. apply list_elem_of_In, elem_of_admitted_by, Hs in Hy.
  unfold inside in Hi. apply andb_prop in Hi as [_ Hi%Z.ltb_lt]. lia.
Qed.

Lemma admitted_by_bound t times now st :
  Sorted Z.le (now :: times) ->
  (forall start n, st = Some (start, n) -> start <= now /\ 0 <= n <= MAX_ATTEMPTS) ->
  Z.of_nat (length (List.filter (inside t) (admitted_by st times))) <= allowance t now st.
Proof.
  revert now st. induction times as [|x times IH]; intros now st Hs Hst.
  { destruct st as [[start n]|]; unfold allowance, MAX_ATTEMPTS in *; cbn; [|lia].
    destruct (Hst _ _ eq_refl). destruct (t <=? start), (now <? t); lia. }
  assert (Hnx : now <= x) by (apply Sorted_inv in Hs as [_ Hs]; by inversion Hs).
  assert (Hs' : Sorted Z.le (x :: times)) by (by apply Sorted_inv in Hs as [Hs _]).
  cbn [admitted_by]. unfold limiter.
  assert (Hstep : forall start n, start <= x -> 0 <= n <= MAX_ATTEMPTS -> (n < MAX_ATTEMPTS ->
      Z.of_nat (length (List.filter (inside t) (admitted_by (Some (start, n + 1)) times)))
      <= allowance t x (Some (start, n + 1))) /\
      Z.of_nat (length (List.filter (inside t) (admitted_by (Some (start, n)) times)))
      <= allowance t x (Some (start, n))).
  { intros start n Hle Hn. split; [intros Hlt|]; apply (IH x); try done;
      intros ? ? [= <- <-]; lia. }
  assert (Hout : forall st', t + WINDOW <= x ->
    length (List.filter (inside t) (admitted_by st' times)) = 0%nat)
    by (intros st' Hx; by rewrite (none_inside t x)).
  unfold allowance, MAX_ATTEMPTS, inside, WINDOW, secs in *.
  destruct st as [[start n]|].
  - destruct (Hst _ _ eq_refl) as [Hsn Hn].
    destruct (Z.leb_spec (10 * 1000000000) (x - start)) as [Hw|Hw].
    + destruct (Hstep x 0 ltac:(lia) ltac:(lia)) as [Hx _]. specialize (Hx ltac:(lia)).
      cbn [Z.leb Z.compare]. cbn [List.filter].
      destruct (Z.leb_spec t x), (Z.ltb_spec x (t + 10 * 1000000000)), (Z.leb_spec t start),
        (Z.ltb_spec now t), (Z.ltb_spec x t);
        cbn [andb length]; try rewrite Hout by lia; lia.
    + destruct (Hstep start n ltac:(lia) ltac:(lia)) as [Hx Hy].
      destruct (Z.leb_spec 4 n) as [Hn4|Hn4]; [destruct (Z.leb_spec t start), (Z.ltb_spec now t), (Z.ltb_spec x t); lia|].
      specialize (Hx ltac:(lia)).
      cbn [List.filter].
      destruct (Z.leb_spec t x), (Z.ltb_spec x (t + 10 * 1000000000)), (Z.leb_spec t start),
        (Z.ltb_spec now t), (Z.ltb_spec x t);
        cbn [andb length]; try rewrite Hout by lia; lia.
  - destruct (Hstep x 0 ltac:(lia) ltac:(lia)) as [Hx _]. specialize (Hx ltac:(lia)).
    cbn [Z.leb Z.compare]. cbn [List.filter].
    destruct (Z.leb_spec t x), (Z.ltb_spec x (t + 10 * 1000000000)), (Z.ltb_spec x t);
      cbn [andb length]; try rewrite Hout by lia; lia.
Qed.

(** ** Properties *)

(** C18. However many sources probe and however the table is purged, a source is
    admitted at most eight times within any ten seconds, and its admissions do
    not depend on the other sources: they are those of a limiter that sees the
    attempts of this source only. *)
Theorem probe_admission_bounded source tries t :
  Sorted Z.le (map snd tries) ->
  admitted source ∅ tries = admitted_by None (times_of source tries) /\
  Z.of_nat (length (List.filter (fun x => (t <=? x) && (x <? t + WINDOW))
                      (admitted source ∅ tries))) <= 8.
Proof.
  intros Hs. set (first := match map snd tries with [] => 0 | x :: _ => x end).
  assert (Hs' : Sorted Z.le (first :: map snd tries)).
  { constructor; [done|]. unfold first. destruct (map snd tries); constructor. lia. }
  pose proof (admitted_limiter source tries first ∅ None Hs') as E.
  rewrite lookup_empty in E. specialize (E I). split; [done|]. rewrite E.
  assert (Ht : Sorted Z.le (first :: times_of source tries)).
  { apply StronglySorted_Sorted. apply Sorted_StronglySorted in Hs'; [|intros ? ? ?; lia].
    apply StronglySorted_inv in Hs' as [Hs1 Hs2]. unfold times_of. revert Hs1 Hs2.
    generalize first. clear. intros first. induction tries as [|[s x] tries IH]; cbn.
    - intros _ _. repeat constructor.
    - intros [Hs Hx]%StronglySorted_inv [Hfx Hf]%Forall_cons. specialize (IH Hs Hf).
      case_bool_decide; [|done]. cbn. apply StronglySorted_inv in IH as [IH1 IH2].
      constructor; [constructor|]; [done| |by constructor].
      rewrite Forall_forall in *. intros y (z & <- & [Hz _]%filter_In)%list_elem_of_In%in_map_iff.
      apply Hx. apply list_elem_of_In, in_map_iff. eauto. }
  pose proof (admitted_by_bound t (times_of source tries) first None Ht) as Hb.
  unfold allowance, MAX_ATTEMPTS in Hb. apply Hb. done.
Qed.

(** ** Witnesses *)

Lemma probe_admission_bounded_witness :
  let ip := IpV4 (mkIpv4 10 0 0 1) in
  Z.of_nat (length (List.filter (fun x => (0 <=? x) && (x <? 0 + WINDOW))
    (admitted ip ∅ (map (pair ip) [1; 2; 3; 4; 5; 6])))) <= 8.
Proof.
  intros ip. apply (probe_admission_bounded ip (map (pair ip) [1; 2; 3; 4; 5; 6]) 0).
  cbn. repeat constructor; lia.
Defined.
