(* ===== verification/Handshake.v ===== *)
(** * Handshake

    The wire protocol of a session handshake (runtime/protocol.rs): the checks
    on a hello, the negotiated minor, the signed transcript, the verification
    code, and the framed messages; with the state a handshake runs in. *)

From S2P Require Import Prelude Errors Addr Peer Wire Text Identity Probe.

(** ** Pure checks *)

Definition HANDSHAKE_FRAME_LIMIT : Z := 64 * 1024.
Definition TLS_EXPORTER_LABEL : list byte := as_bytes "EXPORTER-ArcRelay-v1-session".

Inductive Direction := DirectionInbound | DirectionOutbound.

(** [format!("{:06}", n)] *)
Definition pad6 (n : Z) : string :=
  let s := dec n in (string_of_list_ascii (repeat "0"%char (6 - String.length s)) +:+ s)%string.

Section pure.
Context `{PeerApi} `{Crypto} `{WireApi}.

Definition validate_hello (hello : SessionHello) (expected_kind : option SessionKind)
    : net_result SessionPeer :=
  if negb (protocol_major hello =? PROTOCOL_MAJOR)
     || (max_protocol_minor hello <? min_protocol_minor hello)
     || (max_protocol_minor hello <? MIN_PROTOCOL_MINOR)
     || (MAX_PROTOCOL_MINOR <? min_protocol_minor hello)
     || negb (blen (nonce hello) =? 32)
     || negb (blen (endpoint_certificate_sha256 hello) =? 32)
     || (slen (device_name hello) >? 255)
     || (slen (hello_platform hello) >? 64)
     || (slen (hello_model hello) >? 255)
  then Err (Protocol "invalid session hello")
  else
    kind ← decode_kind (session_kind hello);
    if match expected_kind with
       | Some expected => negb (bool_decide (expected = kind))
       | None => false
       end
    then Err (Protocol "session kind mismatch")
    else
      device_id ← map_err InvalidIdentity (parse_device_id (hello_device_id hello));
      public_key ← map_err InvalidIdentity (key_from_bytes (root_public_key hello));
      _ ← map_err InvalidIdentity (verify_key device_id public_key);
      let certificate_sha256 := endpoint_certificate_sha256 hello in
      if negb (blen certificate_sha256 =? 32)
      then Err (InvalidIdentity "certificate digest length")
      else
        signature ← map_err InvalidIdentity (signature_from_bytes (endpoint_binding_signature hello));
        _ ← verify_signature public_key EndpointBinding certificate_sha256 signature;
        Ok (mkSessionPeer device_id public_key
              (mkMetadata (device_name hello) (hello_platform hello) (hello_model hello))
              certificate_sha256 0).

Definition negotiate_protocol_minor (local remote : SessionHello) : net_result Z :=
  let minimum := Z.max (min_protocol_minor local) (min_protocol_minor remote) in
  let maximum := Z.min (max_protocol_minor local) (max_protocol_minor remote) in
  if minimum <=? maximum then Ok maximum
  else Err (Protocol "no compatible protocol minor version").

Definition validate_process_instance_id (value : list byte) : net_result (option (list byte)) :=
  if is_empty value then Ok None
  else if blen value =? 16 then Ok (Some value)
  else Err (Protocol "invalid peer process instance id").

Definition append_message {M} `{Prost M} (target : list byte) (message : M)
    : net_result (list byte) :=
  encoded ← map_err Protocol (encode message);
  Ok (target ++ to_be_bytes 8 (blen encoded) ++ encoded).

(** [exporter] is the outcome of [export_keying_material] with the label of the
    protocol and an empty context. *)
Definition session_transcript (exporter : option (list byte)) (local remote : SessionHello)
    : net_result (list byte) :=
  exporter ← ok_or exporter (Tls "TLS exporter is unavailable");
  let '(first, second) := if cmp_le (hello_device_id local) (hello_device_id remote)
                          then (local, remote) else (remote, local) in
  transcript ← append_message (as_bytes "arcrelay.session-transcript.v1" ++ [x00]) first;
  transcript ← append_message transcript second;
  Ok (transcript ++ exporter).

Definition verification_code_of (transcript : list byte) : string :=
  let digest := sha256 transcript in
  let number := from_be_bytes (take 4 digest) in
  pad6 (number `mod` 1000000).
End pure.

(** ** The local side *)

Section local.
Context `{PeerApi} `{Crypto} `{WireApi}.

(** What a handshake uses of the runtime: its process instance, its identity
    and what the methods of the identity answer. *)
Record Local := mkLocal {
  local_identity : DeviceIdentity;
  local_device_id : DeviceId;
  local_public_key : DevicePublicKey;
  local_binding : list byte;
  local_process_instance_id : list byte
}.

(** The methods called on the identity; [None] is a panic of one of them. *)
Definition local_of (identity : DeviceIdentity) (process_instance_id : list byte) : option Local :=
  id ← identity_device_id identity;
  key ← public_key_value identity;
  binding ← identity_binding_signature identity;
  Some (mkLocal identity id key binding process_instance_id).

(** [self.identity.sign(..)], which does not panic ([sign_total]). *)
Definition local_sign (l : Local) (context : SigningContext) (message : list byte) : list byte :=
  default [] (sign (local_identity l) context message).

Definition local_hello (l : Local) (metadata : DeviceMetadata) (kind : SessionKind)
    (fresh_nonce : list byte) : SessionHello :=
  mkHello PROTOCOL_MAJOR (encode_kind kind) (as_str (local_device_id l)) (name metadata)
    (platform metadata) (model metadata) fresh_nonce (key_bytes (local_public_key l))
    (certificate_sha256 (local_identity l)) (local_binding l)
    MIN_PROTOCOL_MINOR MAX_PROTOCOL_MINOR.

Lemma sign_total `{!PeerLaws} `{!CryptoLaws} (identity : DeviceIdentity) c m :
  sign identity c m = Some (sign_bytes (signing_key identity) (signing_transcript c m)).
Proof.
  unfold sign. destruct (signature_from_bytes_64 _ (sign_bytes_length (signing_key identity)
    (signing_transcript c m))) as [s Es].
  rewrite Es. apply signature_from_bytes_id in Es. by rewrite Es.
Qed.

(** No identity makes these methods panic. *)
Lemma local_of_total `{!PeerLaws} `{!CryptoLaws} (identity : DeviceIdentity) instance :
  exists l, local_of identity instance = Some l /\ local_identity l = identity /\
    local_device_id l = from_public_key (local_public_key l) /\
    public_key_value identity = Some (local_public_key l) /\
    local_process_instance_id l = instance.
Proof.
  assert (Hk : exists k, public_key_value identity = Some k).
  { unfold public_key_value.
    destruct (key_from_bytes_32 _ (verifying_bytes_length (verifying_key (signing_key identity))))
      as [k Ek]. rewrite Ek. by exists k. }
  destruct Hk as [k Hk]. unfold local_of, identity_device_id, identity_binding_signature.
  rewrite Hk, sign_total. cbn. eauto 10.
Qed.
End local.

(** ** The state of a handshake *)

Section world.
Context `{PeerApi} (S : Type).

(** One connection and what surrounds it: the outcomes of its transport calls
    to come (a [Some] is a failure; when the frames to read are used up the
    connection is lost), what was sent, the repository, the probe limits, and
    the values the clocks and generators give to this handshake. *)
Record World := mkWorld {
  peer_certificates : option (list (list byte));
  exporter : option (list byte);
  remote_address : SocketAddr;
  stream_faults : list (option string);
  write_faults : list (option string);
  inbox : list (result string (list byte));
  sent : list (list byte * Z);
  repo : S;
  rates : gmap IpAddr ProbeRate;
  probe_permits : nat;
  discoverable : bool;
  selection_open : bool;
  instant : Z;
  clock_ms : Z;
  fresh_nonce : list byte;
  fresh_session_id : Z;
  local_port : Z
}.
End world.

Arguments mkWorld {_}.
Arguments peer_certificates {_}.
Arguments exporter {_}.
Arguments remote_address {_}.
Arguments stream_faults {_}.
Arguments write_faults {_}.
Arguments inbox {_}.
Arguments sent {_}.
Arguments repo {_}.
Arguments rates {_}.
Arguments probe_permits {_}.
Arguments discoverable {_}.
Arguments selection_open {_}.
Arguments instant {_}.
Arguments clock_ms {_}.
Arguments fresh_nonce {_}.
Arguments fresh_session_id {_}.
Arguments local_port {_}.

Section steps.
Context `{PeerApi} `{Crypto} `{WireApi} {S : Type}.

Abbreviation step := (action (World S) NetworkError).

Definition with_streams (l : list (option string)) (w : World S) : World S :=
  mkWorld (peer_certificates w) (exporter w) (remote_address w) l (write_faults w) (inbox w)
    (sent w) (repo w) (rates w) (probe_permits w) (discoverable w) (selection_open w) (instant w)
    (clock_ms w) (fresh_nonce w) (fresh_session_id w) (local_port w).

Definition with_writes (l : list (option string)) (out : list (list byte * Z)) (w : World S)
    : World S :=
  mkWorld (peer_certificates w) (exporter w) (remote_address w) (stream_faults w) l (inbox w)
    out (repo w) (rates w) (probe_permits w) (discoverable w) (selection_open w) (instant w)
    (clock_ms w) (fresh_nonce w) (fresh_session_id w) (local_port w).

Definition with_inbox (l : list (result string (list byte))) (w : World S) : World S :=
  mkWorld (peer_certificates w) (exporter w) (remote_address w) (stream_faults w) (write_faults w) l
    (sent w) (repo w) (rates w) (probe_permits w) (discoverable w) (selection_open w) (instant w)
    (clock_ms w) (fresh_nonce w) (fresh_session_id w) (local_port w).

Definition with_repo (r : S) (w : World S) : World S :=
  mkWorld (peer_certificates w) (exporter w) (remote_address w) (stream_faults w) (write_faults w)
    (inbox w) (sent w) r (rates w) (probe_permits w) (discoverable w) (selection_open w) (instant w)
    (clock_ms w) (fresh_nonce w) (fresh_session_id w) (local_port w).

Definition with_probes (m : gmap IpAddr ProbeRate) (permits : nat) (w : World S) : World S :=
  mkWorld (peer_certificates w) (exporter w) (remote_address w) (stream_faults w) (write_faults w)
    (inbox w) (sent w) (repo w) m permits (discoverable w) (selection_open w) (instant w)
    (clock_ms w) (fresh_nonce w) (fresh_session_id w) (local_port w).

(** [open_bi], [accept_bi], [send.finish] *)
Definition stream_call : step unit := fun w =>
  match stream_faults w with
  | Some e :: rest => (Err (Quic e), with_streams rest w)
  | l => (Ok tt, with_streams (tail l) w)
  end.

(** [arcrelay_transport::write_frame] *)
Definition write_frame (bytes : list byte) (limit : Z) : step unit := fun w =>
  match write_faults w with
  | Some e :: rest => (Err (Frame e), with_writes rest (sent w) w)
  | l => (Ok tt, with_writes (tail l) (sent w ++ [(bytes, limit)]) w)
  end.

(** [arcrelay_transport::read_frame] *)
Definition read_frame (limit : Z) : step (list byte) := fun w =>
  match inbox w with
  | [] => (Err (Frame "connection lost"), w)
  | Err e :: rest => (Err (Frame e), with_inbox rest w)
  | Ok b :: rest => (Ok b, with_inbox rest w)
  end.

Definition send_message_with_limit {M} `{Prost M} (message : M) (limit : Z) : step unit :=
  bytes ← lift (map_err Protocol (encode message));
  write_frame bytes limit.

Definition send_message {M} `{Prost M} (message : M) : step unit :=
  send_message_with_limit message HANDSHAKE_FRAME_LIMIT.

Definition receive_message_with_limit {M} `{Prost M} (limit : Z) : step M :=
  bytes ← read_frame limit;
  lift (map_err Protocol (decode bytes)).

Definition receive_message {M} `{Prost M} : step M :=
  receive_message_with_limit HANDSHAKE_FRAME_LIMIT.

Definition observed_certificate_sha256 : step (list byte) := fun w =>
  (match peer_certificates w with
   | Some (certificate :: _) => Ok (sha256 certificate)
   | _ => Err (InvalidIdentity "peer TLS certificate is missing")
   end, w).
End steps.

(** ** Facts about the transcript *)

Section transcript.
Context `{PeerApi} `{Crypto} `{WireApi} `{!PeerLaws} `{!WireLaws}.

(** The framing of one message: its length on eight bytes, then its bytes. *)
Definition framed (b : list byte) : list byte := to_be_bytes 8 (blen b) ++ b.

Lemma framed_inj b c x y :
  blen b <= u64_max -> blen c <= u64_max -> framed b ++ x = framed c ++ y -> b = c /\ x = y.
Proof.
  unfold framed, u64_max, blen. intros Hb Hc. rewrite <- !app_assoc. intros E.
  apply app_inj_length in E as [El E]; [|by rewrite !length_to_be_bytes].
  apply to_be_bytes_inj in El; [|change (256 ^ Z.of_nat 8) with 18446744073709551616; lia..].
  apply app_inj_length in E; [done | lia].
Qed.

(** The order in which two hellos enter the transcript. *)
Definition ordered (local remote : SessionHello) : SessionHello * SessionHello :=
  if cmp_le (hello_device_id local) (hello_device_id remote) then (local, remote)
  else (remote, local).

Definition transcript_tag : list byte := as_bytes "arcrelay.session-transcript.v1" ++ [x00].

Lemma session_transcript_ok e l r t :
  session_transcript e l r = Ok t <->
  exists x b c, e = Some x /\ encode (ordered l r).1 = Ok b /\ encode (ordered l r).2 = Ok c /\
    t = transcript_tag ++ framed b ++ framed c ++ x.
Proof.
  unfold session_transcript, ordered, append_message, framed, transcript_tag. split.
  - intros E. result_inv. destruct (cmp_le _ _); result_inv; eexists _, _, _;
      (split_and!; [done..|]); by rewrite <- !app_assoc.
  - intros (x & b & c & -> & Hb & Hc & ->). cbn [ok_or mbind result_bind].
    destruct (cmp_le _ _); cbn [fst snd] in Hb, Hc; rewrite Hb; cbn [map_err mbind result_bind];
      rewrite Hc; cbn [map_err mbind result_bind]; by rewrite <- !app_assoc.
Qed.

Lemma ordered_swap l r : hello_device_id l <> hello_device_id r -> ordered l r = ordered r l.
Proof.
  intros Hne. unfold ordered. destruct (cmp_le (hello_device_id l) (hello_device_id r)) eqn:E,
    (cmp_le (hello_device_id r) (hello_device_id l)) eqn:F; try done.
  - by pose proof (cmp_le_antisym _ _ E F).
  - by destruct (cmp_le_total (hello_device_id l) (hello_device_id r)); congruence.
Qed.

Lemma ordered_pair l r l' r' :
  ordered l r = ordered l' r' -> (l' = l /\ r' = r) \/ (l' = r /\ r' = l).
Proof. unfold ordered. destruct (cmp_le _ _), (cmp_le _ _); intros [= -> ->]; auto. Qed.

Lemma encode_inj (m n : SessionHello) b : encode m = Ok b -> encode n = Ok b -> m = n.
Proof. intros Hm%decode_encode Hn%decode_encode. congruence. Qed.

Lemma transcript_swap e l r :
  hello_device_id l <> hello_device_id r ->
  session_transcript e l r = session_transcript e r l.
Proof.
  intros Hne. pose proof (ordered_swap _ _ Hne) as E. unfold ordered in E.
  unfold session_transcript. by rewrite E.
Qed.

Lemma transcript_determines e e' l r l' r' t :
  blen t <= u64_max ->
  session_transcript e l r = Ok t -> session_transcript e' l' r' = Ok t ->
  e' = e /\ ((l' = l /\ r' = r) \/ (l' = r /\ r' = l)).
Proof.
  intros Ht (x & b & c & -> & Eb & Ec & ->)%session_transcript_ok
    (x' & b' & c' & -> & Eb' & Ec' & E)%session_transcript_ok.
  assert (Hlen : forall u v z, transcript_tag ++ framed b ++ framed c ++ x =
    transcript_tag ++ framed u ++ framed v ++ z -> blen u <= u64_max /\ blen v <= u64_max).
  { intros u v z F. rewrite F in Ht. unfold framed, blen in *. rewrite !length_app in Ht. lia. }
  destruct (Hlen _ _ _ eq_refl), (Hlen _ _ _ E).
  apply app_inv_head in E. apply framed_inj in E as [<- E]; [|done..].
  apply framed_inj in E as [<- <-]; [|done..]. split; [done|].
  apply ordered_pair. apply injective_projections; by eapply encode_inj.
Qed.
End transcript.

(** ** Properties *)

Section handshake_properties.
Context `{PeerApi} `{Crypto} `{WireApi} `{!PeerLaws} `{!WireLaws}.

(** Two sides sign the same transcript exactly when they share the TLS
    session and saw the same two hellos, each as its own or as the one of the
    peer: neither side's view of a hello can differ in any field. *)
Theorem transcript_agreement e e' l r l' r' t :
  hello_device_id l <> hello_device_id r -> blen t <= u64_max ->
  session_transcript e l r = Ok t ->
  (session_transcript e' l' r' = Ok t <->
     e' = e /\ ((l' = l /\ r' = r) \/ (l' = r /\ r' = l))).
Proof.
  intros Hne Hlen Ht. split; [by apply transcript_determines|].
  intros [-> [[-> ->]|[-> ->]]]; [done|]. by rewrite transcript_swap.
Qed.

(** Both sides choose the same minor, the largest one both support, and
    they fail together when there is none. *)
Theorem negotiated_minor_agrees local remote :
  negotiate_protocol_minor local remote = negotiate_protocol_minor remote local /\
  forall m, negotiate_protocol_minor local remote = Ok m <->
    (min_protocol_minor local <= m <= max_protocol_minor local /\
     min_protocol_minor remote <= m <= max_protocol_minor remote) /\
    forall n, min_protocol_minor local <= n <= max_protocol_minor local ->
      min_protocol_minor remote <= n <= max_protocol_minor remote -> n <= m.
Proof.
  unfold negotiate_protocol_minor. split.
  - by rewrite Z.max_comm, (Z.min_comm (max_protocol_minor local)).
  - intros m. destruct (Z.leb_spec (Z.max (min_protocol_minor local) (min_protocol_minor remote))
      (Z.min (max_protocol_minor local) (max_protocol_minor remote))) as [Hle|Hgt]; split.
    + intros [= <-]. split; [lia|]. intros; lia.
    + intros [Hm Hmax]. f_equal. apply Z.le_antisymm; [|lia]. apply Hmax; lia.
    + done.
    + intros [Hm _]. lia.
Qed.
End handshake_properties.

(** ** Witnesses *)

Section witnesses.
Import SamplePeer SampleWire SampleCrypto.

Definition sample_hello (device : string) (nonce_byte : byte) : SessionHello :=
  mkHello 1 1 device "desk" "linux" "pc" (repeat nonce_byte 32) (as_bytes device)
    (repeat x07 32) (repeat x08 64) 0 2.

Lemma transcript_agreement_witness :
  let a := sample_hello "A" x01 in
  let b := sample_hello "B" x02 in
  session_transcript (Some [x09]) b a = session_transcript (Some [x09]) a b.
Proof.
  intros a b.
  destruct (session_transcript (Some [x09]) a b) as [t|] eqn:E; [|vm_compute in E; discriminate E].
  assert (Ht : blen t <= u64_max).
  { apply Z.leb_le. assert (Et : to_option (session_transcript (Some [x09]) a b) = Some t) by (by rewrite E).
    vm_compute in Et. injection Et as <-. vm_compute. reflexivity. }
  apply (transcript_agreement (Some [x09]) (Some [x09]) a b b a t);
    [discriminate|exact Ht|exact E|auto].
Defined.
End witnesses.
