(* ===== verification/Auth.v ===== *)
(** * Auth

    The session authentication of runtime.rs: [require_paired], the three
    outbound variants, the inbound side, and [finish_authentication].  Each is
    an action on the state of one handshake; the repository behind it is any
    one that meets the interface. *)

From S2P Require Import Prelude Errors Addr Peer Wire Identity Registry Discovery Probe Handshake.

Section auth.
Context `{PeerApi} `{Crypto} `{WireApi} `{Transport} {S : Type} `{!PeerRepository S}.

Abbreviation step := (action (World S) NetworkError).

(** ** Trust *)

Definition is_trusted (p : PeerRecord) : bool := bool_decide (trust_state p = Paired).

(** [NetworkRuntime::require_paired] *)
Definition require_paired (id : DeviceId) (key : option DevicePublicKey)
    : action S NetworkError PeerRecord :=
  found ← act_map_err (fun e => Repository (repository_error_text e)) (find_peer id);
  peer ← lift (ok_or (match found with
                      | Some p => if is_trusted p then Some p else None
                      | None => None
                      end) Unpaired);
  act_reject (match key with
              | Some k => negb (bool_decide (k = rec_public_key peer))
              | None => false
              end) (InvalidIdentity "paired device key changed") ;;
  mret peer.

(** [NetworkRuntime::is_paired_session] *)
Definition is_paired_session (s : Session) : action S NetworkError bool := fun r =>
  match require_paired (peer_device_id (peer s)) (Some (peer_public_key (peer s))) r with
  | (Ok _, r') => (Ok true, r')
  | (Err Unpaired, r') => (Ok false, r')
  | (Err e, r') => (Err e, r')
  end.

Definition in_repo {A} (m : action S NetworkError A) : step A := fun w =>
  let (r, s) := m (repo w) in (r, with_repo s w).

(** ** The handshake *)

(** [selection.acquire_owned()]: the permit of the dial race. *)
Definition acquire_selection (selection : bool) : step unit := fun w =>
  (if selection && negb (selection_open w) then Err Timeout else Ok tt, w).

(** [u16::try_from(port).unwrap_or_default()] *)
Definition u16_or_zero (z : Z) : Z := if (0 <=? z) && (z <=? u16_max) then z else 0.

Definition finish_authentication (conn : Conn) (l : Local) (local remote : SessionHello)
    (remote_peer : SessionPeer) (direction : Direction) (selection : bool) : step Session :=
  act_reject (bool_decide (peer_device_id remote_peer = local_device_id l)) SelfConnection ;;
  kind ← lift (decode_kind (session_kind remote));
  protocol_minor ← lift (negotiate_protocol_minor local remote);
  transcript ← (fun w => (session_transcript (exporter w) local remote, w));
  (let signature := local_sign l SessionAuthentication transcript in
   send_message (mkAuth (as_str (local_device_id l)) signature)) ;;
  remote_auth ← receive_message;
  act_reject (negb (String.eqb (auth_device_id remote_auth) (as_str (peer_device_id remote_peer))))
    (InvalidIdentity "session auth device id mismatch") ;;
  signature ← lift (map_err InvalidIdentity (signature_from_bytes (auth_signature remote_auth)));
  lift (verify_signature (peer_public_key remote_peer) SessionAuthentication transcript signature) ;;
  (if nearby_kind kind then mret tt
   else in_repo (require_paired (peer_device_id remote_peer) (Some (peer_public_key remote_peer))) ;;
        mret tt) ;;
  acquire_selection selection ;;
  accepted ← (fun w => (Ok (mkAccepted (fresh_session_id w) (clock_ms w) (local_port w)
                              protocol_minor
                              (local_process_instance_id l)), w));
  send_message accepted ;;
  remote_accepted ← receive_message;
  act_reject ((acc_session_id remote_accepted =? 0) || (accepted_at_ms remote_accepted <=? 0))
    (Protocol "invalid remote session id") ;;
  act_reject (negb (acc_protocol_minor remote_accepted =? protocol_minor))
    (Protocol "peer selected a different protocol minor version") ;;
  instance ← lift (validate_process_instance_id (process_instance_id remote_accepted));
  stream_call ;;
  mret (mkSession instance None None (acc_session_id accepted) kind
    (mkSessionPeer (peer_device_id remote_peer) (peer_public_key remote_peer)
       (peer_metadata remote_peer) (peer_certificate_sha256 remote_peer)
       (u16_or_zero (acc_listen_port remote_accepted)))
    (verification_code_of transcript)
    (match direction with
     | DirectionOutbound => mkRank (local_device_id l) (nonce local)
     | DirectionInbound => mkRank (peer_device_id remote_peer) (nonce remote)
     end)
    conn protocol_minor).

Definition make_hello (l : Local) (metadata : DeviceMetadata) (kind : SessionKind)
    : step SessionHello := fun w => (Ok (local_hello l metadata kind (fresh_nonce w)), w).

Definition authenticate_outbound (conn : Conn) (l : Local) (metadata : DeviceMetadata)
    (expected : PeerAdvertisement) (kind : SessionKind) : step Session :=
  observed ← observed_certificate_sha256;
  act_reject (negb (bool_decide (observed = adv_certificate_sha256 expected)))
    (InvalidIdentity "TLS certificate differs from discovery advertisement") ;;
  stream_call ;;
  local ← make_hello l metadata kind;
  send_message local ;;
  remote ← receive_message;
  remote_identity ← lift (validate_hello remote (Some kind));
  act_reject (negb (bool_decide (peer_certificate_sha256 remote_identity = observed)))
    (InvalidIdentity "TLS certificate differs from authenticated endpoint binding") ;;
  act_reject (negb (bool_decide (peer_device_id remote_identity = adv_device_id expected))
              || negb (bool_decide (peer_public_key remote_identity = adv_public_key expected))
              || negb (bool_decide (peer_certificate_sha256 remote_identity
                                    = adv_certificate_sha256 expected)))
    (InvalidIdentity "authenticated identity differs from discovery advertisement") ;;
  finish_authentication conn l local remote remote_identity DirectionOutbound true.

Definition authenticate_outbound_paired (conn : Conn) (l : Local) (metadata : DeviceMetadata)
    (expected : PeerRecord) (kind : SessionKind) : step Session :=
  observed ← observed_certificate_sha256;
  stream_call ;;
  local ← make_hello l metadata kind;
  send_message local ;;
  remote ← receive_message;
  remote_identity ← lift (validate_hello remote (Some kind));
  act_reject (negb (bool_decide (peer_certificate_sha256 remote_identity = observed))
              || negb (bool_decide (peer_device_id remote_identity = rec_device_id expected))
              || negb (bool_decide (peer_public_key remote_identity = rec_public_key expected)))
    (InvalidIdentity "remembered endpoint belongs to another device") ;;
  finish_authentication conn l local remote remote_identity DirectionOutbound true.

Definition authenticate_outbound_probe (conn : Conn) (l : Local) (metadata : DeviceMetadata)
    : step Session :=
  observed ← observed_certificate_sha256;
  stream_call ;;
  local ← make_hello l metadata DiscoveryProbe;
  send_message local ;;
  remote ← receive_message;
  remote_identity ← lift (validate_hello remote (Some DiscoveryProbe));
  act_reject (negb (bool_decide (peer_certificate_sha256 remote_identity = observed)))
    (InvalidIdentity "TLS certificate differs from authenticated endpoint binding") ;;
  finish_authentication conn l local remote remote_identity DirectionOutbound false.

(** [admit_discovery_probe] on the source address of the connection. *)
Definition admit_probe : step unit := fun w =>
  let (r, m) := admit_discovery_probe (instant w) (sock_ip (remote_address w)) (rates w) in
  (r, with_probes m (probe_permits w) w).

(** A permit of [probe_gate], held while [m] runs. *)
Definition with_probe_permit {A} (m : step A) : step A := fun w =>
  match probe_permits w with
  | O => (Err (Busy "discovery probe limit reached"), w)
  | Datatypes.S n =>
      let (r, w') := m (with_probes (rates w) n w) in
      (r, with_probes (rates w') (Datatypes.S (probe_permits w')) w')
  end.

Definition authenticate_inbound (conn : Conn) (l : Local) (metadata : DeviceMetadata)
    : step Session :=
  stream_call ;;
  remote ← receive_message;
  kind ← lift (decode_kind (session_kind remote));
  remote_identity ← lift (validate_hello remote (Some kind));
  paired ← (fun w =>
    let (r, w') := in_repo (require_paired (peer_device_id remote_identity)
                              (Some (peer_public_key remote_identity))) w in
    (Ok (is_ok r), w'));
  (fun w => act_reject (negb (discoverable w) && negb paired && nearby_kind kind)
              (Unauthorized "device is not accepting new nearby connections") w) ;;
  (let rest :=
     local ← make_hello l metadata kind;
     send_message local ;;
     finish_authentication conn l local remote remote_identity DirectionInbound false in
   if bool_decide (kind = DiscoveryProbe) then admit_probe ;; with_probe_permit rest else rest).
End auth.

(** ** The dial target (runtime/dial.rs) *)

Section target.
Context `{PeerApi} `{Crypto} `{WireApi} `{Transport} {S : Type} `{!PeerRepository S}.

Inductive ExpectedPeer :=
| ExpectedAdvertised (p : PeerAdvertisement)
| ExpectedPaired (p : PeerRecord).

(** [ExpectedPeer::id] *)
Definition expected_id (e : ExpectedPeer) : DeviceId :=
  match e with
  | ExpectedAdvertised p => adv_device_id p
  | ExpectedPaired p => rec_device_id p
  end.

Definition expected_key (e : ExpectedPeer) : DevicePublicKey :=
  match e with
  | ExpectedAdvertised p => adv_public_key p
  | ExpectedPaired p => rec_public_key p
  end.

(** The match of a dial candidate. *)
Definition authenticate_expected (conn : Conn) (l : Local) (metadata : DeviceMetadata)
    (expected : ExpectedPeer) (kind : SessionKind) : action (World S) NetworkError Session :=
  match expected with
  | ExpectedAdvertised p => authenticate_outbound conn l metadata p kind
  | ExpectedPaired p => authenticate_outbound_paired conn l metadata p kind
  end.
End target.

(** ** What a handshake leaves alone *)

Section frames.
Context `{PeerApi} `{Crypto} `{WireApi} `{Transport} {S : Type} `{!PeerRepository S}
  `{!PeerRepositoryLaws S}.

(** A look at the repository. *)
Definition look (s s' : S) : Prop := exists id key r, require_paired id key s = (r, s').

(** The connection and the local values stay, the repository is only looked at,
    and the frames sent only grow. *)
Record stays (w w' : World S) : Prop := {
  st_exporter : exporter w' = exporter w;
  st_certificates : peer_certificates w' = peer_certificates w;
  st_discoverable : discoverable w' = discoverable w;
  st_nonce : Handshake.fresh_nonce w' = Handshake.fresh_nonce w;
  st_selection : selection_open w' = selection_open w;
  st_looks : rtc look (repo w) (repo w');
  st_sent : exists out, sent w' = sent w ++ out;
  st_inbox : inbox w' `suffix_of` inbox w
}.

#[export] Instance stays_preorder : PreOrder stays.
Proof.
  split.
  - intros w. split; try done. exists []. by rewrite app_nil_r.
  - intros u v w [E1 E2 E3 E4 E5 Er [o1 Es1] Ei] [F1 F2 F3 F4 F5 Fr [o2 Es2] Fi].
    split; try congruence; [by etransitivity| |by etransitivity].
    exists (o1 ++ o2). by rewrite Es2, Es1, app_assoc.
Qed.

Class Frames {A} (m : action (World S) NetworkError A) : Prop :=
  frames : forall w r w', m w = (r, w') -> stays w w'.

#[export] Instance frames_bind {A B} (m : action (World S) NetworkError A) f :
  Frames m -> (forall a : A, Frames (f a)) -> @Frames B (mbind f m).
Proof.
  intros Hm Hf w r w' [(a & w1 & E1 & E2)|(e & E & _)]%act_bind_inv.
  - transitivity w1; [by eapply Hm | by eapply Hf].
  - by eapply Hm.
Qed.

(** A step that only reads the state. *)
Lemma frames_read {A} (f : World S -> result NetworkError A) : Frames (fun w => (f w, w)).
Proof. intros w r w' [= _ <-]. reflexivity. Qed.

#[export] Instance frames_lift {A} (r : result NetworkError A) : Frames (lift r).
Proof. apply frames_read. Qed.
#[export] Instance frames_reject b e : Frames (act_reject b e).
Proof. apply frames_read. Qed.
#[export] Instance frames_ret {A} (a : A) : Frames (mret a).
Proof. apply frames_read. Qed.
#[export] Instance frames_selection b : Frames (acquire_selection b).
Proof. apply frames_read. Qed.
#[export] Instance frames_hello l md k : Frames (make_hello l md k).
Proof. intros w r w' [= _ <-]. reflexivity. Qed.
#[export] Instance frames_certificate : Frames observed_certificate_sha256.
Proof. apply frames_read. Qed.
#[export] Instance frames_stream : Frames stream_call.
Proof.
  intros w r w' E. unfold stream_call in E.
  destruct (stream_faults w) as [|[e|] l]; injection E as <- <-;
    (split; cbn; try done; exists []; by rewrite app_nil_r).
Qed.
#[export] Instance frames_write b n : Frames (write_frame b n).
Proof.
  intros w r w' E. unfold write_frame in E.
  destruct (write_faults w) as [|[e|] l]; injection E as <- <-;
    (split; cbn; try done; first [by eexists | exists []; by rewrite app_nil_r]).
Qed.
#[export] Instance frames_frame n : Frames (read_frame n).
Proof.
  intros w r w' E. unfold read_frame in E.
  destruct (inbox w) as [|[b|e] l] eqn:El; injection E as <- <-;
    (split; cbn; try done; first [exists []; by rewrite app_nil_r | rewrite El; by apply suffix_cons_r]).
Qed.
#[export] Instance frames_send {M} `{Prost M} (m : M) : Frames (send_message m).
Proof. unfold send_message, send_message_with_limit. apply _. Qed.
#[export] Instance frames_receive {M} `{Prost M} : Frames (receive_message (M := M)).
Proof. unfold receive_message, receive_message_with_limit. apply _. Qed.

Lemma require_paired_run id key s r s' :
  peer_repo_ok s -> require_paired id key s = (r, s') ->
  peer_repo_ok s' /\ view_eq (view s) (view s') /\
  forall p, r = Ok p -> known (view s) id = Some p /\ trust_state p = Paired /\
    (forall k, key = Some k -> k = rec_public_key p).
Proof.
  intros Hok E. unfold require_paired in E.
  apply act_bind_inv in E as [(found & s1 & Ef & E)|(e & Ef & ->)];
    apply act_map_err_inv in Ef as (r1 & Ef & Er1);
    destruct (find_peer_spec _ _ _ _ Hok Ef) as (Hok1 & Hv & Hk).
  2:{ split_and!; [done..|discriminate]. }
  symmetry in Er1. apply map_err_ok in Er1 as ->. specialize (Hk _ eq_refl). subst found.
  destruct (known (view s) id) as [p|] eqn:Ek; [destruct (is_trusted p) eqn:Et|];
    unfold mbind, action_bind, lift, ok_or, act_reject in E.
  - destruct (match key with Some k => negb (bool_decide (k = rec_public_key p)) | None => false end)
      eqn:Eb; injection E as <- <-; split_and!; try done.
    intros q [= <-]. split_and!; [done| |].
    + unfold is_trusted in Et. by apply bool_decide_eq_true in Et.
    + intros k ->. apply negb_false_iff in Eb. by apply bool_decide_eq_true in Eb.
  - injection E as <- <-. split_and!; done.
  - injection E as <- <-. split_and!; done.
Qed.

#[export] Instance frames_require id key : Frames (in_repo (require_paired id key)).
Proof.
  intros w r w' E. unfold in_repo in E. destruct (require_paired id key (repo w)) as [r1 s1] eqn:E1.
  injection E as <- <-. split; cbn; try done.
  - apply rtc_once. by exists id, key, r1.
  - exists []. by rewrite app_nil_r.
Qed.

(** What is known of trust stays. *)
Lemma st_repo w w' :
  stays w w' -> peer_repo_ok (repo w) ->
  peer_repo_ok (repo w') /\ view_eq (view (repo w)) (view (repo w')).
Proof.
  intros [_ _ _ _ _ Hl _ _]. induction Hl as [s|s s1 s2 (id & key & r & E) _ IH]; [done|].
  intros Hok. destruct (require_paired_run _ _ _ _ _ Hok E) as (Hok1 & Hv & _).
  destruct (IH Hok1) as [Hok2 Hv2]. split; [done|by etransitivity].
Qed.
#[export] Instance frames_if {A} (b : bool) (m n : action (World S) NetworkError A) :
  Frames m -> Frames n -> Frames (if b then m else n).
Proof. by destruct b. Qed.

Ltac frames_steps :=
  repeat match goal with
  | |- forall _, _ => intros ?
  | |- Frames (mbind _ _) => apply frames_bind
  | |- Frames (fun w => (_, w)) => apply frames_read
  | |- Frames (if _ then _ else _) => apply frames_if
  | |- Frames _ => apply _
  end.

#[export] Instance frames_finish conn l a b p d sel : Frames (finish_authentication conn l a b p d sel).
Proof.
  unfold finish_authentication. cbv zeta. frames_steps.
Qed.
#[export] Instance frames_expected conn l md e k : Frames (authenticate_expected conn l md e k).
Proof.
  destruct e; unfold authenticate_expected, authenticate_outbound, authenticate_outbound_paired; frames_steps.
Qed.
#[export] Instance frames_admit : Frames admit_probe.
Proof.
  intros w r w' E. unfold admit_probe in E. destruct (admit_discovery_probe _ _ _) as [r0 m].
  injection E as <- <-. split; cbn; try done. exists []. by rewrite app_nil_r.
Qed.
#[export] Instance frames_permit {A} (m : action (World S) NetworkError A) :
  Frames m -> Frames (with_probe_permit m).
Proof.
  intros Hm w r w' E. unfold with_probe_permit in E.
  destruct (probe_permits w) as [|n]; [injection E as <- <-; reflexivity|].
  destruct (m (with_probes (rates w) n w)) as [r1 w1] eqn:E1. injection E as <- <-.
  destruct (Hm _ _ _ E1). by split.
Qed.
#[export] Instance frames_is_paired id key : Frames (fun w : World S =>
  let (r, w') := in_repo (require_paired id key) w in (Ok (is_ok r), w')).
Proof.
  intros w r w'. destruct (in_repo _ w) as [x w1] eqn:E. intros [= <- <-]. by eapply frames_require.
Qed.
#[export] Instance frames_inbound conn l md : Frames (authenticate_inbound conn l md).
Proof.
  unfold authenticate_inbound. cbv zeta. frames_steps.
  intros w r w' [= _ <-]. reflexivity.
Qed.
End frames.

(** ** What a session vouches for *)

Section soundness.
Context `{PeerApi} `{Crypto} `{WireApi} `{Transport} {S : Type} `{!PeerRepository S}
  `{!PeerRepositoryLaws S}.

(** The repository knows the peer as paired, with this key. *)
Definition paired_in (r : S) (id : DeviceId) (key : DevicePublicKey) : Prop :=
  exists p, known (view r) id = Some p /\ trust_state p = Paired /\ rec_public_key p = key.

(** A message is among the frames the peer sends. *)
Definition received {M} `{Prost M} (w : World S) (m : M) : Prop :=
  exists b, Ok b ∈ inbox w /\ decode b = Ok m.

Lemma receive_inv {M} `{Prost M} w (m : M) w' :
  receive_message w = (Ok m, w') -> received w m /\ stays w w'.
Proof.
  intros E. split; [|by eapply frames_receive].
  unfold receive_message, receive_message_with_limit in E.
  apply act_bind_ok in E as (b & w1 & Eb & E). unfold lift in E. injection E as Ed _.
  apply map_err_ok in Ed. exists b. split; [|done].
  unfold read_frame in Eb. destruct (inbox w) as [|[c|e] rest]; [done| |done].
  injection Eb as <- _. set_solver.
Qed.

Lemma received_stays {M} `{Prost M} w w' (m : M) : stays w w' -> received w' m -> received w m.
Proof.
  intros Hw (b & Hb & Hd). exists b. split; [|done]. destruct (st_inbox _ _ Hw) as [k ->]. set_solver.
Qed.

(** [s] results from a handshake in [w] in which the hellos [local] and
    [remote] were exchanged. *)
Record vouched (w : World S) (l : Local) (local remote : SessionHello) (d : Direction)
    (s : Session) : Prop := {
  vo_hello : exists rp, validate_hello remote (Some (kind s)) = Ok rp /\
    peer_device_id (peer s) = peer_device_id rp /\
    peer_public_key (peer s) = peer_public_key rp /\
    peer_metadata (peer s) = peer_metadata rp /\
    peer_certificate_sha256 (peer s) = peer_certificate_sha256 rp;
  vo_other : peer_device_id (peer s) <> local_device_id l;
  vo_minor : negotiate_protocol_minor local remote = Ok (protocol_minor s);
  vo_signed : exists transcript auth signature,
    session_transcript (exporter w) local remote = Ok transcript /\
    received w auth /\ signature_from_bytes (auth_signature auth) = Ok signature /\
    verify_signature (peer_public_key (peer s)) SessionAuthentication transcript signature = Ok tt /\
    verification_code s = verification_code_of transcript;
  vo_paired : nearby_kind (kind s) = false ->
    paired_in (repo w) (peer_device_id (peer s)) (peer_public_key (peer s));
  vo_rank : rank s = match d with
                     | DirectionOutbound => mkRank (local_device_id l) (nonce local)
                     | DirectionInbound => mkRank (peer_device_id (peer s)) (nonce remote)
                     end
}.

Lemma paired_in_view r r' id key :
  view_eq (view r) (view r') -> paired_in r' id key -> paired_in r id key.
Proof. intros [Hk _] (p & Hp & Ht & Ekey). exists p. by rewrite Hk. Qed.

Lemma validate_hello_kind hello k rp :
  validate_hello hello (Some k) = Ok rp -> decode_kind (session_kind hello) = Ok k.
Proof.
  unfold validate_hello. destruct (_ || _) eqn:E; [done|]. intros Hv.
  destruct (decode_kind (session_kind hello)) as [k'|]; [|done]. cbn in Hv.
  destruct (negb (bool_decide (k = k'))) eqn:Ek; [done|].
  apply negb_false_iff, bool_decide_eq_true in Ek. by subst.
Qed.

Lemma finish_vouched conn l local remote rp d sel w s w' kind' :
  peer_repo_ok (repo w) -> validate_hello remote (Some kind') = Ok rp ->
  finish_authentication conn l local remote rp d sel w = (Ok s, w') ->
  kind s = kind' /\ vouched w l local remote d s.
Proof.
  intros Hok Hv Hf. unfold finish_authentication in Hf. cbv zeta in Hf.
  pose proof (validate_hello_kind _ _ _ Hv) as Hkind.
  apply act_bind_ok in Hf as ([] & w1 & E1 & Hf). unfold act_reject in E1.
  destruct (bool_decide (peer_device_id rp = local_device_id l)) eqn:Eself; [done|].
  injection E1 as <-. apply bool_decide_eq_false in Eself.
  apply act_bind_ok in Hf as (k & w2 & E2 & Hf). injection E2 as Ek <-.
  assert (k = kind') as -> by congruence.
  apply act_bind_ok in Hf as (minor & w3 & E3 & Hf). injection E3 as Eminor <-.
  apply act_bind_ok in Hf as (t & w4 & E4 & Hf). injection E4 as Et <-.
  apply act_bind_ok in Hf as ([] & w5 & E5 & Hf). apply frames_send in E5.
  apply act_bind_ok in Hf as (auth & w6 & E6 & Hf). apply receive_inv in E6 as [Hauth E6].
  apply (received_stays w) in Hauth; [|done].
  apply act_bind_ok in Hf as ([] & w7 & E7 & Hf). unfold act_reject in E7.
  destruct (negb (String.eqb (auth_device_id auth) _)) eqn:Eid; [done|]. injection E7 as <-.
  apply act_bind_ok in Hf as (sig & w8 & E8 & Hf). injection E8 as Esig <-.
  apply act_bind_ok in Hf as ([] & w9 & E9 & Hf). injection E9 as Ever <-.
  apply act_bind_ok in Hf as ([] & w10 & E10 & Hf).
  assert (Hw6 : stays w w6) by (by transitivity w5).
  destruct (st_repo _ _ Hw6 Hok) as [Hok6 Hview].
  assert (Hpaired : nearby_kind kind' = false ->
    paired_in (repo w) (peer_device_id rp) (peer_public_key rp)).
  { intros Hn. rewrite Hn in E10. apply act_bind_ok in E10 as (p & w11 & E10 & _).
    unfold in_repo in E10. destruct (require_paired _ _ (repo w6)) as [r1 s1] eqn:Er.
    injection E10 as -> _. destruct (require_paired_run _ _ _ _ _ Hok6 Er) as (_ & _ & Hp).
    destruct (Hp p eq_refl) as (Hkn & Htr & Hkey). apply (paired_in_view _ _ _ _ Hview).
    exists p. split_and!; [done..|]. symmetry. by apply Hkey. }
  clear E10. action_inv. cbn [kind]. split; [done|].
  split; cbn [kind peer peer_device_id peer_public_key peer_metadata peer_certificate_sha256 rank
    verification_code protocol_minor]; try done; [by eauto 10|].
  by exists t, auth, sig.
Qed.

(** Who sends the accepted frame of a race holds the selection permit, and the
    session is a direct one on the connection it was made on. *)
Lemma finish_committed conn l local remote rp d sel w s w' :
  finish_authentication conn l local remote rp d sel w = (Ok s, w') ->
  (sel = true -> selection_open w = true) /\ connection s = conn /\
  relay_tunnel s = None /\ recovery_endpoint s = None.
Proof.
  intros Hf. unfold finish_authentication in Hf. cbv zeta in Hf.
  assert (exists w0 w1, stays w w0 /\ acquire_selection (S := S) sel w0 = (Ok tt, w1)) as (w0 & w1 & Hw & E).
  { do 10 (let E := fresh "E" in apply act_bind_ok in Hf as (? & ? & E & Hf);
      first [injection E as _ <- | apply frames in E]).
    apply act_bind_ok in Hf as ([] & w1 & Hsel & Hf).
    eexists _, w1. split; [|exact Hsel]. 
    repeat (done || (etransitivity; [eassumption|])). }
  split; [|action_inv; cbn; done].
  intros ->. unfold acquire_selection in E. cbn [andb] in E. rewrite (st_selection _ _ Hw) in E.
  by destruct (selection_open w).
Qed.

(** The part of the outbound variants that reads the hello of the peer. *)
Lemma make_hello_inv l md k w (h : SessionHello) w' :
  make_hello (S := S) l md k w = (Ok h, w') ->
  h = local_hello l md k (Handshake.fresh_nonce w) /\ w' = w.
Proof. by intros [= <- <-]. Qed.
(** The same for a dial. *)
Lemma outbound_committed conn l md expected k w s w' :
  authenticate_expected conn l md expected k w = (Ok s, w') ->
  selection_open w = true /\ connection s = conn /\ relay_tunnel s = None /\
  recovery_endpoint s = None.
Proof.
  intros Hf. assert (exists w0 w1 local remote rp, stays w w0 /\
    finish_authentication conn l local remote rp DirectionOutbound true w0 = (Ok s, w1))
    as (w0 & w1 & local & remote & rp & Hw & E).
  { destruct expected; unfold authenticate_expected in Hf;
      [unfold authenticate_outbound in Hf | unfold authenticate_outbound_paired in Hf];
      repeat (lazymatch type of Hf with finish_authentication _ _ _ _ _ _ _ _ = _ => fail | _ => idtac end;
              let E := fresh "E" in apply act_bind_ok in Hf as (? & ? & E & Hf);
              first [injection E as _ <- | apply frames in E]);
      eexists _, _, _, _, _; (split; [|exact Hf]);
      repeat (done || (etransitivity; [eassumption|])). }
  destruct (finish_committed _ _ _ _ _ _ _ _ _ _ E) as (Hs & Hc).
  rewrite (st_selection _ _ Hw) in Hs. auto.
Qed.

(** The same for the answering side. *)
Lemma inbound_committed conn l md w s w' :
  authenticate_inbound conn l md w = (Ok s, w') ->
  connection s = conn /\ relay_tunnel s = None /\ recovery_endpoint s = None.
Proof.
  intros Hf. unfold authenticate_inbound in Hf. cbv zeta in Hf.
  assert (Hrest : forall w w' k remote rp,
    mbind (fun local => mbind (fun _ => finish_authentication conn l local remote rp
      DirectionInbound false) (send_message local)) (make_hello l md k) w = (Ok s, w') ->
    connection s = conn /\ relay_tunnel s = None /\ recovery_endpoint s = None).
  { intros u u' k remote rp E. apply act_bind_ok in E as (local & w1 & _ & E).
    apply act_bind_ok in E as ([] & w2 & _ & E). by apply finish_committed in E as [_ ?]. }
  do 6 (apply act_bind_ok in Hf as (? & ? & _ & Hf)).
  destruct (bool_decide _); [|by eapply Hrest].
  apply act_bind_ok in Hf as ([] & w7 & _ & Hf). unfold with_probe_permit in Hf.
  destruct (probe_permits w7); [discriminate Hf|].
  match type of Hf with (let (_, _) := ?m ?w in _) = _ => destruct (m w) as [y w8] eqn:E end.
  injection Hf as -> _. by eapply Hrest.
Qed.

(** A session vouched for after some steps is vouched for before them. *)
Lemma vouched_stays w w' l local remote d s :
  peer_repo_ok (repo w) -> stays w w' -> vouched w' l local remote d s ->
  vouched w l local remote d s.
Proof.
  intros Hok Hw [Hh Ho Hm Hs Hp Hr]. split; try done.
  - rewrite (st_exporter _ _ Hw) in Hs. destruct Hs as (t & a & sig & ? & Ha & ?).
    exists t, a, sig. split_and!; try tauto. by apply (received_stays w w').
  - intros Hn. destruct (st_repo _ _ Hw Hok) as [_ Hview].
    by apply (paired_in_view _ _ _ _ Hview), Hp.
Qed.

(** The outbound variants: the hello exchange, then [finish_authentication]. *)
Lemma outbound_vouched conn l md expected k w s w' :
  peer_repo_ok (repo w) ->
  authenticate_expected conn l md expected k w = (Ok s, w') ->
  exists remote,
    vouched w l (local_hello l md k (Handshake.fresh_nonce w)) remote DirectionOutbound s /\
    received w remote /\ kind s = k /\ peer_device_id (peer s) = expected_id expected /\
    peer_public_key (peer s) = expected_key expected /\
    observed_certificate_sha256 w = (Ok (peer_certificate_sha256 (peer s)), w) /\
    match expected with
    | ExpectedAdvertised p => peer_certificate_sha256 (peer s) = adv_certificate_sha256 p
    | ExpectedPaired _ => True
    end.
Proof.
  intros Hok Hrun.
  assert (exists remote rp observed w1,
    observed_certificate_sha256 w = (Ok observed, w) /\ stays w w1 /\ received w remote /\
    validate_hello remote (Some k) = Ok rp /\ peer_device_id rp = expected_id expected /\
    peer_public_key rp = expected_key expected /\ peer_certificate_sha256 rp = observed /\
    match expected with
    | ExpectedAdvertised p => peer_certificate_sha256 rp = adv_certificate_sha256 p
    | ExpectedPaired _ => True
    end /\
    finish_authentication conn l (local_hello l md k (Handshake.fresh_nonce w)) remote rp
      DirectionOutbound true w1 = (Ok s, w'))
    as (remote & rp & observed & w1 & Hobs & Hw & Hrec & Hv & Hid & Hkey & Hcert & Hadv & Hfin).
  { destruct expected as [p|p]; cbn [authenticate_expected expected_id expected_key] in *;
      [unfold authenticate_outbound in Hrun | unfold authenticate_outbound_paired in Hrun];
      apply act_bind_ok in Hrun as (observed & w1 & Hobs & Hrun);
      pose proof Hobs as Hobs'; apply frames_certificate in Hobs' as Hw1;
      (assert (w1 = w) as -> by (unfold observed_certificate_sha256 in Hobs; congruence));
      [apply act_bind_ok in Hrun as ([] & w2 & E2 & Hrun); unfold act_reject in E2;
       destruct (negb _) eqn:Eadv; [discriminate E2|]; injection E2 as <- |];
      apply act_bind_ok in Hrun as ([] & w3 & E3 & Hrun); apply frames_stream in E3;
      apply act_bind_ok in Hrun as (local & w4 & E4 & Hrun);
      apply make_hello_inv in E4 as [-> ->]; rewrite (st_nonce _ _ E3) in Hrun;
      apply act_bind_ok in Hrun as ([] & w5 & E5 & Hrun); apply frames_send in E5;
      apply act_bind_ok in Hrun as (remote & w6 & E6 & Hrun); apply receive_inv in E6 as [Hrec E6];
      action_inv; destruct_bools;
      match goal with
      | Hf : finish_authentication _ _ _ _ ?rp _ _ ?w1 = _ |- _ => exists remote, rp, observed, w1
      end; split_and!; try done; try congruence;
      first [by (transitivity w3; [done | by transitivity w5]) |
             by apply (received_stays w w5); [transitivity w3|]]. }
  destruct (st_repo _ _ Hw Hok) as [Hok1 Hview].
  destruct (finish_vouched _ _ _ _ _ _ _ _ _ _ _ Hok1 Hv Hfin) as [Hkind Hvo].
  destruct (vo_hello _ _ _ _ _ _ Hvo) as (rp' & Hv' & Eid & Ekey & Emd & Ecert).
  rewrite Hkind in Hv'. assert (rp' = rp) as -> by congruence.
  exists remote. split_and!; try congruence.
  - by apply (vouched_stays w w1).
  - destruct expected; [congruence|done].
Qed.

Lemma is_paired_run id key w r w1 :
  peer_repo_ok (repo w) -> in_repo (require_paired id (Some key)) w = (r, w1) ->
  is_ok r = true -> paired_in (repo w) id key.
Proof.
  intros Hok E Hr. unfold in_repo in E. destruct (require_paired id (Some key) (repo w)) as [r1 s1] eqn:Er.
  injection E as <- <-. destruct (require_paired_run _ _ _ _ _ Hok Er) as (_ & _ & Hp).
  destruct r1 as [p|]; [|done]. destruct (Hp p eq_refl) as (Hkn & Htr & Hkey).
  exists p. split_and!; [done..|]. symmetry. by apply Hkey.
Qed.

Lemma with_permit_run {A} (m : action (World S) NetworkError A) w a w' :
  with_probe_permit m w = (Ok a, w') -> exists w1 w2, stays w w1 /\ m w1 = (Ok a, w2).
Proof.
  unfold with_probe_permit. destruct (probe_permits w) as [|n]; [done|].
  destruct (m (with_probes (rates w) n w)) as [r w2] eqn:E. intros [= -> <-].
  exists (with_probes (rates w) n w), w2. split; [|done].
  split; try done. exists []. by rewrite app_nil_r.
Qed.

Lemma inbound_vouched conn l md w s w' :
  peer_repo_ok (repo w) -> authenticate_inbound conn l md w = (Ok s, w') ->
  exists remote,
    vouched w l (local_hello l md (kind s) (Handshake.fresh_nonce w)) remote DirectionInbound s /\
    received w remote /\
    (discoverable w = true \/
     paired_in (repo w) (peer_device_id (peer s)) (peer_public_key (peer s))).
Proof.
  intros Hok Hrun. unfold authenticate_inbound in Hrun. cbv zeta in Hrun.
  apply act_bind_ok in Hrun as ([] & w1 & E1 & Hrun). apply frames_stream in E1.
  apply act_bind_ok in Hrun as (remote & w2 & E2 & Hrun). apply receive_inv in E2 as [Hrec E2].
  apply (received_stays w) in Hrec; [|done].
  assert (Hw2 : stays w w2) by by transitivity w1. destruct (st_repo _ _ Hw2 Hok) as [Hok2 Hview].
  apply act_bind_ok in Hrun as (k & w3 & E3 & Hrun). injection E3 as Ek <-.
  apply act_bind_ok in Hrun as (rp & w4 & E4 & Hrun). injection E4 as Hv <-.
  apply act_bind_ok in Hrun as (paired & w5 & E5 & Hrun).
  destruct (in_repo _ w2) as [rpaired w5'] eqn:Erepo. injection E5 as <- <-.
  pose proof (is_paired_run _ _ _ _ _ Hok2 Erepo) as Hpaired. apply frames_require in Erepo.
  assert (Hw5 : stays w w5') by by transitivity w2.
  apply act_bind_ok in Hrun as ([] & w6 & E6 & Hrun). unfold act_reject in E6.
  destruct (_ && _) eqn:Eadmit in E6; [discriminate E6|]. injection E6 as <-.
  assert (exists w7 w8, stays w5' w7 /\
    mbind (fun local => mbind (fun _ => finish_authentication conn l local remote rp
      DirectionInbound false) (send_message local)) (make_hello l md k) w7 = (Ok s, w8))
    as (w7 & w8 & Hw7 & Hrest).
  { destruct (bool_decide (k = DiscoveryProbe)).
    - apply act_bind_ok in Hrun as ([] & w7 & E7 & Hrun). apply frames_admit in E7.
      apply with_permit_run in Hrun as (w8 & w9 & Hw8 & Hrun). exists w8, w9.
      split; [by transitivity w7 | exact Hrun].
    - by exists w5', w'. }
  apply act_bind_ok in Hrest as (local & w9 & E9 & Hrest). apply make_hello_inv in E9 as [-> ->].
  rewrite (st_nonce _ _ Hw7), (st_nonce _ _ Hw5) in Hrest.
  apply act_bind_ok in Hrest as ([] & w10 & E10 & Hfin). apply frames_send in E10.
  assert (Hw10 : stays w w10) by (transitivity w5'; [done|]; by transitivity w7).
  destruct (st_repo _ _ Hw10 Hok) as [Hok10 _].
  destruct (finish_vouched _ _ _ _ _ _ _ _ _ _ _ Hok10 Hv Hfin) as [Hkind Hvo].
  apply (vouched_stays w) in Hvo; [|done..]. exists remote. rewrite Hkind.
  split; [done|]. split; [done|]. destruct (vo_hello _ _ _ _ _ _ Hvo) as (rp' & Hv' & Eid & Ekey & _).
  rewrite Hkind in Hv'. assert (rp' = rp) as -> by congruence.
  destruct (discoverable w) eqn:Ed; [by left|]. right.
  rewrite (st_discoverable _ _ Hw5), Ed in Eadmit. cbn [negb andb] in Eadmit.
  destruct (is_ok rpaired) eqn:Ep.
  - rewrite Eid, Ekey. apply (paired_in_view _ _ _ _ Hview). by apply Hpaired.
  - cbn in Eadmit. apply (vo_paired _ _ _ _ _ _ Hvo). congruence.
Qed.
End soundness.
