(* ===== verification/Mutual.v ===== *)
(** * Mutual

    What two devices can rely on after a handshake: a session vouches for its
    peer, both sides saw the same handshake, and two honest devices complete
    it. *)

From S2P Require Import Prelude Errors Addr Peer Wire Identity Registry Discovery Probe Handshake.
From S2P Require Import Auth Endpoint RepositoryDb Repository.

(** ** Two honest sides *)

Section completeness.
Context `{PeerApi} `{Crypto} `{WireApi} `{Transport} {S : Type} `{!PeerRepository S}
  `{!PeerLaws} `{!CryptoLaws} `{!WireLaws}.

(** A side whose own values are in range, on a connection that does not fail. *)
Record fit (l : Local) (md : DeviceMetadata) (w : World S) : Prop := {
  fit_local : exists i instance, local_of i instance = Some l /\
    blen (certificate_sha256 i) = 32 /\ (instance = [] \/ blen instance = 16);
  fit_metadata : slen (name md) <= 255 /\ slen (platform md) <= 64 /\ slen (model md) <= 255;
  fit_nonce : blen (fresh_nonce w) = 32;
  fit_session : fresh_session_id w <> 0 /\ 0 < clock_ms w;
  fit_calls : stream_faults w = [] /\ write_faults w = [] /\ selection_open w = true
}.

(** The frames a side sends in a handshake with transcript [t]. *)
Definition frames_of (l : Local) (own : SessionHello) (w : World S) (t : list byte)
    : result string (list (list byte)) :=
  hello ← encode own;
  auth ← encode (mkAuth (as_str (local_device_id l)) (local_sign l SessionAuthentication t));
  accepted ← encode (mkAccepted (fresh_session_id w) (clock_ms w) (local_port w)
                       MAX_PROTOCOL_MINOR (local_process_instance_id l));
  Ok [hello; auth; accepted].

(** The repository answers that the peer is paired, where the kind needs it. *)
Definition trusts (k : SessionKind) (id : DeviceId) (key : DevicePublicKey) (r : S) : Prop :=
  nearby_kind k = false -> is_ok (require_paired id (Some key) r).1 = true.

Lemma local_of_inv i instance l :
  local_of i instance = Some l ->
  local_identity l = i /\ local_process_instance_id l = instance /\
  local_device_id l = from_public_key (local_public_key l) /\
  public_key_value i = Some (local_public_key l) /\
  sign i EndpointBinding (certificate_sha256 i) = Some (local_binding l).
Proof.
  destruct (local_of_total i instance) as (l' & E & ? & ? & ? & ?). intros Hl.
  assert (l' = l) as -> by congruence. split_and!; try done.
  unfold local_of, identity_binding_signature in Hl.
  destruct (identity_device_id i); [|done]. destruct (public_key_value i); [|done].
  cbn in Hl. destruct (sign i EndpointBinding _); [|done]. by injection Hl as <-.
Qed.

Lemma local_sign_verifies l md w c m :
  fit l md w -> verify_signature (local_public_key l) c m (local_sign l c m) = Ok tt /\
  signature_from_bytes (local_sign l c m) = Ok (local_sign l c m).
Proof.
  intros [(i & instance & Hl & _) _ _ _ _]. apply local_of_inv in Hl as (Ei & _ & _ & Hk & _).
  unfold local_sign. rewrite Ei. pose proof (sign_total i c m) as Es.
  split; [by apply (sign_verify i); rewrite ?Es|]. rewrite Es. cbn.
  destruct (signature_from_bytes_64 _ (sign_bytes_length (signing_key i) (signing_transcript c m)))
    as [s E]. rewrite E. by apply signature_from_bytes_id in E as ->.
Qed.

(** What the peer reads in the hello of a fit side. *)
Definition shown_peer (l : Local) (md : DeviceMetadata) : SessionPeer :=
  mkSessionPeer (local_device_id l) (local_public_key l)
    (mkMetadata (name md) (platform md) (model md)) (certificate_sha256 (local_identity l)) 0.

Lemma local_hello_valid l md k w :
  fit l md w ->
  validate_hello (local_hello l md k (fresh_nonce w)) (Some k) = Ok (shown_peer l md).
Proof.
  intros Hfit. pose proof Hfit as [(i & instance & Hl & Hcert & _) (Hn & Hp & Hm) Hnonce _ _].
  apply local_of_inv in Hl as (Ei & _ & Eid & Hk & Hb).
  destruct minor_range as [Hminor _]. unfold validate_hello, local_hello. cbn [protocol_major
    max_protocol_minor min_protocol_minor nonce endpoint_certificate_sha256 device_name
    hello_platform hello_model session_kind hello_device_id root_public_key
    endpoint_binding_signature].
  rewrite !(proj2 (Z.eqb_eq _ _)) by congruence.
  rewrite !(proj2 (Z.ltb_ge _ _)) by lia. rewrite !Z.gtb_ltb.
  rewrite !(proj2 (Z.ltb_ge _ _)) by lia. cbn [negb orb].
  rewrite decode_encode_kind. cbn [mbind result_bind]. rewrite bool_decide_true by done.
  cbn [negb]. rewrite parse_as_str, key_from_bytes_bytes. cbn [map_err mbind result_bind].
  rewrite (proj2 (verify_key_iff _ _) Eid). cbn [map_err mbind result_bind].
  rewrite Ei. cbn [negb].
  rewrite sign_total in Hb. injection Hb as Hb.
  destruct (signature_from_bytes_64 (local_binding l)) as [s Es].
  { rewrite <- Hb. apply sign_bytes_length. }
  rewrite Es. pose proof (signature_from_bytes_id _ _ Es) as ->.
  cbn [map_err mbind result_bind].
  rewrite (sign_verify i EndpointBinding (certificate_sha256 i) (local_binding l)
             (local_public_key l) Hk) by (rewrite sign_total; by f_equal).
  unfold shown_peer. by rewrite Ei.
Qed.
(** A quiet connection: no call fails, and the frames of the peer arrive. *)
Record quiet (w : World S) (frames : list (list byte)) : Prop := {
  qu_streams : stream_faults w = [];
  qu_writes : write_faults w = [];
  qu_selection : selection_open w = true;
  qu_inbox : inbox w = map Ok frames
}.

Lemma stream_quiet w frames : quiet w frames ->
  exists w', stream_call w = (Ok tt, w') /\ w' = with_streams [] w /\ quiet w' frames.
Proof. intros [Hs ? ? ?]. unfold stream_call. rewrite Hs. by eexists. Qed.

Lemma send_quiet {M} `{Prost M} (m : M) b w frames : quiet w frames -> encode m = Ok b ->
  exists w', send_message m w = (Ok tt, w') /\
    w' = with_writes [] (sent w ++ [(b, HANDSHAKE_FRAME_LIMIT)]) w /\ quiet w' frames.
Proof.
  intros [? Hs ? ?] Hm. unfold send_message, send_message_with_limit, mbind, action_bind, lift.
  rewrite Hm. cbn. unfold write_frame. rewrite Hs. by eexists.
Qed.

Lemma receive_quiet {M} `{Prost M} (m : M) b w frames : quiet w (b :: frames) -> decode b = Ok m ->
  exists w', receive_message w = (Ok m, w') /\ w' = with_inbox (map Ok frames) w /\ quiet w' frames.
Proof.
  intros [? ? ? Hs] Hm. unfold receive_message, receive_message_with_limit, mbind, action_bind, lift.
  unfold read_frame. rewrite Hs. cbn. rewrite Hm. by eexists.
Qed.

Lemma finish_completes conn l own rem rp d sel w k t sg acc instance fa fc ba bc :
  quiet w [fa; fc] -> peer_device_id rp <> local_device_id l ->
  decode_kind (session_kind rem) = Ok k -> negotiate_protocol_minor own rem = Ok MAX_PROTOCOL_MINOR ->
  session_transcript (exporter w) own rem = Ok t ->
  encode (mkAuth (as_str (local_device_id l)) (local_sign l SessionAuthentication t)) = Ok ba ->
  encode (mkAccepted (fresh_session_id w) (clock_ms w) (local_port w) MAX_PROTOCOL_MINOR
            (local_process_instance_id l)) = Ok bc ->
  decode fa = Ok (mkAuth (as_str (peer_device_id rp)) sg) -> signature_from_bytes sg = Ok sg ->
  verify_signature (peer_public_key rp) SessionAuthentication t sg = Ok tt ->
  decode fc = Ok acc -> acc_session_id acc <> 0 -> 0 < accepted_at_ms acc ->
  acc_protocol_minor acc = MAX_PROTOCOL_MINOR ->
  validate_process_instance_id (process_instance_id acc) = Ok instance ->
  trusts k (peer_device_id rp) (peer_public_key rp) (repo w) ->
  exists s w', finish_authentication conn l own rem rp d sel w = (Ok s, w') /\
    sent w' = sent w ++ [(ba, HANDSHAKE_FRAME_LIMIT); (bc, HANDSHAKE_FRAME_LIMIT)] /\
    verification_code s = verification_code_of t /\ protocol_minor s = MAX_PROTOCOL_MINOR /\
    kind s = k /\
    rank s = match d with
             | DirectionOutbound => mkRank (local_device_id l) (nonce own)
             | DirectionInbound => mkRank (peer_device_id rp) (nonce rem)
             end.
Proof.
  intros Hq Hne Hk Hm Ht Ha Hc Hfa Hsg Hv Hfc Hid Hat Hminor Hins Htr.
  unfold finish_authentication. rewrite bool_decide_false by done. cbv zeta.
  rewrite Hk, Hm. unfold act_reject, lift.
  do 3 (erewrite act_bind_eq by reflexivity).
  erewrite act_bind_eq by (by rewrite Ht).
  destruct (send_quiet _ _ _ _ Hq Ha) as (w1 & E1 & Ew1 & Hq1). erewrite act_bind_eq by exact E1.
  destruct (receive_quiet _ _ _ _ Hq1 Hfa) as (w2 & E2 & Ew2 & Hq2). erewrite act_bind_eq by exact E2.
  cbn [auth_device_id auth_signature]. rewrite String.eqb_refl. cbn [negb].
  erewrite act_bind_eq by reflexivity. erewrite act_bind_eq by (by rewrite Hsg).
  erewrite act_bind_eq by (by rewrite Hv).
  assert (exists r2, (if nearby_kind k then mret tt
    else in_repo (require_paired (peer_device_id rp) (Some (peer_public_key rp))) ;; mret tt) w2
    = (Ok tt, with_repo r2 w2)) as (r2 & E3).
  { unfold trusts in Htr. destruct (nearby_kind k); [exists (repo w2); by destruct w2|].
    specialize (Htr eq_refl). assert (Er : repo w2 = repo w) by (by rewrite Ew2, Ew1).
    unfold mbind, action_bind, in_repo. rewrite Er.
    destruct (require_paired _ _ (repo w)) as [[p|] r2]; [by exists r2 | done]. }
  erewrite act_bind_eq by exact E3. set (w3 := with_repo r2 w2).
  assert (Hq3 : quiet w3 [fc]) by (by destruct Hq2).
  erewrite act_bind_eq.
  2:{ unfold acquire_selection. rewrite (qu_selection _ _ Hq3), andb_false_r. reflexivity. }
  erewrite act_bind_eq by reflexivity.
  assert (Hc3 : encode (mkAccepted (fresh_session_id w3) (clock_ms w3) (local_port w3)
    MAX_PROTOCOL_MINOR (local_process_instance_id l)) = Ok bc) by (unfold w3; by rewrite Ew2, Ew1).
  destruct (send_quiet _ _ _ _ Hq3 Hc3) as (w4 & E4 & Ew4 & Hq4). erewrite act_bind_eq by exact E4.
  destruct (receive_quiet _ _ _ _ Hq4 Hfc) as (w5 & E5 & Ew5 & Hq5). erewrite act_bind_eq by exact E5.
  rewrite (proj2 (Z.eqb_neq _ _) Hid), (proj2 (Z.leb_gt _ _) Hat), Hminor, Z.eqb_refl, Hins.
  do 3 (erewrite act_bind_eq by reflexivity).
  destruct (stream_quiet _ _ Hq5) as (w6 & E6 & Ew6 & _). erewrite act_bind_eq by exact E6.
  eexists _, _. split; [reflexivity|]. split_and!; try reflexivity.
  rewrite Ew6, Ew5, Ew4. unfold w3. rewrite Ew2, Ew1. cbn. by rewrite <- app_assoc.
Qed.
(** What a side keeps up to its final messages. *)
Record opened (w w1 : World S) (b : list byte) (frames : list (list byte)) : Prop := {
  op_quiet : quiet w1 frames;
  op_sent : sent w1 = sent w ++ [(b, HANDSHAKE_FRAME_LIMIT)];
  op_exporter : exporter w1 = exporter w;
  op_values : fresh_session_id w1 = fresh_session_id w /\ clock_ms w1 = clock_ms w /\
    local_port w1 = local_port w
}.

Lemma outbound_opens conn l md expected k w rem rp b0 frames a0 :
  let own := local_hello l md k (fresh_nonce w) in
  quiet w (b0 :: frames) -> encode own = Ok a0 -> decode b0 = Ok rem ->
  validate_hello rem (Some k) = Ok rp ->
  observed_certificate_sha256 w = (Ok (peer_certificate_sha256 rp), w) ->
  peer_device_id rp = expected_id expected -> peer_public_key rp = expected_key expected ->
  match expected with
  | ExpectedAdvertised p => peer_certificate_sha256 rp = adv_certificate_sha256 p
  | ExpectedPaired _ => True
  end ->
  exists w1, authenticate_expected conn l md expected k w =
      finish_authentication conn l own rem rp DirectionOutbound true w1 /\
    opened w w1 a0 frames /\ repo w1 = repo w.
Proof.
  intros own Hq Ha Hb Hv Hobs Hid Hkey Hadv.
  destruct (stream_quiet _ _ Hq) as (w1 & E1 & Ew1 & Hq1).
  destruct (send_quiet _ _ _ _ Hq1 Ha) as (w2 & E2 & Ew2 & Hq2).
  destruct (receive_quiet _ _ _ _ Hq2 Hb) as (w3 & E3 & Ew3 & Hq3).
  exists w3. split; [|split; [split; [done|..]|]]; try by rewrite Ew3, Ew2, Ew1.
  unfold authenticate_expected, authenticate_outbound, authenticate_outbound_paired.
  assert (Hown : make_hello l md k w1 = (Ok own, w1)) by (by rewrite Ew1).
  destruct expected as [p|p]; cbn [expected_id expected_key] in Hid, Hkey;
    erewrite act_bind_eq by exact Hobs; rewrite ?Hadv.
  - rewrite (bool_decide_true (_ = _)) by done.
    cbn [negb]. erewrite act_bind_eq by reflexivity.
    erewrite act_bind_eq by exact E1. erewrite act_bind_eq by exact Hown.
    erewrite act_bind_eq by exact E2. erewrite act_bind_eq by exact E3.
    unfold lift. rewrite Hv. erewrite act_bind_eq by reflexivity.
    rewrite !bool_decide_true by done. cbn [negb orb]. by do 2 (erewrite act_bind_eq by reflexivity).
  - erewrite act_bind_eq by exact E1. erewrite act_bind_eq by exact Hown.
    erewrite act_bind_eq by exact E2. erewrite act_bind_eq by exact E3.
    unfold lift. rewrite Hv. erewrite act_bind_eq by reflexivity.
    rewrite !bool_decide_true by done. cbn [negb orb]. by erewrite act_bind_eq by reflexivity.
Qed.

Lemma inbound_opens conn l md k w rem rp a0 frames b0 :
  let own := local_hello l md k (fresh_nonce w) in
  quiet w (a0 :: frames) -> encode own = Ok b0 -> decode a0 = Ok rem ->
  validate_hello rem (Some k) = Ok rp -> k <> DiscoveryProbe ->
  (nearby_kind k = true -> discoverable w = true) ->
  exists w1, authenticate_inbound conn l md w =
      finish_authentication conn l own rem rp DirectionInbound false w1 /\
    opened w w1 b0 frames /\
    repo w1 = (require_paired (peer_device_id rp) (Some (peer_public_key rp)) (repo w)).2.
Proof.
  intros own Hq Hb Ha Hv Hk Hdisc.
  destruct (stream_quiet _ _ Hq) as (w1 & E1 & Ew1 & Hq1).
  destruct (receive_quiet _ _ _ _ Hq1 Ha) as (w2 & E2 & Ew2 & Hq2).
  destruct (require_paired (peer_device_id rp) (Some (peer_public_key rp)) (repo w)) as [r s] eqn:Er.
  set (w3 := with_repo s w2). assert (Hq3 : quiet w3 frames) by (by destruct Hq2).
  destruct (send_quiet _ _ _ _ Hq3 Hb) as (w4 & E4 & Ew4 & Hq4).
  exists w4. split; [|split; [split; [done|..]|]];
    try by (rewrite Ew4; unfold w3; rewrite Ew2, Ew1).
  assert (Hown : make_hello l md k w3 = (Ok own, w3)) by (unfold w3; by rewrite Ew2, Ew1).
  assert (Hrepo : repo w2 = repo w) by (by rewrite Ew2, Ew1).
  assert (Hd : discoverable w3 = discoverable w) by (unfold w3; by rewrite Ew2, Ew1).
  unfold authenticate_inbound. cbv zeta.
  erewrite act_bind_eq by exact E1. erewrite act_bind_eq by exact E2.
  unfold lift. rewrite (validate_hello_kind _ _ _ Hv). erewrite act_bind_eq by reflexivity.
  rewrite Hv. erewrite act_bind_eq by reflexivity.
  erewrite (act_bind_eq _ _ w2 (is_ok r) w3).
  2:{ unfold in_repo. by rewrite Hrepo, Er. }
  erewrite (act_bind_eq _ _ w3 tt w3).
  2:{ unfold act_reject. rewrite Hd. destruct (nearby_kind k); [rewrite Hdisc by done; done|].
      by rewrite andb_false_r. }
  rewrite bool_decide_false by done. erewrite act_bind_eq by exact Hown.
  by erewrite act_bind_eq by exact E4.
Qed.
Lemma fit_instance l md w : fit l md w ->
  exists o, validate_process_instance_id (local_process_instance_id l) = Ok o.
Proof.
  intros [(i & instance & Hl & _ & Hi) _ _ _ _]. apply local_of_inv in Hl as (_ & -> & _).
  unfold validate_process_instance_id. destruct Hi as [->|Hi]; [by eexists|].
  destruct (is_empty instance); [by eexists|]. rewrite Hi. by eexists.
Qed.

Lemma fit_quiet l md w frames : fit l md w -> inbox w = map Ok frames -> quiet w frames.
Proof. intros [_ _ _ _ (Hs & Hw & Ho)] Hi. by split. Qed.

Lemma hellos_minor lA lB mdA mdB k nA nB :
  negotiate_protocol_minor (local_hello lA mdA k nA) (local_hello lB mdB k nB)
  = Ok MAX_PROTOCOL_MINOR.
Proof.
  destruct minor_range as [Hm _]. unfold negotiate_protocol_minor. cbn.
  rewrite Z.max_id, Z.min_id. by rewrite (proj2 (Z.leb_le _ _)) by lia.
Qed.

(** One side from its final messages on, when the peer is a fit side. *)
Lemma side_completes conn l own d sel w w1 b0 k t lp mdp wp rem f1 f2 b1 b2 :
  fit lp mdp wp -> opened w w1 b0 [f1; f2] -> local_device_id lp <> local_device_id l ->
  decode_kind (session_kind rem) = Ok k -> negotiate_protocol_minor own rem = Ok MAX_PROTOCOL_MINOR ->
  session_transcript (exporter w) own rem = Ok t ->
  encode (mkAuth (as_str (local_device_id l)) (local_sign l SessionAuthentication t)) = Ok b1 ->
  encode (mkAccepted (fresh_session_id w) (clock_ms w) (local_port w) MAX_PROTOCOL_MINOR
            (local_process_instance_id l)) = Ok b2 ->
  encode (mkAuth (as_str (local_device_id lp)) (local_sign lp SessionAuthentication t)) = Ok f1 ->
  encode (mkAccepted (fresh_session_id wp) (clock_ms wp) (local_port wp) MAX_PROTOCOL_MINOR
            (local_process_instance_id lp)) = Ok f2 ->
  trusts k (local_device_id lp) (local_public_key lp) (repo w1) ->
  exists s w', finish_authentication conn l own rem (shown_peer lp mdp) d sel w1 = (Ok s, w') /\
    sent w' = sent w ++ map (fun f => (f, HANDSHAKE_FRAME_LIMIT)) [b0; b1; b2] /\
    verification_code s = verification_code_of t /\ protocol_minor s = MAX_PROTOCOL_MINOR /\
    kind s = k /\
    rank s = match d with
             | DirectionOutbound => mkRank (local_device_id l) (nonce own)
             | DirectionInbound => mkRank (local_device_id lp) (nonce rem)
             end.
Proof.
  intros Hfit [Hq Hsent He (Hid & Hclock & Hport)] Hne Hk Hm Ht Hb1 Hb2 Hf1 Hf2 Htr.
  destruct (fit_instance _ _ _ Hfit) as [o Ho].
  destruct (local_sign_verifies _ _ _ SessionAuthentication t Hfit) as [Hver Hread].
  apply decode_encode in Hf1, Hf2.
  edestruct (finish_completes conn l own rem (shown_peer lp mdp) d sel w1 k t) as (s & w' & E & Hs & ?);
    try done; first [by rewrite He | by rewrite Hid, Hclock, Hport | exact Hf1 | exact Hread | exact Hver
    | exact Hf2 | apply Hfit | exact Ho | idtac].
  exists s, w'. split; [done|]. split; [|done].
  rewrite Hs, Hsent. cbn. by rewrite <- app_assoc.
Qed.
Lemma frames_of_inv l own w t f : frames_of l own w t = Ok f ->
  exists a b c, f = [a; b; c] /\ encode own = Ok a /\
    encode (mkAuth (as_str (local_device_id l)) (local_sign l SessionAuthentication t)) = Ok b /\
    encode (mkAccepted (fresh_session_id w) (clock_ms w) (local_port w) MAX_PROTOCOL_MINOR
              (local_process_instance_id l)) = Ok c.
Proof. unfold frames_of. intros E. result_inv. by eexists _, _, _. Qed.
End completeness.

(** ** Properties *)

Section hello_properties.
Context `{PeerApi} `{Crypto} `{WireApi} `{!PeerLaws} `{!WireLaws}.

(** A hello passes exactly the checks that make it usable: the sender's
    device id is derived from its root key, that key has signed the certificate
    digest, the kind is the expected one, a common minor exists, and every
    field has its bounded length. *)
Theorem validate_hello_sound hello k rp :
  validate_hello hello (Some k) = Ok rp ->
  peer_device_id rp = from_public_key (peer_public_key rp) /\
  (exists sig, verify_signature (peer_public_key rp) EndpointBinding (peer_certificate_sha256 rp) sig
     = Ok tt) /\
  decode_kind (session_kind hello) = Ok k /\
  (exists m, min_protocol_minor hello <= m <= max_protocol_minor hello /\
     MIN_PROTOCOL_MINOR <= m <= MAX_PROTOCOL_MINOR) /\
  blen (nonce hello) = 32 /\ blen (peer_certificate_sha256 rp) = 32 /\
  peer_certificate_sha256 rp = endpoint_certificate_sha256 hello /\
  slen (name (peer_metadata rp)) <= 255 /\ slen (platform (peer_metadata rp)) <= 64 /\
  slen (model (peer_metadata rp)) <= 255.
Proof.
  intros Hv. pose proof (validate_hello_kind _ _ _ Hv) as Hk. unfold validate_hello in Hv.
  destruct (_ || _) eqn:E in Hv; [done|]. destruct_bools.
  repeat match goal with
  | Hb : (_ <? _) = false |- _ => apply Z.ltb_ge in Hb
  | Hb : (_ =? _) = true |- _ => apply Z.eqb_eq in Hb
  | Hb : (_ >? _) = false |- _ => rewrite Z.gtb_ltb in Hb
  end.
  rewrite Hk in Hv. cbn [mbind result_bind] in Hv.
  destruct (negb (bool_decide (k = k))); [done|]. result_inv.
  destruct (negb (blen (endpoint_certificate_sha256 hello) =? 32)); [done|]. result_inv.
  cbn [peer_device_id peer_public_key peer_certificate_sha256 peer_metadata name platform model].
  destruct minor_range as [? _].
  repeat match goal with u : unit |- _ => destruct u end.
  split_and!; try done; try lia.
  - by apply verify_key_iff.
  - eauto.
  - exists (Z.max (min_protocol_minor hello) MIN_PROTOCOL_MINOR). lia.
Qed.
End hello_properties.

Section mutual_properties.
Context `{PeerApi} `{Crypto} `{WireApi} `{Transport} {S : Type} `{!PeerRepository S}
  `{!PeerLaws} `{!CryptoLaws} `{!WireLaws}.

(** C3. Two honest devices complete the handshake: when each reads what the
    other sends, the initiator's dial and the acceptor's side both return a
    session, and the two sessions have the same verification code, rank, kind
    and protocol minor. *)
Theorem handshake_completes connA connB lA lB mdA mdB expected k (wA wB : World S) e t fA fB cert rest :
  let hA := local_hello lA mdA k (fresh_nonce wA) in
  let hB := local_hello lB mdB k (fresh_nonce wB) in
  fit lA mdA wA -> fit lB mdB wB -> local_device_id lA <> local_device_id lB ->
  k <> DiscoveryProbe -> (nearby_kind k = true -> discoverable wB = true) ->
  exporter wA = Some e -> exporter wB = Some e -> session_transcript (Some e) hA hB = Ok t ->
  peer_certificates wA = Some (cert :: rest) -> sha256 cert = certificate_sha256 (local_identity lB) ->
  expected_id expected = local_device_id lB -> expected_key expected = local_public_key lB ->
  match expected with
  | ExpectedAdvertised p => adv_certificate_sha256 p = sha256 cert
  | ExpectedPaired _ => True
  end ->
  frames_of lA hA wA t = Ok fA -> frames_of lB hB wB t = Ok fB ->
  inbox wA = map Ok fB -> inbox wB = map Ok fA ->
  trusts k (local_device_id lB) (local_public_key lB) (repo wA) ->
  trusts k (local_device_id lA) (local_public_key lA)
    (require_paired (local_device_id lA) (Some (local_public_key lA)) (repo wB)).2 ->
  exists sA wA' sB wB',
    authenticate_expected connA lA mdA expected k wA = (Ok sA, wA') /\
    authenticate_inbound connB lB mdB wB = (Ok sB, wB') /\
    sent wA' = sent wA ++ map (fun f => (f, HANDSHAKE_FRAME_LIMIT)) fA /\
    sent wB' = sent wB ++ map (fun f => (f, HANDSHAKE_FRAME_LIMIT)) fB /\
    verification_code sA = verification_code sB /\ rank sA = rank sB /\
    kind sA = k /\ kind sB = k /\
    protocol_minor sA = MAX_PROTOCOL_MINOR /\ protocol_minor sB = MAX_PROTOCOL_MINOR.
Proof.
  intros hA hB HfitA HfitB Hne Hprobe Hdisc HeA HeB Ht Hcert Hsha Hid Hkey Hadv HfA HfB HiA HiB HtA HtB.
  pose proof (local_hello_valid _ _ k _ HfitA) as HvA. fold hA in HvA.
  pose proof (local_hello_valid _ _ k _ HfitB) as HvB. fold hB in HvB.
  apply frames_of_inv in HfA as (a0 & a1 & a2 & -> & Ha0 & Ha1 & Ha2).
  apply frames_of_inv in HfB as (b0 & b1 & b2 & -> & Hb0 & Hb1 & Hb2).
  destruct (outbound_opens connA lA mdA expected k wA hB (shown_peer lB mdB) b0 [b1; b2] a0)
    as (wA1 & EA & HoA & HrA); eauto using fit_quiet.
  { by apply decode_encode. }
  { unfold observed_certificate_sha256. by rewrite Hcert, Hsha. }
  { destruct expected; [|done]. by rewrite Hadv. }
  destruct (inbound_opens connB lB mdB k wB hA (shown_peer lA mdA) a0 [a1; a2] b0)
    as (wB1 & EB & HoB & HrB); eauto using fit_quiet.
  { by apply decode_encode. }
  destruct (side_completes connA lA hA DirectionOutbound true wA wA1 a0 k t lB mdB wB hB b1 b2 a1 a2)
    as (sA & wA' & FA & SA & CA & MA & KA & RA); try done;
    [apply decode_encode_kind | apply hellos_minor | by rewrite HeA | by rewrite HrA |].
  destruct (side_completes connB lB hB DirectionInbound false wB wB1 b0 k t lA mdA wA hA a1 a2 b1 b2)
    as (sB & wB' & FB & SB & CB & MB & KB & RB); try done;
    [apply decode_encode_kind | apply hellos_minor | | by rewrite HrB |].
  { rewrite HeB, <- Ht. apply transcript_swap. cbn. intros E%as_str_inj. done. }
  exists sA, wA', sB, wB'. rewrite EA, EB. split_and!; try done; [congruence|].
  by rewrite RA, RB.
Qed.
End mutual_properties.

Section soundness_properties.
Context `{PeerApi} `{Crypto} `{WireApi} `{Transport} {S : Type} `{!PeerRepository S}
  `{!PeerRepositoryLaws S}.

(** C1. A dial that succeeds has reached the device it was meant for: the
    session's id and key are those of the target, its endpoint certificate is
    the one of this TLS connection and, for an advertised peer, the advertised
    one; the key has signed the transcript of this very exchange; and unless
    the kind is open to nearby devices the repository holds the device as
    paired with this key. *)
Theorem outbound_authentication_sound conn l md expected k w s w' :
  peer_repo_ok (repo w) ->
  authenticate_expected conn l md expected k w = (Ok s, w') ->
  kind s = k /\ peer_device_id (peer s) = expected_id expected /\
  peer_public_key (peer s) = expected_key expected /\
  peer_device_id (peer s) <> local_device_id l /\
  (exists cert rest, peer_certificates w = Some (cert :: rest) /\
     sha256 cert = peer_certificate_sha256 (peer s)) /\
  match expected with
  | ExpectedAdvertised p => peer_certificate_sha256 (peer s) = adv_certificate_sha256 p
  | ExpectedPaired _ => True
  end /\
  (exists remote t auth signature, received w remote /\ received w auth /\
     session_transcript (exporter w) (local_hello l md k (fresh_nonce w)) remote = Ok t /\
     signature_from_bytes (auth_signature auth) = Ok signature /\
     verify_signature (peer_public_key (peer s)) SessionAuthentication t signature = Ok tt /\
     verification_code s = verification_code_of t) /\
  (nearby_kind k = false ->
     paired_in (repo w) (peer_device_id (peer s)) (peer_public_key (peer s))).
Proof.
  intros Hok Hrun.
  destruct (outbound_vouched _ _ _ _ _ _ _ _ Hok Hrun)
    as (remote & [_ Hother _ (t & auth & sig & Ht & Ha & Hsig & Hver & Hcode) Hpaired _] & Hrec &
        Hkind & Hid & Hkey & Hobs & Hadv).
  rewrite Hkind in Hpaired. split_and!; try done; [|by exists remote, t, auth, sig].
  unfold observed_certificate_sha256 in Hobs.
  destruct (peer_certificates w) as [[|cert rest]|]; [discriminate Hobs| |discriminate Hobs].
  injection Hobs as Hobs. by exists cert, rest.
Qed.

(** C2. A connection is accepted only from a device that owns the key it shows:
    the key has signed its endpoint certificate and the transcript of this
    exchange; the device is another one; and it is paired with this key, or the
    kind is open to nearby devices and this device is discoverable. *)
Theorem inbound_authentication_sound conn l md w s w' :
  peer_repo_ok (repo w) -> authenticate_inbound conn l md w = (Ok s, w') ->
  peer_device_id (peer s) <> local_device_id l /\
  (exists remote rp t auth signature,
     received w remote /\ received w auth /\ validate_hello remote (Some (kind s)) = Ok rp /\
     peer_device_id (peer s) = peer_device_id rp /\ peer_public_key (peer s) = peer_public_key rp /\
     session_transcript (exporter w) (local_hello l md (kind s) (fresh_nonce w)) remote = Ok t /\
     signature_from_bytes (auth_signature auth) = Ok signature /\
     verify_signature (peer_public_key (peer s)) SessionAuthentication t signature = Ok tt /\
     verification_code s = verification_code_of t /\
     rank s = mkRank (peer_device_id (peer s)) (nonce remote)) /\
  (paired_in (repo w) (peer_device_id (peer s)) (peer_public_key (peer s)) \/
   (nearby_kind (kind s) = true /\ discoverable w = true)).
Proof.
  intros Hok Hrun.
  destruct (inbound_vouched _ _ _ _ _ _ Hok Hrun)
    as (remote & [Hh Hother _ (t & auth & sig & Ht & Ha & Hsig & Hver & Hcode) Hpaired Hrank] & Hrec &
        Hadm).
  destruct Hh as (rp & Hv & Eid & Ekey & _).
  split_and!; [done | by exists remote, rp, t, auth, sig |].
  destruct (nearby_kind (kind s)) eqn:En; [|left; by apply Hpaired].
  destruct Hadm; [by right | by left].
Qed.

(** C36. A device that is not discoverable stays silent towards devices it is
    not paired with: a hello for a nearby kind is refused before anything is
    sent. *)
Theorem undiscoverable_device_is_silent conn l md w a0 frames rem rp k r w' :
  peer_repo_ok (repo w) -> quiet w (a0 :: frames) -> decode a0 = Ok rem ->
  validate_hello rem (Some k) = Ok rp -> nearby_kind k = true -> discoverable w = false ->
  ~ paired_in (repo w) (peer_device_id rp) (peer_public_key rp) ->
  authenticate_inbound conn l md w = (r, w') ->
  r = Err (Unauthorized "device is not accepting new nearby connections") /\ sent w' = sent w.
Proof.
  intros Hok Hq Ha Hv Hn Hd Hnp Hrun.
  destruct (stream_quiet _ _ Hq) as (w1 & E1 & Ew1 & Hq1).
  destruct (receive_quiet _ _ _ _ Hq1 Ha) as (w2 & E2 & Ew2 & Hq2).
  assert (Hrepo : repo w2 = repo w) by (by rewrite Ew2, Ew1).
  assert (Hdisc : discoverable w2 = false) by (by rewrite Ew2, Ew1).
  unfold authenticate_inbound in Hrun. cbv zeta in Hrun.
  erewrite act_bind_eq in Hrun by exact E1. erewrite act_bind_eq in Hrun by exact E2.
  unfold lift in Hrun. rewrite (validate_hello_kind _ _ _ Hv) in Hrun.
  erewrite act_bind_eq in Hrun by reflexivity. rewrite Hv in Hrun.
  erewrite act_bind_eq in Hrun by reflexivity.
  apply act_bind_inv in Hrun as [(paired & w3 & E3 & Hrun)|(e & E3 & _)];
    destruct (in_repo _ w2) as [r3 w3'] eqn:Er; [|discriminate E3]. injection E3 as <- <-.
  assert (Hr3 : is_ok r3 = false).
  { apply not_true_iff_false. intros Ht. apply Hnp. rewrite <- Hrepo in *.
    by eapply is_paired_run. }
  assert (Hw3 : discoverable w3' = false /\ sent w3' = sent w).
  { unfold in_repo in Er. destruct (require_paired _ _ (repo w2)) as [r4 s4].
    injection Er as _ <-. by rewrite Ew2, Ew1 in *. }
  destruct Hw3 as [Hd3 Hs3].
  unfold mbind at 1, action_bind at 1, act_reject in Hrun. rewrite Hd3, Hr3, Hn in Hrun.
  cbn [negb andb] in Hrun. injection Hrun as <- <-. done.
Qed.

(** Discoverability does not cover the kinds reserved to paired devices: a
    device that is not discoverable answers an unknown device that asks for one
    with its own hello, its name, model and root key, before it finds out that
    the device is not paired. *)
Theorem undiscoverable_device_answers_trusted_kinds conn l md w a0 frames rem rp k b0 r w' :
  let own := local_hello l md k (fresh_nonce w) in
  peer_repo_ok (repo w) -> quiet w (a0 :: frames) -> decode a0 = Ok rem ->
  validate_hello rem (Some k) = Ok rp -> nearby_kind k = false -> discoverable w = false ->
  ~ paired_in (repo w) (peer_device_id rp) (peer_public_key rp) ->
  encode own = Ok b0 -> authenticate_inbound conn l md w = (r, w') ->
  is_ok r = false /\
  exists more, sent w' = sent w ++ (b0, HANDSHAKE_FRAME_LIMIT) :: more.
Proof.
  intros own Hok Hq Ha Hv Hn Hd Hnp Hb Hrun. split.
  - destruct r as [s|e]; [|done]. exfalso.
    destruct (inbound_opens conn l md k w rem rp a0 frames b0 Hq Hb Ha Hv) as (w1 & E & Ho & Hr);
      [by intros -> | by rewrite Hn |].
    rewrite E in Hrun.
    destruct (require_paired (peer_device_id rp) (Some (peer_public_key rp)) (repo w)) as [r1 s1] eqn:Er.
    destruct (require_paired_run _ _ _ _ _ Hok Er) as (Hok1 & Hview & _).
    cbn [snd] in Hr. rewrite <- Hr in Hok1, Hview.
    destruct (finish_vouched _ _ _ _ _ _ _ _ _ _ _ Hok1 Hv Hrun) as [Hk Hvo].
    destruct (vo_hello _ _ _ _ _ _ Hvo) as (rp' & Hv' & Eid & Ekey & _). rewrite Hk in Hv'.
    assert (rp' = rp) as -> by congruence.
    apply Hnp, (paired_in_view _ _ _ _ Hview). rewrite <- Eid, <- Ekey.
    apply (vo_paired _ _ _ _ _ _ Hvo). congruence.
  - destruct (inbound_opens conn l md k w rem rp a0 frames b0 Hq Hb Ha Hv) as (w1 & E & Ho & Hr);
      [by intros -> | by rewrite Hn |].
    rewrite E in Hrun. apply frames_finish in Hrun. destruct (st_sent _ _ Hrun) as [out Hout].
    exists out. rewrite Hout, (op_sent _ _ _ _ Ho), <- app_assoc. done.
Qed.

(** C8. Mutual agreement: when the signatures that reach this connection and
    verify under the peer's key were made in handshakes the peer took part in,
    then a dial that succeeds means that the peer ran a handshake over the same
    TLS session, in which it received exactly the hello of this device, fresh
    nonce included, and sent exactly the hello that was received here. *)
Theorem dial_agreement `{!PeerLaws} `{!WireLaws} conn l md expected k w s w'
    (ran : option (list byte) -> SessionHello -> SessionHello -> Prop) :
  peer_repo_ok (repo w) ->
  (forall e own other, ran e own other -> hello_device_id own = as_str (expected_id expected)) ->
  (forall remote auth t signature,
     received w remote -> received w auth ->
     session_transcript (exporter w) (local_hello l md k (fresh_nonce w)) remote = Ok t ->
     signature_from_bytes (auth_signature auth) = Ok signature ->
     verify_signature (expected_key expected) SessionAuthentication t signature = Ok tt ->
     blen t <= u64_max /\
     exists e own other, ran e own other /\ session_transcript e own other = Ok t) ->
  authenticate_expected conn l md expected k w = (Ok s, w') ->
  exists remote, received w remote /\
    ran (exporter w) remote (local_hello l md k (fresh_nonce w)) /\
    exists t, session_transcript (exporter w) (local_hello l md k (fresh_nonce w)) remote = Ok t /\
      verification_code s = verification_code_of t.
Proof.
  intros Hok Hown Hgenuine Hrun.
  destruct (outbound_vouched _ _ _ _ _ _ _ _ Hok Hrun)
    as (remote & [_ Hother _ (t & auth & sig & Ht & Ha & Hsig & Hver & Hcode) _ _] & Hrec &
        Hkind & Hid & Hkey & _).
  rewrite Hkey in Hver. destruct (Hgenuine _ _ _ _ Hrec Ha Ht Hsig Hver)
    as (Hlen & e & own & other & Hran & Ht').
  exists remote. split; [done|]. split; [|by exists t].
  destruct (transcript_determines _ _ _ _ _ _ _ Hlen Ht Ht') as [-> [[-> ->]|[-> ->]]]; [|done].
  apply Hown in Hran. cbn in Hran. apply as_str_inj in Hran. congruence.
Qed.
End soundness_properties.

(** ** A concrete handshake *)

Module SampleRun.
Import SamplePeer SampleWire SampleCrypto SampleRegistry SampleDb.

Definition identity (k : byte) : DeviceIdentity :=
  mkIdentity (k : SigningKey) [k] (sha256 [k]).

Definition local (k : byte) : Local :=
  mkLocal (identity k) (id_of_key (repeat k 32)) (repeat k 32)
    (sample_sign k (signing_transcript EndpointBinding (sha256 [k]))) (repeat k 16).

Definition record (k : byte) : PeerRecord :=
  mkPeerRecord (id_of_key (repeat k 32)) (repeat k 32) "peer" "linux" "pc" Paired true 10 10.

(** The repository of a device that knows the device with key [k] as paired. *)
Definition knows (k : byte) : Sqlite := (save_peer (record k) empty).2.

Definition hello (me : byte) : SessionHello :=
  local_hello (local me) meta Control (repeat me 32).

Definition tls : list byte := [x09; x08].

Definition transcript : list byte :=
  default [] (to_option (session_transcript (Some tls) (hello x41) (hello x42))).

(** The side [me] of the connection with [other]. *)
Definition side (me other : byte) (frames : list (list byte)) : World Sqlite :=
  mkWorld (Some [[other]]) (Some tls) sample_address [] [] (map Ok frames) [] (knows other) ∅ 4
    false true 0 1000 (repeat me 32) 7 8765.

Definition frames (me other : byte) : list (list byte) :=
  default [] (to_option (frames_of (local me) (hello me) (side me other []) transcript)).

Definition sideA : World Sqlite := side x41 x42 (frames x42 x41).
Definition sideB : World Sqlite := side x42 x41 (frames x41 x42).
Definition target : ExpectedPeer := ExpectedPaired (record x42).

Abbreviation dialled :=
  (authenticate_expected (11%nat : @Conn transport) (local x41) meta target Control sideA).
Abbreviation answered :=
  (authenticate_inbound (12%nat : @Conn transport) (local x42) meta sideB).

Lemma dialled_ok : exists s w', dialled = (Ok s, w').
Proof.
  assert (Hok : is_ok dialled.1 = true) by (vm_compute; reflexivity).
  destruct dialled as [[s|e] w']; [by exists s, w' | discriminate Hok].
Qed.

Lemma answered_ok : exists s w', answered = (Ok s, w').
Proof.
  assert (Hok : is_ok answered.1 = true) by (vm_compute; reflexivity).
  destruct answered as [[s|e] w']; [by exists s, w' | discriminate Hok].
Qed.
End SampleRun.

Section witnesses.
Import SamplePeer SampleWire SampleCrypto SampleRegistry SampleDb SampleRun.

Lemma knows_ok k : k = x41 \/ k = x42 -> peer_repo_ok (knows k).
Proof.
  intros Hk. apply (db_call_ok empty (DbSavePeer (record k))); [|apply empty_ok].
  destruct Hk as [->| ->]; reflexivity.
Qed.

Lemma side_fit me other f : me = x41 \/ me = x42 -> fit (local me) meta (side me other f).
Proof.
  intros Hme. split.
  - exists (identity me), (repeat me 16). split; [by destruct Hme as [->| ->]|]. by split; [|right].
  - by_evaluation.
  - reflexivity.
  - cbn. lia.
  - done.
Qed.

Lemma validate_hello_sound_witness :
  let rp := shown_peer (local x41) meta in
  peer_device_id rp = from_public_key (peer_public_key rp).
Proof.
  assert (Hv : validate_hello (hello x41) (Some Control) = Ok (shown_peer (local x41) meta))
    by (vm_compute; reflexivity).
  destruct (validate_hello_sound (hello x41) Control _ Hv) as [E _]. exact E.
Defined.

Lemma handshake_completes_witness : exists sA wA' sB wB',
  dialled = (Ok sA, wA') /\ answered = (Ok sB, wB') /\
  verification_code sA = verification_code sB /\ rank sA = rank sB.
Proof.
  destruct (handshake_completes (11%nat : @Conn transport) (12%nat : @Conn transport) (local x41) (local x42) meta meta target Control sideA
    sideB tls transcript (frames x41 x42) (frames x42 x41) [x42] [])
    as (sA & wA' & sB & wB' & EA & EB & _ & _ & Ecode & Erank & _);
    [apply side_fit; auto | apply side_fit; auto | by_evaluation | done | done | reflexivity
    | reflexivity | vm_compute; reflexivity | reflexivity | reflexivity | reflexivity | reflexivity
    | exact I | vm_compute; reflexivity | vm_compute; reflexivity | reflexivity | reflexivity
    | intros _; vm_compute; reflexivity | intros _; vm_compute; reflexivity |].
  exists sA, wA', sB, wB'. auto.
Defined.
Lemma outbound_authentication_sound_witness : exists s w',
  dialled = (Ok s, w') /\
  paired_in (repo sideA) (peer_device_id (peer s)) (peer_public_key (peer s)).
Proof.
  destruct dialled_ok as (s & w' & E).
  exists s, w'. split; [exact E|].
  destruct (outbound_authentication_sound (11%nat : @Conn transport) (local x41) meta target Control
    sideA s w') as (_ & _ & _ & _ & _ & _ & _ & Hp); [apply knows_ok; auto | exact E | by apply Hp].
Defined.

Lemma inbound_authentication_sound_witness : exists s w',
  answered = (Ok s, w') /\ peer_device_id (peer s) <> local_device_id (local x42).
Proof.
  destruct answered_ok as (s & w' & E).
  exists s, w'. split; [exact E|].
  destruct (inbound_authentication_sound (12%nat : @Conn transport) (local x42) meta sideB s w')
    as [Hne _]; [apply knows_ok; auto | exact E | exact Hne].
Defined.

(** A stranger with key "C" that asks the hidden device "B" for a session. *)
Definition stranger_hello (k : SessionKind) : SessionHello :=
  local_hello (local x43) meta k (repeat x43 32).
Definition stranger_frame (k : SessionKind) : list byte :=
  default [] (to_option (encode (stranger_hello k))).
Definition hidden (k : SessionKind) : World Sqlite := side x42 x41 [stranger_frame k].

Lemma stranger_not_paired k :
  ~ paired_in (repo (hidden k)) (peer_device_id (shown_peer (local x43) meta))
      (peer_public_key (shown_peer (local x43) meta)).
Proof.
  intros (p & Hp & _).
  assert (E : known (view (repo (hidden k))) (peer_device_id (shown_peer (local x43) meta)) = None)
    by (vm_compute; reflexivity).
  rewrite E in Hp. discriminate Hp.
Qed.


Lemma stranger_valid k : k = FileTransfer \/ k = Control ->
  decode (stranger_frame k) = Ok (stranger_hello k) /\
  validate_hello (stranger_hello k) (Some k) = Ok (shown_peer (local x43) meta).
Proof. intros [->| ->]; split; vm_compute; reflexivity. Qed.

Lemma undiscoverable_device_is_silent_witness :
  sent (authenticate_inbound (12%nat : @Conn transport) (local x42) meta (hidden FileTransfer)).2
  = sent (hidden FileTransfer).
Proof.
  destruct (stranger_valid FileTransfer) as [Hd Hv]; [auto|].
  eapply (undiscoverable_device_is_silent (12%nat : @Conn transport) (local x42) meta
    (hidden FileTransfer) (stranger_frame FileTransfer) [] (stranger_hello FileTransfer)
    (shown_peer (local x43) meta) FileTransfer);
    [apply knows_ok; auto | by split | exact Hd | exact Hv | reflexivity | reflexivity
    | apply stranger_not_paired | apply surjective_pairing].
Defined.

Lemma undiscoverable_device_answers_trusted_kinds_witness : exists b more,
  encode (hello x42) = Ok b /\
  sent (authenticate_inbound (12%nat : @Conn transport) (local x42) meta (hidden Control)).2
  = (b, HANDSHAKE_FRAME_LIMIT) :: more.
Proof.
  destruct (stranger_valid Control) as [Hd Hv]; [auto|].
  destruct (undiscoverable_device_answers_trusted_kinds (12%nat : @Conn transport) (local x42) meta
    (hidden Control) (stranger_frame Control) [] (stranger_hello Control)
    (shown_peer (local x43) meta) Control (write_fields (hello_fields (hello x42)))
    (authenticate_inbound (12%nat : @Conn transport) (local x42) meta (hidden Control)).1
    (authenticate_inbound (12%nat : @Conn transport) (local x42) meta (hidden Control)).2)
    as [_ [more Hm]];
    [apply knows_ok; auto | by split | exact Hd | exact Hv | reflexivity | reflexivity
    | apply stranger_not_paired | reflexivity | apply surjective_pairing |].
  exists (write_fields (hello_fields (hello x42))), more. split; [reflexivity | exact Hm].
Defined.

(** The handshakes of "B": the one of this run. *)
Definition ran (e : option (list byte)) (own other : SessionHello) : Prop :=
  e = Some tls /\ own = hello x42 /\ other = hello x41.

Lemma received_sideA {M} `{Prost M} (m : M) :
  received sideA m -> exists b, b ∈ frames x42 x41 /\ decode b = Ok m.
Proof.
  intros (b & Hb & Hd). exists b. split; [|done]. unfold sideA, side in Hb. cbn [inbox] in Hb.
  apply list_elem_of_fmap in Hb as (c & [= ->] & Hc). exact Hc.
Qed.

(** Only the first frame is a hello. *)
Lemma received_hello remote : received sideA remote -> remote = hello x42.
Proof.
  intros (b & Hb & Hd)%received_sideA.
  assert (E : map (fun b => to_option (decode (M := SessionHello) b)) (frames x42 x41)
    = [Some (hello x42); None; None]) by (vm_compute; reflexivity).
  apply list_elem_of_In, (in_map (fun b => to_option (decode (M := SessionHello) b))) in Hb.
  rewrite E, Hd in Hb. cbn [In to_option] in Hb.
  destruct Hb as [Hb|[Hb|[Hb|[]]]]; [|discriminate Hb..]. injection Hb as ->. reflexivity.
Qed.

Lemma dial_agreement_witness : exists s w',
  dialled = (Ok s, w') /\ exists remote, ran (exporter sideA) remote (hello x41).
Proof.
  destruct dialled_ok as (s & w' & E).
  exists s, w'. split; [exact E|].
  assert (Et : session_transcript (Some tls) (hello x41) (hello x42) = Ok transcript)
    by (vm_compute; reflexivity).
  assert (Et' : session_transcript (Some tls) (hello x42) (hello x41) = Ok transcript)
    by (vm_compute; reflexivity).
  assert (Hlen : blen transcript <= u64_max) by by_evaluation.
  destruct (dial_agreement (11%nat : @Conn transport) (local x41) meta target Control sideA s w' ran)
    as (remote & _ & Hran & _).
  - apply knows_ok; auto.
  - intros e own other (_ & -> & _). reflexivity.
  - intros remote auth t sig Hr _ Ht _ _. apply received_hello in Hr as ->.
    pose proof (eq_trans (eq_sym Ht) Et) as Ett. injection Ett as ->.
    split; [exact Hlen|]. exists (Some tls), (hello x42), (hello x41).
    split; [split; [|split]; reflexivity | exact Et'].
  - exact E.
  - by exists remote.
Defined.
End witnesses.
