(* ===== verification/Features.v ===== *)
(** * Features

    Feature streams over a session (runtime/session.rs): the header one side
    writes and the other checks, the bounded set of headers being read, and the
    choice of a feature minor. *)

From S2P Require Import Prelude Errors Addr Peer Wire Endpoint Probe Handshake.

(** ** Headers *)

Definition FEATURE_HEADER_LIMIT : Z := 64 * 1024.

(** [is_ascii_lowercase || is_ascii_digit || '.' | '-' | '_'] *)
Definition header_byte (c : ascii) : bool :=
  let n := N_of_ascii c in
  ((97 <=? n) && (n <=? 122) || (48 <=? n) && (n <=? 57)
   || (n =? 46) || (n =? 45) || (n =? 95))%N.

Definition valid_feature_id (value : string) : bool :=
  negb (String.eqb value "") && (slen value <=? 128)
  && forallb header_byte (list_ascii_of_string value).

Definition valid_operation (value : string) : bool :=
  (slen value <=? 64) && forallb header_byte (list_ascii_of_string value).

Record FeatureStream := mkFeatureStream {
  feature_id : string;
  opening_payload : list byte;
  feature_major : Z;
  min_feature_minor : Z;
  max_feature_minor : Z;
  stream_id : Z;
  operation : string
}.

(** [FeatureStream::negotiate_minor] *)
Definition negotiate_minor (s : FeatureStream)
    (supported_major supported_min_minor supported_max_minor : Z) : net_result Z :=
  if negb (feature_major s =? supported_major) || (supported_max_minor <? supported_min_minor)
  then Err (Protocol "unsupported feature major version")
  else
    let minimum := Z.max (min_feature_minor s) supported_min_minor in
    let maximum := Z.min (max_feature_minor s) supported_max_minor in
    if minimum <=? maximum then Ok maximum
    else Err (Protocol "no compatible feature minor version").

Definition stream_of (header : FeaturePayload) : FeatureStream :=
  mkFeatureStream (fp_feature_id header) (fp_body header) (fp_feature_major header)
    (fp_min_feature_minor header) (fp_max_feature_minor header) (fp_stream_id header)
    (fp_operation header).

Section streams.
Context `{PeerApi} `{WireApi} {S : Type}.

(** [open_feature_stream_versioned]; [fresh_id] is [random_nonzero_u64()]. *)
Definition open_feature_stream_versioned (fresh_id : Z) (feature_id : string)
    (feature_major min_feature_minor max_feature_minor : Z) (operation : string)
    (opening_payload : list byte) : action (World S) NetworkError FeatureStream :=
  act_reject (negb (valid_feature_id feature_id) || (feature_major =? 0)
              || (max_feature_minor <? min_feature_minor) || negb (valid_operation operation))
    (Protocol "invalid local feature stream header") ;;
  stream_call ;;
  (let header := mkFeaturePayload feature_id opening_payload feature_major min_feature_minor
                   max_feature_minor fresh_id operation in
   send_message_with_limit header FEATURE_HEADER_LIMIT ;;
   mret (stream_of header)).

Definition open_feature_stream (fresh_id : Z) (feature_id : string) (opening_payload : list byte)
    : action (World S) NetworkError FeatureStream :=
  open_feature_stream_versioned fresh_id feature_id 1 0 0 "" opening_payload.

(** [send_datagram] and [read_datagram]: quinn's answer with its error in
    [Quic]. *)
Definition send_datagram (sent : result string unit) : net_result unit := map_err Quic sent.
Definition read_datagram (received : result string (list byte)) : net_result (list byte) :=
  map_err Quic received.

(** [read_feature_header]: [received] is what reading the header within five
    seconds gives, [None] the timeout; the flag tells whether both halves of the
    stream are reset. *)
Definition read_feature_header (received : option (net_result FeaturePayload))
    : net_result FeatureStream * bool :=
  match received with
  | Some (Ok header) =>
      if negb (valid_feature_id (fp_feature_id header)) || (fp_feature_major header =? 0)
         || (fp_max_feature_minor header <? fp_min_feature_minor header)
         || (fp_stream_id header =? 0) || negb (valid_operation (fp_operation header))
      then (Err (Protocol "invalid feature stream header"), true)
      else (Ok (stream_of header), false)
  | Some (Err e) => (Err e, true)
  | None => (Err Timeout, true)
  end.
End streams.

(** ** Accepting streams *)

Section accept.
Context `{PeerApi} `{WireApi}.

(** What [accept_feature_stream] is woken by. *)
Inductive AcceptEvent :=
| Closed (reason : string)
| Joined (header : option (net_result FeaturePayload))
| Panicked
| Incoming (failure : option string).

(** The guards of the [select!]: the number of headers being read bounds both
    what can be joined and what can be accepted. *)
Definition enabled (pending : nat) (e : AcceptEvent) : bool :=
  match e with
  | Closed _ => true
  | Joined _ | Panicked => negb (pending =? 0)%nat
  | Incoming _ => (pending <? 8)%nat
  end.

(** One turn of the loop: the value returned, if any, and the headers being
    read afterwards. *)
Definition accept_turn (pending : nat) (e : AcceptEvent) : option (net_result FeatureStream) * nat :=
  match e with
  | Closed reason => (Some (Err (Quic reason)), pending)
  | Joined header =>
      match (read_feature_header header).1 with
      | Ok stream => (Some (Ok stream), pred pending)
      | Err _ => (None, pred pending)
      end
  | Panicked => (None, pred pending)
  | Incoming (Some failure) => (Some (Err (Quic failure)), pending)
  | Incoming None => (None, Datatypes.S pending)
  end.

(** [accept_feature_stream] on a sequence of wake-ups; an event whose guard is
    off does not wake it.  [None]: it is still waiting. *)
Fixpoint accept_feature_stream (pending : nat) (events : list AcceptEvent)
    : option (net_result FeatureStream) * nat :=
  match events with
  | [] => (None, pending)
  | e :: rest =>
      if enabled pending e then
        match accept_turn pending e with
        | (Some r, p) => (Some r, p)
        | (None, p) => accept_feature_stream p rest
        end
      else accept_feature_stream pending rest
  end.

(** Successive calls on one session: each returns the result of its call and
    leaves the headers being read to the next one. *)
Inductive calls : nat -> list (option (net_result FeatureStream)) -> nat -> Prop :=
| calls_none n : calls n [] n
| calls_more n events r p rs m :
    accept_feature_stream n events = (r, p) -> calls p rs m -> calls n (r :: rs) m.
End accept.

(** ** Facts *)

(** A header both sides agree to be one. *)
Definition header_ok (s : FeatureStream) : Prop :=
  valid_feature_id (feature_id s) = true /\ feature_major s <> 0 /\
  min_feature_minor s <= max_feature_minor s /\ stream_id s <> 0 /\
  valid_operation (operation s) = true.

Lemma read_feature_header_ok received s b :
  read_feature_header received = (Ok s, b) <->
  b = false /\ exists header, received = Some (Ok header) /\ s = stream_of header /\ header_ok s.
Proof.
  unfold read_feature_header, header_ok. destruct received as [[header|e]|];
    [|split; [done | naive_solver]..].
  destruct (_ || _) eqn:E; split.
  - done.
  - intros (_ & h & [= <-] & -> & H1 & H2 & H3 & H4 & H5). cbn in *.
    rewrite H1, H5, (proj2 (Z.eqb_neq _ _) H2), (proj2 (Z.eqb_neq _ _) H4),
      (proj2 (Z.ltb_ge _ _) H3) in E. discriminate E.
  - intros [= <- <-]. split; [done|]. exists header. split_and!; try done; destruct_bools; cbn.
    + done.
    + by apply Z.eqb_neq.
    + by apply Z.ltb_ge.
    + by apply Z.eqb_neq.
    + done.
  - by intros (-> & h & [= <-] & -> & _).
Qed.

Lemma accept_bounded events pending r p :
  (pending <= 8)%nat -> accept_feature_stream pending events = (r, p) ->
  (p <= 8)%nat /\
  forall s, r = Some (Ok s) -> header_ok s /\ exists header, Joined (Some (Ok header)) ∈ events /\ s = stream_of header.
Proof.
  revert pending. induction events as [|e events IH]; intros pending Hp; cbn [accept_feature_stream].
  { by intros [= <- <-]. }
  destruct (enabled pending e) eqn:Een.
  2:{ intros E. destruct (IH _ Hp E) as [Hb Hs]. split; [done|]. intros s Es.
      destruct (Hs s Es) as (Ho & h & Hh & ->). split; [done|]. exists h. set_solver. }
  assert (Hrest : forall q, (q <= 8)%nat -> accept_feature_stream q events = (r, p) ->
    (p <= 8)%nat /\ forall s, r = Some (Ok s) -> header_ok s /\
      exists header, Joined (Some (Ok header)) ∈ e :: events /\ s = stream_of header).
  { intros q Hq E. destruct (IH _ Hq E) as [Hb Hs]. split; [done|]. intros s Es.
    destruct (Hs s Es) as (Ho & h & Hh & ->). split; [done|]. exists h. set_solver. }
  destruct e as [reason|header| |[failure|]]; cbn [accept_turn].
  - by intros [= <- <-].
  - destruct (read_feature_header header) as [[s|err] b] eqn:Eh; cbn [fst].
    + intros [= <- <-]. split; [lia|]. intros s' [= <-].
      apply read_feature_header_ok in Eh as (_ & h & -> & -> & Ho). split; [done|].
      exists h. set_solver.
    + apply Hrest. lia.
  - apply Hrest. lia.
  - by intros [= <- <-].
  - apply Hrest. unfold enabled in Een. apply Nat.ltb_lt in Een. lia.
Qed.

(** ** Properties *)

Section properties.
Context `{PeerApi} `{WireApi} `{!WireLaws}.

(** A feature stream that opens is read by the peer as the same stream: the
    header written decodes to the fields the opener asked for, and passes the
    checks of the reader. *)
Theorem feature_header_roundtrip {S} fresh_id id major lo hi op payload (w : World S) s w' :
  fresh_id <> 0 ->
  open_feature_stream_versioned fresh_id id major lo hi op payload w = (Ok s, w') ->
  s = mkFeatureStream id payload major lo hi fresh_id op /\
  exists b, sent w' = sent w ++ [(b, FEATURE_HEADER_LIMIT)] /\
    (read_feature_header (Some (map_err Protocol (decode b)))) = (Ok s, false).
Proof.
  intros Hid E. unfold open_feature_stream_versioned in E.
  apply act_bind_ok in E as ([] & w1 & E1 & E). unfold act_reject in E1.
  destruct (_ || _) eqn:Ev in E1; [discriminate E1|]. injection E1 as <-.
  apply act_bind_ok in E as ([] & w2 & E2 & E).
  apply act_bind_ok in E as ([] & w3 & E3 & E). injection E as <- <-.
  apply act_bind_ok in E3 as (b & w4 & E4 & E3). unfold lift in E4. injection E4 as E4 <-.
  apply map_err_ok in E4. apply decode_encode in E4.
  assert (Hs2 : sent w2 = sent w).
  { unfold stream_call in E2. destruct (stream_faults w) as [|[e|] l]; [| discriminate E2 |];
      by injection E2 as <-. }
  split; [done|]. exists b. split.
  - unfold write_frame in E3. destruct (write_faults w2) as [|[e|] l]; [| discriminate E3 |];
      injection E3 as <-; cbn; by rewrite Hs2.
  - rewrite E4. apply read_feature_header_ok. split; [done|]. eexists. split; [reflexivity|].
    split; [done|]. unfold header_ok. cbn. destruct_bools. split_and!; try done.
    + by apply Z.eqb_neq.
    + by apply Z.ltb_ge.
Qed.

(** C40. However many streams a peer opens and whatever it writes, at most eight
    headers are read at a time, and every stream handed to a feature has a
    well-formed header that the peer sent: rejected headers are skipped. *)
Theorem accept_feature_stream_safe rs m :
  calls 0 rs m ->
  (m <= 8)%nat /\ forall s, Some (Ok s) ∈ rs -> header_ok s.
Proof.
  assert (Hgen : forall n, calls n rs m -> (n <= 8)%nat ->
    (m <= 8)%nat /\ forall s, Some (Ok s) ∈ rs -> header_ok s); [|intros Hc; apply (Hgen _ Hc); lia].
  induction 1 as [n|n events r p rs m E Hc IH]; intros Hn; [split; [done | set_solver]|].
  destruct (accept_bounded _ _ _ _ Hn E) as [Hp Hs]. destruct (IH Hp) as [Hm Hrs].
  split; [done|]. intros s [Hin|Hin]%elem_of_cons; [|by apply Hrs]. by apply Hs.
Qed.
End properties.

(** The minor chosen for a feature is the largest one both sides support;
    there is none exactly when the majors differ or the ranges do not meet. *)
Theorem negotiate_minor_spec (s : FeatureStream) major lo hi m :
  min_feature_minor s <= max_feature_minor s -> lo <= hi ->
  (negotiate_minor s major lo hi = Ok m <->
   feature_major s = major /\ lo <= m <= hi /\ min_feature_minor s <= m <= max_feature_minor s /\
   forall n, lo <= n <= hi -> min_feature_minor s <= n <= max_feature_minor s -> n <= m).
Proof.
  intros Hs Hr. unfold negotiate_minor. rewrite (proj2 (Z.ltb_ge _ _) Hr), orb_false_r.
  destruct (Z.eqb_spec (feature_major s) major) as [Em|Em]; cbn [negb]; [|naive_solver].
  destruct (Z.leb_spec (Z.max (min_feature_minor s) lo) (Z.min (max_feature_minor s) hi))
    as [Hle|Hgt]; split.
  - intros [= <-]. split; [done|]. split; [lia|]. split; [lia|]. intros; lia.
  - intros (_ & Hm & Hm' & Hmax). f_equal. apply Z.le_antisymm; [|lia]. apply Hmax; lia.
  - done.
  - intros (_ & Hm & Hm' & _). lia.
Qed.

(** ** Witnesses *)

Section witnesses.
Import SamplePeer SampleWire.

Definition quiet_world : World unit :=
  mkWorld None None sample_address [] [] [] [] tt ∅ 16 true true 0 0 [] 1 8765.

Lemma feature_header_roundtrip_witness : exists s w',
  open_feature_stream_versioned 9 "arcrelay.clipboard" 1 0 3 "sync" [x01] quiet_world = (Ok s, w') /\
  s = mkFeatureStream "arcrelay.clipboard" [x01] 1 0 3 9 "sync".
Proof.
  destruct (open_feature_stream_versioned 9 "arcrelay.clipboard" 1 0 3 "sync" [x01] quiet_world)
    as [[s|e] w'] eqn:E.
  - exists s, w'. split; [done|].
    destruct (feature_header_roundtrip 9 "arcrelay.clipboard" 1 0 3 "sync" [x01] quiet_world s w'
      ltac:(lia) E) as [Hs _]. exact Hs.
  - exfalso. assert (Ho : is_ok (open_feature_stream_versioned 9 "arcrelay.clipboard" 1 0 3 "sync"
      [x01] quiet_world).1 = true) by (vm_compute; reflexivity). rewrite E in Ho. discriminate Ho.
Defined.

Definition good_header : FeaturePayload := mkFeaturePayload "arcrelay.pairing" [] 1 0 0 5 "".

Lemma accept_feature_stream_safe_witness :
  (1 <= 8)%nat /\ forall s, Some (Ok s) ∈ [Some (Ok (stream_of good_header)) : option (net_result FeatureStream)] ->
    header_ok s.
Proof.
  apply accept_feature_stream_safe.
  apply (calls_more 0 [Incoming None; Joined None; Incoming None; Incoming None; Joined (Some (Ok good_header))]
    _ 1 [] 1); [reflexivity | constructor].
Defined.

Lemma negotiate_minor_spec_witness :
  negotiate_minor (stream_of (mkFeaturePayload "a" [] 1 0 5 1 "")) 1 2 4 = Ok 4.
Proof. apply negotiate_minor_spec; [cbn; lia | lia |]. cbn. split_and!; try lia; intros; lia. Defined.
End witnesses.
