(* ===== verification/Trust.v ===== *)
(** * Trust

    The operations of the runtime that change what this device knows of a peer
    (runtime.rs): forgetting it, its grants and its automatic dial, the
    endpoints remembered from an authenticated session.  Their state is the
    store, the discovery registry and the session registry together. *)

From S2P Require Import Prelude Errors Addr Peer Wire Grants Registry Endpoint RepositoryDb Repository.
From S2P Require Import Store Identity Discovery Probe Handshake Auth.

(** ** Definitions *)

Section trust.
Context `{PeerApi} `{Crypto} `{WireApi} `{Transport} {S : Type} `{!PeerRepository S}
  `{!EndpointRepository S} `{!PeerService S}.

Record Runtime := mkRuntime {
  store : S;
  discovery : Discovery;
  registry : Registry
}.

Definition on_store {E A} (m : action S E A) : action Runtime E A := fun r =>
  let (x, s) := m (store r) in (x, mkRuntime s (discovery r) (registry r)).

Definition on_discovery {E} (f : Discovery -> Discovery) : action Runtime E unit := fun r =>
  (Ok tt, mkRuntime (store r) (f (discovery r)) (registry r)).

Definition on_registry {E A} (f : Registry -> A * Registry) : action Runtime E A := fun r =>
  let (x, g) := f (registry r) in (Ok x, mkRuntime (store r) (discovery r) g).

(** [.map_err(|error| NetworkError::Repository(error.to_string()))] *)
Definition repository_call {A} (m : action S RepositoryError A) : action Runtime NetworkError A :=
  on_store (act_map_err (fun e => Repository (repository_error_text e)) m).
Definition service_call {A} (m : action S string A) : action Runtime NetworkError A :=
  on_store (act_map_err Repository m).

(** [NetworkRuntime::forget] *)
Definition forget (id : DeviceId) : action Runtime NetworkError bool :=
  forgotten ← service_call (service_forget S id);
  on_store (forget_endpoints id) ;;
  on_discovery (forget_authenticated id) ;;
  on_registry (fun g => (tt, forget_sessions id g)) ;;
  mret forgotten.

(** [NetworkRuntime::require] *)
Definition require (s : Session) (capability : CapabilityId)
    : action Runtime NetworkError GrantConstraints :=
  on_store (act_map_err Unauthorized (authorize S (peer_device_id (peer s)) capability)).

(** [NetworkRuntime::grants] *)
Definition grants_of (id : DeviceId) : action Runtime NetworkError (list Grant) :=
  repository_call (list_grants id).

(** [NetworkRuntime::set_peer_auto_connect] at time [now]. *)
Definition set_peer_auto_connect (now : Z) (id : DeviceId) (enabled : bool)
    : action Runtime NetworkError bool :=
  found ← repository_call (find_peer id);
  match found with
  | None => mret false
  | Some p =>
      if negb (is_trusted p) then mret false
      else
        repository_call (save_peer
          (mkPeerRecord (rec_device_id p) (rec_public_key p) (display_name p) (rec_platform p)
             (rec_model p) (trust_state p) enabled (paired_at_ms p) now)) ;;
        mret true
  end.

(** [NetworkRuntime::remembered_peer] at time [now]. *)
Definition remembered_peer (now : Z) (id : DeviceId)
    : action Runtime NetworkError (option PeerAdvertisement) :=
  p ← on_store (require_paired id None);
  l ← on_store (endpoints now id);
  match l with
  | [] => mret None
  | primary :: _ =>
      let connection_addresses := map ep_address l in
      let addresses := sort_dedup (map sock_ip connection_addresses) in
      mret (Some (mkAdvertisement (rec_device_id p) (rec_public_key p)
        (mkMetadata (display_name p) (rec_platform p) (rec_model p))
        addresses connection_addresses (sock_port (ep_address primary))
        (ep_certificate_sha256 primary) (last_seen_at_ms primary)))
  end.

(** [NetworkRuntime::grant] *)
Definition grant (g : Grant) : action Runtime NetworkError unit :=
  lift (validate_local_grant_request (grant_capability g) (grant_constraints g)) ;;
  service_call (service_grant S g) ;;
  on_registry (fun reg => (tt, grant_sessions (grant_peer_id g) (grant_capability g) reg)).

(** [NetworkRuntime::revoke] *)
Definition revoke (id : DeviceId) (capability : CapabilityId) (direction : GrantDirection)
    : action Runtime NetworkError bool :=
  revoked ← repository_call (revoke_grant id capability direction);
  (if (revoked : bool) then
     on_registry (fun g => (tt, (disconnect id "authorization changed" g).2))
   else mret tt) ;;
  mret revoked.

(** The advertisement [remember_authenticated_session] builds from a session
    whose connection has the remote address [remote]. *)
Definition dial_address (s : Session) (remote : SocketAddr) : SocketAddr :=
  sock_new (sock_ip remote)
    (if listen_port (peer s) =? 0 then sock_port remote else listen_port (peer s)).

Definition advertisement_of (now : Z) (s : Session) (remote : SocketAddr) : PeerAdvertisement :=
  mkAdvertisement (peer_device_id (peer s)) (peer_public_key (peer s)) (peer_metadata (peer s))
    [sock_ip remote] [dial_address s remote] (sock_port (dial_address s remote))
    (peer_certificate_sha256 (peer s)) now.

(** [let _ = op;] or a failure that is only logged. *)
Definition attempt {E F A} (m : action Runtime E A) : action Runtime F (result E A) := fun r =>
  let (x, r') := m r in (Ok x, r').

(** [NetworkRuntime::remember_authenticated_session]: the advertisement is made
    at [now], the endpoint recorded at [now']. *)
Definition remember_authenticated_session (now now' : Z) (s : Session) (remote : SocketAddr)
    (source : EndpointSource) : action Runtime NetworkError PeerAdvertisement :=
  let peer_ad := advertisement_of now s remote in
  on_discovery (observe_authenticated peer_ad) ;;
  paired ← attempt (on_store (require_paired (peer_device_id (peer s)) (Some (peer_public_key (peer s)))));
  (if is_ok paired then
     attempt (on_store (record_authenticated now' (peer_device_id (peer s)) (dial_address s remote)
       (peer_certificate_sha256 (peer s)) source)) ;;
     mret tt
   else mret tt) ;;
  mret peer_ad.
End trust.

Arguments Runtime {_ _} _.

(** ** Facts *)

Section facts.
Context `{PeerApi} `{Crypto} `{WireApi} `{Transport} {S : Type} `{!PeerRepository S}
  `{!EndpointRepository S} `{!PeerService S}.
Context `{!PeerLaws} `{!TransportLaws} `{!PeerRepositoryLaws S} `{!EndpointRepositoryLaws S} `{!StoreLaws S}
  `{!PeerServiceLaws S}.

Abbreviation Runtime := (Runtime S).

(** Every session of the device is closed and unregistered, the others are as
    they were. *)
Definition cut_off (id : DeviceId) (g g' : Registry) : Prop :=
  (forall k, sessions g' !! (id, k) = None) /\
  (forall k a, sessions g !! (id, k) = Some a -> conn_open g' (a_connection a) = false) /\
  (forall key a, sessions g !! key = Some a -> key.1 <> id ->
     sessions g' !! key = Some a /\ conn_open g' (a_connection a) = conn_open g (a_connection a)).

Lemma disconnect_cuts_off id reason g : reachable g -> cut_off id g (disconnect id reason g).2.
Proof.
  intros Hr. apply reachable_ok in Hr as Hok. unfold disconnect. cbn [snd].
  pose proof (fun key a => remove_device_entry 0 reason id g key a Hok) as He. cbv zeta in He.
  split_and!.
  - intros k. destruct (sessions g !! (id, k)) as [a|] eqn:E.
    + specialize (He _ _ E). rewrite decide_True in He by done. apply He.
    + by apply remove_device_absent.
  - intros k a Hk. specialize (He _ _ Hk). rewrite decide_True in He by done. apply He.
  - intros key a Hk Hne. specialize (He _ _ Hk). by rewrite decide_False in He.
Qed.

Lemma on_store_inv {E A} (m : action S E A) (r : Runtime) x r' :
  on_store m r = (x, r') -> exists s, m (store r) = (x, s) /\ r' = mkRuntime s (discovery r) (registry r).
Proof. unfold on_store. destruct (m (store r)) as [y s]. intros [= <- <-]. eauto. Qed.

Lemma service_call_inv {A} (m : action S string A) (r : Runtime) x r' :
  service_call m r = (x, r') -> exists y s, m (store r) = (y, s) /\ x = map_err Repository y /\
    r' = mkRuntime s (discovery r) (registry r).
Proof.
  intros (s & E & ->)%on_store_inv. apply act_map_err_inv in E as (y & E & ->). eauto.
Qed.

Lemma repository_call_inv {A} (m : action S RepositoryError A) (r : Runtime) x r' :
  repository_call m r = (x, r') -> exists y s, m (store r) = (y, s) /\
    x = map_err (fun e => Repository (repository_error_text e)) y /\
    r' = mkRuntime s (discovery r) (registry r).
Proof.
  intros (s & E & ->)%on_store_inv. apply act_map_err_inv in E as (y & E & ->). eauto.
Qed.

Lemma is_ok_map_err {E F A} (f : E -> F) (r : result E A) : is_ok (map_err f r) = is_ok r.
Proof. by destruct r. Qed.

Lemma forget_authenticated_lookup id d :
  (forall q, authenticated_peers (forget_authenticated id d) !! q =
     if decide (q = id) then None else authenticated_peers d !! q).
Proof.
  intros q. unfold forget_authenticated. destruct (authenticated_peers d !! id) eqn:E; cbn.
  - rewrite lookup_delete. by repeat case_decide.
  - case_decide; by subst.
Qed.
Lemma dial_address_plain s remote : plain_address (dial_address s remote).
Proof. unfold dial_address. by destruct (sock_ip remote). Qed.

Lemma require_paired_keeps id key s r s' :
  store_ok s -> require_paired id key s = (r, s') -> store_ok s' /\ same_stored s s'.
Proof.
  intros Hs E. destruct (require_paired_run _ _ _ _ _ (proj1 Hs) E) as (Hok & _ & _).
  unfold require_paired in E.
  assert (Hf : forall r1 s1, act_map_err (fun e => Repository (repository_error_text e)) (find_peer id) s
    = (r1, s1) -> repo_ok s1 /\ same_stored s s1).
  { intros r1 s1 (r2 & E2 & _)%act_map_err_inv. exact (find_peer_keeps _ id s r2 s1 Hs E2). }
  apply act_bind_inv in E as [(found & s1 & E1 & E)|(e & E1 & _)].
  - destruct (Hf _ _ E1) as [Hr Hst].
    assert (s' = s1) as ->; [|done].
    apply act_bind_inv in E as [(p & s2 & E2 & E)|(e & E2 & _)]; injection E2 as _ ->; [|done].
    apply act_bind_inv in E as [([] & s3 & E3 & E)|(e & E3 & _)]; injection E3 as _ <-; [|done].
    by injection E as _ <-.
  - destruct (Hf _ _ E1). done.
Qed.

(** A handshake keeps the store. *)
Lemma stays_store (w w' : World S) :
  stays w w' -> store_ok (repo w) -> store_ok (repo w') /\ same_stored (repo w) (repo w').
Proof.
  intros Hst. pose proof (st_looks _ _ Hst) as Hl. clear Hst.
  induction Hl as [s|s s1 s2 (id & key & x & E) _ IH]; [done|]. intros Hs.
  destruct (require_paired_keeps _ _ _ _ _ Hs E) as (Hs1 & Ha). destruct (IH Hs1) as (Hs2 & Hb).
  split; [done|]. intros q b. by rewrite Hb, Ha.
Qed.

(** A [forget] that succeeds has forgotten in every part of the runtime. *)
Lemma forget_run id (r : Runtime) b r' :
  store_ok (store r) -> forget id r = (Ok b, r') ->
  view_forget id (view (store r)) (view (store r')) /\
  (forall q a, stored (store r') q a = if decide (q = id) then None else stored (store r) q a) /\
  discovery r' = forget_authenticated id (discovery r) /\
  registry r' = forget_sessions id (registry r).
Proof.
  intros Hs E. unfold forget in E.
  apply act_bind_ok in E as (f & r1 & E1 & E). apply service_call_inv in E1 as (y & s1 & E1 & Hy & ->).
  symmetry in Hy. apply map_err_ok in Hy as ->.
  pose proof (service_forget_spec _ id (store r) (Ok f) s1) as Hf.
  destruct (Hf Hs E1) as (Hs1 & [Hk Hh] & Hst).
  apply act_bind_ok in E as ([] & r2 & E2 & E). apply on_store_inv in E2 as (s2 & E2 & ->).
  cbn [store] in E2. pose proof (forget_endpoints_spec id s1 (Ok tt) s2) as Hfe.
  destruct (Hfe (proj2 Hs1) E2) as (_ & Hst2).
  pose proof (forget_endpoints_keeps _ id s1 (Ok tt) s2 Hs1 E2) as (_ & [Hk2 Hh2]).
  apply act_bind_ok in E as ([] & r3 & E3 & E). injection E3 as <-.
  apply act_bind_ok in E as ([] & r4 & E4 & E). injection E4 as <-. injection E as <- <-.
  cbn [store discovery registry is_ok] in *. split_and!; try done.
  - split; intros; rewrite <- ?Hk2, <- ?Hh2; auto.
  - intros q a. rewrite Hst2. destruct (decide (q = id)) as [->|Hne].
    + by rewrite decide_True.
    + rewrite decide_False by naive_solver. by apply Hst.
Qed.

(** Remembering a session touches no session. *)
Lemma remember_registry now now' s remote source (r : Runtime) :
  registry (remember_authenticated_session now now' s remote source r).2 = registry r.
Proof.
  unfold remember_authenticated_session, mbind, action_bind, attempt, on_store, on_discovery.
  cbv zeta. cbn [store discovery registry].
  destruct (require_paired _ _ (store r)) as [[p|e] s1]; cbn [is_ok store discovery registry]; [|done].
  by destruct (record_authenticated _ _ _ _ _ s1).
Qed.
End facts.

(** ** Properties *)

Section properties.
Context `{PeerApi} `{Crypto} `{WireApi} `{Transport} {S : Type} `{!PeerRepository S}
  `{!EndpointRepository S} `{!PeerService S}.
Context `{!PeerLaws} `{!TransportLaws} `{!PeerRepositoryLaws S} `{!EndpointRepositoryLaws S} `{!StoreLaws S}
  `{!PeerServiceLaws S}.

(** C19. After [forget] has succeeded nothing of the peer is left: no record, no
    grant, no remembered endpoint, no authenticated route, and every session
    with it is unregistered and closed; all other peers are untouched. *)
Theorem forget_leaves_nothing id (r : Runtime S) b r' :
  store_ok (store r) -> reachable (registry r) -> forget id r = (Ok b, r') ->
  known (view (store r')) id = None /\ (forall c d, held (view (store r')) id c d = None) /\
  (forall a, stored (store r') id a = None) /\
  authenticated_peers (discovery r') !! id = None /\
  cut_off id (registry r) (registry r') /\
  forall q, q <> id ->
    known (view (store r')) q = known (view (store r)) q /\
    (forall c d, held (view (store r')) q c d = held (view (store r)) q c d) /\
    (forall a, stored (store r') q a = stored (store r) q a) /\
    authenticated_peers (discovery r') !! q = authenticated_peers (discovery r) !! q.
Proof.
  intros Hs Hr E. destruct (forget_run _ _ _ _ Hs E) as ([Hk Hh] & Hst & -> & ->).
  split_and!; intros; rewrite ?forget_authenticated_lookup, ?Hk, ?Hh, ?Hst, ?decide_True by done; try done.
  - by apply (forget_tears_down (registry r) id).
  - rewrite !decide_False by done. split_and!; [done| | |done]; intros.
    + by rewrite Hh, decide_False.
    + by rewrite Hst, decide_False.
Qed.

(** [forget] does not reach the sessions when the endpoint repository fails:
    the peer's record and grants are gone, the call answers with the error, and
    every session with the peer stays registered and open. *)
Theorem forget_failure_keeps_sessions id (r : Runtime S) b s1 e s2 :
  store_ok (store r) -> service_forget S id (store r) = (Ok b, s1) ->
  forget_endpoints id s1 = (Err e, s2) ->
  exists r', forget id r = (Err e, r') /\ known (view (store r')) id = None /\
    (forall c d, held (view (store r')) id c d = None) /\
    registry r' = registry r /\ discovery r' = discovery r.
Proof.
  intros Hs E1 E2. exists (mkRuntime s2 (discovery r) (registry r)).
  pose proof (service_forget_spec _ id (store r) (Ok b) s1) as Hf.
  destruct (Hf Hs E1) as (Hs1 & [Hk Hh] & Hst).
  pose proof (forget_endpoints_keeps _ id s1 (Err e) s2 Hs1 E2) as (_ & [Hk2 Hh2]).
  split.
  - unfold forget. erewrite act_bind_eq.
    2:{ unfold service_call, on_store, act_map_err. rewrite E1. reflexivity. }
    unfold mbind, action_bind, on_store. cbn [store discovery registry]. by rewrite E2.
  - cbn [store discovery registry]. split_and!; try done.
    + by rewrite <- Hk2, Hk, decide_True.
    + intros c d. by rewrite <- Hh2, Hh, decide_True.
Qed.

(** A grant that is accepted is the peer's grant of that capability and
    direction, leaves every other grant and record alone, and ends the sessions
    that carry the old authority: the realtime-input session for cross-screen
    injection, every session of the peer for any other capability.  A grant that
    is refused changes neither the grants nor the sessions. *)
Theorem grant_effect (g : Grant) (r : Runtime S) x r' :
  store_ok (store r) -> reachable (registry r) -> grant g r = (x, r') ->
  match x with
  | Ok _ =>
      validate_local_grant_request (grant_capability g) (grant_constraints g) = Ok tt /\
      view_save_grant g (view (store r)) (view (store r')) /\
      forall key a, sessions (registry r) !! key = Some a ->
        if decide (key = (grant_peer_id g, RealtimeInput) \/
                   (key.1 = grant_peer_id g /\ grant_capability g <> CrossScreenInject))
        then sessions (registry r') !! key = None /\ conn_open (registry r') (a_connection a) = false
        else sessions (registry r') !! key = Some a /\
             conn_open (registry r') (a_connection a) = conn_open (registry r) (a_connection a)
  | Err _ => view_eq (view (store r)) (view (store r')) /\ registry r' = registry r
  end.
Proof.
  intros Hs Hr E. unfold grant in E.
  apply act_bind_inv in E as [([] & r1 & E1 & E)|(e & E1 & ->)]; injection E1 as E1 <-;
    [|split; reflexivity].
  apply act_bind_inv in E as [([] & r2 & E2 & E)|(e & E2 & ->)];
    apply service_call_inv in E2 as (y & s & E2 & Hy & ->);
    pose proof (service_grant_spec _ g (store r) y s) as Hg; destruct (Hg Hs E2) as (_ & Hv & _).
  - symmetry in Hy. apply map_err_ok in Hy as ->. injection E as <- <-. cbn [store registry is_ok] in *.
    split_and!; [done..|]. by apply (grant_interrupts (registry r)).
  - cbn [store registry]. split; [|done]. destruct y; [discriminate Hy | exact Hv].
Qed.

(** A grant that is revoked is gone, no other grant or record changes, and
    every session of the peer is closed; when there was none to revoke, or the
    repository fails, the sessions stay. *)
Theorem revoke_effect id c dir (r : Runtime S) x r' :
  store_ok (store r) -> reachable (registry r) -> revoke id c dir r = (x, r') ->
  match x with
  | Ok b => view_revoke id c dir (view (store r)) (view (store r')) /\
            if b then cut_off id (registry r) (registry r') else registry r' = registry r
  | Err _ => view_eq (view (store r)) (view (store r')) /\ registry r' = registry r
  end.
Proof.
  intros Hs Hr E. unfold revoke in E.
  apply act_bind_inv in E as [(b & r1 & E1 & E)|(e & E1 & ->)];
    apply repository_call_inv in E1 as (y & s & E1 & Hy & ->);
    pose proof (revoke_grant_spec id c dir (store r) y s) as Hg; destruct (Hg (proj1 Hs) E1) as (_ & Hv).
  - symmetry in Hy. apply map_err_ok in Hy as ->. cbn [is_ok] in Hv.
    destruct b; injection E as <- <-; cbn [store registry]; split; try done.
    by apply disconnect_cuts_off.
  - cbn [store registry]. split; [|done]. destruct y; [discriminate Hy | exact Hv].
Qed.

(** The automatic-dial preference is a preference only: for a paired peer
    it changes that field and the time of the record, for any other device
    nothing; keys, trust, grants, routes and sessions are never touched. *)
Theorem set_peer_auto_connect_effect now id enabled (r : Runtime S) x r' :
  store_ok (store r) -> set_peer_auto_connect now id enabled r = (x, r') ->
  registry r' = registry r /\ discovery r' = discovery r /\ same_stored (store r) (store r') /\
  (forall q c d, held (view (store r')) q c d = held (view (store r)) q c d) /\
  forall q, known (view (store r')) q =
    match known (view (store r)) q with
    | Some p =>
        if decide (x = Ok true /\ q = id) then
          Some (mkPeerRecord (rec_device_id p) (rec_public_key p) (display_name p) (rec_platform p)
                  (rec_model p) Paired enabled (paired_at_ms p) now)
        else Some p
    | None => None
    end.
Proof.
  intros Hs E. unfold set_peer_auto_connect in E.
  assert (Hsame : forall s (v := view s), view_eq (view (store r)) v ->
    (forall q c d, held v q c d = held (view (store r)) q c d) /\
    forall q, known v q = match known (view (store r)) q with Some p => Some p | None => None end).
  { intros s v [Hk Hh]. split; intros; [by rewrite Hh | rewrite <- Hk; by destruct (known _ q)]. }
  apply act_bind_inv in E as [(found & r1 & E1 & E)|(e & E1 & ->)];
    apply repository_call_inv in E1 as (y & s & E1 & Hy & ->);
    pose proof (find_peer_spec id (store r) y s) as Hf; destruct (Hf (proj1 Hs) E1) as (Hok & Hv & Ho);
    destruct (find_peer_keeps _ id (store r) y s Hs E1) as (Hrok & Hst);
    destruct (Hsame s Hv) as [Hheld Hknown].
  2:{ cbn [store registry discovery]. split_and!; [done..|]. intros q. rewrite Hknown.
      destruct (known _ q); [|done]. by rewrite decide_False by naive_solver. }
  symmetry in Hy. apply map_err_ok in Hy as ->. specialize (Ho _ eq_refl). subst found.
  assert (Hnone : forall (b : result NetworkError bool), b <> Ok true -> (b, mkRuntime s (discovery r) (registry r)) = (x, r') ->
    registry r' = registry r /\ discovery r' = discovery r /\ same_stored (store r) (store r') /\
    (forall q c d, held (view (store r')) q c d = held (view (store r)) q c d) /\
    forall q, known (view (store r')) q = match known (view (store r)) q with
      | Some p => if decide (x = Ok true /\ q = id) then
          Some (mkPeerRecord (rec_device_id p) (rec_public_key p) (display_name p) (rec_platform p)
                  (rec_model p) Paired enabled (paired_at_ms p) now) else Some p
      | None => None end).
  { intros b Hb [= <- <-]. cbn [store registry discovery]. split_and!; [done..|]. intros q.
    rewrite Hknown. destruct (known _ q); [|done]. by rewrite decide_False by naive_solver. }
  destruct (known (view (store r)) id) as [p|] eqn:Ep; [|by apply (Hnone (Ok false))].
  destruct (is_trusted p) eqn:Et; cbn [negb] in E; [|by apply (Hnone (Ok false))].
  unfold is_trusted in Et. apply bool_decide_eq_true in Et.
  set (p' := mkPeerRecord _ _ _ _ _ _ enabled _ now) in E.
  apply act_bind_inv in E as [([] & r2 & E2 & E)|(e & E2 & ->)];
    apply repository_call_inv in E2 as (y & s2 & E2 & Hy & ->); cbn [store] in E2;
    pose proof (save_peer_spec p' s y s2) as Hsv; destruct (Hsv Hok E2) as (Hok2 & Hv2);
    destruct (save_peer_keeps _ p' s y s2 (conj Hok Hrok) E2) as (_ & Hst2).
  - symmetry in Hy. apply map_err_ok in Hy as ->. injection E as <- <-.
    destruct Hv2 as [Hk2 Hh2]. cbn [store registry discovery is_ok] in *.
    destruct (known_key (store r) id p (proj1 Hs) Ep) as [Hid _]. split_and!; try done.
    + intros q b. by rewrite Hst2, Hst.
    + intros q c d. by rewrite Hh2, Hheld.
    + intros q. rewrite Hk2, Hknown. unfold p'. cbn [rec_device_id]. rewrite Hid.
      destruct (decide (q = id)) as [->|Hne].
      * rewrite Ep, decide_True by done. by rewrite Et, Hid.
      * destruct (known _ q); [|done]. by rewrite decide_False by naive_solver.
  - assert (Hy2 : is_ok y = false) by (by destruct y). rewrite Hy2 in Hv2.
    destruct (Hsame s2) as [Hheld2 Hknown2]; [by etransitivity|].
    cbn [store registry discovery]. split_and!; try done.
    intros q b. by rewrite Hst2, Hst.
Qed.

(** Only paired devices leave a trace on disk: the endpoint of an
    authenticated session is recorded only if the repository holds the device
    as paired with the session's key, at the address the session can be dialled
    at; the route of any authenticated device is shown by discovery until it is
    forgotten; trust and sessions are not touched. *)
Theorem remember_only_paired now now' s remote source (r : Runtime S) x r' :
  store_ok (store r) -> in_i64 now' -> blen (peer_certificate_sha256 (peer s)) = 32 ->
  remember_authenticated_session now now' s remote source r = (x, r') ->
  x = Ok (advertisement_of now s remote) /\ registry r' = registry r /\
  discovery r' = observe_authenticated (advertisement_of now s remote) (discovery r) /\
  view_eq (view (store r)) (view (store r')) /\
  forall q b, stored (store r') q b = stored (store r) q b \/
    (q = peer_device_id (peer s) /\
     paired_in (store r) (peer_device_id (peer s)) (peer_public_key (peer s)) /\
     (stored (store r') q b = None \/
      (b = dial_address s remote /\
       stored (store r') q b = Some (authenticated now' q b (peer_certificate_sha256 (peer s)) source
                                       (stored (store r) q b))))).
Proof.
  intros Hs Hnow Hcert E. unfold remember_authenticated_session in E. cbv zeta in E.
  apply act_bind_inv in E as [([] & r1 & E1 & E)|(e & E1 & ->)]; [|discriminate E1]. injection E1 as <-.
  apply act_bind_inv in E as [(paired & r2 & E2 & E)|(e & E2 & ->)];
    unfold attempt, on_store in E2; cbn [store] in E2;
    destruct (require_paired _ _ (store r)) as [y s2] eqn:Er; [|discriminate E2]. injection E2 as <- <-.
  destruct (require_paired_keeps _ _ _ _ _ Hs Er) as (Hs2 & Hst2).
  destruct (require_paired_run _ _ _ _ _ (proj1 Hs) Er) as (_ & Hv2 & Hp).
  destruct y as [p|e]; cbn [is_ok] in E.
  2:{ injection E as <- <-. cbn [store registry discovery]. split_and!; try done.
      intros q b. left. apply Hst2. }
  destruct (Hp p eq_refl) as (Hkn & Htr & Hkey).
  assert (Hpaired : paired_in (store r) (peer_device_id (peer s)) (peer_public_key (peer s))).
  { exists p. split_and!; [done..|]. symmetry. by apply Hkey. }
  apply act_bind_inv in E as [([] & r3 & E3 & E)|(e & E3 & ->)].
  2:{ apply act_bind_inv in E3 as [(y & r4 & E4 & E3)|(e' & E4 & _)]; [discriminate E3|].
      unfold attempt in E4. destruct (on_store _ _) as [??]. discriminate E4. }
  apply act_bind_inv in E3 as [(y & r4 & E4 & E3)|(e' & E4 & _)]; [|unfold attempt in E4;
    destruct (on_store _ _) as [??]; discriminate E4].
  injection E3 as ->. injection E as <- <-. unfold attempt, on_store in E4. cbn [store discovery registry] in E4.
  destruct (record_authenticated _ _ _ _ _ s2) as [z s3] eqn:Ea. injection E4 as _ <-.
  cbn [store registry discovery].
  pose proof (dial_address_plain s remote) as Hplain.
  pose proof (record_authenticated_spec now' (peer_device_id (peer s)) (dial_address s remote)
    (peer_certificate_sha256 (peer s)) source s2 z s3) as Hspec.
  destruct (Hspec Hnow Hplain Hcert (proj2 Hs2) Ea) as (_ & Hother & Hnew & _).
  pose proof (record_authenticated_keeps _ now' (peer_device_id (peer s)) (dial_address s remote)
    (peer_certificate_sha256 (peer s)) source Hnow Hplain Hcert s2 z s3 Hs2 Ea) as (_ & Hv3).
  split_and!; try done; [by etransitivity|]. intros q b.
  destruct (decide (q = peer_device_id (peer s))) as [->|Hq];
    [|left; rewrite Hother by auto; apply Hst2].
  destruct (is_ok z) eqn:Ez; [|left; rewrite Hother by auto; apply Hst2].
  destruct (stored s3 (peer_device_id (peer s)) b) as [e|] eqn:Eb.
  - specialize (Hnew b e eq_refl Eb). case_decide as Hb.
    + right. split_and!; try done. right. split; [done|]. rewrite Hnew, Hb. by rewrite Hst2.
    + left. by rewrite <- Hst2, Hnew.
  - right. split_and!; try done. by left.
Qed.

(** The address remembered for an IPv6 peer has lost the interface of the
    connection: whatever the scope of the remote address, the recorded address
    has scope 0 and its network scope is that of no interface, so peers of
    different links fall in one scope and a link-local peer cannot be dialled
    again. *)
Theorem remembered_address_loses_scope s a :
  dial_address s (SockV6 a) = SockV6 (mkSockV6 (v6_ip a)
    (if listen_port (peer s) =? 0 then v6_port a else listen_port (peer s)) 0 0) /\
  network_scope (dial_address s (SockV6 a)) = "ipv6-if-0"%string /\
  forall b, network_scope (SockV6 a) = network_scope (SockV6 b) <-> v6_scope_id a = v6_scope_id b.
Proof.
  split; [done|]. split; [reflexivity|]. intros b. unfold network_scope. split.
  - intros E. apply dec_inj. by apply (inj (String.append "ipv6-if-")) in E.
  - by intros ->.
Qed.
End properties.

(** ** Witnesses *)

Section witnesses.
Import SamplePeer SampleRegistry SampleDb SampleCrypto SampleWire.

#[local] Existing Instance sqlite_peer_service.
#[local] Existing Instance sqlite_peer_service_laws.

(** "A" with one session to the paired "B". *)
Definition with_B : Registry := add 1 sA start.
Definition connected : Registry := (register_session 1%nat sA with_B).2.

Lemma connected_reachable : reachable connected.
Proof.
  apply reachable_register; [|reflexivity]. apply reachable_add; [apply reachable_start|by_evaluation..].
Qed.

Definition idle : Discovery := mkDiscovery (dev "A") ∅ ∅ ∅ [] 0.
Definition runtime : Runtime Sqlite := mkRuntime remembered idle connected.

Lemma runtime_ok : store_ok (store runtime).
Proof. split; apply remembered_ok. Qed.

Lemma forget_leaves_nothing_witness : exists r',
  forget (dev "B") runtime = (Ok true, r') /\ known (view (store r')) (dev "B") = None /\
  sessions (registry r') !! (dev "B", Control) = None.
Proof.
  assert (E : exists r', forget (dev "B") runtime = (Ok true, r')).
  { assert (Hb : to_option (forget (dev "B") runtime).1 = Some true) by (vm_compute; reflexivity).
    destruct (forget (dev "B") runtime) as [[b|e] r']; [injection Hb as ->; by exists r' | discriminate Hb]. }
  destruct E as [r' E]. exists r'.
  destruct (forget_leaves_nothing (dev "B") runtime true r' runtime_ok connected_reachable E)
    as (Hk & _ & _ & _ & (Hs & _) & _). auto.
Defined.

(** The same runtime over a store whose third statement fails. *)
Definition failing : Runtime Sqlite :=
  mkRuntime (mkSqlite (db remembered) [None; None; Some "disk I/O error"%string]) idle connected.

Lemma forget_failure_keeps_sessions_witness : exists e r',
  forget (dev "B") failing = (Err e, r') /\ known (view (store r')) (dev "B") = None /\
  sessions (registry r') !! (dev "B", Control) = Some (active_of 1%nat sA []).
Proof.
  set (s1 := (service_forget Sqlite (dev "B") (store failing)).2).
  assert (E1 : service_forget Sqlite (dev "B") (store failing) = (Ok true, s1)).
  { rewrite (surjective_pairing (service_forget _ _ _)). fold s1. f_equal. }
  assert (E2 : forget_endpoints (dev "B") s1
    = (Err (Repository "disk I/O error"), (forget_endpoints (dev "B") s1).2)).
  { rewrite (surjective_pairing (forget_endpoints _ _)) at 1. f_equal. }
  assert (Hok : store_ok (store failing)) by (split; exact remembered_ok).
  destruct (forget_failure_keeps_sessions (dev "B") failing true s1 _ _ Hok E1 E2)
    as (r' & E & Hk & _ & Hreg & _).
  exists (Repository "disk I/O error"), r'. split; [exact E|]. split; [exact Hk|].
  rewrite Hreg. by_evaluation.
Defined.

Definition inject_grant : Grant :=
  mkGrant (dev "B") Inject DirInbound ConstraintsNone 30.

Lemma grant_effect_witness : exists r',
  grant inject_grant runtime = (Ok tt, r') /\
  held (view (store r')) (dev "B") Inject DirInbound = Some inject_grant.
Proof.
  assert (E : exists r', grant inject_grant runtime = (Ok tt, r')).
  { assert (Hb : is_ok (grant inject_grant runtime).1 = true) by (vm_compute; reflexivity).
    destruct (grant inject_grant runtime) as [[[]|e] r']; [by exists r' | discriminate Hb]. }
  destruct E as [r' E]. exists r'. split; [exact E|].
  pose proof (grant_effect inject_grant runtime (Ok tt) r' runtime_ok connected_reachable E) as Hg.
  destruct Hg as (_ & (_ & Hh) & _). rewrite Hh. by rewrite decide_True.
Defined.

Lemma revoke_effect_witness : exists r',
  revoke (dev "B") RemoteRead DirOutbound runtime = (Ok true, r') /\
  held (view (store r')) (dev "B") RemoteRead DirOutbound = None.
Proof.
  assert (E : exists r', revoke (dev "B") RemoteRead DirOutbound runtime = (Ok true, r')).
  { assert (Hb : to_option (revoke (dev "B") RemoteRead DirOutbound runtime).1 = Some true)
      by (vm_compute; reflexivity).
    destruct (revoke (dev "B") RemoteRead DirOutbound runtime) as [[b|e] r'];
      [injection Hb as ->; by exists r' | discriminate Hb]. }
  destruct E as [r' E]. exists r'. split; [exact E|].
  pose proof (revoke_effect (dev "B") RemoteRead DirOutbound runtime (Ok true) r' runtime_ok
    connected_reachable E) as Hg.
  destruct Hg as ((_ & Hh) & _). rewrite Hh. by rewrite decide_True.
Defined.

Lemma set_peer_auto_connect_effect_witness : exists x r',
  set_peer_auto_connect 40 (dev "B") false runtime = (x, r') /\ registry r' = connected.
Proof.
  destruct (set_peer_auto_connect 40 (dev "B") false runtime) as [x r'] eqn:E. exists x, r'.
  split; [done|].
  destruct (set_peer_auto_connect_effect 40 (dev "B") false runtime x r' runtime_ok E) as (Hr & _).
  exact Hr.
Defined.

(** A session of "B" with the paired key. *)
Definition session_B : Session :=
  mkSession None None None 1 Control
    (mkSessionPeer (dev "B") key meta (repeat x05 32) 8765) "123456" (mkRank (dev "A") [x01])
    11%nat 0.

Lemma remember_only_paired_witness : exists x r',
  remember_authenticated_session 50 60 session_B sample_address Inbound runtime = (x, r') /\
  view_eq (view (store runtime)) (view (store r')).
Proof.
  destruct (remember_authenticated_session 50 60 session_B sample_address Inbound runtime)
    as [x r'] eqn:E. exists x, r'. split; [done|].
  destruct (remember_only_paired 50 60 session_B sample_address Inbound runtime x r' runtime_ok)
    as (_ & _ & _ & Hv & _); [by_evaluation | reflexivity | exact E | exact Hv].
Defined.
End witnesses.
