(* ===== verification/Pairing.v ===== *)
(** * Pairing

    The pairing protocol of the runtime (runtime.rs): the grants requested, the
    peer's answer, and the trust and grants it establishes. *)

From S2P Require Import Prelude Errors Addr Peer Wire Grants Registry Endpoint RepositoryDb Repository.
From S2P Require Import Store Identity Discovery Probe Handshake Auth Trust.

(** ** Requests *)

Section requests.
Context `{PeerApi} `{WireApi}.

Record PairingGrantRequest := mkRequest {
  req_capability : CapabilityId;
  req_direction : GrantDirection;
  req_constraints : GrantConstraints
}.

(** [PairingGrantRequest::outbound], [PairingGrantRequest::inbound] *)
Definition outbound (capability : CapabilityId) : PairingGrantRequest :=
  mkRequest capability DirOutbound ConstraintsNone.
Definition inbound (capability : CapabilityId) : PairingGrantRequest :=
  mkRequest capability DirInbound ConstraintsNone.

Abbreviation GrantKey := (CapabilityId * GrantDirection)%type.
Abbreviation Requested := (gmap GrantKey GrantConstraints).

(** The loop of [begin_pairing] over the requests. *)
Fixpoint collect_requests (m : Requested) (requests : list PairingGrantRequest)
    : net_result Requested :=
  match requests with
  | [] => Ok m
  | r :: rest =>
      _ ← validate_local_grant_request (req_capability r) (req_constraints r);
      match m !! (req_capability r, req_direction r) with
      | Some _ => Err (Protocol "duplicate requested pairing grant")
      | None =>
          let m := <[(req_capability r, req_direction r) := req_constraints r]> m in
          if (64 <? size m)%nat then Err (Protocol "too many requested pairing grants")
          else collect_requests m rest
      end
  end.

(** A [BTreeMap] in the order of its keys. *)
Definition in_order {A} (m : gmap GrantKey A) : list (GrantKey * A) :=
  sort_by (fun a b => cmp_le a.1 b.1) (map_to_list m).

(** A direction as the other device sees it. *)
Definition mirrored (d : GrantDirection) : GrantDirection :=
  match d with
  | DirOutbound => DirInbound
  | DirInbound => DirOutbound
  end.

(** The message [begin_pairing] sends. *)
Definition pairing_request (requested : Requested) : PairingRequest :=
  mkPairingRequest (map (fun kv =>
    mkCapabilityGrant (token kv.1.1) (direction_as_i32 (mirrored kv.1.2))
      (encode_grant_constraints kv.2) 0) (in_order requested)).

(** The loop of [complete_pairing] over the granted capabilities; [i] counts
    the readings of the clock. *)
Fixpoint accept_grants (clock : nat -> Z) (peer_id : DeviceId) (requested : Requested) (i : nat)
    (seen : gset GrantKey) (wires : list CapabilityGrant) : net_result (list Grant) :=
  match wires with
  | [] => Ok []
  | wire :: rest =>
      capability ← ok_or (parse_token (cg_capability wire))
                     (Protocol ("unknown granted capability " +:+ cg_capability wire));
      local_direction ← match direction_try_from (cg_direction wire) with
                        | Some (Some DirInbound) => Ok DirOutbound
                        | Some (Some DirOutbound) => Ok DirInbound
                        | _ => Err (Protocol "invalid pairing grant direction")
                        end;
      if decide ((capability, local_direction) ∈ seen)
      then Err (Protocol "invalid or duplicate pairing grant")
      else
        expected ← ok_or (requested !! (capability, local_direction))
                     (Protocol "peer returned an unrequested capability");
        constraints ← decode_grant_constraints (cg_constraints wire);
        if negb (bool_decide (constraints = expected))
        then Err (Protocol "peer changed pairing grant constraints")
        else
          granted ← accept_grants clock peer_id requested (S i)
                      ({[(capability, local_direction)]} ∪ seen) rest;
          Ok (mkGrant peer_id capability local_direction constraints (clock i) :: granted)
  end.

(** [existing.chain(grants)] collected into a [BTreeMap] by capability and
    direction, and its values. *)
Definition grant_at (g : Grant) : GrantKey := (grant_capability g, grant_direction g).
Definition by_key (l : list Grant) (m : gmap GrantKey Grant) : gmap GrantKey Grant :=
  fold_left (fun m g => <[grant_at g := g]> m) l m.
Definition merge_grants (existing grants : list Grant) : list Grant :=
  map snd (in_order (by_key (existing ++ grants) ∅)).
End requests.

(** ** Completion *)

Section completion.
Context `{PeerApi} `{WireApi} `{Transport} {S : Type} `{!PeerRepository S}
  `{!EndpointRepository S}.

Record PendingPairing := mkPending {
  pending_session : Session;
  pending_requested : gmap (CapabilityId * GrantDirection) GrantConstraints
}.

Record PairingOutcome := mkOutcome { outcome_peer : SessionPeer; outcome_granted : list Grant }.

(** [Session::close] *)
Definition close_session {E} (s : Session) (reason : string) : action (Runtime S) E unit :=
  on_registry (fun g => (tt, close_conn (connection s) 0 reason g)).

(** [PendingPairing::cancel] *)
Definition cancel {E} (p : PendingPairing) (reason : string) : action (Runtime S) E unit :=
  close_session (pending_session p) reason.

(** The record of the newly paired peer. *)
Definition paired_record (now : Z) (s : Session) : PeerRecord :=
  mkPeerRecord (peer_device_id (peer s)) (peer_public_key (peer s)) (name (peer_metadata (peer s)))
    (platform (peer_metadata (peer s))) (model (peer_metadata (peer s))) Paired true now now.

(** [confirm_pairing_with_grants]: the clock is read for the record ([now]), the
    advertisement ([now1]) and the endpoint ([now2]). *)
Definition confirm_pairing_with_grants (now now1 now2 : Z) (s : Session) (remote : SocketAddr)
    (grants : list Grant) : action (Runtime S) NetworkError unit :=
  act_reject (negb (bool_decide (kind s = Pairing)))
    (Protocol "only a pairing session can establish device trust") ;;
  act_reject (existsb (fun g => negb (bool_decide (grant_peer_id g = peer_device_id (peer s)))) grants)
    (Protocol "pairing grant belongs to another peer") ;;
  lift (collect (fun g => validate_local_grant_request (grant_capability g) (grant_constraints g))
          grants) ;;
  existing ← repository_call (list_grants (peer_device_id (peer s)));
  repository_call (save_pairing (paired_record now s) (merge_grants existing grants)) ;;
  remember_authenticated_session now1 now2 s remote Inbound ;;
  on_discovery refresh.

Definition confirm_pairing (now now1 now2 : Z) (s : Session) (remote : SocketAddr)
    : action (Runtime S) NetworkError unit :=
  confirm_pairing_with_grants now now1 now2 s remote [].

(** [complete_pairing]: [frame] is what reading the answer within the time-out
    gives. *)
Definition complete_pairing (clock : nat -> Z) (now now1 now2 : Z) (p : PendingPairing)
    (remote : SocketAddr) (frame : net_result (list byte))
    : action (Runtime S) NetworkError PairingOutcome :=
  let s := pending_session p in
  bytes ← lift frame;
  response ← lift (map_err Protocol (decode bytes));
  result ← lift (ok_or (pairing_result response) (Protocol "pairing result is missing"));
  (if negb (paired result) || negb (String.eqb (pr_peer_id result) (as_str (peer_device_id (peer s))))
   then
     close_session s "pairing rejected" ;;
     lift (Err (Protocol (if String.eqb (pr_error result) "" then "pairing rejected"
                          else pr_error result)))
   else mret tt) ;;
  granted ← lift (accept_grants clock (peer_device_id (peer s)) (pending_requested p) 0 ∅
                    (granted_grants response));
  confirm_pairing_with_grants now now1 now2 s remote granted ;;
  close_session s "pairing completed" ;;
  mret (mkOutcome (peer s) granted).
End completion.

(** ** Facts *)

Section facts.
Context `{PeerApi} `{WireApi} `{!PeerLaws} `{!WireLaws}.

Abbreviation GrantKey := (CapabilityId * GrantDirection)%type.
Abbreviation Requested := (gmap GrantKey GrantConstraints).

Lemma in_order_Permutation {A} (m : gmap GrantKey A) : in_order m ≡ₚ map_to_list m.
Proof. apply sort_by_Permutation. Qed.

Lemma elem_of_in_order {A} (m : gmap GrantKey A) k x : (k, x) ∈ in_order m <-> m !! k = Some x.
Proof. by rewrite in_order_Permutation, elem_of_map_to_list. Qed.

(** *** Requests *)

Lemma collect_requests_ok l m m' :
  collect_requests m l = Ok m' -> (size m <= 64)%nat ->
  (size m' <= 64)%nat /\ (size m' = size m + length l)%nat /\
  (forall r, r ∈ l -> validate_local_grant_request (req_capability r) (req_constraints r) = Ok tt) /\
  forall k c, m' !! k = Some c <->
    m !! k = Some c \/ exists r, r ∈ l /\ k = (req_capability r, req_direction r) /\ c = req_constraints r.
Proof.
  revert m. induction l as [|r l IH]; intros m E Hm; cbn [collect_requests length] in *.
  { injection E as <-. split_and!; [done|lia| |].
    - intros r Hr. by apply not_elem_of_nil in Hr.
    - intros k c. split; [by left|]. intros [?|(r & Hr & _)]; [done|]. by apply not_elem_of_nil in Hr. }
  destruct (validate_local_grant_request _ _) as [[]|] eqn:Ev; [|discriminate E].
  cbn [mbind result_bind] in E. destruct (m !! _) eqn:El; [discriminate E|].
  destruct (64 <? _)%nat eqn:Es; [discriminate E|]. apply Nat.ltb_ge in Es.
  destruct (IH _ E Es) as (Hsize & Hlen & Hval & Hm'). rewrite map_size_insert_None in Hlen by done.
  split_and!; [done|lia| |].
  - intros r' [->|Hr]%elem_of_cons; auto.
  - intros k c. rewrite Hm'. destruct (decide (k = (req_capability r, req_direction r))) as [->|Hk].
    + rewrite lookup_insert_eq. split.
      * intros [[= <-]|(r' & Hr' & Hk & ->)]; right;
          [exists r | exists r']; (split; [|done]); apply elem_of_cons; auto.
      * intros [?|(r' & Hr' & Hk & ->)]; [congruence|].
        apply elem_of_cons in Hr' as [->|Hr']; [by left|]. right. eauto.
    + rewrite lookup_insert_ne by done. split.
      { intros [?|(r' & Hr' & ?)]; [by left|]. right. exists r'. split; [apply elem_of_cons; auto | done]. }
      intros [?|(r' & [->|Hr']%elem_of_cons & -> & ->)]; [by left|done|]. right. eauto.
Qed.

(** *** The grants of the answer *)

Lemma accept_grants_sound clock id requested i seen l gs :
  accept_grants clock id requested i seen l = Ok gs ->
  NoDup (map grant_at gs) /\
  forall g, g ∈ gs -> grant_peer_id g = id /\ ~ (grant_at g ∈ seen) /\
    requested !! grant_at g = Some (grant_constraints g).
Proof.
  revert i seen gs. induction l as [|w l IH]; intros i seen gs E; cbn [accept_grants] in E.
  { injection E as <-. split; [constructor|]. intros g Hg. by apply not_elem_of_nil in Hg. }
  destruct (parse_token (cg_capability w)) as [c|]; [|discriminate E]. cbn [ok_or mbind result_bind] in E.
  destruct (match direction_try_from (cg_direction w) with
            | Some (Some DirInbound) => Ok DirOutbound
            | Some (Some DirOutbound) => Ok DirInbound
            | _ => Err (Protocol "invalid pairing grant direction")
            end) as [d|]; [|discriminate E]. cbn [mbind result_bind] in E.
  case_decide as Hseen; [discriminate E|].
  destruct (requested !! (c, d)) as [k|] eqn:Ek; [|discriminate E]. cbn [ok_or mbind result_bind] in E.
  destruct (decode_grant_constraints (cg_constraints w)) as [k'|]; [|discriminate E].
  cbn [mbind result_bind] in E. destruct (negb (bool_decide (k' = k))) eqn:Ekk; [discriminate E|].
  destruct_bools. subst k'.
  destruct (accept_grants _ _ _ _ _ l) as [gs'|] eqn:El; [|discriminate E].
  injection E as <-. destruct (IH _ _ _ El) as [Hn Hg]. split.
  - constructor; [|done]. intros (g & Hk & Hin)%list_elem_of_fmap.
    destruct (Hg g Hin) as (_ & Hns & _). unfold grant_at at 1 in Hk. cbn in Hk. set_solver.
  - intros g [->|Hin]%elem_of_cons; [done|]. destruct (Hg g Hin) as (? & Hns & ?). set_solver.
Qed.

(** *** Merged grants *)

Lemma by_key_app l l' m : by_key (l ++ l') m = by_key l' (by_key l m).
Proof. apply fold_left_app. Qed.

Lemma by_key_cons g l m : by_key (g :: l) m = by_key l (<[grant_at g := g]> m).
Proof. done. Qed.

Lemma by_key_absent l m k : (forall g, g ∈ l -> grant_at g <> k) -> by_key l m !! k = m !! k.
Proof.
  revert m. induction l as [|g l IH]; intros m Hl; [done|]. rewrite by_key_cons.
  rewrite IH; [apply lookup_insert_ne; apply Hl; by left|]. intros g' Hg'. apply Hl. by right.
Qed.

Lemma by_key_present l m g : NoDup (map grant_at l) -> g ∈ l -> by_key l m !! grant_at g = Some g.
Proof.
  revert m. induction l as [|h l IH]; intros m Hn Hg; [by apply not_elem_of_nil in Hg|]. rewrite by_key_cons. cbn in Hn.
  apply NoDup_cons in Hn as [Hh Hn]. apply elem_of_cons in Hg as [->|Hg]; [|by apply IH].
  rewrite by_key_absent; [apply lookup_insert_eq|]. intros h' Hh' E. apply Hh. rewrite <- E.
  by apply list_elem_of_fmap_2.
Qed.

Lemma by_key_some l m k g :
  by_key l m !! k = Some g -> (g ∈ l /\ grant_at g = k) \/ m !! k = Some g.
Proof.
  revert m. induction l as [|h l IH]; intros m E; [by right|]. rewrite by_key_cons in E.
  destruct (IH _ E) as [[? ?]|E']; [left; split; [by right | done]|].
  apply lookup_insert_Some in E' as [[<- <-]|[_ ?]]; [left; split; [by left | done] | by right].
Qed.

Lemma by_key_mono l m k : is_Some (m !! k) -> is_Some (by_key l m !! k).
Proof.
  revert m. induction l as [|h l IH]; intros m Hk; [done|]. rewrite by_key_cons. apply IH.
  destruct (decide (grant_at h = k)) as [->|Hne]; [rewrite lookup_insert_eq; eauto|].
  by rewrite lookup_insert_ne.
Qed.

Lemma by_key_is_some l m g : g ∈ l -> is_Some (by_key l m !! grant_at g).
Proof.
  revert m. induction l as [|h l IH]; intros m Hg; [by apply not_elem_of_nil in Hg|].
  rewrite by_key_cons. apply elem_of_cons in Hg as [->|Hg]; [|by apply IH].
  apply by_key_mono. rewrite lookup_insert_eq. eauto.
Qed.

Lemma elem_of_merge existing grants g :
  g ∈ merge_grants existing grants <-> by_key (existing ++ grants) ∅ !! grant_at g = Some g.
Proof.
  unfold merge_grants. rewrite list_elem_of_fmap. split.
  - intros ([k h] & -> & Hin). apply elem_of_in_order in Hin. cbn.
    destruct (by_key_some _ _ _ _ Hin) as [[_ ->]|E]; [done|]. by rewrite lookup_empty in E.
  - intros E. exists (grant_at g, g). split; [done|]. by apply elem_of_in_order.
Qed.

(** The grant a list holds for a key. *)
Definition grant_for (gs : list Grant) (c : CapabilityId) (d : GrantDirection) : option Grant :=
  find_first (fun g => bool_decide (grant_at g = (c, d))) gs.

Lemma merged_grant_lookup existing grants c d :
  NoDup (map grant_at grants) ->
  (forall g h, g ∈ existing -> h ∈ existing -> grant_at g = grant_at h -> g = h) ->
  by_key (existing ++ grants) ∅ !! (c, d) =
  match grant_for grants c d with
  | Some g => Some g
  | None => grant_for existing c d
  end.
Proof.
  intros Hn Hu. rewrite by_key_app. unfold grant_for.
  destruct (find_first _ grants) as [g|] eqn:E.
  - apply find_first_Some in E as [Hg Hk%bool_decide_eq_true]. rewrite <- Hk. by apply by_key_present.
  - apply find_first_None in E. rewrite Forall_forall in E. rewrite by_key_absent.
    2:{ intros g Hg Hk. specialize (E _ Hg). apply bool_decide_eq_false in E. done. }
    destruct (find_first _ existing) as [g|] eqn:Ee.
    + apply find_first_Some in Ee as [Hg Hk%bool_decide_eq_true].
      destruct (by_key existing ∅ !! (c, d)) as [h|] eqn:Eh.
      * destruct (by_key_some _ _ _ _ Eh) as [[Hh Hkh]|?]; [|by rewrite lookup_empty in *].
        f_equal. apply Hu; congruence.
      * destruct (by_key_is_some existing ∅ g Hg) as [h Eh']. congruence.
    + apply find_first_None in Ee. rewrite Forall_forall in Ee. rewrite by_key_absent; [apply lookup_empty|].
      intros g Hg Hk. specialize (Ee _ Hg). apply bool_decide_eq_false in Ee. done.
Qed.
End facts.

Section run.
Context `{PeerApi} `{WireApi} `{Transport} {S : Type} `{!PeerRepository S} `{!EndpointRepository S}.
Context `{!PeerLaws} `{!PeerRepositoryLaws S} `{!EndpointRepositoryLaws S} `{!StoreLaws S}.

(** What the peer is known as and holds after a pairing. *)
Definition trusted_after (now : Z) (s : Session) (gs : list Grant) (v w : PeerView) : Prop :=
  let id := peer_device_id (peer s) in
  known w id = Some (paired_record now s) /\
  (forall c d, held w id c d = match grant_for gs c d with
                               | Some g => Some g
                               | None => held v id c d
                               end) /\
  forall q, q <> id -> known w q = known v q /\ forall c d, held w q c d = held v q c d.

(** A run that leaves the trust of every peer. *)
Definition trust_kept (r r' : Runtime S) : Prop :=
  store_ok (store r') /\ view_eq (view (store r)) (view (store r')).

Lemma remember_keeps_trust now now' s remote source (r : Runtime S) x r' :
  store_ok (store r) -> in_i64 now' -> blen (peer_certificate_sha256 (peer s)) = 32 ->
  remember_authenticated_session now now' s remote source r = (x, r') ->
  is_ok x = true /\ trust_kept r r'.
Proof.
  intros Hs Hnow Hcert E. unfold remember_authenticated_session in E. cbv zeta in E.
  apply act_bind_inv in E as [([] & r1 & E1 & E)|(e & E1 & ->)]; [|discriminate E1]. injection E1 as <-.
  apply act_bind_inv in E as [(paired & r2 & E2 & E)|(e & E2 & ->)];
    unfold attempt, on_store in E2; cbn [store] in E2;
    destruct (require_paired _ _ (store r)) as [y s2] eqn:Er; [|discriminate E2]. injection E2 as <- <-.
  destruct (require_paired_keeps _ _ _ _ _ Hs Er) as (Hs2 & _).
  destruct (require_paired_run _ _ _ _ _ (proj1 Hs) Er) as (_ & Hv2 & _).
  destruct y as [p|e]; cbn [is_ok] in E; [|by injection E as <- <-].
  unfold attempt, on_store, mbind, action_bind in E. cbn [store discovery registry] in E.
  destruct (record_authenticated _ _ _ _ _ s2) as [z s3] eqn:Ea. injection E as <- <-.
  pose proof (dial_address_plain s remote) as Hplain.
  pose proof (record_authenticated_spec now' (peer_device_id (peer s)) (dial_address s remote)
    (peer_certificate_sha256 (peer s)) source s2 z s3) as Hspec.
  destruct (Hspec Hnow Hplain Hcert (proj2 Hs2) Ea) as (Hr3 & _).
  pose proof (record_authenticated_keeps _ now' (peer_device_id (peer s)) (dial_address s remote)
    (peer_certificate_sha256 (peer s)) source Hnow Hplain Hcert s2 z s3 Hs2 Ea) as (Hp3 & Hv3).
  split; [done|]. split; [done|]. cbn [store]. by etransitivity.
Qed.

Lemma confirm_run now now1 now2 s remote gs (r : Runtime S) x r' :
  store_ok (store r) -> in_i64 now2 -> blen (peer_certificate_sha256 (peer s)) = 32 ->
  NoDup (map grant_at gs) ->
  confirm_pairing_with_grants now now1 now2 s remote gs r = (x, r') ->
  match x with
  | Ok _ => kind s = Pairing /\ (forall g, g ∈ gs -> grant_peer_id g = peer_device_id (peer s)) /\
      (forall g, g ∈ gs ->
         validate_local_grant_request (grant_capability g) (grant_constraints g) = Ok tt) /\
      store_ok (store r') /\ trusted_after now s gs (view (store r)) (view (store r'))
  | Err _ => trust_kept r r'
  end.
Proof.
  intros Hs Hnow Hcert Hn E. unfold confirm_pairing_with_grants in E.
  assert (Hrefl : trust_kept r r) by (split; [done | reflexivity]).
  apply act_bind_inv in E as [([] & r1 & E1 & E)|(e & E1 & ->)];
    apply act_reject_inv in E1 as [-> E1];
    destruct (negb _) eqn:Ek in E1; try discriminate E1; [clear E1|done].
  apply act_bind_inv in E as [([] & r1 & E1 & E)|(e & E1 & ->)];
    apply act_reject_inv in E1 as [-> E1];
    destruct (existsb _ gs) eqn:Ep in E1; try discriminate E1; [clear E1|done].
  apply act_bind_inv in E as [(us & r1 & E1 & E)|(e & E1 & ->)]; injection E1 as Ev <-; [|done].
  apply act_bind_inv in E as [(existing & r1 & E1 & E)|(e & E1 & ->)];
    apply repository_call_inv in E1 as (y & s1 & E1 & Hy & ->);
    pose proof (list_grants_spec (peer_device_id (peer s)) (store r) y s1) as Hl;
    destruct (Hl (proj1 Hs) E1) as (Hok1 & Hv1 & Hlist);
    pose proof (list_grants_keeps _ (peer_device_id (peer s)) (store r) y s1 Hs E1) as (Hr1 & _);
    [|split; [by split | exact Hv1]].
  symmetry in Hy. apply map_err_ok in Hy as ->. specialize (Hlist _ eq_refl).
  apply act_bind_inv in E as [([] & r2 & E2 & E)|(e & E2 & ->)];
    apply repository_call_inv in E2 as (y & s2 & E2 & Hy & ->); cbn [store discovery registry] in *;
    pose proof (save_pairing_spec (paired_record now s) (merge_grants existing gs) s1 y s2) as Hsv;
    destruct (Hsv Hok1 E2) as (Hok2 & Hv2);
    pose proof (save_pairing_keeps _ (paired_record now s) (merge_grants existing gs) s1 y s2
      (conj Hok1 Hr1) E2) as (Hr2 & _).
  2:{ split; [by split|]. destruct y; [discriminate Hy|]. cbn in *. by etransitivity. }
  symmetry in Hy. apply map_err_ok in Hy as ->. cbn [is_ok] in Hv2. destruct Hv2 as (Hk2 & Ho2 & Hh2).
  assert (Htrust : trusted_after now s gs (view (store r)) (view s2)).
  { destruct Hv1 as [Hk1 Hh1]. split; [|split].
    - rewrite Hk2. by rewrite decide_True.
    - intros c d. apply option_eq. intros g. rewrite Hh2, elem_of_merge.
      assert (Hu : forall g h, g ∈ existing -> h ∈ existing -> grant_at g = grant_at h -> g = h).
      { intros g1 g2 G1%Hlist G2%Hlist [= Ec Ed]. rewrite Ec, Ed in G1. congruence. }
      pose proof (merged_grant_lookup existing gs c d Hn Hu) as Hm.
      assert (Hex : grant_for existing c d = held (view (store r)) (peer_device_id (peer s)) c d).
      { apply option_eq. intros h. unfold grant_for. split.
        - intros [Hh [= <- <-]%bool_decide_eq_true]%find_first_Some. by apply Hlist.
        - intros Hh. destruct (held_key (store r) _ _ _ _ (proj1 Hs) Hh) as (_ & Ec & Ed).
          assert (Hin : h ∈ existing) by (apply Hlist; by rewrite Ec, Ed).
          destruct (find_first _ existing) as [h'|] eqn:Ef.
          + apply find_first_Some in Ef as [Hin' Hk'%bool_decide_eq_true]. f_equal.
            apply Hu; [done..|]. rewrite Hk'. unfold grant_at. congruence.
          + apply find_first_None in Ef. rewrite Forall_forall in Ef. specialize (Ef _ Hin).
            apply bool_decide_eq_false in Ef. unfold grant_at in Ef. congruence. }
      rewrite <- Hex, <- Hm. unfold grant_at. split.
      + intros (Hg & <- & <-). exact Hg.
      + intros Hg. assert (Hgk : grant_at g = (c, d)).
        { destruct (by_key_some _ _ _ _ Hg) as [[_ ?]|Hempty]; [done|]. by rewrite lookup_empty in Hempty. }
        unfold grant_at in Hgk. injection Hgk as Ec Ed. by rewrite Ec, Ed.
    - intros q Hq. split; [by rewrite Hk2, decide_False, Hk1 by done|].
      intros c d. by rewrite Ho2, Hh1 by done. }
  apply act_bind_inv in E as [(ad & r3 & E3 & E)|(e & E3 & ->)];
    (destruct (remember_keeps_trust now1 now2 s remote Inbound
       (mkRuntime s2 (discovery r) (registry r)) _ _ (conj Hok2 Hr2) Hnow Hcert E3) as [Hx [Hs3 Hv3]]);
    [|discriminate Hx].
  injection E as <- <-. cbn [store discovery registry] in *.
  apply negb_false_iff, bool_decide_eq_true in Ek. apply collect_ok in Ev.
  split_and!; try done.
  - intros g Hg. apply not_true_iff_false in Ep.
    destruct (decide (grant_peer_id g = peer_device_id (peer s))) as [?|Hne]; [done|]. exfalso. apply Ep.
    apply existsb_exists. exists g. split; [by apply list_elem_of_In|].
    by rewrite bool_decide_false.
  - intros g Hg. apply list_elem_of_lookup in Hg as [i Hi].
    destruct (Forall2_lookup_l _ _ _ _ _ Ev Hi) as (u & _ & Hu). by destruct u.
  - destruct Htrust as (T1 & T2 & T3), Hv3 as [Hk3 Hh3]. split; [by rewrite <- Hk3|].
    split; [intros c d; by rewrite <- Hh3|].
    intros q Hq. destruct (T3 q Hq). split; [by rewrite <- Hk3|]. intros c d. by rewrite <- Hh3.
Qed.
End run.

(** ** Properties *)

Section properties.
Context `{PeerApi} `{WireApi} `{Transport} {S : Type} `{!PeerRepository S} `{!EndpointRepository S}.
Context `{!PeerLaws} `{!WireLaws} `{!PeerRepositoryLaws S} `{!EndpointRepositoryLaws S} `{!StoreLaws S}.

(** C21. A pairing that completes grants nothing the user did not ask for: every
    grant was requested, with exactly the requested constraints, at most once,
    and is for this peer.  The peer is then stored as paired under the key of
    the session, these grants are its grants on top of the ones it had, and no
    other device gains or loses anything. *)
Theorem pairing_establishes_trust clock now now1 now2 p remote frame (r : Runtime S) o r' :
  store_ok (store r) -> in_i64 now2 ->
  blen (peer_certificate_sha256 (peer (pending_session p))) = 32 ->
  complete_pairing clock now now1 now2 p remote frame r = (Ok o, r') ->
  let s := pending_session p in
  kind s = Pairing /\ outcome_peer o = peer s /\
  NoDup (map grant_at (outcome_granted o)) /\
  (forall g, g ∈ outcome_granted o ->
     grant_peer_id g = peer_device_id (peer s) /\
     pending_requested p !! grant_at g = Some (grant_constraints g) /\
     validate_local_grant_request (grant_capability g) (grant_constraints g) = Ok tt) /\
  trusted_after now s (outcome_granted o) (view (store r)) (view (store r')).
Proof.
  intros Hs Hnow Hcert E. unfold complete_pairing in E. cbv zeta in *.
  apply act_bind_ok in E as (bytes & r1 & E1 & E). injection E1 as _ <-.
  apply act_bind_ok in E as (response & r1 & E1 & E). injection E1 as _ <-.
  apply act_bind_ok in E as (result & r1 & E1 & E). injection E1 as _ <-.
  apply act_bind_ok in E as ([] & r1 & E1 & E).
  destruct (negb _ || negb _) in E1.
  { apply act_bind_ok in E1 as (u & r2 & E1 & E2). discriminate E2. }
  injection E1 as <-.
  apply act_bind_ok in E as (granted & r1 & E1 & E). injection E1 as Eg <-.
  destruct (accept_grants_sound _ _ _ _ _ _ _ Eg) as [Hn Hg].
  apply act_bind_ok in E as ([] & r1 & E1 & E).
  destruct (confirm_run _ _ _ _ _ _ _ _ _ Hs Hnow Hcert Hn E1) as (Hk & _ & Hval & _ & Ht).
  apply act_bind_ok in E as ([] & r2 & E2 & E). injection E2 as <-. injection E as <- <-.
  cbn [outcome_peer outcome_granted store]. split_and!; try done.
  intros g Hin. destruct (Hg g Hin) as (? & _ & ?). auto.
Qed.

(** C39. A pairing that fails, at whatever step and for whatever reason, leaves
    the trust and the grants of every device as they were. *)
Theorem pairing_failure_keeps_trust clock now now1 now2 p remote frame (r : Runtime S) e r' :
  store_ok (store r) -> in_i64 now2 ->
  blen (peer_certificate_sha256 (peer (pending_session p))) = 32 ->
  complete_pairing clock now now1 now2 p remote frame r = (Err e, r') ->
  view_eq (view (store r)) (view (store r')).
Proof.
  intros Hs Hnow Hcert E. unfold complete_pairing in E. cbv zeta in *.
  apply act_bind_inv in E as [(bytes & r1 & E1 & E)|(e' & E1 & _)]; [|by injection E1 as _ <-].
  injection E1 as _ <-.
  apply act_bind_inv in E as [(response & r1 & E1 & E)|(e' & E1 & _)]; [|by injection E1 as _ <-].
  injection E1 as _ <-.
  apply act_bind_inv in E as [(result & r1 & E1 & E)|(e' & E1 & _)]; [|by injection E1 as _ <-].
  injection E1 as _ <-.
  apply act_bind_inv in E as [([] & r1 & E1 & E)|(e' & E1 & _)];
    destruct (negb _ || negb _) in E1.
  - apply act_bind_ok in E1 as (u & r2 & E1 & E2). discriminate E2.
  - injection E1 as <-.
    apply act_bind_inv in E as [(granted & r1 & E1 & E)|(e' & E1 & _)]; [|by injection E1 as _ <-].
    injection E1 as Eg <-. destruct (accept_grants_sound _ _ _ _ _ _ _ Eg) as [Hn Hg].
    apply act_bind_inv in E as [([] & r1 & E1 & E)|(e' & E1 & _)];
      pose proof (confirm_run _ _ _ _ _ _ _ _ _ Hs Hnow Hcert Hn E1) as Hc.
    + apply act_bind_inv in E as [([] & r2 & E2 & E)|(e' & E2 & _)]; [discriminate E | discriminate E2].
    + apply Hc.
  - apply act_bind_inv in E1 as [(u & r2 & E1 & E2)|(e2 & E1 & _)]; [|discriminate E1].
    injection E1 as _ <-. by injection E2 as _ <-.
  - discriminate E1.
Qed.

(** A pairing request names at most 64 capabilities, each direction of each
    once, all with valid constraints; and when the peer approves all of it by
    sending the grants back, the initiator obtains exactly what it requested. *)
Theorem full_approval_grants_request clock id requests requested :
  collect_requests ∅ requests = Ok requested ->
  (length requests <= 64)%nat /\
  (forall q, q ∈ requests -> requested !! (req_capability q, req_direction q) = Some (req_constraints q)) /\
  exists gs, accept_grants clock id requested 0 ∅ (requested_grants (pairing_request requested)) = Ok gs /\
    forall c d k, requested !! (c, d) = Some k <->
      exists g, g ∈ gs /\ grant_at g = (c, d) /\ grant_constraints g = k.
Proof.
  intros E. assert (H0' : (size (∅ : gmap (CapabilityId * GrantDirection) GrantConstraints) <= 64)%nat)
    by (rewrite map_size_empty; lia).
  destruct (collect_requests_ok _ _ _ E H0') as (Hsize & Hlen & Hval & Hm).
  rewrite map_size_empty in Hlen. split; [lia|].
  assert (Hreq : forall q, q ∈ requests ->
    requested !! (req_capability q, req_direction q) = Some (req_constraints q))
    by (intros q Hq; apply Hm; right; by exists q).
  split; [done|].
  assert (Hdec : forall k c, requested !! k = Some c ->
    decode_grant_constraints (encode_grant_constraints c) = Ok c).
  { intros k c Hk. apply Hm in Hk as [Hk|(q & Hq & -> & ->)]; [by rewrite lookup_empty in Hk|].
    eapply decode_encode_constraints. by apply Hval. }
  assert (Hgen : forall l i seen, NoDup (map fst l) ->
    (forall k c, (k, c) ∈ l -> requested !! k = Some c /\ ~ (k ∈ seen)) ->
    exists gs, accept_grants clock id requested i seen (map (fun kv =>
        mkCapabilityGrant (token kv.1.1) (direction_as_i32 (mirrored kv.1.2))
          (encode_grant_constraints kv.2) 0) l) = Ok gs /\
      forall k c, (k, c) ∈ l <-> exists g, g ∈ gs /\ grant_at g = k /\ grant_constraints g = c).
  { induction l as [|[[c d] k] l IH]; intros i seen Hn Hl.
    - exists []. split; [done|]. intros k c. split; [by intros ?%not_elem_of_nil|].
      by intros (g & ?%not_elem_of_nil & _).
    - cbn [map fst] in Hn. apply NoDup_cons in Hn as [Hnk Hn].
      destruct (Hl (c, d) k) as [Hk Hs]; [by left|].
      destruct (IH (Datatypes.S i) ({[(c, d)]} ∪ seen) Hn) as (gs & Egs & Hgs).
      { intros k' c' Hin. destruct (Hl k' c') as [? Hns]; [by right|]. split; [done|].
        intros [->%elem_of_singleton|?]%elem_of_union; [|done]. apply Hnk.
        apply list_elem_of_fmap. by exists (c, d, c'). }
      exists (mkGrant id c d k (clock i) :: gs). split.
      + cbn [map accept_grants cg_capability cg_direction cg_constraints fst snd].
        rewrite parse_token_token. cbn [ok_or mbind result_bind].
        rewrite direction_try_from_as.
        destruct d; cbn [mirrored mbind result_bind];
          (rewrite decide_False by done); rewrite Hk; cbn [ok_or mbind result_bind];
          rewrite (Hdec _ _ Hk); cbn [mbind result_bind]; rewrite bool_decide_true by done;
          cbn [negb]; by rewrite Egs.
      + intros k' c'. rewrite elem_of_cons, Hgs. split.
        * intros [[= -> ->]|(g & Hg & ? & ?)]; [eexists; split; [by left|done]|].
          exists g. split; [by right|done].
        * intros (g & Hg & <- & <-). apply elem_of_cons in Hg as [->|Hg]; [by left|]. right. eauto. }
  destruct (Hgen (in_order requested) 0%nat ∅) as (gs & Egs & Hgs).
  - rewrite in_order_Permutation. apply NoDup_fst_map_to_list.
  - intros k c Hin%elem_of_in_order. split; [done | apply not_elem_of_empty].
  - exists gs. split; [exact Egs|]. intros c d k. by rewrite <- Hgs, elem_of_in_order.
Qed.
End properties.

(** ** Witnesses *)

Section witnesses.
Import SamplePeer SampleRegistry SampleDb SampleWire.

(** A pairing session with "B", which asks to write two shares of ours and to
    let us read its clipboard. *)
Definition pairing_session : Session :=
  mkSession None None None 1 Pairing
    (mkSessionPeer (dev "B") key meta (repeat x05 32) 8765) "123456" (mkRank (dev "A") [x01])
    11%nat 0.

Definition requests : list PairingGrantRequest :=
  [mkRequest RemoteWrite DirInbound (RemoteFileShares ["docs"%string] true); outbound Clipboard].

Definition asked : gmap (CapabilityId * GrantDirection) GrantConstraints :=
  default ∅ (to_option (collect_requests ∅ requests)).

Definition pending : PendingPairing := mkPending pairing_session asked.

(** The peer approves the shares only. *)
Definition answer : PairingResponse :=
  mkPairingResponse (Some (mkPairingResult true (dev "B") ""))
    (take 1 (requested_grants (pairing_request asked))).

Definition clock (i : nat) : Z := 100 + Z.of_nat i.

Definition unpaired : Runtime Sqlite := mkRuntime empty (mkDiscovery (dev "A") ∅ ∅ ∅ [] 0) start.

Lemma unpaired_ok : store_ok (store unpaired).
Proof. split; apply empty_ok. Qed.

Abbreviation complete frame :=
  (complete_pairing clock 200 201 202 pending sample_address frame unpaired).

Lemma pairing_establishes_trust_witness : exists o r',
  complete (map_err Protocol (encode answer)) = (Ok o, r') /\
  known (view (store r')) (dev "B") = Some (paired_record 200 pairing_session).
Proof.
  destruct (complete (map_err Protocol (encode answer))) as [[o|e] r'] eqn:E.
  2:{ exfalso. assert (Ho : is_ok (complete (map_err Protocol (encode answer))).1 = true)
        by (vm_compute; reflexivity). rewrite E in Ho. discriminate Ho. }
  exists o, r'. split; [done|].
  destruct (pairing_establishes_trust clock 200 201 202 pending sample_address
    (map_err Protocol (encode answer)) unpaired o r' unpaired_ok)
    as (_ & _ & _ & _ & Hk & _); [by_evaluation | reflexivity | exact E | exact Hk].
Defined.

(** The peer changes the constraints of the grant it approves. *)
Definition forged : PairingResponse :=
  mkPairingResponse (Some (mkPairingResult true (dev "B") ""))
    [mkCapabilityGrant (token RemoteWrite) (direction_as_i32 DirOutbound)
       (Some (mkWireConstraints (Some (["docs"; "home"]%string, true)))) 0].

Lemma pairing_failure_keeps_trust_witness : exists e r',
  complete (map_err Protocol (encode forged)) = (Err e, r') /\
  known (view (store r')) (dev "B") = None.
Proof.
  destruct (complete (map_err Protocol (encode forged))) as [[o|e] r'] eqn:E.
  { exfalso. assert (Ho : is_ok (complete (map_err Protocol (encode forged))).1 = false)
      by (vm_compute; reflexivity). rewrite E in Ho. discriminate Ho. }
  exists e, r'. split; [done|].
  destruct (pairing_failure_keeps_trust clock 200 201 202 pending sample_address
    (map_err Protocol (encode forged)) unpaired e r' unpaired_ok) as [Hk _];
    [by_evaluation | reflexivity | exact E |].
  rewrite <- Hk. reflexivity.
Defined.

Lemma full_approval_grants_request_witness : exists gs,
  accept_grants clock (dev "B") asked 0 ∅ (requested_grants (pairing_request asked)) = Ok gs /\
  exists g, g ∈ gs /\ grant_at g = (Clipboard, DirOutbound) /\ grant_constraints g = ConstraintsNone.
Proof.
  assert (E : collect_requests ∅ requests = Ok asked) by (vm_compute; reflexivity).
  destruct (full_approval_grants_request clock (dev "B") requests asked E) as (_ & _ & gs & Egs & Hgs).
  exists gs. split; [exact Egs|]. apply Hgs. vm_compute. reflexivity.
Defined.
End witnesses.
