(* ===== verification/Sockets.v ===== *)
(** * Sockets

    The QUIC endpoints of the runtime: the listener, and the private endpoints
    of recovery dials and input relays, which the runtime knows through weak
    handles only (runtime.rs, runtime/dial.rs). *)

From S2P Require Import Prelude Errors.

(** ** Definitions *)

(** [recovery_endpoints] holds weak handles; [strong] are the endpoints some
    strong handle keeps alive, [closed] those that have been closed.  The
    listener is the endpoint 0. *)
Record Sockets := mkSockets {
  stopped : bool;
  recovery_endpoints : list nat;
  strong : gset nat;
  closed : gset nat
}.

Definition listener : nat := O.

(** [Weak::upgrade] of a handle. *)
Definition endpoint_alive (e : nat) (s : Sockets) : bool := bool_decide (e ∈ strong s).

(** [endpoints.retain(|endpoint| endpoint.strong_count() > 0);
    endpoints.push(Arc::downgrade(&endpoint))] *)
Definition track_endpoint (e : nat) (s : Sockets) : Sockets :=
  mkSockets (stopped s) (List.filter (fun x => endpoint_alive x s) (recovery_endpoints s) ++ [e])
    ({[e]} ∪ strong s) (closed s).

(** [NetworkRuntime::new_recovery_endpoint]: [in_runtime] when a Tokio runtime
    is current, [opened] what [open_recovery_endpoint] of [Quic] answers. *)
Definition new_recovery_endpoint (in_runtime : bool) (opened : net_result nat)
    : action Sockets NetworkError nat := fun s =>
  if negb in_runtime then (Err RuntimeUnavailable, s)
  else if stopped s then (Err (Connect "network runtime is shut down"), s)
  else match opened with
       | Err e => (Err e, s)
       | Ok e => (Ok e, track_endpoint e s)
       end.

Definition close_endpoint (e : nat) (s : Sockets) : Sockets :=
  mkSockets (stopped s) (recovery_endpoints s) (strong s) ({[e]} ∪ closed s).

(** The last strong handle of an endpoint is dropped. *)
Definition release_endpoint (e : nat) (s : Sockets) : Sockets :=
  mkSockets (stopped s) (recovery_endpoints s) (strong s ∖ {[e]}) (closed s).

(** [NetworkRuntime::shutdown] in two steps, between which other tasks run:
    the flag and the listener, then the endpoints under the lock. *)
Definition begin_shutdown (s : Sockets) : Sockets :=
  close_endpoint listener (mkSockets true (recovery_endpoints s) (strong s) (closed s)).

Definition finish_shutdown (s : Sockets) : Sockets :=
  fold_left (fun s e => if endpoint_alive e s then close_endpoint e s else s) (recovery_endpoints s) s.

(** ** Steps *)

Inductive SocketStep :=
| OpenEndpoint (in_runtime : bool) (opened : net_result nat)
| ReleaseEndpoint (e : nat)
| CloseEndpoint (e : nat)
| BeginShutdown
| FinishShutdown.

(** A new endpoint is a new object. *)
Definition socket_step (s : Sockets) (step : SocketStep) : Sockets :=
  match step with
  | OpenEndpoint in_runtime opened =>
      match opened with
      | Ok e =>
          if bool_decide (e = listener \/ e ∈ strong s \/ e ∈ recovery_endpoints s \/ e ∈ closed s)
          then s else (new_recovery_endpoint in_runtime opened s).2
      | Err _ => (new_recovery_endpoint in_runtime opened s).2
      end
  | ReleaseEndpoint e => if bool_decide (e = listener) then s else release_endpoint e s
  | CloseEndpoint e => close_endpoint e s
  | BeginShutdown => begin_shutdown s
  | FinishShutdown => finish_shutdown s
  end.

(** The runtime after [bind]. *)
Definition bound : Sockets := mkSockets false [] {[listener]} ∅.

Definition run_sockets (steps : list SocketStep) : Sockets := fold_left socket_step steps bound.

(** ** Facts *)

(** Every live endpoint is known. *)
Definition tracked (s : Sockets) : Prop :=
  forall e, e ∈ strong s -> e = listener \/ e ∈ recovery_endpoints s.

Lemma close_alive_spec l s (s' := fold_left (fun s e => if endpoint_alive e s then close_endpoint e s else s) l s) :
  stopped s' = stopped s /\ strong s' = strong s /\ recovery_endpoints s' = recovery_endpoints s /\
  forall e, e ∈ closed s' <-> e ∈ closed s \/ (e ∈ l /\ e ∈ strong s).
Proof.
  subst s'. revert s. induction l as [|x l IH]; intros s; cbn [fold_left].
  - split_and!; try done. set_solver.
  - destruct (endpoint_alive x s) eqn:E; unfold endpoint_alive in E.
    + apply bool_decide_eq_true in E. destruct (IH (close_endpoint x s)) as (-> & -> & -> & Hc).
      split_and!; try done. intros e. rewrite Hc. cbn. set_solver.
    + apply bool_decide_eq_false in E. destruct (IH s) as (-> & -> & -> & Hc).
      split_and!; try done. intros e. rewrite Hc. set_solver.
Qed.

Lemma finish_shutdown_spec s :
  stopped (finish_shutdown s) = stopped s /\ strong (finish_shutdown s) = strong s /\
  recovery_endpoints (finish_shutdown s) = recovery_endpoints s /\
  forall e, e ∈ closed (finish_shutdown s) <->
    e ∈ closed s \/ (e ∈ recovery_endpoints s /\ e ∈ strong s).
Proof. apply close_alive_spec. Qed.

Lemma socket_step_tracked s step : tracked s -> tracked (socket_step s step).
Proof.
  intros Ht. destruct step as [rt o|e|e| |]; cbn.
  - assert (Hn : tracked (new_recovery_endpoint rt o s).2).
    { unfold new_recovery_endpoint. destruct rt; cbn; [|done]. destruct (stopped s); [done|].
      destruct o as [e|e]; [|done]. intros x. cbn. rewrite elem_of_app, list_elem_of_singleton.
      intros [->%elem_of_singleton|Hx]%elem_of_union; [by right; right|].
      destruct (Ht _ Hx) as [|Hr]; [by left|]. right. left.
      apply list_elem_of_In, filter_In. split; [by apply list_elem_of_In|]. by apply bool_decide_eq_true. }
    destruct o; [|done]. by case_bool_decide.
  - case_bool_decide; [done|]. intros x. cbn. intros [Hx _]%elem_of_difference. by apply Ht.
  - exact Ht.
  - exact Ht.
  - destruct (finish_shutdown_spec s) as (_ & Es & Er & _). intros x. rewrite Es, Er. apply Ht.
Qed.

Lemma run_sockets_tracked steps : tracked (run_sockets steps).
Proof.
  unfold run_sockets. assert (H0 : tracked bound) by (intros e; cbn; set_solver). revert H0.
  generalize bound. induction steps as [|st steps IH]; intros s Hs; cbn [fold_left]; [done|].
  by apply IH, socket_step_tracked.
Qed.

(** After the flag is set no endpoint appears, and a closed one stays closed. *)
Lemma socket_step_stopped s step :
  stopped s = true ->
  stopped (socket_step s step) = true /\ strong (socket_step s step) ⊆ strong s /\
  closed s ⊆ closed (socket_step s step).
Proof.
  intros Hs. destruct step as [rt o|e|e| |]; cbn.
  - assert (Hn : (new_recovery_endpoint rt o s).2 = s)
      by (unfold new_recovery_endpoint; rewrite Hs; by destruct rt).
    destruct o; [case_bool_decide; [done|]|]; rewrite Hn; done.
  - case_bool_decide; [done|]. cbn. set_solver.
  - set_solver.
  - set_solver.
  - destruct (finish_shutdown_spec s) as (-> & -> & _ & Hc). split_and!; [done|done|].
    intros x Hx. apply Hc. by left.
Qed.

Lemma run_stopped steps s :
  stopped s = true ->
  stopped (fold_left socket_step steps s) = true /\ strong (fold_left socket_step steps s) ⊆ strong s /\
  closed s ⊆ closed (fold_left socket_step steps s).
Proof.
  revert s. induction steps as [|st steps IH]; intros s Hs; cbn [fold_left]; [done|].
  destruct (socket_step_stopped s st Hs) as (Hs' & Hst & Hc). destruct (IH _ Hs') as (? & ? & ?).
  split_and!; [done | by etransitivity | by etransitivity].
Qed.

(** ** Properties *)

(** C34. A shutdown leaves no open endpoint behind, however recovery dials and
    relays interleave with it: once its two steps have run, every endpoint some
    task still holds, and the listener, is closed, and stays so whatever runs
    afterwards. *)
Theorem shutdown_closes_endpoints before between after e
    (s := run_sockets (before ++ BeginShutdown :: between ++ FinishShutdown :: after)) :
  e ∈ strong s -> e ∈ closed s.
Proof.
  subst s. unfold run_sockets. rewrite fold_left_app. fold (run_sockets before). cbn [fold_left].
  rewrite fold_left_app. cbn [fold_left]. intros He.
  set (s0 := socket_step (run_sockets before) BeginShutdown) in *.
  assert (Hs0 : stopped s0 = true) by done.
  assert (Hl0 : listener ∈ closed s0) by (cbn; set_solver).
  assert (Ht0 : tracked s0) by apply socket_step_tracked, run_sockets_tracked.
  destruct (run_stopped between s0 Hs0) as (Hs1 & _ & Hc1).
  set (s1 := fold_left socket_step between s0) in *.
  assert (Ht1 : tracked s1).
  { subst s1. clear -Ht0. revert Ht0. generalize s0. induction between as [|st l IH]; intros s Hs; [done|].
    by apply IH, socket_step_tracked. }
  destruct (finish_shutdown_spec s1) as (Hs2 & Est & _ & Hcl).
  cbn [socket_step] in He |- *. rewrite Hs1 in Hs2.
  destruct (run_stopped after _ Hs2) as (_ & Hst3 & Hc3).
  apply Hc3, Hcl. apply Hst3 in He. rewrite Est in He.
  destruct (Ht1 _ He) as [->|Hr]; [left; by apply Hc1|]. by right.
Qed.

(** ** Witnesses *)

Lemma shutdown_closes_endpoints_witness :
  4%nat ∈ closed (run_sockets ([OpenEndpoint true (Ok 4%nat)] ++ BeginShutdown ::
    [OpenEndpoint true (Ok 5%nat)] ++ FinishShutdown :: [])).
Proof. apply (shutdown_closes_endpoints [OpenEndpoint true (Ok 4%nat)] [OpenEndpoint true (Ok 5%nat)] []). by_evaluation. Defined.
