(* ===== verification/Calls.v ===== *)
(** * Calls

    The operations of the runtime as steps that interleave: while one task of
    the runtime is between two of its own steps, others run to completion on
    the shared state.  This file names those steps, allocates sessions, and
    shows what every step of a registry leaves alone. *)

From S2P Require Import Prelude Errors Addr Peer Wire Grants Registry Endpoint RepositoryDb Repository.
From S2P Require Import Store Identity Discovery Probe Handshake Auth Trust Pairing.

(** ** Sessions are allocated *)

Section allocation.
Context `{PeerApi} `{Transport}.

(** An address no strong or weak handle refers to. *)
Definition new_arc (g : Registry) : nat :=
  Datatypes.S (max_list (map fst (map_to_list (arcs g)) ++
                         map (fun e => a_session e.2) (map_to_list (sessions g)))).

(** [Arc::new(s)] *)
Definition adopt (s : Session) (g : Registry) : nat * Registry :=
  (new_arc g, mkRegistry (net g) (<[new_arc g := s]> (arcs g)) (sessions g)).

(** The last strong handle is dropped. *)
Definition drop_arc (p : nat) (g : Registry) : Registry :=
  mkRegistry (net g) (delete p (arcs g)) (sessions g).

(** No session and no entry uses the connection. *)
Definition conn_unused (c : Conn) (g : Registry) : bool :=
  forallb (fun e => negb (bool_decide (connection e.2 = c))) (map_to_list (arcs g)) &&
  forallb (fun e => negb (bool_decide (a_connection e.2 = c))) (map_to_list (sessions g)).

Lemma new_arc_fresh g : fresh_arc (new_arc g) g.
Proof.
  assert (Hmax : forall p, p ∈ map fst (map_to_list (arcs g)) ++
      map (fun e => a_session e.2) (map_to_list (sessions g)) -> (p < new_arc g)%nat).
  { intros p Hp. apply max_list_elem_of_le in Hp. unfold new_arc. lia. }
  split.
  - apply eq_None_not_Some. intros [s Hs]. apply elem_of_map_to_list in Hs.
    specialize (Hmax (new_arc g)). rewrite elem_of_app, !list_elem_of_fmap in Hmax.
    enough (new_arc g < new_arc g)%nat by lia. apply Hmax. left. by exists (new_arc g, s).
  - intros key a Ha E. apply elem_of_map_to_list in Ha.
    specialize (Hmax (new_arc g)). rewrite elem_of_app, !list_elem_of_fmap in Hmax.
    enough (new_arc g < new_arc g)%nat by lia. apply Hmax. right. by exists (key, a).
Qed.

Lemma conn_unused_spec c g : conn_unused c g = true <-> fresh_conn c g.
Proof.
  unfold conn_unused, fresh_conn. rewrite andb_true_iff, !forallb_forall.
  setoid_rewrite negb_true_iff. setoid_rewrite bool_decide_eq_false. split.
  - intros [Ha Hs]. split.
    + intros q t Hq. apply (Ha (q, t)), list_elem_of_In. by apply elem_of_map_to_list.
    + intros key a Hk. apply (Hs (key, a)), list_elem_of_In. by apply elem_of_map_to_list.
  - intros [Ha Hs]. split.
    + intros [q t] Hq%list_elem_of_In%elem_of_map_to_list. by apply (Ha q).
    + intros [key a] Hq%list_elem_of_In%elem_of_map_to_list. by apply (Hs key).
Qed.

End allocation.

(** ** What a step of the registry leaves *)

Section evolution.
Context `{PeerApi} `{Transport} `{!TransportLaws} `{!PeerLaws}.

(** [g'] comes from [g] without a new session, without taking up a connection
    and without reopening one. *)
Record evolves (g g' : Registry) : Prop := {
  ev_arcs : forall q t, arcs g' !! q = Some t -> arcs g !! q = Some t;
  ev_entries : forall key a, sessions g' !! key = Some a ->
    (exists key' a', sessions g !! key' = Some a' /\ a_connection a' = a_connection a) \/
    (exists q t, arcs g !! q = Some t /\ connection t = a_connection a);
  ev_closed : forall c, is_closed (net g) c = true -> is_closed (net g') c = true
}.

#[export] Instance evolves_preorder : PreOrder evolves.
Proof.
  split.
  - intros g. split; [done| |done]. intros key a Hk. left. by exists key, a.
  - intros g1 g2 g3 [Ha He Hc] [Ha' He' Hc']. split; [by auto| |by auto].
    intros key a Hk. destruct (He' _ _ Hk) as [(k & b & Hb & Ec)|(q & t & Hq & Ec)].
    + rewrite <- Ec. by apply He in Hb.
    + right. exists q, t. auto.
Qed.

Lemma evolves_fresh g g' c : evolves g g' -> fresh_conn c g -> fresh_conn c g'.
Proof.
  intros [Ha He _] [Hca Hce]. split; [by eauto|]. intros key a Hk Ec.
  destruct (He _ _ Hk) as [(k & b & Hb & E)|(q & t & Hq & E)]; [eapply Hce | eapply Hca]; eauto; congruence.
Qed.

(** Entries go and connections close. *)
Lemma evolves_shrink g g' :
  arcs g' = arcs g -> (forall key a, sessions g' !! key = Some a -> sessions g !! key = Some a) ->
  (forall c, is_closed (net g) c = true -> is_closed (net g') c = true) -> evolves g g'.
Proof.
  intros Ea Hs Hc. split; [by rewrite Ea| |done]. intros key a Hk. left. exists key, a. auto.
Qed.

Lemma evolves_delete g key : evolves g (mkRegistry (net g) (arcs g) (delete key (sessions g))).
Proof. apply evolves_shrink; [done| |done]. cbn. intros k a [_ ?]%lookup_delete_Some. done. Qed.

Lemma evolves_close g c code reason : evolves g (close_conn c code reason g).
Proof. apply evolves_shrink; [done..|]. cbn. intros c' Hc. by rewrite is_closed_close, Hc. Qed.

Lemma close_conn_reachable g c code reason : reachable g -> reachable (close_conn c code reason g).
Proof.
  intros Hr. eapply reachable_step; [exact Hr|]. apply step_net. intros c' Hc. cbn.
  by rewrite is_closed_close, Hc.
Qed.

Lemma drop_arc_reachable g p : reachable g -> reachable (drop_arc p g).
Proof. intros Hr. eapply reachable_step; [exact Hr | apply step_drop]. Qed.

Lemma evolves_remove code reason g key : evolves g (remove_and_close code reason g key).
Proof.
  apply evolves_shrink.
  - unfold remove_and_close. by case_match.
  - intros k a. rewrite remove_and_close_lookup. by case_decide.
  - intros c Hc. apply remove_and_close_closed. by left.
Qed.

Lemma evolves_remove_all code reason keys g :
  evolves g (fold_left (remove_and_close code reason) keys g).
Proof.
  revert g. induction keys as [|k keys IH]; intros g; cbn [fold_left]; [reflexivity|].
  etransitivity; [apply evolves_remove | apply IH].
Qed.

Lemma evolves_register p s g :
  registry_ok g -> arcs g !! p = Some s -> evolves g (register_session p s g).2.
Proof.
  intros Hok Hp.
  destruct (register_session_arbitration g p s Hok Hp) as (e & cs & Harb & Hcl & Ha & Hs).
  split.
  - by rewrite Ha.
  - rewrite Hs. intros key a. destruct e as [b|].
    + rewrite lookup_insert. case_decide; [|intros Hk; left; by exists key, a].
      intros [= <-]. right. exists p, s. split; [done|]. inversion Harb; by subst.
    + intros Hk. left. by exists key, a.
  - intros c Hc. by rewrite (Hcl c), Hc.
Qed.

Lemma evolves_drop p g : evolves g (drop_arc p g).
Proof.
  split; [|intros key a Hk; left; by exists key, a|done].
  cbn. intros q t [_ ?]%lookup_delete_Some. done.
Qed.

Lemma evolves_active device k g : evolves g (active device k g).2.
Proof. unfold active. repeat case_match; cbn; first [reflexivity | apply evolves_delete]. Qed.

Lemma active_found device k g q g' :
  registry_ok g -> active device k g = (Some q, g') ->
  g' = g /\ exists t, upgrade g q = Some t /\ session_key t = (device, k) /\
    conn_open g (connection t) = true.
Proof.
  intros Hok. unfold active. destruct (sessions g !! (device, k)) as [a|] eqn:Ea; [|discriminate].
  destruct (upgrade g (a_session a)) as [t|] eqn:Et; [|discriminate].
  destruct (conn_open g (connection t)) eqn:Eo; [|discriminate]. intros [= <- <-].
  split; [done|]. exists t. split_and!; [done| |done].
  by destruct (eo_session _ _ _ (ro_entries _ Hok _ _ Ea) t Et) as [-> _].
Qed.

Lemma active_open device k g c : conn_open (active device k g).2 c = conn_open g c.
Proof. unfold active. by repeat case_match. Qed.

Lemma evolves_grant device capability g : evolves g (grant_sessions device capability g).
Proof. unfold grant_sessions. case_decide; [apply evolves_remove | apply evolves_remove_all]. Qed.

(** A new session takes up its own connection only. *)
Lemma adopt_fresh s g c : fresh_conn c g -> c <> connection s -> fresh_conn c (adopt s g).2.
Proof.
  intros [Ha He] Hne. split; [|exact He]. cbn. intros q t. rewrite lookup_insert.
  case_decide; [|by eauto]. intros [= <-]. congruence.
Qed.

Lemma adopt_reachable s g :
  reachable g -> fresh_conn (connection s) g -> reachable (adopt s g).2.
Proof.
  intros Hr Hf. eapply reachable_step; [exact Hr|]. apply step_authenticated; [apply new_arc_fresh | done].
Qed.

(** ** A registered session stays registered until it is closed *)

(** The entry under the key of [t] is the one of the handle [q]. *)
Definition registered_as (q : nat) (t : Session) (g : Registry) : Prop :=
  exists a, sessions g !! session_key t = Some a /\ a_session a = q.

(** The handle points to the session [t], and [t] is registered or its
    connection has been closed. *)
Definition kept_as (q : nat) (t : Session) (g : Registry) : Prop :=
  upgrade g q = Some t /\ (registered_as q t g \/ conn_open g (connection t) = false).

Lemma conn_closed_iff g c : conn_open g c = false <-> is_closed (net g) c = true.
Proof. unfold conn_open. by rewrite negb_false_iff. Qed.

(** Whatever takes an entry away closes its connection. *)
Lemma kept_remove_all code reason keys q t g :
  registry_ok g -> kept_as q t g ->
  kept_as q t (fold_left (remove_and_close code reason) keys g).
Proof.
  intros Hok [Ha Hk]. split; [unfold upgrade; by rewrite remove_all_arcs|].
  rewrite conn_closed_iff, remove_all_closed. destruct Hk as [(a & Hs & Eq)|Hc%conn_closed_iff].
  - destruct (decide (session_key t ∈ keys)) as [Hin|Hout].
    + right. right. exists (session_key t), a. split_and!; [done..|]. subst q.
      by destruct (eo_session _ _ _ (ro_entries _ Hok _ _ Hs) t Ha) as [_ ->].
    + left. exists a. by rewrite remove_all_lookup, decide_False.
  - right. by left.
Qed.

(** The session the arbitration answers is the registered one. *)
Lemma arbitration_kept p s q t g e cs g' :
  registry_ok g -> arcs g !! p = Some s ->
  arbitration g p s (register_session p s g).1 e cs -> arbitrated g s e cs g' ->
  kept_as q t g -> kept_as q t g'.
Proof.
  intros Hok Hp Harb (Hcl & Ea & Es) [Ht Hk]. unfold upgrade in Ht.
  split; [unfold upgrade; by rewrite Ea|]. rewrite conn_closed_iff, (Hcl (connection t)).
  destruct Hk as [(a & Hs & <-)|Hc%conn_closed_iff]; [|right; by rewrite Hc].
  destruct (eo_session _ _ _ (ro_entries _ Hok _ _ Hs) t Ht) as [_ Eat].
  assert (Ec : a_connection a = connection t) by by rewrite Eat.
  destruct (decide (session_key s = session_key t)) as [Ek|Hne].
  - rewrite <- Ek in Hs. unfold registered_as. rewrite Es, <- Ek.
    inversion Harb; subst; simplify_eq; try (left; by eexists).
    all: right; by rewrite Ec, bool_decide_true, orb_true_r by set_solver.
  - left. exists a. rewrite Es. destruct e; [by rewrite lookup_insert_ne|done].
Qed.

(** A step of the registry keeps it. *)
Lemma kept_step q t g g' :
  registry_ok g -> step g g' -> arcs g' !! q = Some t -> kept_as q t g -> kept_as q t g'.
Proof.
  intros Hok Hstep Ht' Hk. assert (Ht := proj1 Hk). unfold upgrade in Ht.
  destruct Hstep as [p s g _ _|p s g Hp|device k g|device reason g|device g|device capability g|key c g Hcl|p g|n g Hn].
  - split; [exact Ht'|]. exact (proj2 Hk).
  - destruct (register_session_arbitration g p s Hok Hp) as (e & cs & Harb & Hd).
    exact (arbitration_kept p s q t g e cs _ Hok Hp Harb Hd Hk).
  - unfold active. case_match eqn:Ef; cbn [snd]; [exact Hk|]. split; [exact Ht|].
    destruct Hk as [_ [(a & Hs & Eq)|Hc]]; [|by right].
    destruct (decide ((device, k) = session_key t)) as [E|Hne].
    + right. rewrite E, Hs, Eq in Ef. unfold upgrade in Ef. rewrite Ht in Ef. unfold conn_open; cbn.
      unfold conn_open in Ef. by destruct (is_closed _ _).
    + left. exists a. cbn. by rewrite lookup_delete_ne.
  - by apply kept_remove_all.
  - by apply kept_remove_all.
  - unfold grant_sessions, disconnect. case_decide; [|by apply kept_remove_all].
    by apply (kept_remove_all 0 "authorization changed" [(device, RealtimeInput)]).
  - split; [exact Ht'|]. destruct Hk as [_ [(a & Hs & Eq)|Hc]].
    + unfold relay_cleanup. destruct (sessions g !! key) as [b|] eqn:Eb; [|left; by exists a].
      case_decide as Ec; [|left; by exists a]. destruct (decide (key = session_key t)) as [->|Hne].
      * right. apply conn_closed_iff. cbn. simplify_eq.
        destruct (eo_session _ _ _ (ro_entries _ Hok _ _ Hs) t Ht) as [_ Eat]. by rewrite Eat in Hcl.
      * left. exists a. cbn. by rewrite lookup_delete_ne.
    + right. unfold relay_cleanup. by repeat case_match.
  - split; [exact Ht'|]. exact (proj2 Hk).
  - split; [exact Ht'|]. destruct Hk as [_ [Hs|Hc%conn_closed_iff]]; [by left|right].
    apply conn_closed_iff. by apply Hn.
Qed.

Lemma kept_close q t c code reason g : kept_as q t g -> kept_as q t (close_conn c code reason g).
Proof.
  intros [Ht [Hs|Hc%conn_closed_iff]]; (split; [exact Ht|]); [by left|right].
  apply conn_closed_iff. cbn. by rewrite is_closed_close, Hc.
Qed.

(** What [register_session] answers is registered, under the key of the
    session it was called with. *)
Lemma register_kept p s q g g' :
  registry_ok g -> arcs g !! p = Some s -> register_session p s g = (Ok q, g') ->
  exists t, upgrade g' q = Some t /\ session_key t = session_key s /\ registered_as q t g'.
Proof.
  intros Hok Hp E. destruct (register_session_arbitration g p s Hok Hp) as (e & cs & Harb & _ & Ea & Es).
  rewrite E in Harb, Ea, Es. cbn [fst snd] in *. unfold upgrade, registered_as. rewrite Ea, Es.
  assert (Hcur : forall cur t, sessions g !! session_key s = Some cur ->
    arcs g !! a_session cur = Some t -> session_key t = session_key s).
  { intros cur t Hs Ht. by destruct (eo_session _ _ _ (ro_entries _ Hok _ _ Hs) t Ht) as [-> _]. }
  inversion Harb; subst; simplify_eq.
  all: first [ exists s; split_and!; [done..|]; eexists; rewrite ?lookup_insert_eq; split; [done|]; done
             | exists t; rewrite (Hcur _ t) by done; split_and!; [done..|]; by exists current ].
Qed.

(** What [active] answers is registered. *)
Lemma active_kept device k g q g' :
  registry_ok g -> active device k g = (Some q, g') ->
  exists t, upgrade g q = Some t /\ session_key t = (device, k) /\ registered_as q t g.
Proof.
  intros Hok E. destruct (active_found _ _ _ _ _ Hok E) as (_ & t & Ht & Hkey & _).
  exists t. split_and!; [done..|]. unfold registered_as. rewrite Hkey. unfold active in E.
  destruct (sessions g !! (device, k)) as [a|]; [|discriminate E]. exists a. split; [done|].
  destruct (upgrade g (a_session a)); [|discriminate E].
  destruct (conn_open g _); [|discriminate E]. by injection E.
Qed.
End evolution.

(** ** What leaves no trace *)

Section trace.
Context `{PeerApi} `{Crypto} `{WireApi} `{Transport} {S : Type} `{!PeerRepository S}
  `{!EndpointRepository S} `{!PeerService S}.
Context `{!PeerLaws} `{!TransportLaws} `{!PeerRepositoryLaws S} `{!EndpointRepositoryLaws S}
  `{!StoreLaws S} `{!PeerServiceLaws S}.

(** What is stored and what discovery knows is as it was. *)
Definition same_store (s s' : S) : Prop :=
  store_ok s -> store_ok s' /\ view_eq (view s) (view s') /\ same_stored s s'.

#[export] Instance same_store_preorder : PreOrder same_store.
Proof.
  split; [by intros s Hs|]. intros u v w Huv Hvw Hu. destruct (Huv Hu) as (Hv & V1 & T1).
  destruct (Hvw Hv) as (Hw & V2 & T2). split_and!; [done|by etransitivity|].
  intros q b. by rewrite T2, T1.
Qed.

#[export] Instance same_store_paired id key : Along same_store (require_paired id key).
Proof.
  intros s x s' E Hs. destruct (require_paired_keeps _ _ _ _ _ Hs E) as [Hok Hst].
  by destruct (require_paired_run _ _ _ _ _ (proj1 Hs) E) as (_ & Hv & _).
Qed.
#[export] Instance same_store_authorize id c : Along same_store (authorize S id c).
Proof. intros s x s' E Hs. by destruct (authorize_spec S id c s x s' Hs E) as (? & ? & ? & _). Qed.

Lemma stays_same_store (w w' : World S) : stays w w' -> same_store (repo w) (repo w').
Proof.
  intros Hw Hs. destruct (stays_store _ _ Hw Hs). by destruct (st_repo _ _ Hw (proj1 Hs)).
Qed.

Definition no_trace (r r' : Runtime S) : Prop :=
  same_store (store r) (store r') /\ discovery r' = discovery r.

#[export] Instance no_trace_preorder : PreOrder no_trace.
Proof.
  split; [done|]. intros u v w [S1 D1] [S2 D2]. split; [by etransitivity | congruence].
Qed.

#[export] Instance no_trace_store {F A} (m : action S F A) :
  Along same_store m -> Along no_trace (on_store m).
Proof. intros Hm r x r' (s & E & ->)%on_store_inv. split; [by eapply Hm | done]. Qed.
#[export] Instance no_trace_registry {F A} (f : Registry -> A * Registry) :
  Along no_trace (on_registry (E := F) f).
Proof. intros r x r'. unfold on_registry. destruct (f (registry r)). by intros [= _ <-]. Qed.
#[export] Instance no_trace_require s c : Along no_trace (require s c).
Proof. unfold require. apply _. Qed.
#[export] Instance no_trace_close {F} s reason : Along no_trace (close_session (E := F) s reason).
Proof. unfold close_session. apply _. Qed.
End trace.

(** ** The calls *)

Section calls.
Context `{PeerApi} `{Crypto} `{WireApi} `{Transport} {S : Type} `{!PeerRepository S}
  `{!EndpointRepository S} `{!PeerService S}.

Inductive RuntimeCall :=
| CallForget (id : DeviceId)
| CallGrant (g : Grant)
| CallRevoke (id : DeviceId) (capability : CapabilityId) (direction : GrantDirection)
| CallDisconnect (id : DeviceId) (reason : string)
| CallActive (id : DeviceId) (k : SessionKind)
| CallArrives (s : Session)
| CallRegister (p : nat)
| CallDrop (p : nat)
| CallCloses (c : Conn) (code : Z) (reason : string).

Definition map_registry (f : Registry -> Registry) (r : Runtime S) : Runtime S :=
  mkRuntime (store r) (discovery r) (f (registry r)).

(** The state after the call; an arriving session is one another handshake has
    authenticated, on a connection of its own. *)
Definition run_call (call : RuntimeCall) (r : Runtime S) : Runtime S :=
  match call with
  | CallForget id => (forget id r).2
  | CallGrant g => (grant g r).2
  | CallRevoke id c d => (revoke id c d r).2
  | CallDisconnect id reason => map_registry (fun g => (disconnect id reason g).2) r
  | CallActive id k => map_registry (fun g => (active id k g).2) r
  | CallArrives s =>
      if conn_unused (connection s) (registry r) then map_registry (fun g => (adopt s g).2) r else r
  | CallRegister p =>
      match upgrade (registry r) p with
      | Some s => map_registry (fun g => (register_session p s g).2) r
      | None => r
      end
  | CallDrop p => map_registry (drop_arc p) r
  | CallCloses c code reason => map_registry (close_conn c code reason) r
  end.

(** The connection a call takes up. *)
Definition takes_up (call : RuntimeCall) : option Conn :=
  match call with
  | CallArrives s => Some (connection s)
  | _ => None
  end.

Context `{!PeerLaws} `{!TransportLaws} `{!PeerRepositoryLaws S} `{!EndpointRepositoryLaws S}
  `{!StoreLaws S} `{!PeerServiceLaws S}.

(** A call is at most one step of the registry, and only an arriving session is
    new. *)
Lemma run_call_step call r (g := registry r) (g' := registry (run_call call r)) :
  registry_ok g ->
  g' = g \/ (step g g' /\ evolves g g') \/
  exists s, call = CallArrives s /\ fresh_conn (connection s) g /\ g' = (adopt s g).2.
Proof.
  intros Hok. subst g g'.
  assert (Hstore : forall E A (m : action S E A) (r0 : Runtime S) x r1,
    on_store m r0 = (x, r1) -> registry r1 = registry r0).
  { intros E A m r0 x r1 (s & _ & ->)%on_store_inv. done. }
  destruct call; cbn [run_call].
  - destruct (forget id r) as [x r'] eqn:E. unfold forget in E. cbn [snd].
    apply act_bind_inv in E as [(b & r1 & E1%Hstore & E)|(e & E1%Hstore & _)]; [|by left].
    apply act_bind_inv in E as [([] & r2 & E2%Hstore & E)|(e & E2%Hstore & _)]; [|left; congruence].
    injection E as <- <-. cbn [registry]. rewrite E2, E1. right. left. split; [apply step_forget | apply evolves_remove_all].
  - destruct (grant g r) as [x r'] eqn:E. unfold grant in E. cbn [snd].
    apply act_bind_inv in E as [([] & r1 & E1 & E)|(e & E1 & _)]; injection E1 as _ <-; [|by left].
    apply act_bind_inv in E as [([] & r2 & E2%Hstore & E)|(e & E2%Hstore & _)]; [|by left].
    injection E as <- <-. cbn [registry]. rewrite E2. right. left. split; [apply step_grant | apply evolves_grant].
  - destruct (revoke id capability direction r) as [x r'] eqn:E. unfold revoke in E. cbn [snd].
    apply act_bind_inv in E as [(b & r1 & E1%Hstore & E)|(e & E1%Hstore & _)]; [|by left].
    destruct b; injection E as <- <-; cbn [registry]; rewrite E1; [right; left|by left].
    split; [apply step_disconnect | apply evolves_remove_all].
  - right. left. split; [apply step_disconnect | apply evolves_remove_all].
  - right. left. split; [apply step_active | apply evolves_active].
  - destruct (conn_unused _ _) eqn:E; [|by left]. right. right. apply conn_unused_spec in E. by exists s.
  - destruct (upgrade (registry r) p) as [s|] eqn:E; [|by left]. right. left.
    split; [by apply step_register | by apply evolves_register].
  - right. left. split; [apply step_drop | apply evolves_drop].
  - right. left. split; [|apply evolves_close]. apply step_net. intros c' Hc. cbn.
    by rewrite is_closed_close, Hc.
Qed.

Lemma run_call_reachable call r : reachable (registry r) -> reachable (registry (run_call call r)).
Proof.
  intros Hr. apply reachable_ok in Hr as Hok.
  destruct (run_call_step call r Hok) as [->|[[Hs _]|(s & _ & Hf & ->)]]; [done| |].
  - by eapply reachable_step.
  - by apply adopt_reachable.
Qed.

Lemma run_call_closed call r c :
  registry_ok (registry r) -> is_closed (net (registry r)) c = true ->
  is_closed (net (registry (run_call call r))) c = true.
Proof.
  intros Hok Hc. destruct (run_call_step call r Hok) as [->|[[_ Hev]|(s & _ & Hf & ->)]]; [done| |done].
  by apply (ev_closed _ _ Hev).
Qed.

Lemma run_call_fresh call r c :
  registry_ok (registry r) -> takes_up call <> Some c -> fresh_conn c (registry r) ->
  fresh_conn c (registry (run_call call r)).
Proof.
  intros Hok Hne Hf. destruct (run_call_step call r Hok) as [->|[[_ Hev]|(s & -> & _ & ->)]]; [done| |].
  - by eapply evolves_fresh.
  - apply adopt_fresh; [done|]. intros ->. by apply Hne.
Qed.

(** A handle that is not dropped stays. *)
Lemma run_call_arc call r q t :
  registry_ok (registry r) -> arcs (registry r) !! q = Some t -> call <> CallDrop q ->
  arcs (registry (run_call call r)) !! q = Some t.
Proof.
  intros Hok Hq Hne.
  assert (Hstore : forall E A (m : action S E A) (r0 : Runtime S) x r1,
    on_store m r0 = (x, r1) -> registry r1 = registry r0).
  { intros E A m r0 x r1 (s & _ & ->)%on_store_inv. done. }
  destruct call; cbn [run_call].
  - destruct (forget id r) as [x r'] eqn:E. unfold forget in E. cbn [snd].
    apply act_bind_inv in E as [(b & r1 & E1%Hstore & E)|(e & E1%Hstore & _)]; [|congruence].
    apply act_bind_inv in E as [([] & r2 & E2%Hstore & E)|(e & E2%Hstore & _)]; [|congruence].
    injection E as <- <-. cbn [registry]. unfold forget_sessions. by rewrite remove_all_arcs, E2, E1.
  - destruct (grant g r) as [x r'] eqn:E. unfold grant in E. cbn [snd].
    apply act_bind_inv in E as [([] & r1 & E1 & E)|(e & E1 & _)]; injection E1 as _ <-; [|done].
    apply act_bind_inv in E as [([] & r2 & E2%Hstore & E)|(e & E2%Hstore & _)]; [|congruence].
    injection E as <- <-. cbn [registry]. unfold grant_sessions, disconnect.
    destruct (decide _); cbn [snd]; rewrite ?remove_all_arcs, E2; [|done].
    unfold remove_and_close. by case_match.
  - destruct (revoke id capability direction r) as [x r'] eqn:E. unfold revoke in E. cbn [snd].
    apply act_bind_inv in E as [(b & r1 & E1%Hstore & E)|(e & E1%Hstore & _)]; [|congruence].
    destruct b; injection E as <- <-; cbn [registry]; [|congruence].
    unfold disconnect. cbn [snd]. by rewrite remove_all_arcs, E1.
  - cbn. by rewrite remove_all_arcs.
  - cbn. unfold active. by repeat case_match.
  - destruct (conn_unused _ _); [|done]. cbn. rewrite lookup_insert_ne; [done|].
    intros <-. destruct (new_arc_fresh (registry r)) as [Hnone _]. congruence.
  - destruct (upgrade (registry r) p) as [s|] eqn:E; [|done]. cbn.
    destruct (register_session_arbitration (registry r) p s Hok E) as (e & cs & _ & _ & -> & _). done.
  - cbn. rewrite lookup_delete_ne; [done|]. congruence.
  - done.
Qed.

(** A session that is registered stays so, or its connection is closed. *)
Lemma run_call_kept call r q t :
  registry_ok (registry r) -> call <> CallDrop q ->
  kept_as q t (registry r) -> kept_as q t (registry (run_call call r)).
Proof.
  intros Hok Hne Hk. pose proof (run_call_arc call r q t Hok (proj1 Hk) Hne) as Ht.
  destruct (run_call_step call r Hok) as [->|[[Hs _]|(s & -> & Hf & Es)]]; [done| |].
  - by eapply kept_step.
  - rewrite Es in Ht |- *. split; [exact Ht|]. exact (proj2 Hk).
Qed.

Lemma run_call_store call r : store_ok (store r) -> store_ok (store (run_call call r)).
Proof.
  intros Hs. destruct call; cbn [run_call]; try exact Hs.
  - destruct (forget id r) as [x r'] eqn:E. unfold forget in E. cbn [snd].
    apply act_bind_inv in E as [(b & r1 & E1 & E)|(e & E1 & _)];
      apply service_call_inv in E1 as (y & s1 & E1 & _ & ->);
      pose proof (service_forget_spec _ id (store r) y s1) as Hf; destruct (Hf Hs E1) as (Hs1 & _);
      [|exact Hs1].
    apply act_bind_inv in E as [([] & r2 & E2 & E)|(e & E2 & _)];
      apply on_store_inv in E2 as (s2 & E2 & ->); cbn [store] in E2;
      pose proof (forget_endpoints_spec id s1 _ s2 (proj2 Hs1) E2) as (Hr2 & _);
      pose proof (forget_endpoints_keeps _ id s1 _ s2 Hs1 E2) as (Hp2 & _);
      [injection E as <- <-|]; by split.
  - destruct (grant g r) as [x r'] eqn:E. unfold grant in E. cbn [snd].
    apply act_bind_inv in E as [([] & r1 & E1 & E)|(e & E1 & _)]; injection E1 as _ <-; [|exact Hs].
    apply act_bind_inv in E as [([] & r2 & E2 & E)|(e & E2 & _)];
      apply service_call_inv in E2 as (y & s1 & E2 & _ & ->);
      pose proof (service_grant_spec _ g (store r) y s1) as Hg; destruct (Hg Hs E2) as (Hs1 & _);
      [injection E as <- <-|]; exact Hs1.
  - destruct (revoke id capability direction r) as [x r'] eqn:E. unfold revoke in E. cbn [snd].
    apply act_bind_inv in E as [(b & r1 & E1 & E)|(e & E1 & _)];
      apply repository_call_inv in E1 as (y & s1 & E1 & _ & ->);
      pose proof (revoke_grant_spec id capability direction (store r) y s1 (proj1 Hs) E1) as (Hp1 & _);
      pose proof (revoke_grant_keeps _ id capability direction (store r) y s1 Hs E1) as (Hr1 & _);
      [destruct b; injection E as <- <-|]; by split.
  - by destruct (conn_unused _ _).
  - by destruct (upgrade _ _).
Qed.
End calls.
