(* ===== verification/Dial.v ===== *)
(** * Dial

    The endpoint race (runtime/dial.rs): up to sixteen candidates dial the
    addresses of one device, three at a time, one of them may commit to a
    session; the first authenticated one wins and the others are closed.  The
    tasks of the race interleave with each other and with the rest of the
    runtime, so the race is a machine that moves by events. *)

From S2P Require Import Prelude Errors Addr Peer Wire Grants Registry Endpoint RepositoryDb Repository.
From S2P Require Import Store Text Identity Discovery Probe Handshake Auth Mutual Trust Sockets Calls.

(** ** Candidates *)

(** The variants of [quinn::ConnectionError], as [quic_failure_kind] lists
    them. *)
Inductive ConnectionError :=
| VersionMismatch
| TransportError
| ConnectionClosed
| ApplicationClosed
| Reset
| TimedOut
| LocallyClosed
| CidsExhausted.

(** [quic_failure_kind] (runtime/diagnostics.rs) *)
Definition quic_failure_kind (e : ConnectionError) : string :=
  match e with
  | VersionMismatch => "version_mismatch"
  | TransportError => "transport_error"
  | ConnectionClosed => "peer_transport_close"
  | ApplicationClosed => "peer_application_close"
  | Reset => "peer_reset"
  | TimedOut => "idle_timeout"
  | LocallyClosed => "local_close"
  | CidsExhausted => "connection_ids_exhausted"
  end.

Definition MAX_CANDIDATES : nat := 16.
Definition CANDIDATE_CAPACITY : nat := 3.

(** The loop that canonicalises the addresses and drops repetitions. *)
Fixpoint unique_from (unique addresses : list SocketAddr) : list SocketAddr :=
  match addresses with
  | [] => unique
  | address :: rest =>
      let address := canonical_endpoint address in
      if bool_decide (address ∈ unique) then unique_from unique rest
      else if (length (unique ++ [address]) =? MAX_CANDIDATES)%nat then unique ++ [address]
      else unique_from (unique ++ [address]) rest
  end.

Definition unique_endpoints (addresses : list SocketAddr) : list SocketAddr := unique_from [] addresses.

(** What is used of [quinn::Connection::remote_address]. *)
Class Remote `{Transport} := conn_remote : Conn -> SocketAddr.

Section race.
Context `{PeerApi} `{Crypto} `{WireApi} `{Transport} `{!Remote} {S : Type} `{!PeerRepository S}
  `{!EndpointRepository S} `{!PeerService S}.

(** The arguments of a race. *)
Record Dial := mkDial {
  dial_local : Local;
  dial_expected : ExpectedPeer;
  dial_kind : SessionKind;
  dial_source : EndpointSource;
  dial_recovery : option nat
}.

(** How a candidate task ends: with the authenticated session, with the phase
    and the error it failed in, or by a panic. *)
Inductive DialOutcome :=
| Dialled (s : Session)
| Failed (phase : string) (quic_failure : option string) (e : NetworkError)
| Panicked (text : string).

(** Where a candidate task is.  [Authenticating] owns the guard of its
    connection, and maybe the selection permit; [Done] waits to be joined. *)
Inductive CandidateState :=
| Sleeping
| CapacityWait
| GlobalWait
| QuicHandshake
| Authenticating (c : Conn) (selected : bool)
| Done (o : DialOutcome)
| Joined (o : DialOutcome)
| Aborted.

Record Candidate := mkCandidate { c_address : SocketAddr; c_state : CandidateState }.

(** Where the joining task is. *)
Inductive RaceStage :=
| Racing
| Won (s : Session)
| Registered (q : nat)
| Over (r : result (NetworkError * bool) nat).

(** [race_dialled] are the connections the race has established so far. *)
Record Race := mkRace {
  race_candidates : list Candidate;
  race_runtime : Runtime S;
  race_failures : list string;
  path_timed_out : bool;
  authentication_failed : bool;
  race_stage : RaceStage;
  race_dialled : list Conn
}.

Inductive RaceEvent :=
| Wake (i : nat)
| TakeCapacity (i : nat)
| TakeGlobal (i : nat)
| ConnectError (i : nat) (text : string)
| QuicError (i : nat) (e : ConnectionError) (text : string)
| Established (i : nat) (c : Conn)
| Select (i : nat)
| Authenticate (i : nat) (md : DeviceMetadata) (w : World S)
| Expire (i : nat)
| Panic (i : nat) (text : string)
| Join (i : nat) (now : Z)
| Register
| Remember (now now' : Z)
| Meanwhile (call : RuntimeCall).

(** ** What a candidate holds *)

Definition holds_capacity (c : Candidate) : bool :=
  match c_state c with
  | GlobalWait | QuicHandshake | Authenticating _ _ => true
  | _ => false
  end.

(** The selection permit moves into the session. *)
Definition holds_selection (c : Candidate) : bool :=
  match c_state c with
  | Authenticating _ selected => selected
  | Done (Dialled _) => true
  | _ => false
  end.

Definition guarded (st : CandidateState) : option Conn :=
  match st with
  | Authenticating c _ => Some c
  | Done (Dialled s) => Some (connection s)
  | _ => None
  end.

Definition count {A} (p : A -> bool) (l : list A) : nat := length (List.filter p l).

(** The phase a candidate reports when its deadline passes. *)
Definition phase_of (st : CandidateState) : option string :=
  match st with
  | CapacityWait => Some "candidate_capacity_wait"
  | GlobalWait => Some "global_capacity_wait"
  | QuicHandshake => Some "quic_handshake"
  | Authenticating _ _ => Some "peer_authentication"
  | _ => None
  end.

(** [CandidateConnection::drop] *)
Definition drop_guard (st : CandidateState) (g : Registry) : Registry :=
  match guarded st with
  | Some c => close_conn c 0 "dial candidate cancelled" g
  | None => g
  end.

(** ** Steps of a race *)

Definition candidate_at (i : nat) (r : Race) : option CandidateState :=
  c_state <$> race_candidates r !! i.

Definition set_candidates (l : list Candidate) (r : Race) : Race :=
  mkRace l (race_runtime r) (race_failures r) (path_timed_out r) (authentication_failed r)
    (race_stage r) (race_dialled r).
Definition set_runtime (rt : Runtime S) (r : Race) : Race :=
  mkRace (race_candidates r) rt (race_failures r) (path_timed_out r) (authentication_failed r)
    (race_stage r) (race_dialled r).
Definition set_stage (st : RaceStage) (r : Race) : Race :=
  mkRace (race_candidates r) (race_runtime r) (race_failures r) (path_timed_out r)
    (authentication_failed r) st (race_dialled r).

Definition enter (st : CandidateState) (c : Candidate) : Candidate := mkCandidate (c_address c) st.

Definition goto (i : nat) (st : CandidateState) (r : Race) : Race :=
  set_candidates (alter (enter st) i (race_candidates r)) r.

Definition on_net (f : Registry -> Registry) (r : Race) : Race :=
  set_runtime (map_registry f (race_runtime r)) r.

(** Candidate [i], in state [st], ends with [o]; its guard goes with it unless
    it is part of the outcome. *)
Definition finish (i : nat) (st : CandidateState) (o : DialOutcome) (r : Race) : Race :=
  goto i (Done o) (match o with
                   | Dialled _ => r
                   | _ => on_net (drop_guard st) r
                   end).

(** [candidates.shutdown()] *)
Definition settle (c : Candidate) : Candidate :=
  match c_state c with
  | Joined _ => c
  | _ => enter Aborted c
  end.

Definition shut_down (r : Race) : Race :=
  set_candidates (map settle (race_candidates r))
    (on_net (fun g => fold_left (fun g c => drop_guard (c_state c) g) (race_candidates r) g) r).

(** [session.recovery_endpoint.set(endpoint)] *)
Definition with_recovery (recovery : option nat) (s : Session) : Session :=
  match recovery, recovery_endpoint s with
  | Some e, None =>
      mkSession (peer_process_instance_id s) (relay_tunnel s) (Some e) (id s) (kind s) (peer s)
        (verification_code s) (rank s) (connection s) (protocol_minor s)
  | _, _ => s
  end.

Definition fails_on_path (phase : string) (quic_failure : option string) (e : NetworkError) : bool :=
  String.eqb phase "quic_handshake" &&
  (bool_decide (e = Timeout) || bool_decide (quic_failure = Some "idle_timeout"%string)).

(** [join_next] yields [None]. *)
Definition all_joined (r : Race) : bool :=
  forallb (fun c => match c_state c with Joined _ => true | _ => false end) (race_candidates r).

Definition conclude (r : Race) : Race :=
  if all_joined r then
    set_stage (Over (Err (Connect (String.concat "; " (race_failures r)),
                          path_timed_out r && negb (authentication_failed r)))) r
  else r.

(** The arm of the join loop for a failed candidate. *)
Definition note_failure (d : Dial) (now : Z) (address : SocketAddr) (phase : string)
    (quic_failure : option string) (e : NetworkError) (r : Race) : Race :=
  let rt := race_runtime r in
  let rt' := match dial_source d with
             | History => (attempt (F := NetworkError)
                 (on_store (record_failure now (expected_id (dial_expected d)) address)) rt).2
             | _ => rt
             end in
  mkRace (race_candidates r) rt' (race_failures r ++ [sock_text address +:+ ": " +:+ error_text e])
    (path_timed_out r || fails_on_path phase quic_failure e)
    (authentication_failed r || String.eqb phase "peer_authentication")
    (race_stage r) (race_dialled r).

Definition note_panic (text : string) (r : Race) : Race :=
  mkRace (race_candidates r) (race_runtime r) (race_failures r ++ [text]) (path_timed_out r)
    (authentication_failed r) (race_stage r) (race_dialled r).

Definition join (d : Dial) (i : nat) (now : Z) (r : Race) : option Race :=
  c ← race_candidates r !! i;
  match c_state c with
  | Done (Dialled s) =>
      Some (set_stage (Won (with_recovery (dial_recovery d) s))
              (shut_down (goto i (Joined (Dialled s)) r)))
  | Done (Failed phase quic_failure e) =>
      Some (conclude (note_failure d now (c_address c) phase quic_failure e
                        (goto i (Joined (Failed phase quic_failure e)) r)))
  | Done (Panicked text) => Some (conclude (note_panic text (goto i (Joined (Panicked text)) r)))
  | _ => None
  end.

(** [register_session(session)] and, when it fails, the drop of the guard of
    the winner.  The handle that was passed goes unless it is answered. *)
Definition register_winner (s : Session) (r : Race) : Race :=
  let rt := race_runtime r in
  let '(p, g) := adopt s (registry rt) in
  let '(x, g') := register_session p s g in
  let put g := mkRuntime (store rt) (discovery rt) g in
  match x with
  | Ok q =>
      set_stage (Registered q) (set_runtime (put (if (q =? p)%nat then g' else drop_arc p g')) r)
  | Err e =>
      set_stage (Over (Err (e, false)))
        (set_runtime (put (close_conn (connection s) 0 "dial candidate cancelled" (drop_arc p g'))) r)
  end.

Definition remember_winner (d : Dial) (now now' : Z) (q : nat) (r : Race) : option Race :=
  t ← upgrade (registry (race_runtime r)) q;
  Some (set_stage (Over (Ok q))
    (set_runtime
       (remember_authenticated_session now now' t (conn_remote (connection t)) (dial_source d)
          (race_runtime r)).2 r)).

(** The environment of the handshake of a candidate. *)
Definition race_world (rt : Runtime S) (selected : bool) (w : World S) : World S :=
  mkWorld (peer_certificates w) (exporter w) (remote_address w) (stream_faults w) (write_faults w)
    (inbox w) (sent w) (store rt) (rates w) (probe_permits w) (discoverable w) selected (instant w)
    (clock_ms w) (fresh_nonce w) (fresh_session_id w) (local_port w).

Definition authenticate (d : Dial) (i : nat) (c : Conn) (selected : bool) (md : DeviceMetadata)
    (w : World S) (r : Race) : Race :=
  let rt := race_runtime r in
  let '(x, w') := authenticate_expected c (dial_local d) md (dial_expected d) (dial_kind d)
                    (race_world rt selected w) in
  finish i (Authenticating c selected)
    (match x with
     | Ok s => Dialled s
     | Err e => Failed "peer_authentication" None e
     end)
    (set_runtime (mkRuntime (repo w') (discovery rt) (registry rt)) r).

(** The calls of other tasks: none drops the handle of the winner, and none
    takes up a connection of the race. *)
Definition meanwhile_allowed (call : RuntimeCall) (r : Race) : bool :=
  match call with
  | CallDrop p => match race_stage r with Registered q => negb (p =? q)%nat | _ => true end
  | CallArrives s => negb (bool_decide (connection s ∈ race_dialled r))
  | _ => true
  end.

(** The steps of candidate [i]; [None] when the step is not possible.  The gate
    of [TakeGlobal] is shared by the whole runtime: whether a permit is free is up
    to the accept loop, the relays and the other dials, so the step may come at
    any point, and a full gate is a schedule in which it does not come.  What is
    shown of a race holds for every schedule, those that the gate rules out
    included. *)
Definition candidate_turn (d : Dial) (ev : RaceEvent) (r : Race) : option Race :=
  match ev with
  | Wake i =>
      match candidate_at i r with
      | Some Sleeping => Some (goto i CapacityWait r)
      | _ => None
      end
  | TakeCapacity i =>
      match candidate_at i r with
      | Some CapacityWait =>
          if (count holds_capacity (race_candidates r) <? CANDIDATE_CAPACITY)%nat
          then Some (goto i GlobalWait r) else None
      | _ => None
      end
  | TakeGlobal i =>
      match candidate_at i r with
      | Some GlobalWait => Some (goto i QuicHandshake r)
      | _ => None
      end
  | ConnectError i text =>
      match candidate_at i r with
      | Some QuicHandshake =>
          Some (finish i QuicHandshake (Failed "quic_handshake" None (Connect text)) r)
      | _ => None
      end
  | QuicError i e text =>
      match candidate_at i r with
      | Some QuicHandshake =>
          Some (finish i QuicHandshake
                  (Failed "quic_handshake" (Some (quic_failure_kind e)) (Quic text)) r)
      | _ => None
      end
  | Established i c =>
      match candidate_at i r with
      | Some QuicHandshake =>
          let g := registry (race_runtime r) in
          if conn_unused c g && conn_open g c && negb (bool_decide (c ∈ race_dialled r))
          then Some (mkRace (alter (enter (Authenticating c false)) i (race_candidates r))
                       (race_runtime r) (race_failures r) (path_timed_out r)
                       (authentication_failed r) (race_stage r) (race_dialled r ++ [c]))
          else None
      | _ => None
      end
  | Select i =>
      match candidate_at i r with
      | Some (Authenticating c false) =>
          if (count holds_selection (race_candidates r) =? 0)%nat
          then Some (goto i (Authenticating c true) r) else None
      | _ => None
      end
  | Authenticate i md w =>
      match candidate_at i r with
      | Some (Authenticating c selected) => Some (authenticate d i c selected md w r)
      | _ => None
      end
  | Expire i =>
      st ← candidate_at i r;
      phase ← phase_of st;
      Some (finish i st (Failed phase None Timeout) r)
  | Panic i text =>
      st ← candidate_at i r;
      match st with
      | Done _ | Joined _ | Aborted => None
      | _ => Some (finish i st (Panicked text) r)
      end
  | Join i now => join d i now r
  | Register | Remember _ _ | Meanwhile _ => None
  end.

(** One step of the race. *)
Definition race_turn (d : Dial) (ev : RaceEvent) (r : Race) : option Race :=
  match ev, race_stage r with
  | _, Over _ => None
  | Meanwhile call, _ =>
      if meanwhile_allowed call r then Some (set_runtime (run_call call (race_runtime r)) r) else None
  | Register, Won s => Some (register_winner s r)
  | Remember now now', Registered q => remember_winner d now now' q r
  | _, Racing => candidate_turn d ev r
  | _, _ => None
  end.

(** An event that is not possible is passed over. *)
Definition race_step (d : Dial) (r : Race) (ev : RaceEvent) : Race := default r (race_turn d ev r).

Definition run_race (d : Dial) (events : list RaceEvent) (r : Race) : Race :=
  fold_left (race_step d) events r.

Definition race_start (addresses : list SocketAddr) (rt : Runtime S) : Race :=
  let unique := unique_endpoints addresses in
  mkRace (map (fun a => mkCandidate a Sleeping) unique) rt [] false false
    (match unique with
     | [] => Over (Err (Connect "no dial endpoints", false))
     | _ => Racing
     end) [].

(** What is left when nothing else happens: each candidate starts, reaches its
    deadline and is joined; then the winner is registered and remembered. *)
Definition deadlines (now : Z) (n : nat) : list RaceEvent :=
  flat_map (fun i => [Wake i; Expire i; Join i now]) (seq 0 n) ++ [Register; Remember now now].

Definition race_result (r : Race) : result (NetworkError * bool) nat :=
  match race_stage r with
  | Over x => x
  | _ => Err (Timeout, false)
  end.

(** [NetworkRuntime::race_endpoints_on] under a schedule of events; the
    deadlines follow the schedule, at [now]. *)
Definition race_endpoints_on (d : Dial) (addresses : list SocketAddr) (schedule : list RaceEvent)
    (now : Z) : action (Runtime S) (NetworkError * bool) nat := fun rt =>
  let r := run_race d (schedule ++ deadlines now (length (unique_endpoints addresses)))
             (race_start addresses rt) in
  (race_result r, race_runtime r).

(** The handle [race_endpoints] holds of a recovery endpoint goes when it
    returns; the session that uses the endpoint keeps one of its own. *)
Definition settle_endpoint (endpoint : nat) (x : result NetworkError nat) (rt : Runtime S) (sk : Sockets)
    : Sockets :=
  match x with
  | Ok q =>
      match upgrade (registry rt) q with
      | Some t => if bool_decide (recovery_endpoint t = Some endpoint) then sk
                  else release_endpoint endpoint sk
      | None => release_endpoint endpoint sk
      end
  | Err _ => release_endpoint endpoint sk
  end.

(** [NetworkRuntime::race_endpoints]: a second race from a fresh socket, with
    its own schedule; [in_runtime] and [opened] are the surroundings of
    [new_recovery_endpoint]. *)
Definition race_endpoints (d : Dial) (addresses : list SocketAddr) (first second : list RaceEvent)
    (now now' : Z) (in_runtime : bool) (opened : net_result nat)
    : action (Runtime S * Sockets) NetworkError nat := fun '(rt, sk) =>
  match race_endpoints_on d addresses first now rt with
  | (Ok q, rt') => (Ok q, (rt', sk))
  | (Err (error, retry_source_port), rt') =>
      if negb retry_source_port
         || bool_decide (dial_kind d = DiscoveryProbe \/ dial_kind d = Pairing)
      then (Err error, (rt', sk))
      else
        match new_recovery_endpoint in_runtime opened sk with
        | (Err e, sk') => (Err e, (rt', sk'))
        | (Ok endpoint, sk') =>
            let d' := mkDial (dial_local d) (dial_expected d) (dial_kind d) (dial_source d) (Some endpoint) in
            let (x, rt'') := act_map_err fst (race_endpoints_on d' addresses second now') rt' in
            (x, (rt'', settle_endpoint endpoint x rt'' sk'))
        end
  end.
End race.

Arguments Race {_ _} _.
Arguments RaceEvent {_ _} _.

(** ** Facts *)

Lemma unique_from_spec u l (r := unique_from u l) :
  NoDup u -> (length u < MAX_CANDIDATES)%nat -> (forall a, a ∈ u -> canonical_endpoint a = a) ->
  NoDup r /\ (length r <= MAX_CANDIDATES)%nat /\ u `prefix_of` r /\
  (forall a, a ∈ r -> canonical_endpoint a = a /\ (a ∈ u \/ exists b, b ∈ l /\ a = canonical_endpoint b)) /\
  ((length r < MAX_CANDIDATES)%nat -> forall b, b ∈ l -> canonical_endpoint b ∈ r).
Proof.
  subst r. revert u. induction l as [|b l IH]; intros u Hnd Hlen Hc; cbn [unique_from]; cbv zeta.
  - split_and!; [done|lia|done| |]; set_solver.
  - case_bool_decide as Hb.
    { destruct (IH u Hnd Hlen Hc) as (H1 & H2 & Hp & H3 & H4). split_and!; [done..| |].
      - intros a Ha. destruct (H3 a Ha) as [? [?|(x & ? & ?)]]; [by auto|].
        split; [done|]. right. exists x. split; [by right|done].
      - intros Hl x [->|Hx]%elem_of_cons; [|by auto]. by eapply elem_of_prefix. }
    assert (Hnd' : NoDup (u ++ [canonical_endpoint b])).
    { apply NoDup_app. split_and!; [done| |apply NoDup_singleton]. set_solver. }
    assert (Hc' : forall a, a ∈ u ++ [canonical_endpoint b] -> canonical_endpoint a = a).
    { intros a [?| ->%list_elem_of_singleton]%elem_of_app; [by auto | apply canonical_endpoint_idemp]. }
    assert (Hfrom : forall a, a ∈ u ++ [canonical_endpoint b] ->
      a ∈ u \/ exists x, x ∈ b :: l /\ a = canonical_endpoint x).
    { intros a [?| ->%list_elem_of_singleton]%elem_of_app; [by left|]. right. exists b.
      split; [by left|done]. }
    assert (Hl : length (u ++ [canonical_endpoint b]) = Datatypes.S (length u)).
    { rewrite length_app. cbn. lia. }
    destruct (_ =? _)%nat eqn:E; [apply Nat.eqb_eq in E | apply Nat.eqb_neq in E].
    + split_and!; [done|lia|by apply prefix_app_r| |lia]. auto.
    + destruct (IH _ Hnd' ltac:(lia) Hc') as (H1 & H2 & Hp & H3 & H4). split_and!; [done..| | |].
      * etransitivity; [by apply prefix_app_r|done].
      * intros a Ha. destruct (H3 a Ha) as [? [?|(x & ? & ?)]]; [by auto|].
        split; [done|]. right. exists x. split; [by right|done].
      * intros Hlt x [->|Hx]%elem_of_cons; [|by auto]. eapply elem_of_prefix; [|done]. set_solver.
Qed.

Lemma unique_endpoints_spec l (r := unique_endpoints l) :
  NoDup r /\ (length r <= MAX_CANDIDATES)%nat /\
  (forall a, a ∈ r -> canonical_endpoint a = a /\ exists b, b ∈ l /\ a = canonical_endpoint b) /\
  ((length r < MAX_CANDIDATES)%nat -> forall b, b ∈ l -> canonical_endpoint b ∈ r).
Proof.
  destruct (unique_from_spec [] l) as (H1 & H2 & _ & H3 & H4);
    [by constructor | cbn; unfold MAX_CANDIDATES; lia | set_solver|].
  split_and!; [done..| |done]. intros a Ha. destruct (H3 a Ha) as [? [?|?]]; [set_solver|done].
Qed.

Section facts.
Context `{PeerApi} `{Crypto} `{WireApi} `{Transport} `{!Remote} {S : Type} `{!PeerRepository S}
  `{!EndpointRepository S} `{!PeerService S}.
Context `{!PeerLaws} `{!TransportLaws} `{!PeerRepositoryLaws S} `{!EndpointRepositoryLaws S}
  `{!StoreLaws S} `{!PeerServiceLaws S}.

Abbreviation Race := (Race S).
Abbreviation RaceEvent := (RaceEvent S).

(** *** The candidates as a list around one of them *)

Lemma candidate_split i (r : Race) st :
  candidate_at i r = Some st ->
  exists a l k, race_candidates r = l ++ mkCandidate a st :: k /\ length l = i /\
    forall st', alter (enter st') i (race_candidates r) = l ++ mkCandidate a st' :: k.
Proof.
  unfold candidate_at. destruct (race_candidates r !! i) as [[a st0]|] eqn:E; [|done].
  intros [= ->]. apply list_elem_of_split_length in E as (l & k & -> & ->).
  exists a, l, k. split_and!; [done..|]. intros st'.
  rewrite <- (Nat.add_0_r (length l)), alter_app_r. done.
Qed.

Lemma count_app {A} (p : A -> bool) l k : count p (l ++ k) = (count p l + count p k)%nat.
Proof. unfold count. by rewrite List.filter_app, length_app. Qed.

Lemma count_cons {A} (p : A -> bool) x l : count p (x :: l) = ((if p x then 1 else 0) + count p l)%nat.
Proof. unfold count. cbn. by destruct (p x). Qed.

(** The connections the tasks of the race hold a guard for. *)
Definition guards (l : list Candidate) : list Conn := omap (fun c => guarded (c_state c)) l.

#[local] Arguments guards : simpl never.

Definition stage_guards (st : RaceStage) : list Conn :=
  match st with
  | Won s => [connection s]
  | _ => []
  end.

Definition held_conns (r : Race) : list Conn :=
  guards (race_candidates r) ++ stage_guards (race_stage r).

Lemma guards_app l k : guards (l ++ k) = guards l ++ guards k.
Proof. apply omap_app. Qed.

Lemma guards_cons c l : guards (c :: l) = option_list (guarded (c_state c)) ++ guards l.
Proof. unfold guards. cbn. by destruct (guarded (c_state c)). Qed.

(** The winner's connection. *)
Definition winning (g : Registry) (st : RaceStage) (c : Conn) : Prop :=
  exists q t, (st = Registered q \/ st = Over (Ok q)) /\ arcs g !! q = Some t /\ connection t = c.

Record race_ok (r : Race) : Prop := {
  rk_reachable : reachable (registry (race_runtime r));
  rk_settled : race_stage r <> Racing -> guards (race_candidates r) = [];
  rk_racing : race_stage r = Racing -> all_joined r = false;
  rk_nodup : NoDup (held_conns r);
  rk_held : forall c, c ∈ held_conns r ->
    fresh_conn c (registry (race_runtime r)) /\ c ∈ race_dialled r;
  rk_dialled : forall c, c ∈ race_dialled r ->
    c ∈ held_conns r \/ is_closed (net (registry (race_runtime r))) c = true \/
    winning (registry (race_runtime r)) (race_stage r) c;
  rk_alive : forall q, race_stage r = Registered q ->
    is_Some (upgrade (registry (race_runtime r)) q);
  rk_capacity : (count holds_capacity (race_candidates r) <= CANDIDATE_CAPACITY)%nat;
  rk_selection : (count holds_selection (race_candidates r) <= 1)%nat
}.

(** *** Moves of one candidate *)

Lemma guards_move i (r : Race) st st' :
  candidate_at i r = Some st ->
  exists l k, guards (race_candidates r) = guards l ++ option_list (guarded st) ++ guards k /\
    guards (alter (enter st') i (race_candidates r)) = guards l ++ option_list (guarded st') ++ guards k.
Proof.
  intros (a & l & k & E & _ & E')%candidate_split. exists l, k. by rewrite E', E, !guards_app, !guards_cons.
Qed.

Lemma not_joined_move i (r : Race) st st' :
  candidate_at i r = Some st -> (forall o, st' <> Joined o) ->
  forallb (fun c => match c_state c with Joined _ => true | _ => false end)
    (alter (enter st') i (race_candidates r)) = false.
Proof.
  intros (a & l & k & _ & _ & ->)%candidate_split Hst'. rewrite forallb_app. cbn.
  destruct st'; try (by rewrite andb_false_r). by edestruct Hst'.
Qed.

Lemma count_move (p : Candidate -> bool) i (r : Race) st st' :
  candidate_at i r = Some st ->
  (forall a, (if p (mkCandidate a st') then 1 else 0) <= (if p (mkCandidate a st) then 1 else 0))%nat ->
  (count p (alter (enter st') i (race_candidates r)) <= count p (race_candidates r))%nat.
Proof.
  intros (a & l & k & -> & _ & ->)%candidate_split Hp. rewrite !count_app, !count_cons. specialize (Hp a). lia.
Qed.

Lemma count_move_1 (p : Candidate -> bool) i (r : Race) st st' :
  candidate_at i r = Some st ->
  (count p (alter (enter st') i (race_candidates r)) <= Datatypes.S (count p (race_candidates r)))%nat.
Proof.
  intros (a & l & k & -> & _ & ->)%candidate_split. rewrite !count_app, !count_cons. repeat case_match; lia.
Qed.

(** The candidate keeps its guard, and the registry stays. *)
Lemma move_ok i (r : Race) st st' (r' : Race) :
  race_ok r -> race_stage r = Racing -> candidate_at i r = Some st ->
  race_candidates r' = alter (enter st') i (race_candidates r) ->
  guarded st' = guarded st -> (forall o, st' <> Joined o) ->
  registry (race_runtime r') = registry (race_runtime r) ->
  race_stage r' = Racing -> race_dialled r' = race_dialled r ->
  (count holds_capacity (race_candidates r') <= CANDIDATE_CAPACITY)%nat ->
  (count holds_selection (race_candidates r') <= 1)%nat ->
  race_ok r'.
Proof.
  intros [Hr _ _ Hnd Hh Hd Hal _ _] Hst Hi Ec Hg Hnj Er Es Ed Hcap Hsel.
  assert (Eh : held_conns r' = held_conns r).
  { unfold held_conns. destruct (guards_move i r st st' Hi) as (l & k & E1 & E2).
    by rewrite Ec, E2, E1, Hg, Es, Hst. }
  split; rewrite ?Er, ?Eh, ?Ed, ?Es; try done.
  - intros _. unfold all_joined. rewrite Ec. by eapply not_joined_move.
  - rewrite <- Hst. exact Hd.
Qed.

(** The candidate loses its guard. *)
Lemma release_ok i (r : Race) st st' (r' : Race) :
  race_ok r -> race_stage r = Racing -> candidate_at i r = Some st ->
  race_candidates r' = alter (enter st') i (race_candidates r) -> guarded st' = None ->
  (forall o, st' <> Joined o) -> (forall a, holds_capacity (mkCandidate a st') = false) ->
  (forall a, holds_selection (mkCandidate a st') = false) ->
  registry (race_runtime r') = drop_guard st (registry (race_runtime r)) ->
  race_stage r' = Racing -> race_dialled r' = race_dialled r ->
  race_ok r'.
Proof.
  intros [Hr _ _ Hnd Hh Hd Hal Hcap Hsel] Hst Hi Ec Hg Hnj Hc1 Hs1 Er Es Ed.
  destruct (guards_move i r st st' Hi) as (l & k & E1 & E2). rewrite Hg in E2. cbn in E2.
  assert (Hev : evolves (registry (race_runtime r)) (registry (race_runtime r'))).
  { rewrite Er. unfold drop_guard. destruct (guarded st); [apply evolves_close | reflexivity]. }
  assert (Eh : held_conns r = guards l ++ option_list (guarded st) ++ guards k).
  { unfold held_conns. by rewrite E1, Hst, app_nil_r. }
  assert (Eh' : held_conns r' = guards l ++ guards k).
  { unfold held_conns. by rewrite Ec, E2, Es, app_nil_r. }
  assert (Hsub : forall c, c ∈ held_conns r' -> c ∈ held_conns r) by (rewrite Eh, Eh'; set_solver).
  split; rewrite ?Ed, ?Es; try done.
  - rewrite Er. unfold drop_guard. destruct (guarded st); [|done]. by apply close_conn_reachable.
  - intros _. unfold all_joined. rewrite Ec. by eapply not_joined_move.
  - rewrite Eh'. rewrite Eh in Hnd. revert Hnd. rewrite !NoDup_app. set_solver.
  - intros c Hc. destruct (Hh c (Hsub _ Hc)). split; [by eapply evolves_fresh|done].
  - intros c Hc. destruct (Hd c Hc) as [Hin|[Hcl|(q & t & [E|E] & _)]]; [|right; left|congruence..].
    + rewrite Eh, !elem_of_app in Hin. rewrite Eh', elem_of_app.
      destruct Hin as [?|[Hin|?]]; [by auto| |by auto]. right. left. rewrite Er. unfold drop_guard.
      destruct (guarded st); [|set_solver]. apply list_elem_of_singleton in Hin as ->. apply close_closed.
    + by apply (ev_closed _ _ Hev).
  - rewrite Ec. eapply Nat.le_trans; [eapply count_move; [exact Hi|]; intros a; rewrite Hc1; apply Nat.le_0_l|done].
  - rewrite Ec. eapply Nat.le_trans; [eapply count_move; [exact Hi|]; intros a; rewrite Hs1; apply Nat.le_0_l|done].
Qed.

Lemma all_joined_guards (r : Race) : all_joined r = true -> guards (race_candidates r) = [].
Proof.
  unfold all_joined. induction (race_candidates r) as [|c l IH]; [done|]. cbn.
  intros [Hc Hl]%andb_true_iff. rewrite guards_cons, IH by done. by destruct (c_state c).
Qed.

(** *** The join loop *)

Lemma join_failure_ok i (r : Race) st o (r' : Race) :
  race_ok r -> race_stage r = Racing -> candidate_at i r = Some st -> guarded st = None ->
  race_candidates r' = alter (enter (Joined o)) i (race_candidates r) ->
  registry (race_runtime r') = registry (race_runtime r) ->
  race_stage r' = Racing -> race_dialled r' = race_dialled r ->
  race_ok (conclude r').
Proof.
  intros [Hr _ _ Hnd Hh Hd Hal Hcap Hsel] Hst Hi Hg Ec Er Es Ed.
  assert (Eh : held_conns r' = held_conns r).
  { unfold held_conns. destruct (guards_move i r st (Joined o) Hi) as (l & k & E1 & E2).
    by rewrite Ec, E2, E1, Hg, Es, Hst. }
  assert (Hcap' : (count holds_capacity (race_candidates r') <= CANDIDATE_CAPACITY)%nat).
  { rewrite Ec. eapply Nat.le_trans; [eapply count_move; [exact Hi|]; intros; apply Nat.le_0_l|done]. }
  assert (Hsel' : (count holds_selection (race_candidates r') <= 1)%nat).
  { rewrite Ec. eapply Nat.le_trans; [eapply count_move; [exact Hi|]; intros; apply Nat.le_0_l|done]. }
  unfold conclude. destruct (all_joined r') eqn:Ej.
  - pose proof (all_joined_guards r' Ej) as Eg.
    assert (E0 : held_conns r = []) by (rewrite <- Eh; unfold held_conns; by rewrite Eg, Es).
    split; unfold held_conns; cbn; rewrite ?Er, ?Ed, ?Eg; try done.
    + constructor.
    + intros c Hc. by apply not_elem_of_nil in Hc.
    + intros c Hc. destruct (Hd c Hc) as [Hin|[Hcl|(q & t & [E|E] & _)]]; [|by auto|congruence..].
      rewrite E0 in Hin. by apply not_elem_of_nil in Hin.
  - split; rewrite ?Er, ?Eh, ?Ed, ?Es; try done. rewrite <- Hst. exact Hd.
Qed.

Lemma drop_guards_closed (l : list Candidate) g c :
  is_closed (net (fold_left (fun g c => drop_guard (c_state c) g) l g)) c
  = is_closed (net g) c || bool_decide (c ∈ guards l).
Proof.
  revert g. induction l as [|x l IH]; intros g; cbn [fold_left].
  - rewrite bool_decide_false by apply not_elem_of_nil. by rewrite orb_false_r.
  - rewrite IH, guards_cons. unfold drop_guard.
    destruct (guarded (c_state x)) as [d|]; [|done]. cbn [net close_conn option_list app].
    rewrite is_closed_close, <- orb_assoc. f_equal. apply eq_true_iff_eq.
    rewrite orb_true_iff, !bool_decide_eq_true. set_solver.
Qed.

Lemma drop_guards_same (l : list Candidate) g (g' := fold_left (fun g c => drop_guard (c_state c) g) l g) :
  arcs g' = arcs g /\ sessions g' = sessions g.
Proof.
  subst g'. revert g. induction l as [|x l IH]; intros g; cbn [fold_left]; [done|].
  destruct (IH (drop_guard (c_state x) g)) as [-> ->]. unfold drop_guard. by destruct (guarded _).
Qed.

Lemma shut_down_guards (l : list Candidate) (l' := map settle l) :
  guards l' = [] /\ count holds_capacity l' = O /\ count holds_selection l' = O.
Proof.
  subst l'. induction l as [|[a st] l IH]; [done|]. cbn [map]. unfold settle at 1 3 5. cbn [c_state]. rewrite !count_cons.
  rewrite guards_cons. destruct IH as (-> & -> & ->). by destruct st.
Qed.

Lemma recovery_connection e s : connection (with_recovery e s) = connection s.
Proof. unfold with_recovery. by destruct e, (recovery_endpoint s). Qed.

Lemma join_win_ok (d : Dial) i (r : Race) s :
  race_ok r -> race_stage r = Racing -> candidate_at i r = Some (Done (Dialled s)) ->
  race_ok (set_stage (Won (with_recovery (dial_recovery d) s))
             (shut_down (goto i (Joined (Dialled s)) r))).
Proof.
  intros [Hr _ _ Hnd Hh Hd Hal _ _] Hst Hi.
  destruct (guards_move i r _ (Joined (Dialled s)) Hi) as (l & k & E1 & E2). cbn in E1, E2.
  set (cs := alter (enter (Joined (Dialled s))) i (race_candidates r)) in *.
  destruct (shut_down_guards cs) as (Eg & Ecap & Esel).
  destruct (drop_guards_same cs (registry (race_runtime r))) as [Ea Es].
  pose proof (drop_guards_closed cs (registry (race_runtime r))) as Hcl.
  set (g' := fold_left _ cs (registry (race_runtime r))) in *.
  assert (Hev : evolves (registry (race_runtime r)) g').
  { apply evolves_shrink; [done|by rewrite Es|]. intros c Hc. by rewrite Hcl, Hc. }
  assert (Eh : held_conns r = guards l ++ connection s :: guards k).
  { unfold held_conns. by rewrite E1, Hst, app_nil_r. }
  set (r' := set_stage _ _).
  assert (Er : registry (race_runtime r') = g') by done.
  assert (Eh' : held_conns r' = [connection s]).
  { unfold held_conns. subst r'. cbn. rewrite recovery_connection.
    unfold goto, set_candidates. cbn. fold cs. by rewrite Eg. }
  split; rewrite ?Er, ?Eh'; try done.
  - eapply reachable_step; [exact Hr|]. replace g' with
      (mkRegistry (net g') (arcs (registry (race_runtime r))) (sessions (registry (race_runtime r)))).
    2:{ rewrite <- Ea, <- Es. by destruct g'. }
    apply step_net. apply (ev_closed _ _ Hev).
  - apply NoDup_singleton.
  - intros c ->%list_elem_of_singleton. destruct (Hh (connection s)) as [Hf Hin]; [rewrite Eh; set_solver|].
    split; [|done]. by eapply evolves_fresh.
  - intros c Hc. rewrite list_elem_of_singleton.
    destruct (Hd c Hc) as [Hin|[Hc'|(q & t & [E|E] & _)]]; [|right; left|congruence..].
    + rewrite Eh, elem_of_app, elem_of_cons in Hin.
      destruct (decide (c = connection s)) as [->|Hne]; [by left|]. right. left.
      rewrite Hcl, E2, bool_decide_true; [apply orb_true_r|]. rewrite elem_of_app. tauto.
    + by rewrite Hcl, Hc'.
  - etransitivity; [apply Nat.eq_le_incl; exact Ecap|]. apply Nat.le_0_l.
  - etransitivity; [apply Nat.eq_le_incl; exact Esel|]. apply Nat.le_0_l.
Qed.

(** *** The winner *)

(** What is answered is alive under the key of [s], and [s] is closed unless it
    is the answer. *)
Lemma register_answer p s g x g' :
  registry_ok g -> arcs g !! p = Some s -> register_session p s g = (x, g') ->
  match x with
  | Ok q => (exists t, arcs g' !! q = Some t /\ session_key t = session_key s) /\
            (q = p \/ is_closed (net g') (connection s) = true)
  | Err _ => is_closed (net g') (connection s) = true
  end.
Proof.
  intros Hok Hp E. destruct (register_session_arbitration g p s Hok Hp) as (e & cs & Harb & Hcl & Ha & _).
  rewrite E in Harb, Hcl, Ha. cbn [fst snd] in *.
  assert (Hin : connection s ∈ cs -> is_closed (net g') (connection s) = true).
  { intros Hc. by rewrite (Hcl (connection s)), bool_decide_true, orb_true_r. }
  inversion Harb; subst; rewrite ?Ha;
    try (split; [by exists s | by left]);
    try (apply Hin; set_solver);
    (split; [|right; apply Hin; set_solver]);
    match goal with Hc : sessions g !! session_key s = Some ?cur, Ht : arcs g !! a_session ?cur = Some ?t |- _ =>
      exists t; split; [done|]; by destruct (eo_session _ _ _ (ro_entries _ Hok _ _ Hc) _ Ht)
    end.
Qed.

Lemma register_winner_ok (r : Race) s :
  race_ok r -> race_stage r = Won s -> race_ok (register_winner s r).
Proof.
  intros [Hr Hset _ Hnd Hh Hd _ Hcap Hsel] Hst.
  assert (Eh : held_conns r = [connection s]).
  { unfold held_conns. rewrite Hset by congruence. by rewrite Hst. }
  destruct (Hh (connection s)) as [Hf Hdial]; [rewrite Eh; set_solver|].
  set (g := registry (race_runtime r)) in *.
  pose proof (adopt_reachable s g Hr Hf) as Hr1. set (g1 := (adopt s g).2) in *.
  assert (Hp : arcs g1 !! new_arc g = Some s) by (cbn; by rewrite lookup_insert_eq).
  pose proof (register_answer (new_arc g) s g1) as Hans.
  assert (Hev : evolves g1 (register_session (new_arc g) s g1).2)
    by (apply evolves_register; [by apply reachable_ok|done]).
  assert (Hr2 : reachable (register_session (new_arc g) s g1).2)
    by (eapply reachable_step; [exact Hr1 | by apply step_register]).
  unfold register_winner. fold g. change (adopt s g) with (new_arc g, g1). cbv beta iota zeta.
  destruct (register_session (new_arc g) s g1) as [x g2] eqn:E. cbn [snd] in Hev, Hr2.
  specialize (Hans x g2 (reachable_ok _ Hr1) Hp eq_refl).
  assert (Hclosed : forall c, is_closed (net g) c = true -> is_closed (net g2) c = true)
    by (intros c Hc; by apply (ev_closed _ _ Hev)).
  destruct x as [q|e].
  - destruct Hans as [(t & Ht & _) Hq]. set (r' := set_stage _ _).
    assert (Eh' : held_conns r' = []) by (unfold held_conns; cbn; by rewrite Hset by congruence).
    assert (Ha : arcs (registry (race_runtime r')) !! q = Some t).
    { cbn. destruct (q =? new_arc g)%nat eqn:Eq; [done|]. apply Nat.eqb_neq in Eq.
      cbn. by rewrite lookup_delete_ne. }
    assert (En : net (registry (race_runtime r')) = net g2) by (cbn; by case_match).
    split; rewrite ?Eh', ?En; try done.
    + cbn. case_match; auto using drop_arc_reachable.
    + intros _. by apply Hset; rewrite Hst.
    + constructor.
    + intros c Hc. by apply not_elem_of_nil in Hc.
    + intros c Hc. right. destruct (Hd c Hc) as [Hin|[Hcl|(q' & t' & [E'|E'] & _)]]; [|by auto|congruence..].
      rewrite Eh in Hin. apply list_elem_of_singleton in Hin as ->.
      destruct Hq as [->|?]; [right|by left]. exists (new_arc g), t. split_and!; [by left|done|].
      apply (ev_arcs _ _ Hev) in Ht. congruence.
    + intros q' [= <-]. by exists t.
  - set (r' := set_stage _ _).
    assert (Eh' : held_conns r' = []) by (unfold held_conns; cbn; by rewrite Hset by congruence).
    split; rewrite ?Eh'; try done.
    + by apply close_conn_reachable, drop_arc_reachable.
    + intros _. by apply Hset; rewrite Hst.
    + constructor.
    + intros c Hc. by apply not_elem_of_nil in Hc.
    + intros c Hc. right. left. cbn. rewrite is_closed_close.
      destruct (Hd c Hc) as [Hin|[Hcl|(q' & t' & [E'|E'] & _)]]; [|by rewrite Hclosed|congruence..].
      rewrite Eh in Hin. apply list_elem_of_singleton in Hin as ->.
      by rewrite bool_decide_true, orb_true_r.
Qed.

Lemma remember_winner_ok (d : Dial) now now' q (r : Race) r' :
  race_ok r -> race_stage r = Registered q -> remember_winner d now now' q r = Some r' -> race_ok r'.
Proof.
  intros [Hr Hset _ Hnd Hh Hd Hal Hcap Hsel] Hst E. unfold remember_winner in E.
  destruct (upgrade _ q) as [t|] eqn:Et; [|discriminate E]. injection E as <-.
  pose proof (remember_registry now now' t (conn_remote (connection t)) (dial_source d) (race_runtime r))
    as Ereg.
  assert (Hg : guards (race_candidates r) = []) by (apply Hset; congruence).
  set (r1 := set_stage _ _).
  assert (Er : registry (race_runtime r1) = registry (race_runtime r)) by exact Ereg.
  assert (Eh : held_conns r1 = held_conns r) by (unfold held_conns; cbn; by rewrite Hst).
  split; rewrite ?Er, ?Eh; try done.
  intros c Hc. destruct (Hd c Hc) as [?|[?|(q' & u & [E|E] & Hu)]]; [by auto|by auto| |congruence].
  right. right. rewrite Hst in E. injection E as <-. exists q, u. split; [by right|done].
Qed.

Lemma meanwhile_ok call (r : Race) :
  race_ok r -> (forall x, race_stage r <> Over x) -> meanwhile_allowed call r = true ->
  race_ok (set_runtime (run_call call (race_runtime r)) r).
Proof.
  intros [Hr Hset Hrac Hnd Hh Hd Hal Hcap Hsel] Hover Hcall. apply reachable_ok in Hr as Hok.
  assert (Htake : forall c, c ∈ race_dialled r -> takes_up call <> Some c).
  { intros c Hc. destruct call; try done. cbn in *. intros [= E]. apply negb_true_iff in Hcall.
    apply bool_decide_eq_false in Hcall. by subst. }
  assert (Hkept : forall q t, race_stage r = Registered q ->
    arcs (registry (race_runtime r)) !! q = Some t ->
    arcs (registry (run_call call (race_runtime r))) !! q = Some t).
  { intros q t Hst Hq. apply run_call_arc; [done..|]. intros ->. cbn in Hcall.
    by rewrite Hst, Nat.eqb_refl in Hcall. }
  split; try done; cbn.
  - by apply run_call_reachable.
  - intros c Hc. destruct (Hh c Hc) as [Hf Hdial]. split; [|done]. by apply run_call_fresh; auto.
  - intros c Hc. destruct (Hd c Hc) as [?|[Hcl|(q & t & [E|E] & Hq & Ec)]]; [by left| | |by edestruct Hover].
    + right. left. by apply run_call_closed.
    + right. right. exists q, t. split_and!; [by left|by apply Hkept|done].
  - intros q Hst. destruct (Hal q Hst) as [t Ht]. exists t. by apply Hkept.
Qed.

Lemma authenticate_ok (d : Dial) i c selected md w (r : Race) :
  race_ok r -> race_stage r = Racing -> candidate_at i r = Some (Authenticating c selected) ->
  race_ok (authenticate d i c selected md w r).
Proof.
  intros Hok Hst Hi. unfold authenticate.
  destruct (authenticate_expected _ _ _ _ _ _) as [[s|e] w'] eqn:E.
  - apply outbound_committed in E as (Hsel & Hc & _). cbn in Hsel. subst selected.
    eapply (move_ok i r _ (Done (Dialled s))); try done; try exact Hi; cbn; [by rewrite Hc| |].
    + eapply Nat.le_trans; [eapply count_move; [exact Hi|]; intros a; apply Nat.le_0_l|].
      apply (rk_capacity _ Hok).
    + eapply Nat.le_trans; [eapply count_move; [exact Hi|]; intros a; reflexivity|].
      apply (rk_selection _ Hok).
  - eapply (release_ok i r _ (Done (Failed "peer_authentication" None e))); done.
Qed.

Lemma note_failure_registry (d : Dial) now a phase quic e (r : Race) :
  registry (race_runtime (note_failure d now a phase quic e r)) = registry (race_runtime r).
Proof.
  unfold note_failure. cbn. destruct (dial_source d); try done.
  unfold attempt, on_store. by destruct (record_failure _ _ _ _).
Qed.

Lemma established_ok i c (r : Race) :
  race_ok r -> race_stage r = Racing -> candidate_at i r = Some QuicHandshake ->
  fresh_conn c (registry (race_runtime r)) -> c ∉ race_dialled r ->
  race_ok (mkRace (alter (enter (Authenticating c false)) i (race_candidates r)) (race_runtime r)
    (race_failures r) (path_timed_out r) (authentication_failed r) (race_stage r)
    (race_dialled r ++ [c])).
Proof.
  intros [Hr Hset Hrac Hnd Hh Hd Hal Hcap Hsel] Hst Hi Hf Hc.
  destruct (guards_move i r _ (Authenticating c false) Hi) as (l & k & E1 & E2). cbn in E1, E2.
  set (r1 := mkRace _ _ _ _ _ _ _).
  assert (Eh : held_conns r = guards l ++ guards k)
    by (unfold held_conns; by rewrite E1, Hst, app_nil_r).
  assert (Eh1 : held_conns r1 = guards l ++ c :: guards k)
    by (unfold held_conns; cbn; by rewrite E2, Hst, app_nil_r).
  assert (Hnew : c ∉ held_conns r) by (intros Hin; by destruct (Hh c Hin)).
  split; try done.
  - intros _. unfold all_joined. by eapply not_joined_move.
  - rewrite Eh1, <- Permutation_middle, <- Eh. by constructor.
  - intros x. rewrite Eh1, elem_of_app, elem_of_cons. intros Hx. cbn. rewrite elem_of_app.
    destruct (decide (x = c)) as [->|Hne]; [split; [done|]; right; by left|].
    destruct (Hh x); [rewrite Eh, elem_of_app; tauto | auto].
  - intros x. cbn. rewrite elem_of_app, list_elem_of_singleton, Eh1, elem_of_app, elem_of_cons.
    intros [Hx|Hx]; [|by auto]. destruct (Hd x Hx) as [Hin|Hin]; [|by auto].
    rewrite Eh, elem_of_app in Hin. tauto.
  - cbn. eapply Nat.le_trans; [eapply count_move; [exact Hi|]; intros a; reflexivity|done].
  - cbn. eapply Nat.le_trans; [eapply count_move; [exact Hi|]; intros a; reflexivity|done].
Qed.

(** A step of a candidate that is not joined. *)
Ltac step_kept Hok Hi :=
  eapply (move_ok _ _ _ _ _ Hok); [done|exact Hi|done..| |]; cbn;
  (eapply Nat.le_trans; [eapply count_move; [exact Hi|]; intros a; first [apply Nat.le_0_l | reflexivity]|]);
  first [apply (rk_capacity _ Hok) | apply (rk_selection _ Hok)].

Ltac step_released Hok Hi := eapply (release_ok _ _ _ _ _ Hok); [done|exact Hi|done..].

Lemma candidate_turn_ok (d : Dial) ev (r r' : Race) :
  race_ok r -> race_stage r = Racing -> candidate_turn d ev r = Some r' -> race_ok r'.
Proof.
  intros Hok Hst E. destruct ev as [i|i|i|i t|i e t|i c|i|i md w|i|i t|i now| | |]; cbn [candidate_turn] in E; try discriminate E.
  1-8: destruct (candidate_at i r) as [st|] eqn:Hi; [|discriminate E]; destruct st; try discriminate E.
  - injection E as <-. step_kept Hok Hi.
  - case_match eqn:Hc; [|discriminate E]. injection E as <-. apply Nat.ltb_lt in Hc.
    eapply (move_ok _ _ _ _ _ Hok); [done|exact Hi|done..| |]; cbn.
    + eapply Nat.le_trans; [eapply count_move_1, Hi|]. exact Hc.
    + eapply Nat.le_trans; [eapply count_move; [exact Hi|]; intros a; reflexivity|]. apply (rk_selection _ Hok).
  - injection E as <-. step_kept Hok Hi.
  - injection E as <-. step_released Hok Hi.
  - injection E as <-. step_released Hok Hi.
  - destruct (_ && _) eqn:Hc; [|discriminate E]. injection E as <-.
    destruct_bools. apply established_ok; try done. by apply conn_unused_spec.
  - destruct selected; [discriminate E|]. case_match eqn:Hc; [|discriminate E]. injection E as <-.
    apply Nat.eqb_eq in Hc. eapply (move_ok _ _ _ _ _ Hok); [done|exact Hi|done..| |]; cbn.
    + eapply Nat.le_trans; [eapply count_move; [exact Hi|]; intros a; reflexivity|]. apply (rk_capacity _ Hok).
    + eapply Nat.le_trans; [eapply count_move_1, Hi|]. by rewrite Hc.
  - injection E as <-. by apply authenticate_ok.
  - destruct (candidate_at i r) as [st|] eqn:Hi; [|discriminate E]. cbn in E.
    destruct (phase_of st) as [phase|] eqn:Hp; [|discriminate E]. injection E as <-. step_released Hok Hi.
  - destruct (candidate_at i r) as [st|] eqn:Hi; [|discriminate E]. cbn in E.
    destruct st; try discriminate E; injection E as <-; step_released Hok Hi.
  - unfold join in E. destruct (race_candidates r !! i) as [c|] eqn:Hi; [|discriminate E]. cbn in E.
    assert (Hi' : candidate_at i r = Some (c_state c)) by (unfold candidate_at; by rewrite Hi).
    destruct (c_state c) as [| | | | |[s|phase quic e|t]| |]; try discriminate E; injection E as <-.
    + by apply join_win_ok.
    + eapply (join_failure_ok i r _ _ _ Hok Hst Hi'); try done.
      apply (note_failure_registry d now _ _ _ _ (goto i _ r)).
    + by eapply (join_failure_ok i r _ _ _ Hok Hst Hi').
Qed.

Lemma race_turn_ok (d : Dial) ev (r r' : Race) : race_ok r -> race_turn d ev r = Some r' -> race_ok r'.
Proof.
  intros Hok E. unfold race_turn in E.
  destruct (race_stage r) as [|s|q|x] eqn:Hst.
  - destruct ev; try (by eapply candidate_turn_ok); try discriminate E.
    case_match eqn:Hc; [|discriminate E]. injection E as <-. apply meanwhile_ok; [done| |done]. congruence.
  - destruct ev; try discriminate E.
    + injection E as <-. by apply register_winner_ok.
    + case_match eqn:Hc; [|discriminate E]. injection E as <-. apply meanwhile_ok; [done| |done]. congruence.
  - destruct ev; try discriminate E.
    + by eapply remember_winner_ok.
    + case_match eqn:Hc; [|discriminate E]. injection E as <-. apply meanwhile_ok; [done| |done]. congruence.
  - by destruct ev.
Qed.

Lemma run_race_ind (d : Dial) (P : Race -> Prop) events (r : Race) :
  P r -> (forall r ev r', ev ∈ events -> P r -> race_turn d ev r = Some r' -> P r') ->
  P (run_race d events r).
Proof.
  intros Hinit Hstep. unfold run_race. revert r Hinit. induction events as [|ev l IH]; intros r Hinit; [done|].
  cbn [fold_left]. apply IH.
  - intros r0 ev0 r0' Hin. apply Hstep. by right.
  - unfold race_step. destruct (race_turn d ev r) as [r'|] eqn:E; [|done].
    eapply Hstep; [by left|exact Hinit|exact E].
Qed.

Lemma start_guards l (cs := map (fun a => mkCandidate a Sleeping) l) :
  guards cs = [] /\ count holds_capacity cs = O /\ count holds_selection cs = O.
Proof.
  subst cs. induction l as [|a l (IH1 & IH2 & IH3)]; [done|]. cbn [map]. rewrite guards_cons, !count_cons.
  by rewrite IH1, IH2, IH3.
Qed.

Lemma race_start_ok addresses (rt : Runtime S) :
  reachable (registry rt) -> race_ok (race_start addresses rt).
Proof.
  intros Hr. destruct (start_guards (unique_endpoints addresses)) as (Eg & Ec & Es).
  assert (Eh : held_conns (race_start addresses rt) = []).
  { unfold held_conns, race_start. cbn [race_candidates race_stage]. rewrite Eg.
    by destruct (unique_endpoints addresses). }
  split; rewrite ?Eh; try done.
  - cbn. by destruct (unique_endpoints addresses).
  - constructor.
  - intros c Hc. by apply not_elem_of_nil in Hc.
  - intros c Hc. by apply not_elem_of_nil in Hc.
  - cbn. destruct (unique_endpoints addresses); discriminate.
  - unfold race_start. cbn [race_candidates]. rewrite Ec. apply Nat.le_0_l.
  - unfold race_start. cbn [race_candidates]. rewrite Es. apply Nat.le_0_l.
Qed.

Lemma run_race_ok (d : Dial) events addresses (rt : Runtime S) :
  reachable (registry rt) -> race_ok (run_race d events (race_start addresses rt)).
Proof.
  intros Hr. apply run_race_ind; [by apply race_start_ok|]. intros r ev r' _. apply race_turn_ok.
Qed.

(** *** Progress *)

(** The steps a candidate has at most left. *)
Definition weight (st : CandidateState) : nat :=
  match st with
  | Sleeping => 7
  | CapacityWait => 6
  | GlobalWait => 5
  | QuicHandshake => 4
  | Authenticating _ false => 3
  | Authenticating _ true => 2
  | Done _ => 1
  | Joined _ | Aborted => 0
  end.

Definition stage_weight (st : RaceStage) : nat :=
  match st with
  | Racing => 3
  | Won _ => 2
  | Registered _ => 1
  | Over _ => 0
  end.

Definition total (l : list Candidate) : nat := sum_list_with (fun c => weight (c_state c)) l.

Definition measure (r : Race) : nat := (total (race_candidates r) + stage_weight (race_stage r))%nat.

Lemma phase_weight st phase : phase_of st = Some phase -> (1 < weight st)%nat.
Proof. destruct st as [| | | |c []|o|o|]; cbn; intros [=]; lia. Qed.

Lemma conclude_shape (r : Race) :
  race_stage r = Racing ->
  race_candidates (conclude r) = race_candidates r /\
  (race_stage (conclude r) = Racing \/ exists x, race_stage (conclude r) = Over (Err x)).
Proof. intros Hst. unfold conclude. destruct (all_joined r); eauto. Qed.

(** A step of the candidates moves one of them forward; a joined session
    settles all. *)
Lemma candidate_turn_shape (d : Dial) ev (r r' : Race) :
  race_stage r = Racing -> candidate_turn d ev r = Some r' ->
  exists i st st', candidate_at i r = Some st /\ (weight st' < weight st)%nat /\ st' <> Aborted /\
    ((race_candidates r' = alter (enter st') i (race_candidates r) /\
      (race_stage r' = Racing \/ exists x, race_stage r' = Over (Err x))) \/
     (exists s, race_stage r' = Won s /\
        race_candidates r' = map settle (alter (enter st') i (race_candidates r)))).
Proof.
  intros Hst E.
  assert (Hgo : forall i st st' r1, candidate_at i r = Some st -> r' = r1 \/ r' = conclude r1 ->
    race_candidates r1 = alter (enter st') i (race_candidates r) -> race_stage r1 = Racing ->
    (weight st' < weight st)%nat -> st' <> Aborted ->
    exists i st st', candidate_at i r = Some st /\ (weight st' < weight st)%nat /\ st' <> Aborted /\
    ((race_candidates r' = alter (enter st') i (race_candidates r) /\
      (race_stage r' = Racing \/ exists x, race_stage r' = Over (Err x))) \/
     (exists s, race_stage r' = Won s /\
        race_candidates r' = map settle (alter (enter st') i (race_candidates r))))).
  { intros i st st' r1 Hi Hr Ec Es Hw Ha. exists i, st, st'. split_and!; [done..|]. left.
    destruct Hr as [->| ->]; [auto|]. destruct (conclude_shape r1 Es) as [-> ?]. auto. }
  destruct ev as [i|i|i|i t|i e t|i c|i|i md w|i|i t|i now| | |]; cbn [candidate_turn] in E; try discriminate E.
  1-8: destruct (candidate_at i r) as [st|] eqn:Hi; [|discriminate E]; destruct st; try discriminate E.
  - injection E as <-. eapply Hgo; [exact Hi|by left|done|done| |done]; cbn; lia.
  - case_match; [|discriminate E]. injection E as <-.
    eapply Hgo; [exact Hi|by left|done|done| |done]; cbn; lia.
  - injection E as <-. eapply Hgo; [exact Hi|by left|done|done| |done]; cbn; lia.
  - injection E as <-. eapply Hgo; [exact Hi|by left|done|done| |done]; cbn; lia.
  - injection E as <-. eapply Hgo; [exact Hi|by left|done|done| |done]; cbn; lia.
  - destruct (_ && _); [|discriminate E]. injection E as <-.
    eapply Hgo; [exact Hi|by left|done|done| |done]; cbn; lia.
  - destruct selected; [discriminate E|]. case_match; [|discriminate E]. injection E as <-.
    eapply Hgo; [exact Hi|by left|done|done| |done]; cbn; lia.
  - injection E as E. unfold authenticate in E.
    destruct (authenticate_expected _ _ _ _ _ _) as [[s|e] w'];
      (eapply Hgo; [exact Hi|left; symmetry; exact E|done|done| |done]; cbn; destruct selected; lia).
  - destruct (candidate_at i r) as [st|] eqn:Hi; [|discriminate E]. cbn in E.
    destruct (phase_of st) as [phase|] eqn:Hp; [|discriminate E]. injection E as <-.
    eapply Hgo; [exact Hi|by left|done|done| |done]. by eapply phase_weight.
  - destruct (candidate_at i r) as [st|] eqn:Hi; [|discriminate E]. cbn in E.
    destruct st as [| | | |c []|o|o|]; try discriminate E; injection E as <-;
      (eapply Hgo; [exact Hi|by left|done|done| |done]; cbn; lia).
  - unfold join in E. destruct (race_candidates r !! i) as [c|] eqn:Hi; [|discriminate E]. cbn in E.
    assert (Hi' : candidate_at i r = Some (c_state c)) by (unfold candidate_at; by rewrite Hi).
    destruct (c_state c) as [| | | | |[s|phase quic e|t]| |] eqn:Ec; try discriminate E; injection E as <-.
    + exists i, (Done (Dialled s)), (Joined (Dialled s)). split_and!; [done|cbn; lia|done|].
      right. by eexists.
    + eapply Hgo; [exact Hi'|by right|done|done| |done]; cbn; lia.
    + eapply Hgo; [exact Hi'|by right|done|done| |done]; cbn; lia.
Qed.

Lemma total_app l k : total (l ++ k) = (total l + total k)%nat.
Proof. apply sum_list_with_app. Qed.

Lemma total_move i (r : Race) st st' :
  candidate_at i r = Some st ->
  (total (alter (enter st') i (race_candidates r)) + weight st = total (race_candidates r) + weight st')%nat.
Proof. intros (a & l & k & -> & _ & ->)%candidate_split. rewrite !total_app. cbn. lia. Qed.

Lemma total_settled l : total (map settle l) = O.
Proof.
  induction l as [|[a st] l IH]; [done|]. unfold total in *. cbn [map sum_list_with]. rewrite IH.
  by destruct st.
Qed.

Definition own (ev : RaceEvent) : bool :=
  match ev with
  | Meanwhile _ => false
  | _ => true
  end.

(** Every step of the race itself makes it smaller. *)
Lemma race_turn_measure (d : Dial) ev (r r' : Race) :
  race_turn d ev r = Some r' ->
  if own ev then (measure r' < measure r)%nat else measure r' = measure r.
Proof.
  intros E. destruct (own ev) eqn:Ho.
  - unfold race_turn in E. unfold measure. destruct (race_stage r) as [|s|q|x] eqn:Hst.
    + assert (Ht : candidate_turn d ev r = Some r') by (by destruct ev).
      apply candidate_turn_shape in Ht as (i & st & st' & Hi & Hw & _ & Hs); [|done].
      pose proof (total_move i r st st' Hi) as Ht.
      destruct Hs as [[-> [-> |[x ->]]]|(s & -> & ->)]; rewrite ?total_settled; cbn [stage_weight]; lia.
    + destruct ev; try discriminate E; try discriminate Ho. injection E as <-.
      unfold register_winner. destruct (adopt _ _) as [p g]. destruct (register_session _ _ _) as [[q|e] g'];
        unfold set_stage, set_runtime; cbn [race_candidates race_stage stage_weight]; lia.
    + destruct ev; try discriminate E; try discriminate Ho. unfold remember_winner in E.
      destruct (upgrade _ _); [|discriminate E]. injection E as <-.
      unfold set_stage, set_runtime; cbn [race_candidates race_stage stage_weight]; lia.
    + by destruct ev.
  - destruct ev; try discriminate Ho. unfold race_turn in E.
    destruct (race_stage r) eqn:Hst; try discriminate E; (case_match; [|discriminate E]);
      injection E as <-; unfold measure; cbn; by rewrite Hst.
Qed.

(** The steps of its own the race takes under a schedule. *)
Fixpoint own_steps (d : Dial) (events : list RaceEvent) (r : Race) : nat :=
  match events with
  | [] => O
  | ev :: rest =>
      ((if own ev && bool_decide (is_Some (race_turn d ev r)) then 1 else 0) +
       own_steps d rest (race_step d r ev))%nat
  end.

Lemma own_steps_measure (d : Dial) events (r : Race) :
  (own_steps d events r + measure (run_race d events r) <= measure r)%nat.
Proof.
  unfold run_race. revert r. induction events as [|ev l IH]; intros r; cbn [own_steps fold_left]; [lia|].
  specialize (IH (race_step d r ev)).
  assert (Hm : ((if own ev && bool_decide (is_Some (race_turn d ev r)) then 1 else 0) +
    measure (race_step d r ev) <= measure r)%nat); [|lia].
  unfold race_step. destruct (race_turn d ev r) as [r'|] eqn:E; cbn [default].
  - change (Datatypes.id r') with r'. apply race_turn_measure in E. destruct (own ev); cbn [andb]; [rewrite bool_decide_true by eauto|]; cbv iota; lia.
  - rewrite andb_false_intro2; [cbv iota; lia|]. apply bool_decide_eq_false. intros [? ?]. discriminate.
Qed.

(** While the race runs none of its tasks has been aborted. *)
Definition running_ok (r : Race) : Prop :=
  race_stage r = Racing -> forall i, candidate_at i r <> Some Aborted.

Lemma running_ok_turn (d : Dial) ev (r r' : Race) :
  running_ok r -> race_turn d ev r = Some r' -> running_ok r'.
Proof.
  intros Hok E Hst. unfold race_turn in E. destruct (race_stage r) as [|s|q|x] eqn:Hst0.
  - destruct (own ev) eqn:Ho.
    + assert (Ht : candidate_turn d ev r = Some r') by (by destruct ev).
      apply candidate_turn_shape in Ht as (i & st & st' & Hi & _ & Hne & Hs); [|done].
      destruct Hs as [[Ec _]|(s & Es & _)]; [|congruence].
      intros j. unfold candidate_at. rewrite Ec. destruct (decide (i = j)) as [->|Hij].
      * unfold candidate_at in Hi. rewrite list_lookup_alter_eq.
        destruct (race_candidates r !! j); [cbn; congruence|done].
      * rewrite list_lookup_alter_ne by done. by apply Hok.
    + destruct ev; try discriminate Ho. case_match; [|discriminate E]. injection E as <-. by apply Hok.
  - destruct ev; try discriminate E.
    + injection E as <-. revert Hst. unfold register_winner. destruct (adopt _ _) as [p g].
      by destruct (register_session _ _ _) as [[q|e] g'].
    + case_match; [|discriminate E]. injection E as <-. cbn in Hst. congruence.
  - destruct ev; try discriminate E.
    + unfold remember_winner in E. destruct (upgrade _ _); [|discriminate E]. by injection E as <-.
    + case_match; [|discriminate E]. injection E as <-. cbn in Hst. congruence.
  - by destruct ev.
Qed.

Lemma run_race_running (d : Dial) events addresses (rt : Runtime S) :
  running_ok (run_race d events (race_start addresses rt)).
Proof.
  apply run_race_ind; [|intros r ev r' _; apply running_ok_turn]. intros _ i.
  unfold candidate_at, race_start. cbn [race_candidates]. rewrite list_lookup_fmap.
  by destruct (unique_endpoints addresses !! i).
Qed.

(** The addresses of the candidates never change. *)
Lemma run_race_addresses (d : Dial) events addresses (rt : Runtime S) :
  map c_address (race_candidates (run_race d events (race_start addresses rt))) = unique_endpoints addresses.
Proof.
  apply run_race_ind.
  - unfold race_start. cbn [race_candidates]. rewrite map_map. apply map_id.
  - intros r ev r' _ <- E. unfold race_turn in E. destruct (race_stage r) as [|s|q|x] eqn:Hst.
    + destruct (own ev) eqn:Ho.
      * assert (Ht : candidate_turn d ev r = Some r') by (by destruct ev).
        apply candidate_turn_shape in Ht as (i & st & st' & Hi & _ & Hne & Hs); [|done].
        assert (Ea : map c_address (alter (enter st') i (race_candidates r)) = map c_address (race_candidates r)).
        { apply candidate_split in Hi as (a & l & k & -> & _ & ->). by rewrite !map_app. }
        destruct Hs as [[-> _]|(s & _ & ->)]; [done|]. rewrite <- Ea, map_map. apply map_ext.
        intros [a []]; done.
      * destruct ev; try discriminate Ho. case_match; [|discriminate E]. by injection E as <-.
    + destruct ev; try discriminate E.
      * injection E as <-. unfold register_winner. destruct (adopt _ _) as [p g].
        by destruct (register_session _ _ _) as [[q|e] g'].
      * case_match; [|discriminate E]. by injection E as <-.
    + destruct ev; try discriminate E.
      * unfold remember_winner in E. destruct (upgrade _ _); [|discriminate E]. by injection E as <-.
      * case_match; [|discriminate E]. by injection E as <-.
    + by destruct ev.
Qed.

(** *** Deadlines *)

Lemma goto_at i (r : Race) st st' :
  candidate_at i r = Some st -> candidate_at i (goto i st' r) = Some st'.
Proof.
  unfold candidate_at, goto, set_candidates. cbn [race_candidates]. rewrite list_lookup_alter_eq.
  by destruct (race_candidates r !! i).
Qed.

Lemma wake_step (d : Dial) i (r : Race) st :
  race_stage r = Racing -> candidate_at i r = Some st -> st <> Aborted ->
  race_stage (race_step d r (Wake i)) = Racing /\
  exists st1, candidate_at i (race_step d r (Wake i)) = Some st1 /\ st1 <> Sleeping /\ st1 <> Aborted.
Proof.
  intros Hst Hi Ha. unfold race_step, race_turn. rewrite Hst. cbn [candidate_turn]. rewrite Hi.
  destruct st; cbn [default from_option]; try (split; [done|]; eexists; by split_and!; [exact Hi|..]).
  split; [done|]. exists CapacityWait. split_and!; [by eapply goto_at|done..].
Qed.

Lemma expire_step (d : Dial) i (r : Race) st :
  race_stage r = Racing -> candidate_at i r = Some st -> st <> Sleeping -> st <> Aborted ->
  race_stage (race_step d r (Expire i)) = Racing /\
  exists o, candidate_at i (race_step d r (Expire i)) = Some (Done o) \/
            candidate_at i (race_step d r (Expire i)) = Some (Joined o).
Proof.
  intros Hst Hi Hs Ha. unfold race_step, race_turn. rewrite Hst. cbn [candidate_turn]. rewrite Hi.
  destruct st; try done; cbn; (split; [done|]); eexists;
    try (left; (by apply (goto_at i (on_net _ r) _ _ Hi)) || exact Hi); by right.
Qed.

Lemma join_step (d : Dial) i now (r : Race) o :
  race_stage r = Racing -> candidate_at i r = Some (Done o) \/ candidate_at i r = Some (Joined o) ->
  race_stage (race_step d r (Join i now)) = Racing ->
  candidate_at i (race_step d r (Join i now)) = Some (Joined o).
Proof.
  intros Hst Hi. unfold race_step, race_turn. rewrite Hst. cbn [candidate_turn]. unfold join.
  assert (Hc : exists c, race_candidates r !! i = Some c /\ (c_state c = Done o \/ c_state c = Joined o)).
  { unfold candidate_at in Hi. destruct (race_candidates r !! i) as [c|]; [|by destruct Hi].
    exists c. split; [done|]. destruct Hi as [[= ?]|[= ?]]; auto. }
  destruct Hc as (c & Ec & Hs). rewrite Ec. cbn [mbind option_bind].
  destruct Hs as [Hs|Hs]; rewrite Hs; [|cbn; intros _; unfold candidate_at; by rewrite Ec, <- Hs].
  assert (Hi' : candidate_at i r = Some (Done o)) by (unfold candidate_at; by rewrite Ec, <- Hs).
  destruct o as [s|phase quic e|t]; cbn [default from_option]; [discriminate| |].
  - intros _. set (r1 := note_failure _ _ _ _ _ _ _).
    destruct (conclude_shape r1) as [Ecs _]; [done|]. change (Datatypes.id ?x) with x.
    unfold candidate_at. rewrite Ecs. by apply (goto_at i r _ _ Hi').
  - intros _. set (r1 := note_panic _ _). destruct (conclude_shape r1) as [Ecs _]; [done|].
    change (Datatypes.id ?x) with x. unfold candidate_at. rewrite Ecs. by apply (goto_at i r _ _ Hi').
Qed.

(** A joined candidate stays joined while the race runs. *)
Lemma joined_stays (d : Dial) (r : Race) ev j o :
  race_stage r = Racing -> race_stage (race_step d r ev) = Racing ->
  candidate_at j r = Some (Joined o) -> candidate_at j (race_step d r ev) = Some (Joined o).
Proof.
  unfold race_step. destruct (race_turn d ev r) as [r'|] eqn:E; [|done]. cbn. intros Hst Hst' Hj.
  unfold race_turn in E. rewrite Hst in E. destruct (own ev) eqn:Ho.
  - assert (Ht : candidate_turn d ev r = Some r') by (by destruct ev).
    apply candidate_turn_shape in Ht as (i & st & st' & Hi & Hw & _ & Hs); [|done].
    destruct Hs as [[Ec _]|(s & Es & _)]; [|change (Datatypes.id r') with r' in Hst'; congruence].
    change (Datatypes.id r') with r'. unfold candidate_at. rewrite Ec.
    destruct (decide (i = j)) as [->|Hij]; [|by rewrite list_lookup_alter_ne].
    rewrite Hi in Hj. injection Hj as ->. cbn in Hw. lia.
  - destruct ev; try discriminate Ho. case_match; [|discriminate E]. by injection E as <-.
Qed.

(** What the deadlines of the first [n] candidates reach. *)
Definition joined_up_to (n : nat) (r : Race) : Prop :=
  race_stage r = Racing -> forall j, (j < n)%nat -> exists o, candidate_at j r = Some (Joined o).

Lemma run_race_app (d : Dial) l k (r : Race) : run_race d (l ++ k) r = run_race d k (run_race d l r).
Proof. apply fold_left_app. Qed.

Lemma register_winner_stage s (r : Race) :
  (exists q, race_stage (register_winner s r) = Registered q) \/
  (exists x, race_stage (register_winner s r) = Over x).
Proof.
  unfold register_winner. destruct (adopt _ _) as [p g].
  destruct (register_session _ _ _) as [[q|e] g']; eauto.
Qed.

Lemma not_racing_stays (d : Dial) ev (r : Race) :
  race_stage r <> Racing -> race_stage (race_step d r ev) <> Racing.
Proof.
  unfold race_step, race_turn. intros Hst. destruct (race_stage r) as [|s|q|x] eqn:Es; [done| | |].
  - destruct ev; cbn [default from_option]; change (Datatypes.id ?x) with x; try congruence.
    + destruct (register_winner_stage s r) as [[q ->]|[x ->]]; done.
    + case_match; cbn; congruence.
  - destruct ev; cbn; try congruence.
    + unfold remember_winner. destruct (upgrade _ _); cbn; congruence.
    + case_match; cbn; congruence.
  - destruct ev; cbn; congruence.
Qed.

Lemma deadline_joins (d : Dial) i now (r : Race) :
  running_ok r -> (i < length (race_candidates r))%nat -> joined_up_to i r ->
  joined_up_to (Datatypes.S i) (run_race d [Wake i; Expire i; Join i now] r).
Proof.
  intros Hrun Hi Hj. unfold run_race. cbn [fold_left].
  set (r1 := race_step d r (Wake i)). set (r2 := race_step d r1 (Expire i)).
  intros Hst3.
  assert (Hst2 : race_stage r2 = Racing).
  { destruct (race_stage r2) eqn:E; [done|..]; exfalso; by eapply not_racing_stays; [|exact Hst3]; rewrite E. }
  assert (Hst1 : race_stage r1 = Racing).
  { destruct (race_stage r1) eqn:E; [done|..]; exfalso; by eapply not_racing_stays; [|exact Hst2]; rewrite E. }
  assert (Hst : race_stage r = Racing).
  { destruct (race_stage r) eqn:E; [done|..]; exfalso; by eapply not_racing_stays; [|exact Hst1]; rewrite E. }
  intros j Hlt. destruct (decide (j = i)) as [->|Hne].
  - apply lookup_lt_is_Some_2 in Hi as [c Hc].
    assert (Hi : candidate_at i r = Some (c_state c)) by (unfold candidate_at; by rewrite Hc).
    destruct (wake_step d i r _ Hst Hi) as (_ & st1 & Hi1 & Hs1 & Ha1).
    { intros Ha. eapply (Hrun Hst i). by rewrite Hi, Ha. }
    destruct (expire_step d i r1 st1 Hst1 Hi1 Hs1 Ha1) as (_ & o & Hi2).
    exists o. by apply join_step.
  - destruct (Hj Hst j) as [o Ho]; [lia|]. exists o. by repeat apply joined_stays.
Qed.

Lemma deadlines_join (d : Dial) schedule addresses (rt : Runtime S) now n :
  (n <= length (unique_endpoints addresses))%nat ->
  joined_up_to n (run_race d (schedule ++ flat_map (fun i => [Wake i; Expire i; Join i now]) (seq 0 n))
    (race_start addresses rt)).
Proof.
  induction n as [|n IH]; intros Hn; [intros _ j Hj; lia|].
  rewrite seq_S, flat_map_app, app_assoc, run_race_app. apply deadline_joins.
  - apply run_race_running.
  - rewrite <- (length_map c_address), run_race_addresses. lia.
  - apply IH. lia.
Qed.

Lemma all_joined_up_to (r : Race) :
  (forall j, (j < length (race_candidates r))%nat -> exists o, candidate_at j r = Some (Joined o)) ->
  all_joined r = true.
Proof.
  intros Hj. apply forallb_forall. intros c Hc%list_elem_of_In.
  apply list_elem_of_lookup in Hc as [j Ej]. destruct (Hj j) as [o Ho].
  - by eapply lookup_lt_Some.
  - unfold candidate_at in Ho. rewrite Ej in Ho. injection Ho as ->. done.
Qed.

(** The deadlines end the race. *)
Lemma deadlines_end (d : Dial) schedule addresses (rt : Runtime S) now :
  reachable (registry rt) ->
  exists x, race_stage (run_race d (schedule ++ deadlines now (length (unique_endpoints addresses)))
                          (race_start addresses rt)) = Over x.
Proof.
  intros Hr. unfold deadlines. rewrite app_assoc, run_race_app.
  set (events := schedule ++ _). set (r := run_race d events (race_start addresses rt)).
  assert (Hok : race_ok r) by by apply run_race_ok.
  assert (Hst : race_stage r <> Racing).
  { intros Hst. pose proof (deadlines_join d schedule addresses rt now _ (le_n _) Hst) as Hj.
    pose proof (rk_racing _ Hok Hst) as Hn. rewrite all_joined_up_to in Hn; [discriminate|].
    intros j Hlt. apply Hj. rewrite <- (length_map c_address) in Hlt.
    unfold r in Hlt. by rewrite run_race_addresses in Hlt. }
  assert (Hrem : forall r1, race_ok r1 -> (exists q, race_stage r1 = Registered q) ->
    exists x, race_stage (race_step d r1 (Remember now now)) = Over x).
  { intros r1 Hok1 [q Hq]. destruct (rk_alive _ Hok1 _ Hq) as [t Ht]. unfold race_step, race_turn.
    rewrite Hq. unfold remember_winner. rewrite Ht. cbn. by eexists. }
  assert (Hover : forall r1 ev, (exists x, race_stage r1 = Over x) ->
    exists x, race_stage (race_step d r1 ev) = Over x).
  { intros r1 ev [x Hx]. exists x. unfold race_step, race_turn. rewrite Hx. by destruct ev. }
  unfold run_race. cbn [fold_left]. destruct (race_stage r) as [|s|q|x] eqn:E; [done| | |].
  - assert (E1 : race_step d r Register = register_winner s r) by (unfold race_step, race_turn; by rewrite E).
    assert (Hok1 : race_ok (race_step d r Register)) by (rewrite E1; by apply register_winner_ok).
    destruct (register_winner_stage s r) as [Hq|Hx]; rewrite <- E1 in *; [by apply Hrem | by apply Hover].
  - assert (E1 : race_step d r Register = r) by (unfold race_step, race_turn; by rewrite E).
    rewrite E1. apply Hrem; eauto.
  - apply Hover, Hover. eauto.
Qed.

(** *** The flags of a failed race *)

(** A joined candidate failed so. *)
Definition joined_failure (p : string -> option string -> NetworkError -> bool) (c : Candidate) : bool :=
  match c_state c with
  | Joined (Failed phase quic_failure e) => p phase quic_failure e
  | _ => false
  end.

Definition in_authentication (phase : string) (_ : option string) (_ : NetworkError) : bool :=
  String.eqb phase "peer_authentication".

Record flags_ok (r : Race) : Prop := {
  fl_path : path_timed_out r = existsb (joined_failure fails_on_path) (race_candidates r);
  fl_auth : authentication_failed r = existsb (joined_failure in_authentication) (race_candidates r);
  fl_over : forall e, race_stage r = Over (Err (e, true)) ->
    path_timed_out r = true /\ authentication_failed r = false
}.

Lemma joined_failure_move p i (r : Race) st st' :
  candidate_at i r = Some st -> (forall o, st <> Joined o) ->
  existsb (joined_failure p) (alter (enter st') i (race_candidates r)) =
  existsb (joined_failure p) (race_candidates r) ||
  match st' with
  | Joined (Failed phase quic_failure e) => p phase quic_failure e
  | _ => false
  end.
Proof.
  intros (a & l & k & -> & _ & ->)%candidate_split Hst. rewrite !existsb_app. cbn [existsb].
  assert (E : joined_failure p (mkCandidate a st) = false) by (destruct st; try done; by edestruct Hst).
  rewrite E. cbn [orb]. unfold joined_failure at 2. cbn [c_state]. clear.
  destruct (existsb _ l), (existsb _ k); cbn; destruct st' as [| | | | | |[]|]; try done;
    by rewrite ?orb_true_r, ?orb_false_r.
Qed.

Lemma joined_failure_settled p l : existsb (joined_failure p) (map settle l) = existsb (joined_failure p) l.
Proof. induction l as [|[a st] l IH]; [done|]. cbn. rewrite IH. by destruct st. Qed.

Lemma flags_kept (r r' : Race) :
  flags_ok r -> path_timed_out r' = path_timed_out r ->
  authentication_failed r' = authentication_failed r ->
  (forall p, existsb (joined_failure p) (race_candidates r') = existsb (joined_failure p) (race_candidates r)) ->
  (forall e, race_stage r' <> Over (Err (e, true))) -> flags_ok r'.
Proof. intros [Hp Ha _] Ep Ea Ec Hs. split; rewrite ?Ep, ?Ea, ?Ec; auto. intros e He. by apply Hs in He. Qed.

Lemma flags_concluded (r : Race) :
  flags_ok r -> (forall x, race_stage r <> Over x) -> flags_ok (conclude r).
Proof.
  intros [Hp Ha _] Hs. unfold conclude. destruct (all_joined r); split; cbn; try done.
  - intros e [= _ E]. apply andb_true_iff in E as [-> Hb]. by apply negb_true_iff in Hb.
  - intros e He. by apply Hs in He.
Qed.

Lemma flags_move i (r : Race) st st' (r' : Race) :
  flags_ok r -> candidate_at i r = Some st ->
  race_candidates r' = alter (enter st') i (race_candidates r) ->
  (forall o, st <> Joined o) -> (forall o, st' <> Joined o) ->
  path_timed_out r' = path_timed_out r -> authentication_failed r' = authentication_failed r ->
  race_stage r' = Racing -> flags_ok r'.
Proof.
  intros Hok Hi Ec Hst Hst' Ep Ea Es. apply (flags_kept r); try done; [|by rewrite Es].
  intros p. rewrite Ec, (joined_failure_move _ _ _ st) by done.
  destruct st'; try apply orb_false_r. by edestruct Hst'.
Qed.

Lemma candidate_turn_flags (d : Dial) ev (r r' : Race) :
  flags_ok r -> race_stage r = Racing -> candidate_turn d ev r = Some r' -> flags_ok r'.
Proof.
  intros Hok Hst E. destruct ev as [i|i|i|i t|i e t|i c|i|i md w|i|i t|i now| | |];
    cbn [candidate_turn] in E; try discriminate E.
  1-8: destruct (candidate_at i r) as [st|] eqn:Hi; [|discriminate E]; destruct st; try discriminate E.
  1, 3, 4, 5: injection E as <-; by eapply (flags_move i r).
  - case_match; [|discriminate E]. injection E as <-. by eapply (flags_move i r).
  - destruct (_ && _); [|discriminate E]. injection E as <-. by eapply (flags_move i r).
  - destruct selected; [discriminate E|]. case_match; [|discriminate E]. injection E as <-.
    by eapply (flags_move i r).
  - injection E as <-. unfold authenticate. destruct (authenticate_expected _ _ _ _ _ _) as [[s|e] w'];
      by eapply (flags_move i r).
  - destruct (candidate_at i r) as [st|] eqn:Hi; [|discriminate E]. cbn in E.
    destruct (phase_of st) as [phase|] eqn:Hp; [|discriminate E]. injection E as <-.
    eapply (flags_move i r); try done. intros o ->. discriminate Hp.
  - destruct (candidate_at i r) as [st|] eqn:Hi; [|discriminate E]. cbn in E.
    destruct st; try discriminate E; injection E as <-; by eapply (flags_move i r).
  - unfold join in E. destruct (race_candidates r !! i) as [c|] eqn:Hi; [|discriminate E]. cbn in E.
    assert (Hi' : candidate_at i r = Some (c_state c)) by (unfold candidate_at; by rewrite Hi).
    assert (Hm := fun p st' => joined_failure_move p i r (c_state c) st' Hi').
    destruct (c_state c) as [| | | | |[s|phase quic e|t]| |]; try discriminate E; injection E as <-;
      destruct Hok as [Hp Ha _].
    + apply (flags_kept r); [by split; auto; rewrite Hst|done|done| |done].
      intros p. change (race_candidates (set_stage _ _)) with
        (map settle (alter (enter (Joined (Dialled s))) i (race_candidates r))).
      rewrite joined_failure_settled, Hm by done. apply orb_false_r.
    + apply flags_concluded; [|cbn; by rewrite Hst].
      split; cbn [path_timed_out authentication_failed note_failure race_candidates goto set_candidates];
        [..|cbn; by rewrite Hst].
      * rewrite Hm by done. by rewrite Hp.
      * rewrite Hm by done. by rewrite Ha.
    + apply flags_concluded; [|cbn; by rewrite Hst].
      split; cbn [path_timed_out authentication_failed note_panic race_candidates goto set_candidates];
        [..|cbn; by rewrite Hst]; rewrite Hm, orb_false_r by done; done.
Qed.

Lemma race_turn_flags (d : Dial) ev (r r' : Race) :
  flags_ok r -> race_turn d ev r = Some r' -> flags_ok r'.
Proof.
  intros Hok E. unfold race_turn in E. destruct (race_stage r) as [|s|q|x] eqn:Hst.
  - destruct (own ev) eqn:Ho.
    + eapply candidate_turn_flags; [done..|]. by destruct ev.
    + destruct ev; try discriminate Ho. case_match; [|discriminate E]. injection E as <-.
      by apply (flags_kept r); [..|cbn; rewrite Hst].
  - destruct ev; try discriminate E.
    + injection E as <-. unfold register_winner. destruct (adopt _ _) as [p g].
      destruct (register_session _ _ _) as [[q|e] g']; by apply (flags_kept r).
    + case_match; [|discriminate E]. injection E as <-. by apply (flags_kept r); [..|cbn; rewrite Hst].
  - destruct ev; try discriminate E.
    + unfold remember_winner in E. destruct (upgrade _ _); [|discriminate E]. injection E as <-.
      by apply (flags_kept r).
    + case_match; [|discriminate E]. injection E as <-. by apply (flags_kept r); [..|cbn; rewrite Hst].
  - by destruct ev.
Qed.

Lemma run_race_flags (d : Dial) events addresses (rt : Runtime S) :
  flags_ok (run_race d events (race_start addresses rt)).
Proof.
  apply run_race_ind; [|intros r ev r' _; apply race_turn_flags].
  assert (Hnone : forall p l, existsb (joined_failure p) (map (fun a => mkCandidate a Sleeping) l) = false)
    by (intros p l; by induction l).
  split; unfold race_start; cbn [path_timed_out authentication_failed race_candidates race_stage];
    rewrite ?Hnone; try done. intros e. by destruct (unique_endpoints addresses).
Qed.

(** *** Who wins *)

(** The session is one with the device the race dials. *)
Definition expected_session (d : Dial) (s : Session) : Prop :=
  peer_device_id (peer s) = expected_id (dial_expected d) /\
  peer_public_key (peer s) = expected_key (dial_expected d) /\ kind s = dial_kind d.

(** The clock reads in range. *)
Definition event_ok (ev : RaceEvent) : Prop :=
  match ev with
  | Join _ now => in_i64 now
  | _ => True
  end.

Record winner_ok (d : Dial) (r : Race) : Prop := {
  wk_store : (forall q, race_stage r <> Over (Ok q)) -> store_ok (store (race_runtime r));
  wk_plain : dial_source d = History ->
    forall c, c ∈ race_candidates r -> plain_address (c_address c);
  wk_done : forall i s, candidate_at i r = Some (Done (Dialled s)) -> expected_session d s;
  wk_won : forall s, race_stage r = Won s -> expected_session d s;
  wk_answer : forall q, race_stage r = Registered q \/ race_stage r = Over (Ok q) ->
    exists t, kept_as q t (registry (race_runtime r)) /\
      session_key t = (expected_id (dial_expected d), dial_kind d)
}.

Lemma expected_recovery (d : Dial) e s : expected_session d s -> expected_session d (with_recovery e s).
Proof. unfold with_recovery. by destruct e, (recovery_endpoint s). Qed.

Lemma authenticate_expected_session (d : Dial) c selected md w (r : Race) s w' :
  store_ok (store (race_runtime r)) ->
  authenticate_expected c (dial_local d) md (dial_expected d) (dial_kind d)
    (race_world (race_runtime r) selected w) = (Ok s, w') -> expected_session d s.
Proof.
  intros Hs E. destruct (outbound_vouched _ _ _ _ _ _ _ _ (proj1 Hs : peer_repo_ok (repo (race_world _ selected w))) E)
    as (remote & _ & _ & Hk & Hid & Hkey & _). by split_and!.
Qed.

Lemma plain_kept (d : Dial) i st' (r : Race) :
  (forall c, c ∈ race_candidates r -> plain_address (c_address c)) ->
  forall c, c ∈ alter (enter st') i (race_candidates r) -> plain_address (c_address c).
Proof.
  intros Hp c [j Hj]%list_elem_of_lookup. destruct (decide (i = j)) as [->|Hne].
  - rewrite list_lookup_alter_eq in Hj. destruct (race_candidates r !! j) as [x|] eqn:E; [|done].
    injection Hj as <-. apply (Hp x). by eapply list_elem_of_lookup_2.
  - rewrite list_lookup_alter_ne in Hj by done. apply Hp. by eapply list_elem_of_lookup_2.
Qed.

Lemma winner_move (d : Dial) i (r : Race) st st' (r' : Race) :
  winner_ok d r -> candidate_at i r = Some st ->
  race_candidates r' = alter (enter st') i (race_candidates r) -> race_stage r' = Racing ->
  store_ok (store (race_runtime r')) -> (forall s, st' = Done (Dialled s) -> expected_session d s) ->
  winner_ok d r'.
Proof.
  intros [_ Hp Hd _ _] Hi Ec Es Hs Hst'. split; rewrite ?Es, ?Ec; try done.
  - intros Hh. by apply plain_kept, Hp.
  - intros j s. unfold candidate_at. rewrite Ec. destruct (decide (i = j)) as [->|Hne].
    + unfold candidate_at in Hi. rewrite list_lookup_alter_eq. destruct (race_candidates r !! j); [|done].
      cbn. intros [= ->]. by apply Hst'.
    + rewrite list_lookup_alter_ne by done. apply Hd.
  - intros q [E|E]; congruence.
Qed.

Lemma winner_conclude (d : Dial) (r : Race) :
  race_stage r = Racing -> winner_ok d r -> winner_ok d (conclude r).
Proof.
  intros Hst [Hs Hp Hd Hw Ha]. unfold conclude. destruct (all_joined r); split; cbn; try done.
  - intros _. apply Hs. congruence.
  - intros q [E|E]; congruence.
Qed.

Lemma note_failure_store (d : Dial) now a phase quic e (r : Race) :
  in_i64 now -> (dial_source d = History -> plain_address a) -> store_ok (store (race_runtime r)) ->
  store_ok (store (race_runtime (note_failure d now a phase quic e r))).
Proof.
  intros Hnow Ha Hs. unfold note_failure. cbn [race_runtime]. destruct (dial_source d); try done.
  specialize (Ha eq_refl).
  unfold attempt, on_store. destruct (record_failure _ _ _ _) as [x s'] eqn:E. cbn [snd store].
  split.
  - by apply (record_failure_keeps _ now _ a Hnow Ha _ _ _ Hs E).
  - by apply (record_failure_spec now _ a _ _ _ Hnow Ha (proj2 Hs) E).
Qed.

Lemma candidate_turn_winner (d : Dial) ev (r r' : Race) :
  winner_ok d r -> event_ok ev -> race_stage r = Racing -> candidate_turn d ev r = Some r' ->
  winner_ok d r'.
Proof.
  intros Hok Hev Hst E.
  assert (Hs : store_ok (store (race_runtime r))) by (apply (wk_store _ _ Hok); congruence).
  destruct ev as [i|i|i|i t|i e t|i c|i|i md w|i|i t|i now| | |]; cbn [candidate_turn] in E; try discriminate E.
  1-8: destruct (candidate_at i r) as [st|] eqn:Hi; [|discriminate E]; destruct st; try discriminate E.
  1, 3, 4, 5: injection E as <-; by eapply (winner_move d i r).
  - case_match; [|discriminate E]. injection E as <-. by eapply (winner_move d i r).
  - destruct (_ && _); [|discriminate E]. injection E as <-. by eapply (winner_move d i r).
  - destruct selected; [discriminate E|]. case_match; [|discriminate E]. injection E as <-.
    by eapply (winner_move d i r).
  - injection E as <-. unfold authenticate.
    destruct (authenticate_expected _ _ _ _ _ _) as [x w'] eqn:Ea.
    assert (Hs' : store_ok (repo w')).
    { pose proof Ea as Hst'. apply frames in Hst'. by apply (stays_store _ _ Hst'). }
    destruct x as [s|e]; eapply (winner_move d i r); try done. intros s' [= <-].
    by eapply authenticate_expected_session.
  - destruct (candidate_at i r) as [st|] eqn:Hi; [|discriminate E]. cbn in E.
    destruct (phase_of st) as [phase|] eqn:Hp; [|discriminate E]. injection E as <-.
    by eapply (winner_move d i r).
  - destruct (candidate_at i r) as [st|] eqn:Hi; [|discriminate E]. cbn in E.
    destruct st; try discriminate E; injection E as <-; by eapply (winner_move d i r).
  - unfold join in E. destruct (race_candidates r !! i) as [c|] eqn:Hi; [|discriminate E]. cbn in E.
    assert (Hi' : candidate_at i r = Some (c_state c)) by (unfold candidate_at; by rewrite Hi).
    assert (Hpl : dial_source d = History -> plain_address (c_address c))
      by (intros Hh; apply (wk_plain _ _ Hok Hh); by eapply list_elem_of_lookup_2).
    destruct (c_state c) as [| | | | |[s|phase quic e|t]| |]; try discriminate E; injection E as <-.
    + split; try done.
      * change (race_candidates (set_stage _ _)) with
          (map settle (alter (enter (Joined (Dialled s))) i (race_candidates r))).
        intros Hh x (y & -> & Hy)%list_elem_of_fmap.
        assert (Ey : c_address (settle y) = c_address y) by (destruct y as [a []]; done). rewrite Ey.
        clear Ey. revert y Hy. apply plain_kept; [done|]. by apply (wk_plain _ _ Hok).
      * intros j s'. unfold candidate_at. change (race_candidates (set_stage _ _)) with
          (map settle (alter (enter (Joined (Dialled s))) i (race_candidates r))).
        rewrite list_lookup_fmap. destruct (alter _ _ _ !! j) as [[a st]|]; [|done]. by destruct st.
      * intros s' [= <-]. apply expected_recovery. by eapply (wk_done _ _ Hok).
      * intros q [Eq|Eq]; discriminate Eq.
    + apply winner_conclude; [done|]. eapply (winner_move d i r); [done|exact Hi'|done|done| |done].
      by apply (note_failure_store d now _ _ _ _ (goto i _ r)).
    + apply winner_conclude; [done|]. by eapply (winner_move d i r).
Qed.

Lemma race_turn_winner (d : Dial) ev (r r' : Race) :
  race_ok r -> winner_ok d r -> event_ok ev -> race_turn d ev r = Some r' -> winner_ok d r'.
Proof.
  intros Hrace Hok Hev E. unfold race_turn in E.
  assert (Hmean : forall call, (forall x, race_stage r <> Over x) -> meanwhile_allowed call r = true ->
    winner_ok d (set_runtime (run_call call (race_runtime r)) r)).
  { intros call Hover Hcall. destruct Hok as [Hs Hp Hd Hw Ha]. split; try done; cbn.
    - intros _. apply run_call_store, Hs. intros q Hq. by apply Hover in Hq.
    - intros q [Hq|Hq]; [|by apply Hover in Hq]. destruct (Ha q (or_introl Hq)) as (t & Ht & Hkey).
      exists t. split; [|done]. apply run_call_kept; [apply reachable_ok, Hrace| |done]. intros ->.
      cbn in Hcall. by rewrite Hq, Nat.eqb_refl in Hcall. }
  destruct (race_stage r) as [|s|q|x] eqn:Hst.
  - destruct (own ev) eqn:Ho.
    + eapply candidate_turn_winner; [done..|]. by destruct ev.
    + destruct ev; try discriminate Ho. case_match eqn:Hc; [|discriminate E]. injection E as <-.
      apply Hmean; [congruence|done].
  - destruct ev; try discriminate E.
    2:{ case_match eqn:Hc; [|discriminate E]. injection E as <-. apply Hmean; [congruence|done]. }
    injection E as <-. pose proof (wk_won _ _ Hok s Hst) as Hexp.
    destruct Hok as [Hs Hp Hd Hw Ha]. unfold register_winner.
    destruct (adopt s (registry (race_runtime r))) as [p g] eqn:Ead.
    assert (Hf : fresh_conn (connection s) (registry (race_runtime r))).
    { apply (rk_held _ Hrace). unfold held_conns. rewrite Hst. set_solver. }
    pose proof (adopt_reachable s _ (rk_reachable _ Hrace) Hf) as Hg. rewrite Ead in Hg. cbn [snd] in Hg.
    assert (Hpg : arcs g !! p = Some s) by (injection Ead as <- <-; cbn; by rewrite lookup_insert_eq).
    destruct (register_session p s g) as [[q|e] g'] eqn:Ereg.
    + destruct (register_kept p s q g g' (reachable_ok _ Hg) Hpg Ereg) as (t & Ht & Hkey & Hreg).
      split; try done; cbn; try congruence; [by intros _; apply Hs; congruence|].
      intros q' [[= <-]|[=]]. exists t. destruct Hexp as (Hid & _ & Hk).
      split; [|rewrite Hkey; unfold session_key; by rewrite Hid, Hk].
      destruct (q =? p)%nat eqn:Eq; [by split; [|left]|]. apply Nat.eqb_neq in Eq.
      split; [|by left]. unfold upgrade. cbn. by rewrite lookup_delete_ne.
    + split; try done; cbn; try congruence.
      * intros _. apply Hs. congruence.
      * intros q' [[=]|[=]].
  - destruct ev; try discriminate E.
    2:{ case_match eqn:Hc; [|discriminate E]. injection E as <-. apply Hmean; [congruence|done]. }
    unfold remember_winner in E. destruct (upgrade _ q) as [t|] eqn:Et; [|discriminate E]. injection E as <-.
    destruct Hok as [Hs Hp Hd Hw Ha]. split; try done.
    + intros Hx. by edestruct Hx.
    + intros q' [Eq|Eq]; [discriminate Eq|]. injection Eq as <-. destruct (Ha q (or_introl Hst)) as (u & Hu & Hkey).
      exists u. split; [|done]. cbn [race_runtime set_stage set_runtime]. by rewrite remember_registry.
  - by destruct ev.
Qed.
Lemma run_race_winner (d : Dial) events addresses (rt : Runtime S)
    (r := run_race d events (race_start addresses rt)) :
  reachable (registry rt) -> store_ok (store rt) ->
  (dial_source d = History -> forall a, a ∈ addresses -> plain_address a) ->
  (forall ev, ev ∈ events -> event_ok ev) -> race_ok r /\ winner_ok d r.
Proof.
  intros Hr Hs Hplain Hev. subst r.
  apply run_race_ind.
  - split; [by apply race_start_ok|]. split; cbn; try done.
    + intros Hh c (a & -> & Ha)%list_elem_of_fmap. cbn.
      destruct (unique_endpoints_spec addresses) as (_ & _ & Hc & _).
      destruct (Hc a Ha) as (_ & b & Hb & ->). by apply canonical_plain, (Hplain Hh).
    + intros i s. unfold candidate_at. cbn. rewrite list_lookup_fmap.
      by destruct (unique_endpoints addresses !! i).
    + intros s. by destruct (unique_endpoints addresses).
    + intros q. by destruct (unique_endpoints addresses); intros [E|E].
  - intros r0 ev r0' Hin [Hrace Hwin] E. split; [by eapply race_turn_ok|].
    eapply race_turn_winner; [done..| |done]. by apply Hev.
Qed.

(** *** Where the sessions of a race come from *)

(** A session of the race is one that was held when it began, one that another
    task has authenticated meanwhile, or one authenticated under the key the
    race expects. *)
Definition race_origin (d : Dial) (rt : Runtime S) (events : list RaceEvent) (t : Session) : Prop :=
  (exists p, upgrade (registry rt) p = Some t) \/ Meanwhile (CallArrives t) ∈ events \/
  peer_public_key (peer t) = expected_key (dial_expected d).

Lemma drop_guard_arcs st g : arcs (drop_guard st g) = arcs g.
Proof. unfold drop_guard. by destruct (guarded st). Qed.

Lemma finish_arcs i st o (r : Race) :
  arcs (registry (race_runtime (finish i st o r))) = arcs (registry (race_runtime r)).
Proof. unfold finish. destruct o; cbn; by rewrite ?drop_guard_arcs. Qed.

Lemma conclude_runtime (r : Race) : race_runtime (conclude r) = race_runtime r.
Proof. unfold conclude. by destruct (all_joined r). Qed.

(** A candidate makes no handle: only the winner becomes a session others see. *)
Lemma candidate_turn_arcs (d : Dial) ev (r r' : Race) :
  candidate_turn d ev r = Some r' ->
  arcs (registry (race_runtime r')) = arcs (registry (race_runtime r)).
Proof.
  intros E. destruct ev as [i|i|i|i t|i e t|i c|i|i md w|i|i t|i now| | |]; cbn [candidate_turn] in E; try discriminate E.
  1-8: destruct (candidate_at i r) as [st|]; [|discriminate E]; destruct st; try discriminate E.
  1, 3, 4, 5: injection E as <-; rewrite ?finish_arcs; done.
  - case_match; [|discriminate E]. by injection E as <-.
  - destruct (_ && _); [|discriminate E]. by injection E as <-.
  - destruct selected; [discriminate E|]. case_match; [|discriminate E]. by injection E as <-.
  - injection E as <-. unfold authenticate.
    destruct (authenticate_expected _ _ _ _ _ _) as [x w']. by rewrite finish_arcs.
  - destruct (candidate_at i r) as [st|]; [|discriminate E]. cbn in E.
    destruct (phase_of st); [|discriminate E]. injection E as <-. apply finish_arcs.
  - destruct (candidate_at i r) as [st|]; [|discriminate E]. cbn in E.
    destruct st; try discriminate E; injection E as <-; apply finish_arcs.
  - unfold join in E. destruct (race_candidates r !! i) as [c|]; [|discriminate E]. cbn in E.
    destruct (c_state c) as [| | | | |[s|phase quic e|t]| |]; try discriminate E; injection E as <-.
    + cbn. apply drop_guards_same.
    + rewrite conclude_runtime, note_failure_registry. done.
    + by rewrite conclude_runtime.
Qed.

Lemma run_call_arcs call (r : Runtime S) q t :
  registry_ok (registry r) -> arcs (registry (run_call call r)) !! q = Some t ->
  arcs (registry r) !! q = Some t \/ call = CallArrives t.
Proof.
  intros Hok Hq. destruct (run_call_step call r Hok) as [E|[[_ Hev]|(s & -> & _ & E)]].
  - rewrite E in Hq. by left.
  - left. by apply (ev_arcs _ _ Hev).
  - rewrite E in Hq. cbn in Hq. rewrite lookup_insert in Hq. case_decide; [|by left].
    injection Hq as <-. by right.
Qed.

Lemma register_winner_arcs s (r : Race) q t :
  race_ok r -> race_stage r = Won s ->
  arcs (registry (race_runtime (register_winner s r))) !! q = Some t ->
  arcs (registry (race_runtime r)) !! q = Some t \/ t = s.
Proof.
  intros Hrace Hst. unfold register_winner. set (g0 := registry (race_runtime r)).
  destruct (adopt s g0) as [p g] eqn:Ead.
  assert (Hf : fresh_conn (connection s) g0)
    by (apply (rk_held _ Hrace); unfold held_conns; rewrite Hst; set_solver).
  pose proof (adopt_reachable s _ (rk_reachable _ Hrace) Hf) as Hg. fold g0 in Hg. rewrite Ead in Hg.
  assert (Eg : arcs g = <[p := s]> (arcs g0)) by (unfold adopt in Ead; injection Ead as <- <-; done).
  assert (Hev : evolves g (register_session p s g).2).
  { apply evolves_register; [by apply reachable_ok|]. by rewrite Eg, lookup_insert_eq. }
  assert (Hin : forall g', evolves g g' -> arcs g' !! q = Some t -> arcs g0 !! q = Some t \/ t = s).
  { intros g' Hg' Hq. apply (ev_arcs _ _ Hg') in Hq. rewrite Eg, lookup_insert in Hq.
    case_decide; [right; congruence|by left]. }
  destruct (register_session p s g) as [[q1|e] g'] eqn:Ereg; cbn [snd] in Hev;
    intros Hq; cbn in Hq; [case_match|].
  - exact (Hin g' Hev Hq).
  - refine (Hin (drop_arc p g') _ Hq). etransitivity; [exact Hev | apply evolves_drop].
  - refine (Hin (drop_arc p g') _ Hq). etransitivity; [exact Hev | apply evolves_drop].
Qed.

Lemma run_race_origin (d : Dial) events addresses (rt : Runtime S)
    (r := run_race d events (race_start addresses rt)) q t :
  reachable (registry rt) -> store_ok (store rt) ->
  (dial_source d = History -> forall a, a ∈ addresses -> plain_address a) ->
  (forall ev, ev ∈ events -> event_ok ev) ->
  upgrade (registry (race_runtime r)) q = Some t -> race_origin d rt events t.
Proof.
  intros Hr Hs Hplain Hev. subst r.
  enough (Hall : forall r, r = run_race d events (race_start addresses rt) ->
    race_ok r /\ winner_ok d r /\
    forall q t, arcs (registry (race_runtime r)) !! q = Some t -> race_origin d rt events t)
    by (intros Hq; by eapply (Hall _ eq_refl)).
  intros r ->. apply run_race_ind.
  - destruct (run_race_winner d [] addresses rt Hr Hs Hplain) as [Hk1 Hk2];
      [intros ev Hn; by apply not_elem_of_nil in Hn|].
    split_and!; [exact Hk1|exact Hk2|]. intros q' t' Hq. left. by exists q'.
  - intros r ev r' Hin (Hrace & Hwin & Ho) E.
    split_and!; [by eapply race_turn_ok|by eapply race_turn_winner; [..|apply Hev|]|].
    intros q' t' Hq. unfold race_turn in E.
    destruct ev as [i|i|i|i x|i e x|i c|i|i md w|i|i x|i now| |now now'|call];
      try (destruct (race_stage r); try discriminate E; rewrite (candidate_turn_arcs _ _ _ _ E) in Hq; by eapply Ho).
    + destruct (race_stage r) as [|s|?|?] eqn:Hst; try discriminate E. injection E as <-.
      apply register_winner_arcs in Hq as [Hq| ->]; [by eapply Ho| |done..].
      right. right. by apply (wk_won _ _ Hwin s Hst).
    + destruct (race_stage r) as [|?|q1|?]; try discriminate E. unfold remember_winner in E.
      destruct (upgrade _ q1); [|discriminate E]. injection E as <-.
      cbn [race_runtime set_stage set_runtime] in Hq. rewrite remember_registry in Hq. by eapply Ho.
    + assert (Hq' : arcs (registry (run_call call (race_runtime r))) !! q' = Some t').
      { destruct (race_stage r); try discriminate E; case_match; try discriminate E; by injection E as <-. }
      apply run_call_arcs in Hq' as [Hq'| ->]; [by eapply Ho| |apply reachable_ok, Hrace].
      right. by left.
Qed.
End facts.



(** ** Properties *)

Section properties.
Context `{PeerApi} `{Crypto} `{WireApi} `{Transport} `{!Remote} {S : Type} `{!PeerRepository S}
  `{!EndpointRepository S} `{!PeerService S}.
Context `{!PeerLaws} `{!TransportLaws} `{!PeerRepositoryLaws S} `{!EndpointRepositoryLaws S}
  `{!StoreLaws S} `{!PeerServiceLaws S}.

(** C13. However its tasks interleave with each other and with the rest of the
    runtime, a race dials at most sixteen addresses, all distinct and in
    canonical form; at most three of them are past the capacity gate, and at
    most one holds the selection permit under which a session is committed. *)
Theorem race_bounded (d : Dial) events addresses (rt : Runtime S)
    (r := run_race d events (race_start addresses rt)) :
  reachable (registry rt) ->
  (length (race_candidates r) <= 16)%nat /\ NoDup (map c_address (race_candidates r)) /\
  (forall c, c ∈ race_candidates r -> canonical_endpoint (c_address c) = c_address c /\
     exists a, a ∈ addresses /\ c_address c = canonical_endpoint a) /\
  (count holds_capacity (race_candidates r) <= 3)%nat /\
  (count holds_selection (race_candidates r) <= 1)%nat.
Proof.
  intros Hr. pose proof (run_race_ok d events addresses rt Hr) as [].
  pose proof (run_race_addresses d events addresses rt) as Ea.
  destruct (unique_endpoints_spec addresses) as (Hnd & Hlen & Hc & _). rewrite <- Ea in Hnd, Hlen, Hc.
  rewrite length_map in Hlen. split_and!; try done.
  intros c Hin. apply Hc. by apply list_elem_of_In, in_map, list_elem_of_In.
Qed.

(** C11. No connection of a race leaks: when it is over, every connection it has
    established is closed, except the one of the session it answers. *)
Theorem race_closes_losers (d : Dial) events addresses (rt : Runtime S) x c
    (r := run_race d events (race_start addresses rt)) :
  reachable (registry rt) -> race_stage r = Over x -> c ∈ race_dialled r ->
  is_closed (net (registry (race_runtime r))) c = true \/
  exists q t, x = Ok q /\ upgrade (registry (race_runtime r)) q = Some t /\ connection t = c.
Proof.
  intros Hr Hx Hc. pose proof (run_race_ok d events addresses rt Hr) as Hok. fold r in Hok.
  destruct (rk_dialled _ Hok c Hc) as [Hin|[Hcl|(q & t & [E|E] & Ht)]]; [|by left|congruence|].
  - unfold held_conns in Hin. rewrite (rk_settled _ Hok), Hx in Hin by congruence.
    by apply not_elem_of_nil in Hin.
  - right. exists q, t. split; [congruence|exact Ht].
Qed.

(** C12. A race ends: it takes at most 115 steps of its own whatever the schedule,
    and once the deadlines of its candidates have passed it has an answer. *)
Theorem race_terminates (d : Dial) schedule addresses (rt : Runtime S) now
    (n := length (unique_endpoints addresses)) :
  reachable (registry rt) ->
  (own_steps d schedule (race_start addresses rt) <= 115)%nat /\
  exists x, race_stage (run_race d (schedule ++ deadlines now n) (race_start addresses rt)) = Over x /\
    race_endpoints_on d addresses schedule now rt =
      (x, race_runtime (run_race d (schedule ++ deadlines now n) (race_start addresses rt))).
Proof.
  intros Hr. split.
  - pose proof (own_steps_measure d schedule (race_start addresses rt)) as Hm.
    enough (measure (race_start addresses rt) <= 115)%nat by lia.
    destruct (unique_endpoints_spec addresses) as (_ & Hlen & _). unfold MAX_CANDIDATES in Hlen.
    assert (Ht : total (map (fun a => mkCandidate a Sleeping) (unique_endpoints addresses))
                 = (7 * length (unique_endpoints addresses))%nat).
    { clear. induction (unique_endpoints addresses) as [|a l IH]; [done|]. unfold total in *.
      cbn [map sum_list_with length]. rewrite IH. cbn [c_state weight]. lia. }
    unfold measure, race_start. cbn [race_candidates race_stage]. rewrite Ht.
    destruct (unique_endpoints addresses); cbn [stage_weight]; lia.
  - destruct (deadlines_end d schedule addresses rt now Hr) as [x Hx]. exists x. split; [done|].
    unfold race_endpoints_on, race_result. fold n in Hx |- *. by rewrite Hx.
Qed.

(** A race answers the device it was started for: the session that wins is
    authenticated with the id, the key and the kind of the target, over a
    connection of the race; and the session the race answers is registered under
    that device and kind, unless its connection has been closed since, and is its
    own or one another task has brought. *)
Theorem race_answers_expected (d : Dial) events addresses (rt : Runtime S)
    (r := run_race d events (race_start addresses rt)) :
  reachable (registry rt) -> store_ok (store rt) ->
  (dial_source d = History -> forall a, a ∈ addresses -> plain_address a) ->
  (forall ev, ev ∈ events -> event_ok ev) ->
  (forall s, race_stage r = Won s ->
     peer_device_id (peer s) = expected_id (dial_expected d) /\
     peer_public_key (peer s) = expected_key (dial_expected d) /\ kind s = dial_kind d /\
     connection s ∈ race_dialled r) /\
  (forall q, race_stage r = Over (Ok q) ->
     exists t, kept_as q t (registry (race_runtime r)) /\
       session_key t = (expected_id (dial_expected d), dial_kind d) /\
       race_origin d rt events t).
Proof.
  intros Hr Hs Hplain Hev. destruct (run_race_winner d events addresses rt Hr Hs Hplain Hev) as [Hrace Hwin].
  fold r in Hrace, Hwin. split.
  - intros s Hst. destruct (wk_won _ _ Hwin s Hst) as (? & ? & ?). split_and!; try done.
    apply (rk_held _ Hrace). unfold held_conns. rewrite Hst. set_solver.
  - intros q Hq. destruct (wk_answer _ _ Hwin q (or_intror Hq)) as (t & Hk & Hkey).
    exists t. split_and!; [done..|]. by eapply run_race_origin; [..|exact (proj1 Hk)].
Qed.

(** C33. A second race from a fresh socket is made only for a path that did not
    answer: when a candidate of the first one failed to authenticate, or none
    ran into the deadline of its QUIC handshake, the answer is that of the
    first race, whatever a second one would have done, and no socket is opened. *)
Theorem retry_only_unanswered (d : Dial) addresses first second now now' in_runtime opened
    (rt : Runtime S) sk
    (r := run_race d (first ++ deadlines now (length (unique_endpoints addresses)))
            (race_start addresses rt)) :
  reachable (registry rt) ->
  existsb (joined_failure in_authentication) (race_candidates r) = true \/
  existsb (joined_failure fails_on_path) (race_candidates r) = false ->
  race_endpoints d addresses first second now now' in_runtime opened (rt, sk)
  = (map_err fst (race_result r), (race_runtime r, sk)).
Proof.
  intros Hr Hflags. unfold race_endpoints, race_endpoints_on. fold r.
  destruct (deadlines_end d first addresses rt now Hr) as [x Hx]. fold r in Hx.
  unfold race_result. rewrite Hx. destruct x as [q|[e b]]; [done|].
  destruct (run_race_flags d (first ++ deadlines now (length (unique_endpoints addresses))) addresses rt)
    as [Hp Ha Ho]. fold r in Hp, Ha, Ho.
  assert (b = false) as ->; [|done].
  destruct b; [|done]. destruct (Ho e Hx) as [E1 E2]. destruct Hflags; congruence.
Qed.

(** A remembered endpoint stored as an IPv4-mapped address never backs off:
    the race dials its canonical form and records the failure under that, so
    the stored entry stays as it was. *)
Theorem mapped_endpoint_never_backs_off (d : Dial) i now (r r' : Race S) a c phase quic_failure e :
  dial_source d = History -> store_ok (store (race_runtime r)) -> in_i64 now -> plain_address (c_address c) ->
  race_candidates r !! i = Some c -> c_state c = Done (Failed phase quic_failure e) ->
  c_address c = canonical_endpoint a -> a <> canonical_endpoint a ->
  join d i now r = Some r' ->
  stored (store (race_runtime r')) (expected_id (dial_expected d)) a
  = stored (store (race_runtime r)) (expected_id (dial_expected d)) a.
Proof.
  intros Hsrc Hs Hnow Hplain Hi Hst Ea Hne Hj. unfold join in Hj. rewrite Hi in Hj. cbn in Hj.
  rewrite Hst in Hj. injection Hj as <-.
  set (r1 := goto i _ r). set (r2 := note_failure _ _ _ _ _ _ _).
  assert (Er : race_runtime (conclude r2) = race_runtime r2) by (unfold conclude; by destruct (all_joined r2)).
  rewrite Er. subst r2. unfold note_failure. cbn [race_runtime]. rewrite Hsrc. unfold attempt, on_store.
  change (race_runtime r1) with (race_runtime r).
  destruct (record_failure now _ (c_address c) (store (race_runtime r))) as [x s'] eqn:E. cbn [snd store].
  destruct (record_failure_spec now _ _ _ x s' Hnow Hplain (proj2 Hs) E) as [_ Hst'].
  rewrite Hst', decide_False; [done|]. intros (_ & _ & E'). congruence.
Qed.

(** A session that has won its race when [forget] runs is registered after
    it: its peer is unknown to the store, and the session is live in the
    registry. *)
Theorem forgotten_during_dial (d : Dial) (r : Race S) s b rt' :
  race_ok r -> race_stage r = Won s -> store_ok (store (race_runtime r)) ->
  conn_open (registry (race_runtime r)) (connection s) = true ->
  forget (peer_device_id (peer s)) (race_runtime r) = (Ok b, rt') ->
  let r' := run_race d [Meanwhile (CallForget (peer_device_id (peer s))); Register] r in
  known (view (store (race_runtime r'))) (peer_device_id (peer s)) = None /\
  exists q a, race_stage r' = Registered q /\ upgrade (registry (race_runtime r')) q = Some s /\
    sessions (registry (race_runtime r')) !! session_key s = Some a /\ a_session a = q /\
    conn_open (registry (race_runtime r')) (connection s) = true.
Proof.
  intros Hok Hst Hs Ho E r'.
  destruct (forget_run _ _ _ _ Hs E) as ([Hk _] & _ & _ & Hreg).
  assert (Hf : fresh_conn (connection s) (registry (race_runtime r))).
  { apply (rk_held _ Hok). unfold held_conns. rewrite Hst. set_solver. }
  assert (Er : r' = register_winner s (set_runtime rt' r)).
  { subst r'. unfold run_race. cbn [fold_left]. unfold race_step at 2, race_turn at 1. rewrite Hst.
    cbn [meanwhile_allowed run_call default from_option]. rewrite E. unfold race_step, race_turn.
    cbn [race_stage set_runtime snd Datatypes.id]. by rewrite Hst. }
  assert (Hnone : sessions (registry rt') !! session_key s = None).
  { rewrite Hreg. unfold forget_sessions. rewrite remove_all_lookup. case_decide as Hin; [done|].
    apply eq_None_not_Some. intros Hsome. apply Hin. by apply elem_of_keys_of. }
  assert (Hopen : conn_open (registry rt') (connection s) = true).
  { rewrite Hreg. unfold conn_open in *. apply negb_true_iff, not_true_iff_false. intros Hcl.
    unfold forget_sessions in Hcl. apply remove_all_closed in Hcl as [Hcl|(key & a & _ & Hkey & Ea)].
    - by rewrite Hcl in Ho.
    - by apply (proj2 Hf _ _ Hkey). }
  rewrite Er. unfold register_winner, register_session. cbn [race_runtime set_runtime adopt].
  cbn [sessions]. rewrite Hnone. unfold insert_session. rewrite Nat.eqb_refl.
  cbn [race_runtime set_runtime set_stage registry store race_stage arcs sessions net].
  split; [by rewrite Hk, decide_True|]. eexists _, _. unfold upgrade. cbn [arcs sessions].
  rewrite !lookup_insert_eq. split_and!; done.
Qed.
End properties.

(** ** A race of two candidates *)

Module SampleDial.
Import SamplePeer SampleWire SampleCrypto SampleRegistry SampleDb SampleRun.

#[local] Existing Instance sqlite_peer_service.
#[local] Existing Instance sqlite_peer_service_laws.

#[export] Instance remote : Remote := fun _ => sample_address.

Definition other_address : SocketAddr := sock_new (IpV4 (mkIpv4 10 42 7 9)) 8767.
Definition two_addresses : list SocketAddr := [sample_address; other_address].
Definition request : Dial := mkDial (local x41) target Control History None.
Definition before : Runtime Sqlite :=
  mkRuntime (knows x42) (mkDiscovery (local_device_id (local x41)) ∅ ∅ ∅ [] 0) start.

(** The first candidate authenticates while the second has just connected. *)
Definition schedule : list (RaceEvent Sqlite) :=
  [Wake 0; TakeCapacity 0; TakeGlobal 0; Established 0 (11%nat : @Conn transport); Wake 1;
   TakeCapacity 1; TakeGlobal 1; Established 1 (12%nat : @Conn transport); Select 0;
   Authenticate 0 meta sideA; Join 0 50].
Definition to_the_end : list (RaceEvent Sqlite) := schedule ++ [Register; Remember 60 70].

Abbreviation won := (run_race request schedule (race_start two_addresses before)).
Abbreviation ended := (run_race request to_the_end (race_start two_addresses before)).

(** No candidate is answered. *)
Abbreviation unanswered :=
  (run_race request ([] ++ deadlines 50 (length (unique_endpoints two_addresses)))
     (race_start two_addresses before)).

Lemma before_reachable : reachable (registry before).
Proof. apply reachable_start. Qed.

Lemma before_ok : store_ok (store before).
Proof.
  assert (Hdb : db_ok (db (knows x42))).
  { apply (db_call_ok empty (DbSavePeer (record x42))); [reflexivity|apply empty_ok]. }
  split; exact Hdb.
Qed.

Lemma two_plain a : a ∈ two_addresses -> plain_address a.
Proof. revert a. apply Forall_forall. repeat constructor. Qed.

Lemma schedule_ok ev : ev ∈ schedule -> event_ok ev.
Proof.
  revert ev. apply Forall_forall.
  repeat (apply Forall_cons; split; [first [exact I | vm_compute; split; discriminate]|]). constructor.
Qed.

Lemma ended_over : exists q, race_stage ended = Over (Ok q).
Proof.
  assert (E : match race_stage ended with Over (Ok _) => true | _ => false end = true)
    by (vm_compute; reflexivity).
  destruct (race_stage ended) as [| | |[q|e]]; try discriminate E. by exists q.
Qed.
End SampleDial.

Section witnesses.
Import SamplePeer SampleWire SampleCrypto SampleRegistry SampleDb SampleRun SampleDial.

#[local] Existing Instance sqlite_peer_service.
#[local] Existing Instance sqlite_peer_service_laws.

Lemma race_bounded_witness : (count holds_capacity (race_candidates won) <= 3)%nat.
Proof.
  destruct (race_bounded request schedule two_addresses before before_reachable) as (_ & _ & _ & Hc & _).
  exact Hc.
Defined.

Lemma race_closes_losers_witness : exists q,
  race_stage ended = Over (Ok q) /\
  (is_closed (net (registry (race_runtime ended))) (12%nat : @Conn transport) = true \/
   exists q' t, Ok q = Ok (E := NetworkError * bool) q' /\
     upgrade (registry (race_runtime ended)) q' = Some t /\ connection t = 12%nat).
Proof.
  destruct ended_over as [q Hq]. exists q. split; [exact Hq|].
  assert (Hin : (12%nat : @Conn transport) ∈ race_dialled ended) by by_evaluation.
  pose proof (race_closes_losers request to_the_end two_addresses before (Ok q) 12%nat
    before_reachable Hq Hin) as Hl.
  exact Hl.
Defined.

Lemma race_terminates_witness : exists x rt,
  race_endpoints_on request two_addresses schedule 90 before = (x, rt).
Proof.
  destruct (race_terminates request schedule two_addresses before 90 before_reachable)
    as (_ & x & _ & E). eexists _, _. exact E.
Defined.

Lemma retry_only_unanswered_witness :
  race_endpoints request two_addresses [] schedule 50 60 true (Ok 7%nat) (before, bound)
  = (map_err fst (race_result unanswered), (race_runtime unanswered, bound)).
Proof.
  assert (Hf : existsb (joined_failure fails_on_path) (race_candidates unanswered) = false)
    by (vm_compute; reflexivity).
  pose proof (retry_only_unanswered request two_addresses [] schedule 50 60 true (Ok 7%nat) before
    bound before_reachable (or_intror Hf)) as E.
  exact E.
Defined.

Lemma won_session : exists s, race_stage won = Won s.
Proof.
  assert (E : match race_stage won with Won _ => true | _ => false end = true) by (vm_compute; reflexivity).
  destruct (race_stage won) as [|s| |]; try discriminate E. by exists s.
Qed.

Lemma race_answers_expected_witness : exists s, race_stage won = Won s /\
  peer_public_key (peer s) = expected_key target.
Proof.
  destruct won_session as [s Hs]. exists s. split; [exact Hs|].
  destruct (race_answers_expected request schedule two_addresses before before_reachable before_ok
    (fun _ => two_plain) schedule_ok) as [Hw _].
  destruct (Hw s Hs) as (_ & Hk & _). exact Hk.
Defined.

(** A history with a mapped address. *)
Definition mapped_address : SocketAddr := SockV6 (mkSockV6 (to_ipv6_mapped (mkIpv4 10 42 7 8)) 8767 0 0).
Definition with_mapped : Runtime Sqlite :=
  mkRuntime (db_call (knows x42) (DbAuthenticated 1000 (expected_id target) mapped_address (repeat x03 32) Inbound))
    (discovery before) start.
Abbreviation mapped_failed :=
  (run_race request [Wake 0; Expire 0] (race_start [mapped_address] with_mapped)).

Lemma with_mapped_ok : store_ok (store with_mapped).
Proof.
  assert (Hdb : db_ok (db (store with_mapped))).
  { apply (db_call_ok (knows x42) (DbAuthenticated 1000 (expected_id target) mapped_address
      (repeat x03 32) Inbound)); [by split_and!; [by_evaluation|reflexivity|reflexivity]|].
    exact (proj1 before_ok). }
  split; exact Hdb.
Qed.

Lemma mapped_endpoint_never_backs_off_witness : exists c r',
  race_candidates mapped_failed !! 0%nat = Some c /\ join request 0 50 mapped_failed = Some r' /\
  stored (store (race_runtime r')) (expected_id target) mapped_address
  = stored (store with_mapped) (expected_id target) mapped_address.
Proof.
  assert (Hc : race_candidates mapped_failed !! 0%nat
    = Some (mkCandidate sample_address (Done (Failed "candidate_capacity_wait" None Timeout)))) by reflexivity.
  destruct (join request 0 50 mapped_failed) as [r'|] eqn:Hj.
  2:{ unfold join in Hj. rewrite Hc in Hj. discriminate Hj. }
  eexists _, r'. split; [exact Hc|]. split; [reflexivity|].
  assert (Hne : mapped_address <> canonical_endpoint mapped_address) by by_evaluation.
  pose proof (mapped_endpoint_never_backs_off request 0 50 mapped_failed r' mapped_address
    (mkCandidate sample_address (Done (Failed "candidate_capacity_wait" None Timeout)))
    "candidate_capacity_wait" None Timeout) as E.
  apply E; [reflexivity|exact with_mapped_ok|by_evaluation|reflexivity|exact Hc|reflexivity|reflexivity|
    exact Hne|exact Hj].
Defined.

Lemma forgotten_during_dial_witness : exists s b rt',
  race_stage won = Won s /\ forget (peer_device_id (peer s)) (race_runtime won) = (Ok b, rt') /\
  known (view (store (race_runtime (run_race request
    [Meanwhile (CallForget (peer_device_id (peer s))); Register] won)))) (peer_device_id (peer s)) = None.
Proof.
  destruct won_session as [s Hs].
  assert (Hb : match race_stage won with
               | Won s => conn_open (registry (race_runtime won)) (connection s) &&
                   is_ok (forget (peer_device_id (peer s)) (race_runtime won)).1
               | _ => false
               end = true) by (vm_compute; reflexivity).
  rewrite Hs in Hb. apply andb_true_iff in Hb as [Ho Hf].
  destruct (forget (peer_device_id (peer s)) (race_runtime won)) as [[b|e] rt'] eqn:E; [|discriminate Hf].
  exists s, b, rt'. split; [exact Hs|]. split; [exact E|].
  pose proof (run_race_ok request schedule two_addresses before before_reachable) as Hok.
  assert (Hstore : store_ok (store (race_runtime won))).
  { destruct (run_race_winner request schedule two_addresses before before_reachable before_ok
      (fun _ => two_plain) schedule_ok) as [_ Hw].
    apply (wk_store _ _ Hw). intros x Hx. rewrite Hs in Hx. discriminate Hx. }
  destruct (forgotten_during_dial request won s b rt' Hok Hs Hstore Ho E) as [Hk _].
  exact Hk.
Defined.
End witnesses.
