(* ===== verification/Accept.v ===== *)
(** * Accept

    The accept loop of the runtime (runtime.rs): a permit of the handshake
    gate, the QUIC handshake, the authentication of the peer, the trace it
    leaves, and the registration and publication of its session. *)

From S2P Require Import Prelude Errors Addr Peer Wire Grants Registry Endpoint RepositoryDb Repository.
From S2P Require Import Store Text Identity Discovery Probe Handshake Auth Mutual Trust Pairing Sockets Calls Dial.

(** ** Definitions *)

Section accept.
Context `{PeerApi} `{Crypto} `{WireApi} `{Transport} `{!Remote} {S : Type} `{!PeerRepository S}
  `{!EndpointRepository S} `{!PeerService S}.

(** What the accept loop shares with the rest of the runtime:
    [host_handshakes] are the free permits of [handshake_gate],
    [host_subscribed] tells whether [incoming] has a receiver, and
    [host_published] are the sessions sent to it. *)
Record Host := mkHost {
  host_runtime : Runtime S;
  host_rates : gmap IpAddr ProbeRate;
  host_probe_permits : nat;
  host_handshakes : nat;
  host_discoverable : bool;
  host_subscribed : bool;
  host_published : list nat
}.

Definition set_host_runtime (rt : Runtime S) (h : Host) : Host :=
  mkHost rt (host_rates h) (host_probe_permits h) (host_handshakes h) (host_discoverable h)
    (host_subscribed h) (host_published h).
Definition set_handshakes (n : nat) (h : Host) : Host :=
  mkHost (host_runtime h) (host_rates h) (host_probe_permits h) n (host_discoverable h)
    (host_subscribed h) (host_published h).

Definition in_runtime {E A} (m : action (Runtime S) E A) : action Host E A := fun h =>
  let (x, rt) := m (host_runtime h) in (x, set_host_runtime rt h).

(** The environment of the handshake with one peer. *)
Definition host_world (h : Host) (w : World S) : World S :=
  mkWorld (peer_certificates w) (exporter w) (remote_address w) (stream_faults w) (write_faults w)
    (inbox w) (sent w) (store (host_runtime h)) (host_rates h) (host_probe_permits h)
    (host_discoverable h) (selection_open w) (instant w) (clock_ms w) (fresh_nonce w)
    (fresh_session_id w) (local_port w).

(** [timeout(HANDSHAKE_TIMEOUT, runtime.authenticate_inbound(connection))] *)
Definition run_inbound (c : Conn) (l : Local) (md : DeviceMetadata) (expired : bool) (w : World S)
    : action Host NetworkError Session := fun h =>
  let '(x, w') := authenticate_inbound c l md (host_world h w) in
  let rt := host_runtime h in
  (if expired then Err Timeout else x,
   mkHost (mkRuntime (repo w') (discovery rt) (registry rt)) (rates w') (probe_permits w')
     (host_handshakes h) (host_discoverable h) (host_subscribed h) (host_published h)).

(** [Arc::new(s)] and [register_session]; the handle that was passed goes
    unless it is answered. *)
Definition register_new {E} (lift_error : NetworkError -> E) (s : Session)
    : action (Runtime S) E (nat * nat) := fun rt =>
  let '(p, g) := adopt s (registry rt) in
  let '(x, g') := register_session p s g in
  match x with
  | Ok q => (Ok (p, q), mkRuntime (store rt) (discovery rt) (if (q =? p)%nat then g' else drop_arc p g'))
  | Err e => (Err (lift_error e), mkRuntime (store rt) (discovery rt) (drop_arc p g'))
  end.

(** [incoming.send(session)], and the close when nobody listens. *)
Definition publish (p : nat) (s : Session) : action Host NetworkError unit := fun h =>
  if host_subscribed h then
    (Ok tt, mkHost (host_runtime h) (host_rates h) (host_probe_permits h) (host_handshakes h)
              (host_discoverable h) (host_subscribed h) (host_published h ++ [p]))
  else in_runtime (close_session s "feature service unavailable") h.

(** The task of one incoming connection; [quic] is what its QUIC handshake
    gives within the time-out. *)
Definition accept_task (l : Local) (md : DeviceMetadata) (quic : net_result Conn) (expired : bool)
    (w : World S) (now now' : Z) : action Host NetworkError unit :=
  c ← lift quic;
  inbound ← run_inbound c l md expired w;
  in_runtime (remember_authenticated_session now now' inbound (conn_remote (connection inbound)) Inbound) ;;
  if bool_decide (kind inbound = DiscoveryProbe) then
    in_runtime (close_session inbound "discovery probe completed")
  else
    pq ← in_runtime (register_new (fun e => e) inbound);
    if (pq.2 =? pq.1)%nat then publish pq.1 inbound else mret tt.

(** One turn of the loop: without a permit the connection is dropped. *)
Definition accept_incoming (l : Local) (md : DeviceMetadata) (quic : net_result Conn) (expired : bool)
    (w : World S) (now now' : Z) (h : Host) : option (net_result unit) * Host :=
  match host_handshakes h with
  | O => (None, h)
  | Datatypes.S n =>
      let (x, h') := accept_task l md quic expired w now now' (set_handshakes n h) in
      (Some x, set_handshakes (Datatypes.S (host_handshakes h')) h')
  end.
End accept.

Arguments Host {_ _} _.

(** ** Facts *)

Section facts.
Context `{PeerApi} `{Crypto} `{WireApi} `{Transport} `{!Remote} {S : Type} `{!PeerRepository S}
  `{!EndpointRepository S} `{!PeerService S}.
Context `{!PeerLaws} `{!TransportLaws} `{!PeerRepositoryLaws S} `{!EndpointRepositoryLaws S}
  `{!StoreLaws S} `{!PeerServiceLaws S}.

Abbreviation Host := (Host S).

Lemma in_runtime_inv {F A} (m : action (Runtime S) F A) (h : Host) x h' :
  in_runtime m h = (x, h') -> exists rt, m (host_runtime h) = (x, rt) /\ h' = set_host_runtime rt h.
Proof. unfold in_runtime. destruct (m (host_runtime h)) as [y rt]. intros [= <- <-]. eauto. Qed.

(** A new session is answered under its own handle exactly when it is the one
    registered. *)
Lemma register_new_inv {F} (f : NetworkError -> F) s (rt : Runtime S) x rt' :
  reachable (registry rt) -> fresh_conn (connection s) (registry rt) ->
  register_new f s rt = (x, rt') ->
  reachable (registry rt') /\ store rt' = store rt /\ discovery rt' = discovery rt /\
  match x with
  | Ok (p, q) =>
      p = new_arc (registry rt) /\
      (exists t, upgrade (registry rt') q = Some t /\ session_key t = session_key s) /\
      (q = p -> exists a, upgrade (registry rt') p = Some s /\
         sessions (registry rt') !! session_key s = Some a /\ a_session a = p /\
         conn_open (registry rt') (connection s) = conn_open (registry rt) (connection s)) /\
      (q <> p -> conn_open (registry rt') (connection s) = false)
  | Err _ => conn_open (registry rt') (connection s) = false
  end.
Proof.
  intros Hr Hf E. unfold register_new in E. set (g := registry rt) in *.
  pose proof (adopt_reachable s g Hr Hf) as Hr1. set (g1 := (adopt s g).2) in *.
  change (adopt s g) with (new_arc g, g1) in E. cbv beta iota zeta in E.
  assert (Hp : arcs g1 !! new_arc g = Some s) by (cbn; by rewrite lookup_insert_eq).
  pose proof (reachable_ok _ Hr1) as Hok1.
  destruct (register_session (new_arc g) s g1) as [y g2] eqn:Ereg.
  pose proof (register_answer (new_arc g) s g1 y g2 Hok1 Hp Ereg) as Hans.
  assert (Hr2 : reachable g2).
  { replace g2 with (register_session (new_arc g) s g1).2 by by rewrite Ereg.
    eapply reachable_step; [exact Hr1 | by apply step_register]. }
  assert (Hr3 : reachable (drop_arc (new_arc g) g2)) by by apply drop_arc_reachable.
  destruct y as [q|e]; injection E as <- <-; cbn [registry store discovery].
  2:{ split_and!; try done. unfold conn_open. cbn. by rewrite Hans. }
  destruct Hans as [(t & Ht & Hkey) Hq]. split; [by case_match|]. split_and!; try done.
  - exists t. split; [|done]. destruct (q =? new_arc g)%nat eqn:Eq; [done|]. apply Nat.eqb_neq in Eq.
    unfold upgrade. cbn. by rewrite lookup_delete_ne.
  - intros ->. rewrite Nat.eqb_refl.
    destruct (register_session_arbitration g1 (new_arc g) s Hok1 Hp) as (e & cs & Harb & Hcl & Ha & Hs).
    rewrite Ereg in Harb, Hcl, Ha, Hs. cbn [fst snd] in *.
    assert (Hnew : forall cur, sessions g1 !! session_key s = Some cur -> a_session cur <> new_arc g).
    { intros cur Hcur. by eapply (proj2 (new_arc_fresh g)). }
    assert (exists l, e = Some (active_of (new_arc g) s l) /\
      forall c, c ∈ cs -> exists key a, sessions g !! key = Some a /\ a_connection a = c) as (l & -> & Hcs).
    { inversion Harb; subst; try (by edestruct Hnew); eexists; (split; [reflexivity|]);
        intros c Hc; set_solver. }
    exists (active_of (new_arc g) s l). unfold upgrade. rewrite Ha, Hs, lookup_insert_eq.
    split_and!; try done. unfold conn_open. rewrite (Hcl (connection s)), bool_decide_false; [by rewrite orb_false_r|].
    intros Hin. destruct (Hcs _ Hin) as (key & a & Hka & Ea). by eapply (proj2 Hf).
  - intros Hne. destruct Hq as [?|Hq]; [done|]. apply Nat.eqb_neq in Hne. rewrite Hne.
    unfold conn_open. cbn. by rewrite Hq.
Qed.

(** Whatever session is answered is registered under the key of the new one. *)
Lemma register_new_kept {F} (f : NetworkError -> F) s (rt : Runtime S) p q rt' :
  reachable (registry rt) -> fresh_conn (connection s) (registry rt) ->
  register_new f s rt = (Ok (p, q), rt') ->
  exists t, upgrade (registry rt') q = Some t /\ session_key t = session_key s /\
    registered_as q t (registry rt') /\
    (q = p /\ t = s /\ arcs (registry rt) !! q = None \/ arcs (registry rt) !! q = Some t).
Proof.
  intros Hr Hf E. unfold register_new in E. set (g := registry rt) in *.
  destruct (new_arc_fresh g) as [Hnone _].
  pose proof (adopt_reachable s g Hr Hf) as Hr1. set (g1 := (adopt s g).2) in *.
  change (adopt s g) with (new_arc g, g1) in E. cbv beta iota zeta in E.
  assert (Hp : arcs g1 !! new_arc g = Some s) by (cbn; by rewrite lookup_insert_eq).
  pose proof (reachable_ok _ Hr1) as Hok1.
  destruct (register_session (new_arc g) s g1) as [[q'|e] g2] eqn:Ereg; [|discriminate E].
  injection E as <- <- <-. destruct (register_kept _ _ _ _ _ Hok1 Hp Ereg) as (t & Ht & Hkey & Hreg).
  assert (Ht1 : arcs g1 !! q' = Some t).
  { pose proof (evolves_register (new_arc g) s g1 Hok1 Hp) as Hev. rewrite Ereg in Hev.
    by apply (ev_arcs _ _ Hev). }
  exists t. cbn [registry]. destruct (q' =? new_arc g)%nat eqn:Eq.
  - apply Nat.eqb_eq in Eq as ->. rewrite Hp in Ht1. injection Ht1 as <-. split_and!; [done..|by left].
  - apply Nat.eqb_neq in Eq. split_and!; [|done|exact Hreg|].
    + unfold upgrade. cbn. by rewrite lookup_delete_ne.
    + right. cbn in Ht1. by rewrite lookup_insert_ne in Ht1.
Qed.

Lemma run_inbound_inv c l md expired w (h : Host) x h' :
  run_inbound c l md expired w h = (x, h') ->
  match x with
  | Ok s => exists w', authenticate_inbound c l md (host_world h w) = (Ok s, w')
  | Err _ => True
  end /\
  registry (host_runtime h') = registry (host_runtime h) /\
  host_handshakes h' = host_handshakes h /\ host_published h' = host_published h.
Proof.
  unfold run_inbound. destruct (authenticate_inbound c l md (host_world h w)) as [z w0].
  intros [= <- <-]. split_and!; try done. destruct expired; [done|]. destruct z; [by exists w0|done].
Qed.
End facts.

(** ** Properties *)

Section properties.
Context `{PeerApi} `{Crypto} `{WireApi} `{Transport} `{!Remote} {S : Type} `{!PeerRepository S}
  `{!EndpointRepository S} `{!PeerService S}.
Context `{!PeerLaws} `{!TransportLaws} `{!PeerRepositoryLaws S} `{!EndpointRepositoryLaws S}
  `{!StoreLaws S} `{!PeerServiceLaws S}.

(** What publishing one session of an accepted connection amounts to. *)
Definition publishes_own (l : Local) (c : Conn) (h h' : Host S) : Prop :=
  exists p s a, host_published h' = host_published h ++ [p] /\
    upgrade (registry (host_runtime h')) p = Some s /\ connection s = c /\ kind s <> DiscoveryProbe /\
    sessions (registry (host_runtime h')) !! session_key s = Some a /\ a_session a = p /\
    conn_open (registry (host_runtime h')) c = true /\ peer_device_id (peer s) <> local_device_id l /\
    (paired_in (store (host_runtime h)) (peer_device_id (peer s)) (peer_public_key (peer s)) \/
     (nearby_kind (kind s) = true /\ host_discoverable h = true)).

(** Whatever becomes of an incoming connection, its permit of the handshake
    gate is returned, and at most one session is published: the one of this
    very connection, authenticated as the peer's own and admitted by trust or
    by visibility, registered under its key and open.  A probe, a session that
    lost the arbitration and every failure publish nothing. *)
Theorem accept_publishes_own l md c expired w now now' (h : Host S) x h' :
  reachable (registry (host_runtime h)) -> store_ok (store (host_runtime h)) ->
  fresh_conn c (registry (host_runtime h)) -> conn_open (registry (host_runtime h)) c = true ->
  accept_incoming l md (Ok c) expired w now now' h = (x, h') ->
  reachable (registry (host_runtime h')) /\ host_handshakes h' = host_handshakes h /\
  (host_published h' = host_published h \/ publishes_own l c h h').
Proof.
  intros Hr Hs Hf Ho E. unfold accept_incoming in E.
  destruct (host_handshakes h) as [|n] eqn:En; [injection E as _ <-; auto|].
  set (h0 := set_handshakes n h) in *.
  destruct (accept_task l md (Ok c) expired w now now' h0) as [y h9] eqn:Et. injection E as _ <-.
  enough (reachable (registry (host_runtime h9)) /\ host_handshakes h9 = n /\
    (host_published h9 = host_published h \/ publishes_own l c h h9)) as (? & -> & ?) by done.
  unfold accept_task in Et.
  apply act_bind_inv in Et as [(c' & h1 & E1 & Et)|(e & E1 & _)]; [|discriminate E1]. injection E1 as <- <-.
  apply act_bind_inv in Et as [(s & h1 & E1 & Et)|(e & E1 & _)];
    destruct (run_inbound_inv _ _ _ _ _ _ _ _ E1) as (Ew & Ereg1 & Eh1 & Ep1);
    change (registry (host_runtime h0)) with (registry (host_runtime h)) in Ereg1;
    [|rewrite Ereg1; auto].
  destruct Ew as [w' Ew]. change (host_world h0 w) with (host_world h w) in Ew.
  destruct (inbound_committed _ _ _ _ _ _ Ew) as (Hconn & _).
  destruct (inbound_vouched _ _ _ _ _ _ (proj1 Hs : peer_repo_ok (repo (host_world h w))) Ew)
    as (remote & Hvo & _ & Hadm).
  apply act_bind_inv in Et as [(ad & h2 & E2 & Et)|(e & E2 & _)];
    apply in_runtime_inv in E2 as (rt & E2 & ->);
    pose proof (remember_registry now now' s (conn_remote (connection s)) Inbound (host_runtime h1)) as Ereg2;
    rewrite E2 in Ereg2; cbn [snd] in Ereg2; rewrite Ereg1 in Ereg2;
    [|cbn; rewrite Ereg2; auto].
  destruct (bool_decide (kind s = DiscoveryProbe)) eqn:Ek.
  { apply in_runtime_inv in Et as (rt2 & E3 & ->). unfold close_session, on_registry in E3.
    injection E3 as _ <-. cbn. rewrite Ereg2, Eh1, Ep1. split_and!; [|done|by left].
    by apply close_conn_reachable. }
  apply bool_decide_eq_false in Ek.
  assert (Hf2 : fresh_conn (connection s) (registry rt)) by by rewrite Ereg2, Hconn.
  assert (Hr2 : reachable (registry rt)) by by rewrite Ereg2.
  apply act_bind_inv in Et as [([p q] & h3 & E3 & Et)|(e & E3 & _)];
    apply in_runtime_inv in E3 as (rt3 & E3 & ->); cbn [host_runtime set_host_runtime] in E3;
    destruct (register_new_inv _ _ _ _ _ Hr2 Hf2 E3) as (Hr3 & _ & _ & Hreg);
    [|cbn; rewrite Eh1, Ep1; auto].
  destruct Hreg as (-> & _ & Hown & _). cbn [fst snd] in Et. set (p := new_arc (registry rt)) in *.
  destruct (q =? p)%nat eqn:Eq; [|injection Et as _ <-; cbn; rewrite Eh1, Ep1; auto].
  apply Nat.eqb_eq in Eq. destruct (Hown Eq) as (a & Hup & Ha & Hap & Hopen).
  unfold publish in Et. cbn [host_subscribed set_host_runtime] in Et.
  destruct (host_subscribed h1).
  - injection Et as _ <-. cbn. rewrite Eh1, Ep1. split_and!; [done..|]. right.
    exists p, s, a. cbn. rewrite Hconn, Ereg2, Ho in Hopen. split_and!; try done.
    + apply (vo_other _ _ _ _ _ _ Hvo).
    + destruct (nearby_kind (kind s)) eqn:Ekind; [|left; by apply (vo_paired _ _ _ _ _ _ Hvo)].
      destruct Hadm as [?|?]; [by right | by left].
  - apply in_runtime_inv in Et as (rt4 & E4 & ->). unfold close_session, on_registry in E4.
    injection E4 as _ <-. cbn. rewrite Eh1, Ep1. split_and!; [|done|by left].
    by apply close_conn_reachable.
Qed.
End properties.

(** ** Witnesses *)

Section witnesses.
Import SamplePeer SampleWire SampleCrypto SampleRegistry SampleDb SampleRun SampleDial.

#[local] Existing Instance sqlite_peer_service.
#[local] Existing Instance sqlite_peer_service_laws.

(** The device with key "B", which knows the one with key "A". *)
Definition listening : Host Sqlite :=
  mkHost (mkRuntime (knows x41) (mkDiscovery (local_device_id (local x42)) ∅ ∅ ∅ [] 0) start)
    ∅ 4 32 false true [].

Abbreviation accepted :=
  (accept_incoming (local x42) meta (Ok (12%nat : @Conn transport)) false sideB 50 60 listening).

Lemma listening_ok : store_ok (store (host_runtime listening)).
Proof.
  assert (Hdb : db_ok (db (knows x41))).
  { apply (db_call_ok empty (DbSavePeer (record x41))); [reflexivity|apply empty_ok]. }
  split; exact Hdb.
Qed.

Lemma accepted_publishes : bool_decide (host_published accepted.2 = [1%nat]) = true.
Proof. vm_compute. reflexivity. Qed.

Lemma accept_publishes_own_witness :
  host_handshakes accepted.2 = 32%nat /\
  publishes_own (local x42) (12%nat : @Conn transport) listening accepted.2.
Proof.
  assert (Hf : fresh_conn (12%nat : @Conn transport) (registry (host_runtime listening))).
  { apply conn_unused_spec. reflexivity. }
  destruct (accept_publishes_own (local x42) meta (12%nat : @Conn transport) false sideB 50 60 listening
    accepted.1 accepted.2 reachable_start listening_ok Hf eq_refl (surjective_pairing accepted))
    as (_ & Hh & [Hp|Hp]).
  - pose proof accepted_publishes as Hpub. rewrite Hp in Hpub. discriminate Hpub.
  - split; [exact Hh | exact Hp].
Defined.
End witnesses.
