(* ===== verification/Relay.v ===== *)
(** * Relay

    Input relays (runtime/relay.rs): an end-to-end session with a paired
    device over a stream a third device carries.  The private endpoint of a
    tunnel is bridged to that stream packet by packet. *)

From S2P Require Import Prelude Errors Addr Peer Wire Grants Registry Endpoint RepositoryDb Repository.
From S2P Require Import Store Text Identity Discovery Probe Handshake Auth Mutual Trust Pairing Sockets Calls Dial Accept.

(** ** The bridge *)

Section bridge.
(** [arcrelay_wire::MAX_INPUT_RELAY_PACKET_SIZE] *)
Context (MAX_INPUT_RELAY_PACKET_SIZE : nat).

(** The loop from the stream to the private endpoint: each frame read is one
    datagram; the result is what was sent and why the loop ended, [None] when
    it still reads. *)
Fixpoint bridge_inbound (frames : list (net_result (list byte))) : list (list byte) * option NetworkError :=
  match frames with
  | [] => ([], None)
  | Err e :: _ => ([], Some e)
  | Ok [] :: _ => ([], Some (Protocol "empty input relay packet"))
  | Ok packet :: rest => let (out, e) := bridge_inbound rest in (packet :: out, e)
  end.

(** The loop from the private endpoint to the stream: a datagram is cut to the
    buffer, and one from elsewhere or an empty one is skipped. *)
Fixpoint bridge_outbound (local : SocketAddr) (datagrams : list (list byte * SocketAddr))
    : list (list byte) :=
  match datagrams with
  | [] => []
  | (datagram, source) :: rest =>
      let packet := take MAX_INPUT_RELAY_PACKET_SIZE datagram in
      if negb (bool_decide (source = local)) || (length packet =? 0)%nat then bridge_outbound local rest
      else packet :: bridge_outbound local rest
  end.
End bridge.

(** ** Tunnels *)

Section relay.
Context `{PeerApi} `{Crypto} `{WireApi} `{Transport} `{!Remote} {S : Type} `{!PeerRepository S}
  `{!EndpointRepository S} `{!PeerService S}.

(** [node_relays] are the free permits of [relay_capacity]; a tunnel is named
    by its private endpoint. *)
Record Node := mkNode {
  node_host : Host S;
  node_sockets : Sockets;
  node_relays : nat
}.

Definition on_host {E A} (m : action (Host S) E A) : action Node E A := fun n =>
  let (x, h) := m (node_host n) in (x, mkNode h (node_sockets n) (node_relays n)).

Definition on_node_runtime {E A} (m : action (Runtime S) E A) : action Node E A := on_host (in_runtime m).

(** [NetworkRuntime::new_input_relay_tunnel]: the permit is taken before the
    flag is looked at, and returned when the call fails; [opened] is the endpoint
    [open_relay_endpoint] of [Quic] answers. *)
Definition new_input_relay_tunnel (tokio : bool) (opened : net_result nat)
    : action Node NetworkError nat := fun n =>
  if negb tokio then (Err RuntimeUnavailable, n)
  else
    match node_relays n with
    | O => (Err (Busy "input relay tunnel limit reached"), n)
    | Datatypes.S k =>
        if stopped (node_sockets n) then (Err (Connect "network runtime is shut down"), n)
        else
          match opened with
          | Err e => (Err e, n)
          | Ok e => (Ok e, mkNode (node_host n) (track_endpoint e (node_sockets n)) k)
          end
    end.

(** [RelayTunnel::drop], with the fields that go after it. *)
Definition drop_tunnel (e : nat) (n : Node) : Node :=
  mkNode (node_host n) (release_endpoint e (close_endpoint e (node_sockets n)))
    (Datatypes.S (node_relays n)).

(** The handle a function holds of the tunnel [e]: it is dropped when the
    function fails, or answers a session that is not on the tunnel. *)
Definition holding_tunnel (e : nat) (m : action Node NetworkError nat) : action Node NetworkError nat := fun n =>
  match m n with
  | (Ok q, n') =>
      (Ok q, match upgrade (registry (host_runtime (node_host n'))) q with
             | Some t => if bool_decide (relay_tunnel t = Some e) then n' else drop_tunnel e n'
             | None => drop_tunnel e n'
             end)
  | (Err x, n') => (Err x, drop_tunnel e n')
  end.

(** [handshake_gate.try_acquire_owned()], held to the end of the function. *)
Definition with_handshake {A} (m : action Node NetworkError A) : action Node NetworkError A := fun n =>
  match host_handshakes (node_host n) with
  | O => (Err (Busy "input relay handshake limit reached"), n)
  | Datatypes.S k =>
      let (x, n') := m (mkNode (set_handshakes k (node_host n)) (node_sockets n) (node_relays n)) in
      (x, mkNode (set_handshakes (Datatypes.S (host_handshakes (node_host n'))) (node_host n'))
            (node_sockets n') (node_relays n'))
  end.

(** [tokio::time::timeout(HANDSHAKE_TIMEOUT, ...)] *)
Definition within {A} (expired : bool) (m : action Node NetworkError A) : action Node NetworkError A := fun n =>
  let (x, n') := m n in (if expired then Err Timeout else x, n').

(** [self.authenticate_outbound_paired(connection, &peer, RealtimeInput, ..)]
    with a selection of its own. *)
Definition run_relay_dial (c : Conn) (l : Local) (md : DeviceMetadata) (expected : PeerRecord)
    (w : World S) : action (Runtime S) NetworkError Session := fun rt =>
  let '(x, w') := authenticate_outbound_paired c l md expected RealtimeInput (race_world rt true w) in
  (x, mkRuntime (repo w') (discovery rt) (registry rt)).

(** [session.relay_tunnel.set(tunnel)] *)
Definition with_tunnel (e : nat) (s : Session) : Session :=
  match relay_tunnel s with
  | Some _ => s
  | None =>
      mkSession (peer_process_instance_id s) (Some e) (recovery_endpoint s) (id s) (kind s) (peer s)
        (verification_code s) (rank s) (connection s) (protocol_minor s)
  end.

(** [NetworkRuntime::register_input_relay]; the task it leaves for the close of
    the connection is [relay_cleanup]. *)
Definition register_input_relay (s : Session) (tunnel : nat) : action (Runtime S) NetworkError nat :=
  pq ← register_new (fun e => e) (with_tunnel tunnel s);
  mret pq.2.

(** [NetworkRuntime::connect_input_relay] *)
Definition connect_input_relay (l : Local) (md : DeviceMetadata) (target : DeviceId) (tokio : bool)
    (opened : net_result nat) (quic : net_result Conn) (expired : bool) (w : World S)
    : action Node NetworkError nat :=
  peer ← on_node_runtime (on_store (require_paired target None));
  found ← on_node_runtime (on_registry (active target RealtimeInput));
  match found with
  | Some q => mret q
  | None =>
      tunnel ← new_input_relay_tunnel tokio opened;
      holding_tunnel tunnel (with_handshake
        (s ← within expired (c ← lift quic; on_node_runtime (run_relay_dial c l md peer w));
         on_node_runtime (register_input_relay s tunnel)))
  end.

(** [let _ = self.incoming.send(session.clone())] *)
Definition send_incoming (q : nat) : action (Host S) NetworkError unit := fun h =>
  (Ok tt, if host_subscribed h then
            mkHost (host_runtime h) (host_rates h) (host_probe_permits h) (host_handshakes h)
              (host_discoverable h) (host_subscribed h) (host_published h ++ [q])
          else h).

(** The check of [accept_input_relay] on an authenticated session. *)
Definition check_source (expected : PeerRecord) (s : Session) : action Node NetworkError unit :=
  if negb (bool_decide (kind s = RealtimeInput))
     || negb (bool_decide (peer_device_id (peer s) = rec_device_id expected))
     || negb (bool_decide (peer_public_key (peer s) = rec_public_key expected))
  then
    on_node_runtime (close_session s "input relay identity mismatch") ;;
    lift (Err (InvalidIdentity "input relay authenticated an unexpected source"))
  else mret tt.

(** [NetworkRuntime::accept_input_relay] *)
Definition accept_input_relay (l : Local) (md : DeviceMetadata) (source : DeviceId) (tokio : bool)
    (opened : net_result nat) (quic : net_result Conn) (expired : bool) (w : World S)
    : action Node NetworkError nat :=
  expected ← on_node_runtime (on_store (require_paired source None));
  tunnel ← new_input_relay_tunnel tokio opened;
  holding_tunnel tunnel (with_handshake
    (s ← within expired
       (c ← lift quic;
        s ← on_host (run_inbound c l md false w);
        check_source expected s ;;
        on_node_runtime (require s CrossScreenInject) ;;
        mret s);
     q ← on_node_runtime (register_input_relay s tunnel);
     on_host (send_incoming q) ;;
     mret q)).
End relay.

Arguments Node {_ _} _.

(** ** Facts *)

Section facts.
Context `{PeerApi} `{Crypto} `{WireApi} `{Transport} `{!Remote} {S : Type} `{!PeerRepository S}
  `{!EndpointRepository S} `{!PeerService S}.
Context `{!PeerLaws} `{!TransportLaws} `{!PeerRepositoryLaws S} `{!EndpointRepositoryLaws S}
  `{!StoreLaws S} `{!PeerServiceLaws S}.

Abbreviation Node := (Node S).

Definition node_runtime (n : Node) : Runtime S := host_runtime (node_host n).

(** [n'] comes from [n] with no trace in what is stored or discovered, and with
    the same permits and endpoints. *)
Record passes (n n' : Node) : Prop := {
  ps_trace : no_trace (node_runtime n) (node_runtime n');
  ps_handshakes : host_handshakes (node_host n') = host_handshakes (node_host n);
  ps_subscribed : host_subscribed (node_host n') = host_subscribed (node_host n);
  ps_sockets : node_sockets n' = node_sockets n;
  ps_relays : node_relays n' = node_relays n
}.

#[export] Instance passes_preorder : PreOrder passes.
Proof.
  split; [by intros n; split|]. intros u v w [? ? ? ? ?] [? ? ? ? ?].
  split; [by etransitivity | congruence..].
Qed.

Lemma on_node_runtime_inv {F A} (m : action (Runtime S) F A) (n : Node) x n' :
  on_node_runtime m n = (x, n') ->
  exists rt, m (node_runtime n) = (x, rt) /\
    n' = mkNode (set_host_runtime rt (node_host n)) (node_sockets n) (node_relays n).
Proof.
  unfold on_node_runtime, on_host. destruct (in_runtime m (node_host n)) as [y h] eqn:E.
  intros [= <- <-]. apply in_runtime_inv in E as (rt & E & ->). eauto.
Qed.

#[export] Instance passes_runtime {F A} (m : action (Runtime S) F A) :
  Along no_trace m -> Along passes (on_node_runtime m).
Proof. intros Hm n x n' (rt & E & ->)%on_node_runtime_inv. split; [by eapply Hm | done..]. Qed.
#[export] Instance passes_inbound c l md expired w :
  Along passes (on_host (run_inbound c l md expired w)).
Proof.
  intros n x n'. unfold on_host, run_inbound.
  destruct (authenticate_inbound c l md (host_world (node_host n) w)) as [y w'] eqn:E.
  intros [= _ <-]. apply frames_inbound, stays_same_store in E. by split.
Qed.
#[export] Instance no_trace_dial c l md expected w : Along no_trace (run_relay_dial c l md expected w).
Proof.
  intros r x r'. unfold run_relay_dial.
  destruct (authenticate_outbound_paired c l md expected RealtimeInput (race_world r true w)) as [y w'] eqn:E.
  intros [= _ <-]. split; [|done].
  apply (frames_expected c l md (ExpectedPaired expected) RealtimeInput), stays_same_store in E. exact E.
Qed.
#[export] Instance no_trace_register {F} (f : NetworkError -> F) s : Along no_trace (register_new f s).
Proof.
  intros r x r'. unfold register_new. destruct (adopt s (registry r)) as [p g].
  destruct (register_session p s g) as [[q|e] g']; by intros [= _ <-].
Qed.
#[export] Instance no_trace_register_relay s e : Along no_trace (register_input_relay s e).
Proof. unfold register_input_relay. apply _. Qed.
#[export] Instance passes_send q : Along passes (on_host (send_incoming q)).
Proof.
  intros n x n'. unfold on_host, send_incoming.
  destruct (host_subscribed (node_host n)) eqn:Eu; intros [= _ <-]; by split.
Qed.
#[export] Instance passes_check expected s : Along passes (check_source expected s).
Proof. unfold check_source. apply _. Qed.
#[export] Instance passes_within {A} b (m : action Node NetworkError A) :
  Along passes m -> Along passes (within b m).
Proof. intros Hm n x n'. unfold within. destruct (m n) as [y n1] eqn:E. intros [= _ <-]. by eapply Hm. Qed.
#[export] Instance passes_handshake {A} (m : action Node NetworkError A) :
  Along passes m -> Along passes (with_handshake m).
Proof.
  intros Hm n x n'. unfold with_handshake.
  destruct (host_handshakes (node_host n)) as [|k] eqn:Ek; [by intros [= _ <-]|].
  destruct (m _) as [y n1] eqn:E. intros [= _ <-]. apply Hm in E as [Ht Hh Hu Hs Hl].
  split; cbn in *; congruence || done.
Qed.

Lemma passes_run {A} (m : action Node NetworkError A) `{!Along passes m} n x n' :
  m n = (x, n') -> passes n n'.
Proof. apply along. Qed.

(** The tunnel [e] is taken and released again: it is closed, no strong handle
    of it is left, and its permit is free. *)
Definition tunnel_dropped (e : nat) (n n' : Node) : Prop :=
  node_relays n' = node_relays n /\
  node_sockets n' = release_endpoint e (close_endpoint e (track_endpoint e (node_sockets n))).

(** The session answered runs over the tunnel [e], which holds its permit. *)
Definition tunnel_held (e q : nat) (n n' : Node) : Prop :=
  node_relays n = Datatypes.S (node_relays n') /\
  node_sockets n' = track_endpoint e (node_sockets n) /\ stopped (node_sockets n) = false /\
  exists t, upgrade (registry (node_runtime n')) q = Some t /\ relay_tunnel t = Some e.

(** A call that holds a tunnel while it authenticates. *)
Definition tunnelled (tokio : bool) (opened : net_result nat) (m : nat -> action Node NetworkError nat)
    : action Node NetworkError nat :=
  mbind (fun tunnel => holding_tunnel tunnel (m tunnel)) (new_input_relay_tunnel tokio opened).

Lemma new_tunnel_inv tokio opened (n : Node) x n' :
  new_input_relay_tunnel tokio opened n = (x, n') ->
  match x with
  | Ok e => opened = Ok e /\ stopped (node_sockets n) = false /\
      node_relays n = Datatypes.S (pred (node_relays n)) /\
      n' = mkNode (node_host n) (track_endpoint e (node_sockets n)) (pred (node_relays n))
  | Err _ => n' = n
  end.
Proof.
  unfold new_input_relay_tunnel. destruct tokio; cbn [negb]; [|by intros [= <- <-]].
  destruct (node_relays n) as [|k]; [by intros [= <- <-]|].
  destruct (stopped (node_sockets n)); [by intros [= <- <-]|].
  destruct opened; by intros [= <- <-].
Qed.

Lemma tunnelled_inv tokio opened (m : nat -> action Node NetworkError nat) n x n' :
  (forall e, Along passes (m e)) -> tunnelled tokio opened m n = (x, n') ->
  (exists e, x = Err e /\ n' = n) \/
  exists e n1, opened = Ok e /\ m e (mkNode (node_host n) (track_endpoint e (node_sockets n))
                                      (pred (node_relays n))) = (x, n1) /\
    node_host n' = node_host n1 /\ stopped (node_sockets n) = false /\
    ((tunnel_dropped e n n' /\
      forall q t, x = Ok q -> upgrade (registry (node_runtime n')) q = Some t -> relay_tunnel t <> Some e) \/
     exists q, x = Ok q /\ tunnel_held e q n n').
Proof.
  intros Hm [(e' & n1 & E1 & E)|(e & E1 & ->)]%act_bind_inv; apply new_tunnel_inv in E1; [|left; by eauto].
  destruct E1 as (Eo & Est & Ek & ->).
  right. unfold holding_tunnel in E. exists e'.
  destruct (m e' _) as [y n2] eqn:E2. exists n2. split; [done|].
  destruct (Hm _ _ _ _ E2) as [_ _ _ Hs Hl]; cbn in Hs, Hl.
  assert (Hdrop : tunnel_dropped e' n (drop_tunnel e' n2)).
  { unfold tunnel_dropped, drop_tunnel. cbn. by rewrite Hs, Hl, Ek. }
  destruct y as [q|z]; injection E as <- <-; [|split_and!; [done..|by left]].
  destruct (upgrade (registry (host_runtime (node_host n2))) q) as [t|] eqn:Eq.
  2:{ split_and!; [done..|]. left. split; [exact Hdrop|]. intros q' t [= <-] Ht.
      unfold node_runtime in Ht. cbn in Ht. congruence. }
  destruct (bool_decide (relay_tunnel t = Some e')) eqn:Et.
  2:{ apply bool_decide_eq_false in Et. split_and!; [done..|]. left. split; [exact Hdrop|].
      intros q' t' [= <-] Ht. unfold node_runtime in Ht. cbn in Ht. congruence. }
  apply bool_decide_eq_true in Et. split_and!; [done..|]. right. exists q. split; [done|].
  unfold tunnel_held. rewrite Hs, Hl, Ek. split_and!; [done..|]. by exists t.
Qed.

(** The two calls. *)
Inductive RelayCall :=
| ConnectRelay (target : DeviceId)
| AcceptRelay (source : DeviceId).

Definition relay_peer (call : RelayCall) : DeviceId :=
  match call with ConnectRelay id | AcceptRelay id => id end.

(** What the call of the peer meets: the identity and metadata of this device,
    the endpoint opened for the tunnel, the QUIC handshake over it, whether the
    time-out passes, and the peer's frames. *)
Record RelayEnv := mkRelayEnv {
  re_local : Local;
  re_metadata : DeviceMetadata;
  re_tokio : bool;
  re_opened : net_result nat;
  re_quic : net_result Conn;
  re_expired : bool;
  re_world : World S
}.

Definition relay_call (call : RelayCall) (v : RelayEnv) : action Node NetworkError nat :=
  match call with
  | ConnectRelay id => connect_input_relay (re_local v) (re_metadata v) id (re_tokio v)
      (re_opened v) (re_quic v) (re_expired v) (re_world v)
  | AcceptRelay id => accept_input_relay (re_local v) (re_metadata v) id (re_tokio v)
      (re_opened v) (re_quic v) (re_expired v) (re_world v)
  end.

(** What runs on the tunnel. *)
Definition relay_session (call : RelayCall) (v : RelayEnv) (p : PeerRecord) (e : nat)
    : action Node NetworkError nat :=
  match call with
  | ConnectRelay _ =>
      with_handshake
        (s ← within (re_expired v) (c ← lift (re_quic v);
               on_node_runtime (run_relay_dial c (re_local v) (re_metadata v) p (re_world v)));
         on_node_runtime (register_input_relay s e))
  | AcceptRelay _ =>
      with_handshake
        (s ← within (re_expired v)
           (c ← lift (re_quic v);
            s ← on_host (run_inbound c (re_local v) (re_metadata v) false (re_world v));
            check_source p s ;;
            on_node_runtime (require s CrossScreenInject) ;;
            mret s);
         q ← on_node_runtime (register_input_relay s e);
         on_host (send_incoming q) ;;
         mret q)
  end.

#[export] Instance passes_session call v p e : Along passes (relay_session call v p e).
Proof.
  destruct call; cbn [relay_session]; repeat first [apply _ | apply along_bind; [apply _|] | intros ?
    | apply passes_handshake | apply passes_within].
Qed.

Lemma with_handshake_inv {A} (m : action Node NetworkError A) n x n' :
  with_handshake m n = (Ok x, n') -> exists k n1,
    m (mkNode (set_handshakes k (node_host n)) (node_sockets n) (node_relays n)) = (Ok x, n1) /\
    n' = mkNode (set_handshakes (Datatypes.S (host_handshakes (node_host n1))) (node_host n1))
           (node_sockets n1) (node_relays n1).
Proof.
  unfold with_handshake. destruct (host_handshakes (node_host n)) as [|k]; [discriminate|].
  destruct (m _) as [y n1] eqn:E. intros [= -> <-]. eauto.
Qed.

Lemma within_inv {A} b (m : action Node NetworkError A) n x n' :
  within b m n = (Ok x, n') -> m n = (Ok x, n').
Proof. unfold within. destruct (m n) as [y n1]. by destruct b; intros [= -> <-]. Qed.

Lemma register_relay_inv s e (n : Node) q n' :
  on_node_runtime (register_input_relay s e) n = (Ok q, n') ->
  exists p rt, register_new (fun x => x) (with_tunnel e s) (node_runtime n) = (Ok (p, q), rt) /\
    n' = mkNode (set_host_runtime rt (node_host n)) (node_sockets n) (node_relays n).
Proof.
  intros (rt & E & ->)%on_node_runtime_inv. unfold register_input_relay in E.
  apply act_bind_ok in E as ([p q'] & rt1 & E & Er). injection Er as -> <-. eauto.
Qed.

(** What a session of the relay is once it runs on the tunnel [e]. *)
Record relay_peer_ok (p : PeerRecord) (e : nat) (c : Conn) (s : Session) : Prop := {
  rp_tunnel : relay_tunnel s = Some e;
  rp_connection : connection s = c;
  rp_kind : kind s = RealtimeInput;
  rp_device : peer_device_id (peer s) = rec_device_id p;
  rp_key : peer_public_key (peer s) = rec_public_key p
}.

Lemma relay_peer_tunnel p e c s :
  relay_tunnel s = None -> connection s = c -> kind s = RealtimeInput ->
  peer_device_id (peer s) = rec_device_id p -> peer_public_key (peer s) = rec_public_key p ->
  relay_peer_ok p e c (with_tunnel e s).
Proof. intros En ? ? ? ?. unfold with_tunnel. rewrite En. by split. Qed.

Lemma connect_session_ok id v p e n q n' :
  store_ok (store (node_runtime n)) -> relay_session (ConnectRelay id) v p e n = (Ok q, n') ->
  exists c s rt a, re_quic v = Ok c /\ relay_peer_ok p e c s /\
    registry rt = registry (node_runtime n) /\
    register_new (fun x => x) s rt = (Ok (a, q), node_runtime n').
Proof.
  intros Hs E. cbn [relay_session] in E.
  apply with_handshake_inv in E as (k & n1 & E & ->).
  apply act_bind_ok in E as (s & n2 & E1 & E2). apply within_inv in E1.
  apply act_bind_ok in E1 as (c & n3 & E3 & E1). injection E3 as Ec <-.
  apply on_node_runtime_inv in E1 as (rt & E1 & ->). unfold run_relay_dial in E1.
  destruct (authenticate_outbound_paired c _ _ p RealtimeInput _) as [y w'] eqn:Ea.
  injection E1 as -> <-. apply register_relay_inv in E2 as (a & rt & E2 & ->).
  destruct (outbound_committed c (re_local v) (re_metadata v) (ExpectedPaired p) RealtimeInput _ s w' Ea)
    as (_ & Hc & Ht & _).
  destruct (outbound_vouched c (re_local v) (re_metadata v) (ExpectedPaired p) RealtimeInput _ s w'
    (proj1 Hs : peer_repo_ok (repo (race_world (node_runtime n) true (re_world v)))) Ea)
    as (_ & _ & _ & Hk & Hd & Hkey & _).
  exists c, (with_tunnel e s). eexists. exists a. split_and!; [done|by apply relay_peer_tunnel| |exact E2].
  done.
Qed.

Lemma check_source_ok p s (n : Node) u n' :
  check_source p s n = (Ok u, n') -> n' = n /\ kind s = RealtimeInput /\
    peer_device_id (peer s) = rec_device_id p /\ peer_public_key (peer s) = rec_public_key p.
Proof.
  unfold check_source. destruct (_ || _ || _) eqn:Eb.
  - intros (? & ? & _ & E)%act_bind_ok. discriminate E.
  - intros [= _ <-]. destruct_bools. done.
Qed.

Lemma accept_session_ok id v p e n q n' :
  store_ok (store (node_runtime n)) -> relay_session (AcceptRelay id) v p e n = (Ok q, n') ->
  (exists c s rt a, re_quic v = Ok c /\ relay_peer_ok p e c s /\
    registry rt = registry (node_runtime n) /\
    register_new (fun x => x) s rt = (Ok (a, q), node_runtime n')) /\
  (exists g, held (view (store (node_runtime n))) (rec_device_id p) CrossScreenInject DirInbound = Some g) /\
  host_published (node_host n') = host_published (node_host n) ++
    (if host_subscribed (node_host n) then [q] else []).
Proof.
  intros Hs E. cbn [relay_session] in E.
  apply with_handshake_inv in E as (k & n1 & E & ->).
  apply act_bind_ok in E as (s & n2 & E1 & E). apply within_inv in E1.
  apply act_bind_ok in E1 as (c & n3 & E3 & E1). injection E3 as Ec <-.
  apply act_bind_ok in E1 as (s' & n4 & E3 & E1). pose proof (passes_run _ _ _ _ E3) as Hp4.
  apply act_bind_ok in E1 as (u & n5 & E5 & E1). apply check_source_ok in E5 as (-> & Hk & Hd & Hkey).
  apply act_bind_ok in E1 as (g & n6 & E6 & E1). injection E1 as -> <-.
  pose proof (passes_run _ _ _ _ E6) as Hp6.
  unfold on_host in E3. destruct (run_inbound c _ _ false _ (node_host _)) as [y h] eqn:Ei.
  injection E3 as -> <-. apply run_inbound_inv in Ei as ((w' & Ea) & Hg & _ & Hpub).
  destruct (inbound_committed c _ _ _ s w' Ea) as (Hc & Ht & _).
  apply on_node_runtime_inv in E6 as (rt & E6 & ->). unfold require in E6.
  apply on_store_inv in E6 as (s2 & E6 & ->). apply act_map_err_inv in E6 as (z & E6 & Hz).
  symmetry in Hz. apply map_err_ok in Hz as ->.
  destruct (ps_trace _ _ Hp4) as [Ht4 _]. destruct (Ht4 Hs) as (Hs4 & [_ Hh4] & _).
  destruct (authorize_spec S _ _ _ _ _ Hs4 E6) as (_ & _ & _ & Hauth).
  destruct (Hauth g eq_refl) as (gr & Hgr & _).
  apply act_bind_ok in E as (q' & n7 & E7 & E). apply register_relay_inv in E7 as (a & rt & E7 & ->).
  assert (Hsend : q' = q /\ n1 = mkNode (send_incoming q (set_host_runtime rt (set_host_runtime
    {| store := s2; discovery := discovery (host_runtime h); registry := registry (host_runtime h) |} h))).2
    (node_sockets n) (node_relays n)).
  { apply act_bind_ok in E as ([] & n8 & E8 & E). unfold mret, action_ret in E. injection E as -> <-.
    unfold on_host in E8. cbn in E8. unfold send_incoming in *. cbn in *. by destruct (host_subscribed h);
    injection E8 as <-. }
  destruct Hsend as [-> ->]. pose proof (ps_subscribed _ _ Hp4) as Hsub. cbn in Hsub, Hpub, Hg.
  split_and!.
  - exists c, (with_tunnel e s). eexists. exists a. split_and!; [done|by apply relay_peer_tunnel| |].
    2:{ unfold send_incoming. cbn. destruct (host_subscribed h); exact E7. }
    exact Hg.
  - exists gr. cbn in Hh4. by rewrite Hh4, <- Hd.
  - unfold send_incoming. cbn. rewrite <- Hsub. destruct (host_subscribed h); cbn; rewrite Hpub;
      [done|by rewrite app_nil_r].
Qed.

(** A call looks the peer up first; an outgoing one may find a session. *)
Lemma relay_call_inv call v n x n' :
  relay_call call v n = (x, n') ->
  exists n1, passes n n1 /\ host_published (node_host n1) = host_published (node_host n) /\
    ((exists e, x = Err e /\ n' = n1) \/
     exists p s1, require_paired (relay_peer call) None (store (node_runtime n)) = (Ok p, s1) /\
       ((exists q, call = ConnectRelay (relay_peer call) /\ x = Ok q /\ n' = n1 /\
           (active (relay_peer call) RealtimeInput (registry (node_runtime n))) =
             (Some q, registry (node_runtime n1))) \/
        tunnelled (re_tokio v) (re_opened v) (relay_session call v p) n1 = (x, n') /\
        (registry (node_runtime n1) = registry (node_runtime n) \/
         registry (node_runtime n1) = (active (relay_peer call) RealtimeInput (registry (node_runtime n))).2))).
Proof.
  assert (Hreq : forall id y (m : Node), on_node_runtime (on_store (require_paired id None)) n = (y, m) ->
    passes n m /\ host_published (node_host m) = host_published (node_host n) /\
    registry (node_runtime m) = registry (node_runtime n) /\ exists s1, require_paired id None (store (node_runtime n)) = (y, s1)).
  { intros id y m Em.
    split; [exact (passes_run _ _ _ _ Em)|].
    apply on_node_runtime_inv in Em as (rt & Em & ->). apply on_store_inv in Em as (s1 & Em & ->).
    split_and!; [done..|by exists s1]. }
  destruct call as [id|id]; cbn [relay_call relay_peer]; unfold connect_input_relay, accept_input_relay;
    intros [(p & n1 & E1 & E)|(e & E1 & ->)]%act_bind_inv; destruct (Hreq _ _ _ E1) as (Hp & Hpub & Hg & s1 & Es);
    try (exists n'; split_and!; [done..|]; left; by eauto).
  - apply act_bind_inv in E as [(found & n2 & E2 & E)|(e & E2 & _)];
      [|apply on_node_runtime_inv in E2 as (rt & E2 & _); unfold on_registry in E2;
        destruct (active _ _ _); discriminate E2].
    assert (Hp2 : passes n1 n2) by exact (passes_run _ _ _ _ E2).
    apply on_node_runtime_inv in E2 as (rt & E2 & ->). unfold on_registry in E2. rewrite Hg in E2.
    destruct (active id RealtimeInput (registry (node_runtime n))) as [a g] eqn:Ea.
    injection E2 as <- <-. eexists. split_and!; [by etransitivity | done |]. right. exists p, s1. split; [done|].
    destruct a as [q|].
    + injection E as <- <-. left. by exists q.
    + right. split; [exact E | by right].
  - exists n1. split_and!; [done..|]. right. exists p, s1. split; [done|]. right. split; [exact E | by left].
Qed.

(** The session [t] of the tunnel [e] is the one authenticated over it, and its
    connection is as open as before. *)
Definition on_tunnel (e : nat) (c : Conn) (p : PeerRecord) (t : Session) (g g' : Registry) : Prop :=
  relay_peer_ok p e c t /\ conn_open g' c = conn_open g c.

(** The session answered is registered: one that was held before the call, or a
    new one, which runs on the tunnel. *)
Definition relay_answer (p : PeerRecord) (e : nat) (quic : net_result Conn) (q : nat) (g g' : Registry)
    : Prop :=
  reachable g' /\ exists t, upgrade g' q = Some t /\
    session_key t = (rec_device_id p, RealtimeInput) /\ registered_as q t g' /\
    (arcs g !! q = Some t \/
     (arcs g !! q = None /\ exists c, quic = Ok c /\ on_tunnel e c p t g g')).

Lemma relay_registered s e c p quic (rt rt' : Runtime S) a q :
  reachable (registry rt) -> fresh_conn c (registry rt) -> quic = Ok c ->
  relay_peer_ok p e c s -> register_new (fun x : NetworkError => x) s rt = (Ok (a, q), rt') ->
  relay_answer p e quic q (registry rt) (registry rt').
Proof.
  intros Hr Hf Hq Hp E.
  assert (Hf' : fresh_conn (connection s) (registry rt)) by by rewrite (rp_connection _ _ _ _ Hp).
  destruct (register_new_inv _ _ _ _ _ Hr Hf' E) as (Hr' & _ & _ & _ & _ & Hown & _).
  destruct (register_new_kept _ _ _ _ _ _ Hr Hf' E) as (t & Ht & Hk & Hreg & Hcase).
  split; [done|]. exists t. split_and!; [done| |done|].
  - rewrite Hk. unfold session_key. by rewrite (rp_kind _ _ _ _ Hp), (rp_device _ _ _ _ Hp).
  - destruct Hcase as [(-> & -> & Hnone)|Hold]; [right|by left]. split; [done|].
    destruct (Hown eq_refl) as (b & _ & _ & _ & Ho). exists c. split; [done|]. split; [done|].
    by rewrite (rp_connection _ _ _ _ Hp) in Ho.
Qed.

(** What the authenticated part of a call answers, from the registry [g] before
    the call looked for an active session. *)
Lemma relay_session_answers d call v p e n q n' (g : Registry) :
  store_ok (store (node_runtime n)) -> reachable g -> (forall c, re_quic v = Ok c -> fresh_conn c g) ->
  registry (node_runtime n) = g \/ registry (node_runtime n) = (active d RealtimeInput g).2 ->
  relay_session call v p e n = (Ok q, n') ->
  relay_answer p e (re_quic v) q g (registry (node_runtime n')).
Proof.
  intros Hs Hr Hf Hg E.
  assert (Hgoal : exists c s rt a, re_quic v = Ok c /\ relay_peer_ok p e c s /\
    registry rt = registry (node_runtime n) /\
    register_new (fun x => x) s rt = (Ok (a, q), node_runtime n')).
  { destruct call; [by eapply connect_session_ok in E|by eapply accept_session_ok in E as [? _]]. }
  destruct Hgoal as (c & s & rt & a & Ec & Hps & Ert & Ereg). rewrite <- Ert in Hg.
  assert (Hg1 : evolves g (registry rt) /\ reachable (registry rt) /\ arcs (registry rt) = arcs g /\
    forall c, conn_open (registry rt) c = conn_open g c).
  { destruct Hg as [->| ->]; [done|]. split_and!; [apply evolves_active| | |intros; apply active_open].
    - eapply reachable_step; [exact Hr | apply step_active].
    - unfold active. by repeat case_match. }
  destruct Hg1 as (Hev & Hr1 & Ha & Ho).
  destruct (relay_registered s e c p (re_quic v) rt _ a q Hr1 (evolves_fresh _ _ _ Hev (Hf c Ec)) Ec Hps Ereg)
    as (Hr2 & t & Hu & Ekey & Hreg & Hcase).
  split; [done|]. exists t. rewrite <- Ha. split_and!; [done..|].
  destruct Hcase as [?|(? & c' & ? & ? & Ho')]; [by left|right]. split; [done|]. exists c'.
  split; [done|]. split; [done|]. by rewrite Ho', Ho.
Qed.
End facts.

(** ** Properties *)

Section properties.
Context `{PeerApi} `{Crypto} `{WireApi} `{Transport} `{!Remote} {S : Type} `{!PeerRepository S}
  `{!EndpointRepository S} `{!PeerService S}.
Context `{!PeerLaws} `{!TransportLaws} `{!PeerRepositoryLaws S} `{!EndpointRepositoryLaws S}
  `{!StoreLaws S} `{!PeerServiceLaws S}.

(** C24. The loopback addresses of a relay enter neither discovery nor the
    remembered endpoints: however an input relay ends, on either side, discovery,
    the endpoints stored for every device, its trust and its grants are what they
    were. *)
Theorem relay_leaves_no_trace call v (n : Node S) x n' :
  store_ok (store (node_runtime n)) -> relay_call call v n = (x, n') ->
  discovery (node_runtime n') = discovery (node_runtime n) /\
  view_eq (view (store (node_runtime n))) (view (store (node_runtime n'))) /\
  same_stored (store (node_runtime n)) (store (node_runtime n')).
Proof.
  intros Hs E. enough (Ht : no_trace (node_runtime n) (node_runtime n')).
  { destruct Ht as [Ht Hd]. by destruct (Ht Hs) as (_ & ? & ?). }
  apply relay_call_inv in E as (n1 & [Hp _ _ _ _] & _ & [(e & _ & ->)|(p & s1 & _ & E)]); [done|].
  destruct E as [(q & _ & _ & -> & _)|[E _]]; [done|]. etransitivity; [exact Hp|].
  apply tunnelled_inv in E as [(e & _ & ->)|(e & n2 & _ & E & Eh & _)]; [done| |apply _].
  apply passes_run in E as [Ht _ _ _ _]; [|apply _]. unfold node_runtime in *. by rewrite Eh.
Qed.

(** C23. When the call of an input relay returns, it holds a permit of the tunnels
    exactly if it answers a new session, which then runs on the tunnel of this
    call, its private endpoint tracked by the runtime; if it fails, or answers a session that
    was held before the call, the permit is back, and an endpoint that was opened
    is closed and released.  The permit of the handshake gate is returned either
    way, and no tunnel is opened once the shutdown has begun. *)
Theorem relay_accounting call v (n : Node S) x n' (g := registry (node_runtime n)) :
  store_ok (store (node_runtime n)) -> reachable g ->
  (forall c, re_quic v = Ok c -> fresh_conn c g) ->
  (forall e r t, re_opened v = Ok e -> arcs g !! r = Some t -> relay_tunnel t <> Some e) ->
  relay_call call v n = (x, n') ->
  host_handshakes (node_host n') = host_handshakes (node_host n) /\
  (((forall q, x = Ok q -> is_Some (arcs g !! q)) /\
    ((node_relays n' = node_relays n /\ node_sockets n' = node_sockets n) \/
     exists e, re_opened v = Ok e /\ stopped (node_sockets n) = false /\ tunnel_dropped e n n')) \/
   exists q e, x = Ok q /\ arcs g !! q = None /\ re_opened v = Ok e /\ tunnel_held e q n n').
Proof.
  intros Hs Hr Hf Hnew
    (n1 & [Hno Hh _ Hso Hrl] & _ & [(e & -> & ->)|(p & s1 & _ & E)])%relay_call_inv.
  { split; [done|]. left. split; [done|]. by left. }
  destruct (Hno) as [Ht1 _]. destruct (Ht1 Hs) as (Hs1 & _).
  destruct E as [(q & _ & -> & -> & Ha)|[E Hg]].
  { split; [done|]. left. split; [|by left]. intros q' [= <-].
    destruct (active_found _ _ _ _ _ (reachable_ok _ Hr) Ha) as (_ & t & Hu & _). by exists t. }
  apply tunnelled_inv in E as [(e & -> & ->)|(e & n2 & Eo & E & Eh & Est & Ht)]; [| |apply _].
  { split; [done|]. left. split; [done|]. by left. }
  assert (Hans : forall q, x = Ok q -> relay_answer p e (re_quic v) q g (registry (node_runtime n2))).
  { intros q ->. by eapply relay_session_answers in E. }
  apply passes_run in E as [_ Hh2 _ _ _]; [|apply _]. rewrite Eh, Hh2. split; [exact Hh|].
  unfold tunnel_dropped, tunnel_held in *. rewrite Hso, Hrl in Ht. rewrite Hso in Est.
  unfold node_runtime in *. rewrite Eh in Ht |- *.
  destruct Ht as [[Hd Hne]|(q & -> & Hd & Hd2 & Hd3 & t & Hu & Et)].
  - left. split; [|right; by exists e]. intros q Hq.
    destruct (Hans q Hq) as (_ & t & Hu & _ & _ & [Ho|(_ & c & _ & Hps & _)]); [by exists t|].
    by destruct (Hne q t Hq Hu (rp_tunnel _ _ _ _ Hps)).
  - right. exists q, e. destruct (Hans q eq_refl) as (_ & t' & Hu' & _ & _ & Hcase).
    rewrite Hu in Hu'. injection Hu' as <-. destruct Hcase as [Ho|[Hn _]].
    + by destruct (Hnew e q t Eo Ho).
    + split_and!; [done..|by exists t].
Qed.

(** C22. The session an input relay answers is a realtime-input session with the
    paired device the caller named, registered under that device and kind.  It
    was held before the call, or it is a new one and runs on the tunnel this call
    has opened: over the connection of this tunnel, authenticated with the key of
    the pairing, so that the middle device only carries packets.  An accepted
    relay is answered only when that device holds the inbound grant of
    cross-screen injection, and its session is what the subscribers are sent. *)
Theorem relay_session_sound call v (n : Node S) q n' (g := registry (node_runtime n))
    (g' := registry (node_runtime n')) :
  store_ok (store (node_runtime n)) -> reachable g ->
  (forall c, re_quic v = Ok c -> fresh_conn c g) ->
  relay_call call v n = (Ok q, n') ->
  reachable g' /\
  exists p t, known (view (store (node_runtime n))) (relay_peer call) = Some p /\ trust_state p = Paired /\
    upgrade g' q = Some t /\ session_key t = (relay_peer call, RealtimeInput) /\ registered_as q t g' /\
    (arcs g !! q = Some t \/
     (arcs g !! q = None /\ exists e c, re_opened v = Ok e /\ re_quic v = Ok c /\ on_tunnel e c p t g g')) /\
    match call with
    | ConnectRelay _ => True
    | AcceptRelay source =>
        (exists gr, held (view (store (node_runtime n))) source CrossScreenInject DirInbound = Some gr) /\
        host_published (node_host n') = host_published (node_host n) ++
          (if host_subscribed (node_host n) then [q] else [])
    end.
Proof.
  intros Hs Hr Hf E. apply relay_call_inv in E as (n1 & Hp1 & Hpub1 & [(e & [=] & _)|(p & s1 & Ep & E)]).
  destruct (require_paired_run _ _ _ _ _ (proj1 Hs) Ep) as (_ & _ & Hk).
  destruct (Hk p eq_refl) as (Hknown & Htrust & _).
  destruct (known_key _ _ _ (proj1 Hs) Hknown) as [Hid _].
  destruct (ps_trace _ _ Hp1) as [Ht1 _]. destruct (Ht1 Hs) as (Hs1 & Hv1 & _).
  destruct E as [(q' & -> & [= <-] & -> & Ha)|[E Hg]].
  - destruct (active_found _ _ _ _ _ (reachable_ok _ Hr) Ha) as (Hg & _).
    destruct (active_kept _ _ _ _ _ (reachable_ok _ Hr) Ha) as (t & Hu & Ekey & Hreg).
    subst g'. rewrite Hg. split; [done|]. exists p, t. split_and!; try done. by left.
  - apply tunnelled_inv in E as [(e & [=] & _)|(e & n2 & Eo & E & Eh & _)]; [|apply _].
    destruct (relay_session_answers _ _ _ _ _ (mkNode (node_host n1) _ _) _ _ g Hs1 Hr Hf Hg E)
      as (Hr2 & t & Hu & Ekey & Hreg & Hcase).
    assert (En' : node_runtime n' = node_runtime n2) by (unfold node_runtime; by rewrite Eh).
    subst g'. rewrite En'. split; [done|]. exists p, t. rewrite Hid in Ekey. split_and!; try done.
    + destruct Hcase as [?|(? & c & ? & ?)]; [by left|right]. split; [done|]. by exists e, c.
    + destruct call as [id|id]; [done|]. cbn [relay_peer] in *.
      eapply accept_session_ok in E as (_ & (gr & Hheld) & Hpub); [|done]. cbn in Hheld, Hpub.
      rewrite Eh, Hpub. destruct Hv1 as [_ Hh]. rewrite Hid in Hheld. split.
      * exists gr. by rewrite Hh.
      * by rewrite (ps_subscribed _ _ Hp1), Hpub1.
Qed.
End properties.

Section bridge_property.
Context (MAX_INPUT_RELAY_PACKET_SIZE : nat).

(** The bridge carries packets and nothing else: what the private endpoint
    sends leaves the stream of the other side unchanged, in order and one
    datagram each, as long as a datagram is not empty and fits a packet;
    datagrams from any other socket never enter the stream. *)
Theorem bridge_carries_packets local (datagrams : list (list byte * SocketAddr)) :
  (forall d, d ∈ datagrams -> d.2 = local -> (0 < length d.1 <= MAX_INPUT_RELAY_PACKET_SIZE)%nat) ->
  bridge_inbound (map Ok (bridge_outbound MAX_INPUT_RELAY_PACKET_SIZE local datagrams)) =
  (map fst (List.filter (fun d => bool_decide (d.2 = local)) datagrams), None).
Proof.
  induction datagrams as [|[d a] l IH]; intros Hd; [done|].
  cbn [bridge_outbound List.filter fst snd].
  assert (IH' := IH (fun x Hx => Hd x (proj2 (elem_of_cons _ _ _) (or_intror Hx)))).
  destruct (bool_decide (a = local)) eqn:Ea; cbn [negb orb]; [|done].
  apply bool_decide_eq_true in Ea as ->.
  destruct (Hd (d, local) ltac:(by left) eq_refl) as [Hpos Hmax]; cbn in Hpos, Hmax.
  rewrite take_ge by lia. destruct d as [|b d]; [cbn in Hpos; lia|].
  cbn [length Nat.eqb map bridge_inbound]. by rewrite IH'.
Qed.
End bridge_property.

(** ** Witnesses *)

Module SampleRelay.
Import SamplePeer SampleWire SampleCrypto SampleRegistry SampleDb SampleRun SampleDial.

#[local] Existing Instance sqlite_peer_service.
#[local] Existing Instance sqlite_peer_service_laws.

Definition input_hello (me : byte) : SessionHello :=
  local_hello (local me) meta RealtimeInput (repeat me 32).
Definition input_transcript : list byte :=
  default [] (to_option (session_transcript (Some tls) (input_hello x41) (input_hello x42))).
Definition input_frames (me other : byte) : list (list byte) :=
  default [] (to_option (frames_of (local me) (input_hello me) (side me other []) input_transcript)).
Definition input_side (me other : byte) : World Sqlite := side me other (input_frames other me).

(** The grant a device gives the one with key [k]. *)
Definition injection (k : byte) : Grant :=
  mkGrant (id_of_key (repeat k 32)) Inject DirInbound ConstraintsNone 20.
Definition granting (k : byte) : Sqlite := (sql_save_pairing (record k) [injection k] empty).2.

(** A device with key [me] that has granted the injection to the one with [other]. *)
Definition node (me other : byte) : Node Sqlite :=
  mkNode (mkHost (mkRuntime (granting other) (mkDiscovery (local_device_id (local me)) ∅ ∅ ∅ [] 0) start)
            ∅ 4 32 false true []) bound 8.

Definition env (me other : byte) (expired : bool) : RelayEnv (S := Sqlite) :=
  mkRelayEnv (local me) meta true (Ok 5%nat) (Ok (12%nat : @Conn transport)) expired (input_side me other).

Definition peer_a : DeviceId := id_of_key (repeat x41 32).
Definition peer_b : DeviceId := id_of_key (repeat x42 32).

Abbreviation relayed := (relay_call (AcceptRelay peer_a) (env x42 x41 false) (node x42 x41)).
Abbreviation dialled_relay := (relay_call (ConnectRelay peer_b) (env x41 x42 false) (node x41 x42)).
Abbreviation late := (relay_call (AcceptRelay peer_a) (env x42 x41 true) (node x42 x41)).

Lemma node_ok me other : other = x41 \/ other = x42 -> store_ok (store (node_runtime (node me other))).
Proof.
  intros Ho. assert (Hdb : db_ok (db (granting other))).
  { apply (db_call_ok empty (DbSavePairing (record other) [injection other])); [|apply empty_ok].
    by destruct Ho as [->| ->]. }
  split; exact Hdb.
Qed.
End SampleRelay.

Section witnesses.
Import SamplePeer SampleWire SampleCrypto SampleRegistry SampleDb SampleRun SampleDial SampleRelay.

#[local] Existing Instance sqlite_peer_service.
#[local] Existing Instance sqlite_peer_service_laws.

Lemma relayed_ok : bool_decide (relayed.1 = Ok 1%nat) = true.
Proof. vm_compute. reflexivity. Qed.
Lemma dialled_relay_ok : bool_decide (dialled_relay.1 = Ok 1%nat) = true.
Proof. vm_compute. reflexivity. Qed.
Lemma late_ok : bool_decide (late.1 = Err Timeout) = true.
Proof. vm_compute. reflexivity. Qed.

Lemma relay_leaves_no_trace_witness :
  discovery (node_runtime relayed.2) = discovery (node_runtime (node x42 x41)) /\
  same_stored (store (node_runtime (node x42 x41))) (store (node_runtime relayed.2)).
Proof.
  destruct (relay_leaves_no_trace (AcceptRelay peer_a) (env x42 x41 false) (node x42 x41) relayed.1 relayed.2
    (node_ok x42 x41 (or_introl eq_refl)) (surjective_pairing relayed)) as (Hd & _ & Hs).
  split; [exact Hd | exact Hs].
Defined.

(** No connection is in use yet. *)
Lemma fresh_start (me other : byte) c : fresh_conn c (registry (node_runtime (node me other))).
Proof. by apply conn_unused_spec. Qed.

Lemma no_session_start (me other : byte) r t :
  arcs (registry (node_runtime (node me other))) !! r = Some t -> False.
Proof. intros Ht. cbn in Ht. by apply lookup_empty_Some in Ht. Qed.

(** A call that runs into the time-out gives its tunnel back; one that answers a
    session keeps it. *)
Lemma relay_accounting_witness :
  tunnel_dropped 5 (node x42 x41) late.2 /\ tunnel_held 5 1 (node x42 x41) relayed.2.
Proof.
  split.
  - destruct (relay_accounting (AcceptRelay peer_a) (env x42 x41 true) (node x42 x41) late.1 late.2
      (node_ok x42 x41 (or_introl eq_refl)) reachable_start (fun c _ => fresh_start x42 x41 c)
      (fun e r t _ Ht => False_ind _ (no_session_start x42 x41 r t Ht)) (surjective_pairing late))
      as (_ & [(_ & [[_ Hso]|(e & He & _ & Hd)])|(q & e & Hq & _)]).
    + apply (f_equal recovery_endpoints) in Hso. revert Hso. vm_compute. discriminate.
    + injection He as <-. exact Hd.
    + pose proof late_ok as Hl. rewrite Hq in Hl. discriminate Hl.
  - assert (E : relayed = (Ok 1%nat, relayed.2)) by exact (answered_pair _ _ relayed_ok).
    destruct (relay_accounting (AcceptRelay peer_a) (env x42 x41 false) (node x42 x41) (Ok 1%nat) relayed.2
      (node_ok x42 x41 (or_introl eq_refl)) reachable_start (fun c _ => fresh_start x42 x41 c)
      (fun e r t _ Ht => False_ind _ (no_session_start x42 x41 r t Ht)) E)
      as (_ & [(Hold & _)|(q & e & [= <-] & _ & He & Hheld)]).
    + destruct (Hold 1%nat eq_refl) as [t Ht]. destruct (no_session_start x42 x41 _ t Ht).
    + injection He as <-. exact Hheld.
Defined.

Lemma relay_session_sound_witness : exists p t c,
  upgrade (registry (node_runtime relayed.2)) 1%nat = Some t /\
  session_key t = (peer_a, RealtimeInput) /\ host_published (node_host relayed.2) = [1%nat] /\
  relay_peer_ok p 5 c t.
Proof.
  assert (E : relayed = (Ok 1%nat, relayed.2)) by exact (answered_pair _ _ relayed_ok).
  destruct (relay_session_sound (AcceptRelay peer_a) (env x42 x41 false) (node x42 x41) 1%nat relayed.2
    (node_ok x42 x41 (or_introl eq_refl)) reachable_start (fun c _ => fresh_start x42 x41 c) E)
    as (_ & p & t & _ & _ & Hu & Hk & _ & [Hold|(_ & e & c & He & _ & Hps & _)] & _ & Hp).
  - destruct (no_session_start x42 x41 _ t Hold).
  - injection He as <-. exists p, t, c. split_and!; [exact Hu|exact Hk|exact Hp|exact Hps].
Defined.

Lemma bridge_carries_packets_witness :
  bridge_inbound (map Ok (bridge_outbound 3 sample_address
    [([x41; x42], sample_address); ([x43], other_address); ([x44; x45; x46], sample_address)])) =
  ([[x41; x42]; [x44; x45; x46]], None).
Proof.
  rewrite (bridge_carries_packets 3 sample_address); [reflexivity|].
  apply (proj1 (Forall_forall (fun d => d.2 = sample_address -> (0 < length d.1 <= 3)%nat) _)).
  repeat (apply Forall_cons; split; [intros Heq; first [discriminate Heq | cbn; lia]|]).
  constructor.
Defined.
End witnesses.
