(* ===== verification/Connect.v ===== *)
(** * Connect

    The ways to a session (runtime.rs): to an advertised, a discovered or a
    remembered device, along a relayed route, to a host entered by hand, and
    the pairing that starts with one; with the probe of a single endpoint. *)

From S2P Require Import Prelude Errors Addr Peer Wire Grants Registry Endpoint RepositoryDb Repository.
From S2P Require Import Store Text Identity Discovery Probe Handshake Auth Mutual Features Trust Pairing.
From S2P Require Import Sockets Calls Dial.

(** ** Hosts *)

(** The length of a UTF-8 character by its first byte. *)
Definition char_width (c : ascii) : nat :=
  let n := nat_of_ascii c in
  if (n <? 192)%nat then 1 else if (n <? 224)%nat then 2 else if (n <? 240)%nat then 3 else 4.

(** [str::chars], each character as its bytes; [left] bytes of the character
    [cur] are still to come. *)
Fixpoint chars_from (cur : string) (left : nat) (s : string) : list string :=
  match s with
  | EmptyString => if String.eqb cur "" then [] else [cur]
  | String c s' =>
      let cur' := (cur +:+ String c "")%string in
      let left' := match left with O => pred (char_width c) | S k => k end in
      match left' with
      | O => cur' :: chars_from "" 0 s'
      | S _ => chars_from cur' left' s'
      end
  end.

Definition chars (s : string) : list string := chars_from "" 0 s.

(** [char::is_whitespace]: the characters of Unicode's White_Space. *)
Definition whitespace : list (list byte) :=
  [[x09]; [x0a]; [x0b]; [x0c]; [x0d]; [x20]; [xc2; x85]; [xc2; xa0]; [xe1; x9a; x80]]
  ++ map (fun b => [xe2; x80; b])
       [x80; x81; x82; x83; x84; x85; x86; x87; x88; x89; x8a; xa8; xa9; xaf]
  ++ [[xe2; x81; x9f]; [xe3; x80; x80]].

Definition is_whitespace (c : string) : bool := bool_decide (as_bytes c ∈ whitespace).

Fixpoint skip_while {A} (p : A -> bool) (l : list A) : list A :=
  match l with
  | [] => []
  | x :: l' => if p x then skip_while p l' else l
  end.

(** [str::trim] *)
Definition trim (s : string) : string :=
  String.concat "" (rev (skip_while is_whitespace (rev (skip_while is_whitespace (chars s))))).

Definition host_refused (host : string) : bool :=
  String.eqb host "" || (253 <? slen host) || existsb is_whitespace (chars host).

(** The ports of a manual host: the one given, or 8765 through 8775. *)
Definition manual_ports (port : option Z) : net_result (list Z) :=
  match port with
  | Some 0 => Err (Connect "endpoint port cannot be zero")
  | Some port => Ok [port]
  | None => Ok (map (fun i => 8765 + Z.of_nat i) (seq 0 11))
  end.

(** The loop over the ports with the [sort], [dedup] and [truncate] after it;
    [resolve] is [lookup_host] within its time-out. *)
Definition manual_endpoints (resolve : string -> Z -> option (list SocketAddr)) (host : string)
    (ports : list Z) : list SocketAddr :=
  take 32 (sort_dedup (flat_map (fun port =>
    List.filter is_dialable (default [] (resolve host port))) ports)).

(** ** Routes *)

(** The filter of [connect_paired_at]. *)
Definition route_dialable (address : SocketAddr) : bool :=
  negb (sock_port address =? 0)
  && (negb (is_loopback (sock_ip address)) || cfg_test)
  && negb (is_unspecified (sock_ip address))
  && negb (is_multicast (sock_ip address)).

Definition route_addresses (addresses : list SocketAddr) : list SocketAddr :=
  sort_dedup (List.filter route_dialable addresses).

Section connect.
Context `{PeerApi} `{Crypto} `{WireApi} `{Transport} `{!Remote} {S : Type} `{!PeerRepository S}
  `{!EndpointRepository S} `{!PeerService S}.

(** ** Dials *)

Definition Net : Type := Runtime S * Sockets.

Definition on_rt {E A} (m : action (Runtime S) E A) : action Net E A := fun '(rt, sk) =>
  let (x, rt') := m rt in (x, (rt', sk)).

(** What the call of a dial meets: the calls of other tasks while it waits for
    its gate, the schedules and deadlines of its races, the time it reads the
    remembered endpoints at, and the surroundings of a recovery socket. *)
Record DialEnv := mkDialEnv {
  de_waiting : list RuntimeCall;
  de_first : list (RaceEvent S);
  de_second : list (RaceEvent S);
  de_now : Z;
  de_now' : Z;
  de_clock : Z;
  de_tokio : bool;
  de_opened : net_result nat
}.

(** [acquire_session_dial]: one dial at a time holds the gate of a device and
    kind; until then the rest of the runtime goes on. *)
Definition acquire_session_dial (v : DialEnv) : action Net NetworkError unit := fun '(rt, sk) =>
  (Ok tt, (fold_left (fun r call => run_call call r) (de_waiting v) rt, sk)).

Definition race (d : Dial) (addresses : list SocketAddr) (v : DialEnv) : action Net NetworkError nat :=
  race_endpoints d addresses (de_first v) (de_second v) (de_now v) (de_now' v) (de_tokio v) (de_opened v).

(** The addresses [connect] races. *)
Definition advertised_addresses (p : PeerAdvertisement) : list SocketAddr :=
  match Discovery.connection_addresses p with
  | [] => map (fun ip => sock_new ip (Discovery.port p)) (Discovery.addresses p)
  | l => l
  end.

(** [NetworkRuntime::connect] *)
Definition connect (l : Local) (p : PeerAdvertisement) (k : SessionKind) (v : DialEnv)
    : action Net NetworkError nat :=
  act_reject (bool_decide (adv_device_id p = local_device_id l)) SelfConnection ;;
  (if nearby_kind k then mret tt
   else on_rt (on_store (require_paired (adv_device_id p) (Some (adv_public_key p)))) ;; mret tt) ;;
  acquire_session_dial v ;;
  found ← on_rt (on_registry (active (adv_device_id p) k));
  match found with
  | Some q => mret q
  | None => race (mkDial l (ExpectedAdvertised p) k Mdns None) (advertised_addresses p) v
  end.

(** [NetworkRuntime::connect_remembered] *)
Definition connect_remembered (l : Local) (id : DeviceId) (k : SessionKind) (v : DialEnv)
    : action Net NetworkError nat :=
  p ← on_rt (on_store (require_paired id None));
  acquire_session_dial v ;;
  found ← on_rt (on_registry (active id k));
  match found with
  | Some q => mret q
  | None =>
      remembered ← on_rt (on_store (endpoints (de_clock v) id));
      act_reject (is_empty remembered) (Connect "peer has no remembered authenticated endpoint") ;;
      race (mkDial l (ExpectedPaired p) k History None) (map ep_address remembered) v
  end.

(** [NetworkRuntime::connect_discovered] *)
Definition connect_discovered (l : Local) (id : DeviceId) (k : SessionKind) (v : DialEnv)
    : action Net NetworkError nat := fun n =>
  match discovery_peer (discovery n.1) id with
  | Some p => connect l p k v n
  | None => connect_remembered l id k v n
  end.

(** [NetworkRuntime::connect_paired_at] *)
Definition connect_paired_at (l : Local) (id : DeviceId) (addresses : list SocketAddr) (k : SessionKind)
    (v : DialEnv) : action Net NetworkError nat :=
  p ← on_rt (on_store (require_paired id None));
  act_reject (16 <? length addresses)%nat (Protocol "relayed peer route exceeds endpoint limit") ;;
  act_reject (is_empty (route_addresses addresses))
    (Connect "relayed peer route has no dialable address") ;;
  acquire_session_dial v ;;
  found ← on_rt (on_registry (active id k));
  match found with
  | Some q => mret q
  | None => race (mkDial l (ExpectedPaired p) k Relayed None) (route_addresses addresses) v
  end.

(** [NetworkRuntime::begin_pairing]: [fresh_id] is the id of the stream, and
    [w] the stream's surroundings.  [encode_to_vec] does not fail, and a session
    that is answered is held. *)
Definition begin_pairing (l : Local) (p : PeerAdvertisement) (requests : list PairingGrantRequest)
    (v : DialEnv) (fresh_id : Z) (w : World S) : action Net NetworkError PendingPairing :=
  requested ← lift (collect_requests ∅ requests);
  q ← connect l p Pairing v;
  (fun '(rt, sk) =>
     (match upgrade (registry rt) q with
      | Some s =>
          payload ← map_err Protocol (encode (pairing_request requested));
          _ ← (open_feature_stream fresh_id "arcrelay.pairing" payload w).1;
          Ok (mkPending s requested)
      | None => Err (Protocol "no session")
      end, (rt, sk))).

(** ** Probes *)

(** What a probe meets. *)
Record ProbeEnv := mkProbeEnv {
  pe_quic : net_result Conn;
  pe_expired : bool;
  pe_world : World S;
  pe_now : Z;
  pe_now' : Z
}.

(** [timeout(.., self.authenticate_outbound_probe(connection))] *)
Definition run_probe (c : Conn) (l : Local) (md : DeviceMetadata) (expired : bool) (w : World S)
    : action (Runtime S) NetworkError Session := fun rt =>
  let '(x, w') := authenticate_outbound_probe c l md (race_world rt true w) in
  (if expired then Err Timeout else x, mkRuntime (repo w') (discovery rt) (registry rt)).

(** [NetworkRuntime::probe_endpoint] *)
Definition probe_endpoint (l : Local) (md : DeviceMetadata) (remote : SocketAddr) (source : EndpointSource)
    (v : ProbeEnv) : action (Runtime S) NetworkError PeerAdvertisement :=
  act_reject (negb (is_dialable remote)) (Connect "endpoint is not dialable") ;;
  c ← lift (pe_quic v);
  s ← run_probe c l md (pe_expired v) (pe_world v);
  p ← remember_authenticated_session (pe_now v) (pe_now' v) s (conn_remote (connection s)) source;
  close_session s "discovery probe completed" ;;
  mret p.

(** The search of the snapshot for an endpoint, and the advertisement cut down
    to it. *)
Definition serves (endpoint : SocketAddr) (p : PeerAdvertisement) : bool :=
  bool_decide (endpoint ∈ Discovery.connection_addresses p)
  || (Discovery.port p =? sock_port endpoint) && bool_decide (sock_ip endpoint ∈ Discovery.addresses p).

Definition selected (endpoint : SocketAddr) (p : PeerAdvertisement) : PeerAdvertisement :=
  mkAdvertisement (adv_device_id p) (adv_public_key p) (adv_metadata p) [sock_ip endpoint] [endpoint]
    (sock_port endpoint) (adv_certificate_sha256 p) (adv_last_seen_at_ms p).

Fixpoint cached (peers : list PeerAdvertisement) (endpoints : list SocketAddr) : option PeerAdvertisement :=
  match endpoints with
  | [] => None
  | endpoint :: rest =>
      match find_first (serves endpoint) peers with
      | Some p => Some (selected endpoint p)
      | None => cached peers rest
      end
  end.

(** The loop of probes; [failures] are the texts collected so far. *)
Fixpoint probe_each (l : Local) (md : DeviceMetadata) (v : SocketAddr -> ProbeEnv) (failures : list string)
    (endpoints : list SocketAddr) : action (Runtime S) NetworkError PeerAdvertisement := fun rt =>
  match endpoints with
  | [] => (Err (Connect (String.concat "; " failures)), rt)
  | endpoint :: rest =>
      match probe_endpoint l md endpoint Manual (v endpoint) rt with
      | (Ok p, rt') => (Ok p, rt')
      | (Err e, rt') =>
          probe_each l md v (failures ++ [sock_text endpoint +:+ ": " +:+ error_text e]) rest rt'
      end
  end.

(** The cached advertisement, or what the probes find. *)
Definition cached_or_probed (l : Local) (md : DeviceMetadata) (v : SocketAddr -> ProbeEnv)
    (endpoints : list SocketAddr) : action (Runtime S) NetworkError PeerAdvertisement := fun rt =>
  match cached (snapshot (discovery rt)) endpoints with
  | Some p => (Ok p, rt)
  | None => probe_each l md v [] endpoints rt
  end.

(** [NetworkRuntime::discover_at] *)
Definition discover_at (l : Local) (md : DeviceMetadata) (host : string) (port : option Z)
    (resolve : string -> Z -> option (list SocketAddr)) (v : SocketAddr -> ProbeEnv)
    : action (Runtime S) NetworkError PeerAdvertisement :=
  act_reject (host_refused (trim host)) (Connect "invalid manual host") ;;
  ports ← lift (manual_ports port);
  act_reject (is_empty (manual_endpoints resolve (trim host) ports))
    (Connect "manual host did not resolve to a dialable address") ;;
  cached_or_probed l md v (manual_endpoints resolve (trim host) ports).
End connect.

(** ** Facts *)

Lemma route_dialable_spec a : route_dialable a = is_dialable a.
Proof.
  unfold route_dialable, is_dialable. destruct (sock_port a =? 0), (is_loopback _), (is_unspecified _),
    (is_multicast _); reflexivity.
Qed.

Lemma elem_of_route a l : a ∈ route_addresses l <-> a ∈ l /\ is_dialable a = true.
Proof.
  unfold route_addresses. rewrite elem_of_sort_dedup, <- route_dialable_spec, !list_elem_of_In.
  apply filter_In.
Qed.

Section facts.
Context `{PeerApi} `{Crypto} `{WireApi} `{Transport} `{!Remote} {S : Type} `{!PeerRepository S}
  `{!EndpointRepository S} `{!PeerService S}.
Context `{!PeerLaws} `{!TransportLaws} `{!PeerRepositoryLaws S} `{!EndpointRepositoryLaws S}
  `{!StoreLaws S} `{!PeerServiceLaws S}.

Abbreviation Net := (Net (S := S)).

(** *** The tail of a dial *)

Definition env_ok (v : DialEnv (S := S)) : Prop :=
  (forall ev, ev ∈ de_first v -> event_ok ev) /\ (forall ev, ev ∈ de_second v -> event_ok ev) /\
  in_i64 (de_now v) /\ in_i64 (de_now' v).

(** The runtime when the gate is entered. *)
Definition waited (v : DialEnv (S := S)) (rt : Runtime S) : Runtime S :=
  fold_left (fun r call => run_call call r) (de_waiting v) rt.

Lemma waited_ok (v : DialEnv (S := S)) rt :
  reachable (registry rt) -> store_ok (store rt) ->
  reachable (registry (waited v rt)) /\ store_ok (store (waited v rt)).
Proof.
  unfold waited. revert rt. induction (de_waiting v) as [|call l IH]; intros rt Hr Hs; [done|].
  apply IH; [by apply run_call_reachable | by apply run_call_store].
Qed.

Lemma deadlines_ok now n (ev : RaceEvent S) : in_i64 now -> ev ∈ deadlines now n -> event_ok ev.
Proof.
  intros Hnow. unfold deadlines. rewrite elem_of_app, list_elem_of_In, in_flat_map. intros [(i & _ & Hi)|Hi].
  - destruct Hi as [<-|[<-|[<-|[]]]]; done.
  - apply list_elem_of_In in Hi. by destruct Hi as [<-|[<-|[]]].
Qed.

(** Another task authenticates [t] while the dial runs. *)
Definition arrives (v : DialEnv (S := S)) (t : Session) : Prop :=
  CallArrives t ∈ de_waiting v \/ Meanwhile (CallArrives t) ∈ de_first v \/
  Meanwhile (CallArrives t) ∈ de_second v.

(** A session that was held when the dial began in [rt], one another task has
    authenticated during it, or one authenticated under a key of [key]. *)
Definition origin (key : DevicePublicKey -> Prop) (v : DialEnv (S := S)) (rt : Runtime S)
    (t : Session) : Prop :=
  (exists p, upgrade (registry rt) p = Some t) \/ arrives v t \/ key (peer_public_key (peer t)).

(** What a dial that was begun in [rt] has answered: a session that is registered
    under [id] and [k], unless its connection has been closed since, and where
    it comes from. *)
Definition answers (id : DeviceId) (k : SessionKind) (key : DevicePublicKey -> Prop)
    (v : DialEnv (S := S)) (rt : Runtime S) (q : nat) (g : Registry) : Prop :=
  exists t, kept_as q t g /\ session_key t = (id, k) /\ origin key v rt t.

Lemma deadlines_arrive now n t : Meanwhile (CallArrives t) ∉ deadlines (S := S) now n.
Proof.
  unfold deadlines. rewrite elem_of_app, list_elem_of_In, in_flat_map. intros [(i & _ & Hi)|Hi].
  - by destruct Hi as [|[|[|[]]]].
  - apply list_elem_of_In in Hi. by destruct Hi as [|[|[]]].
Qed.

Lemma race_on_answers (d : Dial) addresses schedule now (rt : Runtime S) x rt' :
  reachable (registry rt) -> store_ok (store rt) ->
  (dial_source d = History -> forall a, a ∈ addresses -> plain_address a) ->
  (forall ev, ev ∈ schedule -> event_ok ev) -> in_i64 now ->
  race_endpoints_on d addresses schedule now rt = (x, rt') ->
  reachable (registry rt') /\
  (forall q t, upgrade (registry rt') q = Some t -> race_origin d rt schedule t) /\
  match x with
  | Ok q => exists t, kept_as q t (registry rt') /\
      session_key t = (expected_id (dial_expected d), dial_kind d)
  | Err _ => store_ok (store rt')
  end.
Proof.
  intros Hr Hs Hplain Hev Hnow. unfold race_endpoints_on. set (r := run_race d _ _). intros [= <- <-].
  destruct (run_race_winner d (schedule ++ deadlines now (length (unique_endpoints addresses))) addresses rt
    Hr Hs Hplain) as [Hrace Hwin].
  { intros ev [?|?]%elem_of_app; [by apply Hev | by eapply deadlines_ok]. }
  fold r in Hrace, Hwin. split_and!; [apply (rk_reachable _ Hrace)| |].
  { intros q t Hq. apply run_race_origin in Hq as [?|[[Hin|Hin]%elem_of_app|?]]; try done.
    - by left.
    - by right; left.
    - by apply deadlines_arrive in Hin.
    - by right; right.
    - intros ev [?|?]%elem_of_app; [by apply Hev | by eapply deadlines_ok]. }
  unfold race_result.
  destruct (deadlines_end d schedule addresses rt now Hr) as [y Hy]. fold r in Hy. rewrite Hy.
  destruct y as [q|e].
  - apply (wk_answer _ _ Hwin). by right.
  - apply (wk_store _ _ Hwin). intros q. congruence.
Qed.

Lemma race_answers (d : Dial) addresses (v : DialEnv (S := S)) rt sk q rt' sk' :
  reachable (registry rt) -> store_ok (store rt) ->
  (dial_source d = History -> forall a, a ∈ addresses -> plain_address a) -> env_ok v ->
  race d addresses v (rt, sk) = (Ok q, (rt', sk')) ->
  reachable (registry rt') /\
  answers (expected_id (dial_expected d)) (dial_kind d) (eq (expected_key (dial_expected d))) v rt q
    (registry rt').
Proof.
  intros Hr Hs Hplain (Hfst & Hsnd & Hn & Hn') E. unfold race, race_endpoints in E.
  destruct (race_endpoints_on d addresses (de_first v) (de_now v) rt) as [x rt1] eqn:E1.
  apply race_on_answers in E1 as (Hr1 & Ho1 & Hx); [|done..].
  assert (Hfst' : forall t, race_origin d rt (de_first v) t ->
    origin (eq (expected_key (dial_expected d))) v rt t).
  { intros t [?|[?|?]]; [by left | by right; left; right; left | by right; right]. }
  destruct x as [q1|[e retry]].
  { injection E as <- <- <-. split; [done|]. destruct Hx as (t & Hk & Hkey). exists t.
    split_and!; [done..|]. by eapply Hfst', Ho1, (proj1 Hk). }
  destruct (_ || _); [discriminate E|].
  destruct (new_recovery_endpoint _ _ sk) as [[endpoint|?] sk1]; [|discriminate E].
  destruct (act_map_err fst _ rt1) as [y rt2] eqn:E2. injection E as -> <- <-.
  apply act_map_err_inv in E2 as (z & E2 & Hz). symmetry in Hz. apply map_err_ok in Hz as ->.
  apply race_on_answers in E2 as (Hr2 & Ho2 & t & Hk & Hkey); [|done..]. split; [done|]. exists t.
  split_and!; [done..|]. destruct (Ho2 q t (proj1 Hk)) as [[p Hp]|[?|?]].
  - by eapply Hfst', Ho1.
  - by right; left; right; right.
  - by right; right.
Qed.

(** *** The guards *)

(** The rest of a dial, from the gate on. *)
Definition gated (id : DeviceId) (k : SessionKind) (v : DialEnv (S := S))
    (m : action Net NetworkError nat) : action Net NetworkError nat :=
  acquire_session_dial v ;;
  found ← on_rt (on_registry (active id k));
  match found with
  | Some q => mret q
  | None => m
  end.

Lemma gated_inv id k v m rt sk x n' :
  gated id k v m (rt, sk) = (x, n') ->
  let g := registry (waited v rt) in
  match (active id k g).1 with
  | Some q => x = Ok q /\ n' = (waited v rt, sk)
  | None => m (map_registry (fun _ => (active id k g).2) (waited v rt), sk) = (x, n')
  end.
Proof.
  intros E g. unfold gated in E. erewrite act_bind_eq in E by reflexivity. cbv beta in E.
  fold (waited v rt) in E. unfold mbind, action_bind, on_rt, on_registry in E. fold g in E.
  assert (Ha : forall q, (active id k g).1 = Some q -> (active id k g).2 = g).
  { intros q. unfold active. by repeat case_match. }
  destruct (active id k g) as [[q|] g']; cbn [fst snd] in *; [|exact E].
  injection E as <- <-. split; [done|]. rewrite (Ha q eq_refl). unfold g. by destruct (waited v rt).
Qed.

Lemma require_guard id key rt sk y n1 :
  store_ok (store rt) -> on_rt (on_store (require_paired id key)) (rt, sk) = (y, n1) ->
  exists rt1, n1 = (rt1, sk) /\ no_trace rt rt1 /\ registry rt1 = registry rt /\
    forall p, y = Ok p -> rec_device_id p = id /\ paired_in (store rt) id (rec_public_key p) /\
      (forall k, key = Some k -> k = rec_public_key p).
Proof.
  intros Hs E. unfold on_rt in E. destruct (on_store _ rt) as [z rt1] eqn:E1. injection E as <- <-.
  exists rt1. split; [done|]. assert (Ht : no_trace rt rt1) by exact (along (R := no_trace) _ _ _ E1). split; [exact Ht|].
  apply on_store_inv in E1 as (s & E1 & ->). split; [done|].
  destruct (require_paired_run _ _ _ _ _ (proj1 Hs) E1) as (_ & _ & Hk).
  intros p ->. destruct (Hk p eq_refl) as (Hkn & Htr & Hkey).
  split_and!; [by apply (known_key _ _ _ (proj1 Hs) Hkn)|by exists p|exact Hkey].
Qed.

(** *** The four dials *)

Inductive Target :=
| Advertised (p : PeerAdvertisement)
| Discovered (id : DeviceId)
| Remembered (id : DeviceId)
| Routed (id : DeviceId) (route : list SocketAddr).

Definition target_id (t : Target) : DeviceId :=
  match t with
  | Advertised p => adv_device_id p
  | Discovered id | Remembered id | Routed id _ => id
  end.

Definition dial (l : Local) (t : Target) (k : SessionKind) (v : DialEnv (S := S))
    : action Net NetworkError nat :=
  match t with
  | Advertised p => connect l p k v
  | Discovered id => connect_discovered l id k v
  | Remembered id => connect_remembered l id k v
  | Routed id route => connect_paired_at l id route k v
  end.

(** What must hold before a dial may touch the network. *)
Definition advertised_allowed (l : Local) (p : PeerAdvertisement) (k : SessionKind) (s : S) : Prop :=
  adv_device_id p <> local_device_id l /\
  (nearby_kind k = false -> paired_in s (adv_device_id p) (adv_public_key p)).

Definition allowed (l : Local) (t : Target) (k : SessionKind) (rt : Runtime S) : Prop :=
  match t with
  | Advertised p => advertised_allowed l p k (store rt)
  | Discovered id =>
      match discovery_peer (discovery rt) id with
      | Some p => advertised_allowed l p k (store rt)
      | None => exists key, paired_in (store rt) id key
      end
  | Remembered id => exists key, paired_in (store rt) id key
  | Routed id route =>
      (exists key, paired_in (store rt) id key) /\ (length route <= 16)%nat /\
      exists a, a ∈ route /\ is_dialable a = true
  end.

(** The keys the device asked for is known by when the dial begins: the one of
    its advertisement, or the one it is paired under. *)
Definition target_key (t : Target) (rt : Runtime S) (key : DevicePublicKey) : Prop :=
  match t with
  | Advertised p => adv_public_key p = key
  | Discovered id =>
      match discovery_peer (discovery rt) id with
      | Some p => adv_public_key p = key
      | None => paired_in (store rt) id key
      end
  | Remembered id | Routed id _ => paired_in (store rt) id key
  end.

(** The key the race of a dial expects. *)
Definition named_key (e : PeerRecord + PeerAdvertisement) : DevicePublicKey :=
  match e with
  | inl p => rec_public_key p
  | inr p => adv_public_key p
  end.

(** The race that follows the gate. *)
Inductive races (l : Local) (k : SessionKind) (v : DialEnv (S := S)) :
    Target -> PeerRecord + PeerAdvertisement -> action Net NetworkError nat -> Prop :=
| races_advertised p :
    races l k v (Advertised p) (inr p)
      (race (mkDial l (ExpectedAdvertised p) k Mdns None) (advertised_addresses p) v)
| races_remembered id p :
    rec_device_id p = id ->
    races l k v (Remembered id) (inl p)
      (remembered ← on_rt (on_store (endpoints (de_clock v) id));
       act_reject (is_empty remembered) (Connect "peer has no remembered authenticated endpoint") ;;
       race (mkDial l (ExpectedPaired p) k History None) (map ep_address remembered) v)
| races_routed id route p :
    rec_device_id p = id ->
    races l k v (Routed id route) (inl p)
      (race (mkDial l (ExpectedPaired p) k Relayed None) (route_addresses route) v)
| races_discovered id p e m :
    adv_device_id p = id -> races l k v (Advertised p) e m -> races l k v (Discovered id) e m
| races_discovered_remembered id e m :
    races l k v (Remembered id) e m -> races l k v (Discovered id) e m.

Lemma connect_inv l p k v rt sk x n' :
  store_ok (store rt) -> connect l p k v (rt, sk) = (x, n') ->
  exists rt1, no_trace rt rt1 /\ registry rt1 = registry rt /\
    ((exists e, x = Err e /\ n' = (rt1, sk)) \/
     (advertised_allowed l p k (store rt) /\ exists e m, races l k v (Advertised p) e m /\
        target_key (Advertised p) rt (named_key e) /\
        gated (adv_device_id p) k v m (rt1, sk) = (x, n'))).
Proof.
  intros Hs E. unfold connect in E.
  apply act_bind_inv in E as [([] & n1 & E1 & E)|(e & E1 & ->)];
    apply act_reject_inv in E1 as [-> Hself]; [|exists rt; split_and!; [done..|left; by eauto]].
  destruct (bool_decide _) eqn:Hb; [discriminate Hself|]. apply bool_decide_eq_false in Hb.
  destruct (nearby_kind k) eqn:Hk.
  - exists rt. split_and!; [done..|]. right. split; [split; [done|congruence]|].
    eexists _, _. split_and!; [constructor|done|exact E].
  - apply act_bind_inv in E as [([] & n1 & E1 & E)|(e & E1 & ->)].
    + apply act_bind_ok in E1 as (r & n2 & E1 & E2). injection E2 as <-.
      destruct (require_guard _ _ _ _ _ _ Hs E1) as (rt1 & -> & Ht & Hg & Hp).
      destruct (Hp r eq_refl) as (_ & Hpk & Hkey). rewrite <- (Hkey _ eq_refl) in Hpk.
      exists rt1. split_and!; [done..|]. right. split; [by split|].
      eexists _, _. split_and!; [constructor|done|exact E].
    + apply act_bind_inv in E1 as [(r & n2 & _ & E2)|(e' & E1 & Ee)]; [discriminate E2|].
      destruct (require_guard _ _ _ _ _ _ Hs E1) as (rt1 & -> & Ht & Hg & _).
      exists rt1. split_and!; [done..|]. left. by eauto.
Qed.

Lemma connect_remembered_inv l id k v rt sk x n' :
  store_ok (store rt) -> connect_remembered l id k v (rt, sk) = (x, n') ->
  exists rt1, no_trace rt rt1 /\ registry rt1 = registry rt /\
    ((exists e, x = Err e /\ n' = (rt1, sk)) \/
     ((exists key, paired_in (store rt) id key) /\ exists e m, races l k v (Remembered id) e m /\
        target_key (Remembered id) rt (named_key e) /\
        gated id k v m (rt1, sk) = (x, n'))).
Proof.
  intros Hs E. unfold connect_remembered in E.
  apply act_bind_inv in E as [(p & n1 & E1 & E)|(e & E1 & ->)];
    destruct (require_guard _ _ _ _ _ _ Hs E1) as (rt1 & -> & Ht & Hg & Hp);
    exists rt1; (split_and!; [done..|]); [right|left; by eauto].
  destruct (Hp p eq_refl) as (Hid & Hpk & _). split; [by eexists|].
  eexists _, _. split_and!; [by constructor|exact Hpk|exact E].
Qed.

(** A dial is refused, leaving no trace, or passes its guards and goes through
    the gate. *)
Lemma dial_inv l t k v rt sk x n' :
  store_ok (store rt) -> dial l t k v (rt, sk) = (x, n') ->
  exists rt1, no_trace rt rt1 /\ registry rt1 = registry rt /\
    ((exists e, x = Err e /\ n' = (rt1, sk)) \/
     (allowed l t k rt /\ exists e m, races l k v t e m /\ target_key t rt (named_key e) /\
        gated (target_id t) k v m (rt1, sk) = (x, n'))).
Proof.
  intros Hs. destruct t as [p|id|id|id route]; cbn [dial allowed target_id]; intros E.
  - by apply connect_inv.
  - unfold connect_discovered in E. cbn [fst] in E. destruct (discovery_peer _ id) as [p|] eqn:Ed.
    + assert (Hid : adv_device_id p = id).
      { unfold discovery_peer in Ed. apply find_first_Some in Ed as [_ Ed]. by apply bool_decide_eq_true in Ed. }
      destruct (connect_inv _ _ _ _ _ _ _ _ Hs E) as (rt1 & Ht & Hg & [?|(Ha & e & m & Hm & Hkey & E')]); exists rt1; (split_and!; [done..|]);
        [by left|]. right. split; [done|]. exists e, m. rewrite Hid in E'.
      split_and!; [by eapply races_discovered| |done]. cbn [target_key]. by rewrite Ed.
    + destruct (connect_remembered_inv _ _ _ _ _ _ _ _ Hs E) as (rt1 & Ht & Hg & [?|(Ha & e & m & Hm & Hkey & E')]); exists rt1; (split_and!; [done..|]);
        [by left|]. right. split; [done|]. exists e, m.
      split_and!; [by apply races_discovered_remembered| |done]. cbn [target_key]. by rewrite Ed.
  - by apply connect_remembered_inv.
  - unfold connect_paired_at in E.
    apply act_bind_inv in E as [(p & n1 & E1 & E)|(e & E1 & ->)];
      destruct (require_guard _ _ _ _ _ _ Hs E1) as (rt1 & -> & Ht & Hg & Hp);
      exists rt1; (split_and!; [done..|]); [|left; by eauto].
    destruct (Hp p eq_refl) as (Hid & Hpk & _).
    apply act_bind_inv in E as [([] & n1 & E2 & E)|(e & E2 & ->)];
      apply act_reject_inv in E2 as [-> Hlen]; [|left; by eauto].
    destruct (_ <? _)%nat eqn:El; [discriminate Hlen|]. apply Nat.ltb_ge in El.
    apply act_bind_inv in E as [([] & n1 & E3 & E)|(e & E3 & ->)];
      apply act_reject_inv in E3 as [-> Hne]; [|left; by eauto].
    destruct (route_addresses route) as [|a rest] eqn:Er; [discriminate Hne|].
    right. split.
    + split_and!; [by eexists|done|]. exists a. apply elem_of_route. rewrite Er. by left.
    + eexists _, _. split_and!; [by constructor|exact Hpk|]. rewrite Er. exact E.
Qed.

Lemma endpoints_guard now id rt sk y n1 :
  store_ok (store rt) -> on_rt (on_store (endpoints now id)) (rt, sk) = (y, n1) ->
  exists rt1, n1 = (rt1, sk) /\ store_ok (store rt1) /\ registry rt1 = registry rt /\
    forall l e, y = Ok l -> e ∈ l -> plain_address (ep_address e).
Proof.
  intros Hs E. unfold on_rt in E. destruct (on_store _ rt) as [z rt1] eqn:E1. injection E as <- <-.
  exists rt1. split; [done|]. apply on_store_inv in E1 as (s & E1 & ->). cbn [store registry].
  destruct (endpoints_frame now id _ _ _ (proj2 Hs) E1) as [Hr _].
  destruct (endpoints_keeps S now id _ _ _ Hs E1) as [Hp _]. split_and!; [by split|done|].
  intros l e -> He. destruct (endpoints_spec now id _ _ _ (proj2 Hs) E1) as (_ & _ & Hst).
  destruct (Hst e He) as [Hst' _]. by apply (stored_plain S _ _ _ _ Hs Hst').
Qed.

(** The race of a dial answers the target. *)
Lemma races_answer l k v t e m rt sk q rt' sk' :
  reachable (registry rt) -> store_ok (store rt) -> env_ok v -> races l k v t e m ->
  m (rt, sk) = (Ok q, (rt', sk')) ->
  reachable (registry rt') /\ answers (target_id t) k (eq (named_key e)) v rt q (registry rt').
Proof.
  intros Hr Hs Hv Hm. revert rt sk q rt' sk' Hr Hs.
  induction Hm as [p|id p <-|id route p <-|id p e m <- Hm IH|id e m Hm IH]; intros rt sk q rt' sk' Hr Hs E.
  - by apply race_answers in E.
  - apply act_bind_ok in E as (rem & n1 & E1 & E).
    destruct (endpoints_guard _ _ _ _ _ _ Hs E1) as (rt1 & -> & Hs1 & Hg & Hplain).
    apply act_bind_ok in E as ([] & n2 & E2 & E). apply act_reject_inv in E2 as [-> _].
    apply race_answers in E; [|by rewrite Hg|done| |done].
    + unfold answers, origin in *. by rewrite Hg in E.
    + intros _ a (e & -> & He)%list_elem_of_fmap. by apply (Hplain rem e).
  - by apply race_answers in E.
  - by eapply IH.
  - by eapply IH.
Qed.

(** What was held when the gate was entered. *)
Lemma waited_held (v : DialEnv (S := S)) rt p t :
  reachable (registry rt) -> upgrade (registry (waited v rt)) p = Some t ->
  (exists p, upgrade (registry rt) p = Some t) \/ CallArrives t ∈ de_waiting v.
Proof.
  unfold waited. revert rt. induction (de_waiting v) as [|call l IH]; intros rt Hr Hp; [left; by exists p|].
  cbn [fold_left] in Hp. apply IH in Hp as [[p' Hp]|?]; [|right; by right|by apply run_call_reachable].
  apply run_call_arcs in Hp as [?| ->]; [left; by exists p'|right; by left|by apply reachable_ok].
Qed.

(** What is answered behind the gate: the session found there, or the race's. *)
Lemma gated_answers l k v t e m rt sk q rt' sk' :
  reachable (registry rt) -> store_ok (store rt) -> env_ok v -> races l k v t e m ->
  gated (target_id t) k v m (rt, sk) = (Ok q, (rt', sk')) ->
  reachable (registry rt') /\ answers (target_id t) k (eq (named_key e)) v rt q (registry rt').
Proof.
  intros Hr Hs Hv Hm E. destruct (waited_ok v rt Hr Hs) as [Hrw Hsw].
  assert (Hheld : forall p s, upgrade (registry (waited v rt)) p = Some s ->
    origin (eq (named_key e)) v rt s).
  { intros p s [?|?]%waited_held; [by left|by right; left; left|done]. }
  apply gated_inv in E. cbv zeta in E. destruct (active _ _ _) as [[q1|] g] eqn:Eact; cbn [fst] in E.
  - destruct E as [[= <-] [= -> ->]]. split; [done|].
    apply active_kept in Eact as (s & Hu & Hkey & Hreg); [|by apply reachable_ok].
    exists s. split_and!; [split; [done|by left]|done|by eapply Hheld].
  - assert (Eg : g = (active (target_id t) k (registry (waited v rt))).2) by by rewrite Eact.
    eapply races_answer in E; try done.
    + destruct E as [Hr' (s & Hk & Hkey & [[p Hp]|[?|?]])]; (split; [done|]; exists s; split_and!; [done..|]).
      * apply (Hheld p s). cbn [snd map_registry registry] in Hp. rewrite <- Hp, Eg.
        unfold upgrade, active. by repeat case_match.
      * by right; left.
      * by right; right.
    + cbn [snd map_registry registry]. rewrite Eg. eapply reachable_step; [exact Hrw | apply step_active].
Qed.

(** *** Probes *)

Lemma probe_vouched conn l md (w : World S) s w' :
  peer_repo_ok (repo w) -> authenticate_outbound_probe conn l md w = (Ok s, w') ->
  exists remote,
    vouched w l (local_hello l md DiscoveryProbe (Handshake.fresh_nonce w)) remote DirectionOutbound s /\
    received w remote /\ kind s = DiscoveryProbe /\ connection s = conn /\
    observed_certificate_sha256 w = (Ok (peer_certificate_sha256 (peer s)), w).
Proof.
  intros Hok Hrun. unfold authenticate_outbound_probe in Hrun.
  apply act_bind_ok in Hrun as (observed & w1 & Hobs & Hrun).
  assert (w1 = w) as -> by (unfold observed_certificate_sha256 in Hobs; congruence).
  apply act_bind_ok in Hrun as ([] & w3 & E3 & Hrun). apply frames_stream in E3.
  apply act_bind_ok in Hrun as (local & w4 & E4 & Hrun).
  apply make_hello_inv in E4 as [-> ->]. rewrite (st_nonce _ _ E3) in Hrun.
  apply act_bind_ok in Hrun as ([] & w5 & E5 & Hrun). apply frames_send in E5.
  apply act_bind_ok in Hrun as (remote & w6 & E6 & Hrun). apply receive_inv in E6 as [Hrec E6].
  apply act_bind_ok in Hrun as (rp & w7 & E7 & Hrun). injection E7 as Hv <-.
  apply act_bind_ok in Hrun as ([] & w8 & E8 & Hfin). apply act_reject_inv in E8 as [-> Hb].
  destruct (negb _) eqn:Hcert; [discriminate Hb|]. destruct_bools. clear Hb.
  assert (Hw5 : stays w w5) by (by transitivity w3).
  assert (Hw : stays w w6) by (by transitivity w5).
  destruct (st_repo _ _ Hw Hok) as [Hok1 _].
  destruct (finish_vouched _ _ _ _ _ _ _ _ _ _ _ Hok1 Hv Hfin) as [Hkind Hvo].
  destruct (finish_committed _ _ _ _ _ _ _ _ _ _ Hfin) as (_ & Hc & _).
  destruct (vo_hello _ _ _ _ _ _ Hvo) as (rp' & Hv' & _ & _ & _ & Ecert).
  rewrite Hkind in Hv'. assert (rp' = rp) as -> by congruence.
  exists remote. split_and!; try done.
  - by apply (vouched_stays w w6).
  - by apply (received_stays w w5).
  - by rewrite Ecert, Hcert.
Qed.

#[export] Instance frames_probe conn l md : Frames (authenticate_outbound_probe (S := S) conn l md).
Proof.
  unfold authenticate_outbound_probe.
  repeat first [apply frames_finish | apply frames_bind; [apply _|intros ?]].
Qed.

Lemma run_probe_inv c l md expired w rt x rt' :
  run_probe c l md expired w rt = (x, rt') ->
  no_trace rt rt' /\ registry rt' = registry rt /\
  forall s, x = Ok s -> exists w', authenticate_outbound_probe c l md (race_world rt true w) = (Ok s, w').
Proof.
  unfold run_probe. destruct (authenticate_outbound_probe c l md _) as [y w'] eqn:E. intros [= <- <-].
  split_and!; [|done|].
  - split; [|done]. apply frames_probe, stays_same_store in E. exact E.
  - intros s. destruct expired; [done|]. intros ->. by exists w'.
Qed.

(** What a probe that answers [p] has found at [remote]: an authenticated peer,
    on a connection that is closed again. *)
Record probed (l : Local) (md : DeviceMetadata) (v : ProbeEnv (S := S)) (p : PeerAdvertisement)
    (rt rt' : Runtime S) : Prop := {
  pb_session : exists c s remote w,
    pe_quic v = Ok c /\ p = advertisement_of (pe_now v) s (conn_remote c) /\
    kind s = DiscoveryProbe /\ exporter w = exporter (pe_world v) /\
    vouched w l (local_hello l md DiscoveryProbe (Handshake.fresh_nonce w)) remote DirectionOutbound s /\
    observed_certificate_sha256 w = (Ok (peer_certificate_sha256 (peer s)), w) /\
    is_closed (net (registry rt')) c = true;
  pb_view : view_eq (view (store rt)) (view (store rt'));
  pb_stored : forall q b, stored (store rt') q b = stored (store rt) q b \/
    (q = adv_device_id p /\ paired_in (store rt) q (adv_public_key p));
  pb_discovery : discovery rt' = observe_authenticated p (discovery rt)
}.

(** Sessions and handles are those there were. *)
Definition same_sessions (g g' : Registry) : Prop := sessions g' = sessions g /\ arcs g' = arcs g.

Lemma validate_hello_certificate hello k rp :
  validate_hello hello k = Ok rp -> blen (peer_certificate_sha256 rp) = 32.
Proof.
  intros Hv. unfold validate_hello in Hv. destruct (_ || _) eqn:E in Hv; [done|]. clear E. cbv zeta in Hv.
  destruct (decode_kind _); [|done]. cbn [mbind result_bind] in Hv.
  match type of Hv with (if ?b then _ else _) = _ => destruct b; [done|] end.
  result_inv. destruct (negb (blen (endpoint_certificate_sha256 hello) =? 32)) eqn:Eb; [done|]. result_inv.
  destruct_bools. by apply Z.eqb_eq in Eb.
Qed.

Lemma probe_inv l md remote source v rt x rt' :
  store_ok (store rt) -> in_i64 (pe_now' v) ->
  probe_endpoint l md remote source v rt = (x, rt') ->
  same_sessions (registry rt) (registry rt') /\
  match x with
  | Ok p => is_dialable remote = true /\ probed l md v p rt rt'
  | Err _ => no_trace rt rt' /\ registry rt' = registry rt
  end.
Proof.
  intros Hs Hnow E. unfold probe_endpoint in E.
  apply act_bind_inv in E as [([] & rt1 & E1 & E)|(e & E1 & ->)]; apply act_reject_inv in E1 as [-> Hd];
    [|done]. destruct (is_dialable remote); [|discriminate Hd].
  apply act_bind_inv in E as [(c & rt1 & E1 & E)|(e & E1 & ->)]; injection E1 as Ec <-; [|done].
  apply act_bind_inv in E as [(s & rt1 & E1 & E)|(e & E1 & ->)];
    apply run_probe_inv in E1 as (Ht & Hg & Hrun); [|by rewrite Hg].
  destruct (Hrun s eq_refl) as (w' & Ea). clear Hrun.
  destruct (probe_vouched c l md (race_world rt true (pe_world v)) s w' (proj1 Hs) Ea)
    as (remote' & Hvo & _ & Hk & Hc & Hobs).
  destruct Ht as [Ht Hdisc]. destruct (Ht Hs) as (Hs1 & Hv1 & Hst1).
  assert (Hcert : blen (peer_certificate_sha256 (peer s)) = 32).
  { destruct (vo_hello _ _ _ _ _ _ Hvo) as (rp & Hv & _ & _ & _ & ->).
    by eapply validate_hello_certificate. }
  apply act_bind_inv in E as [(p & rt2 & E2 & E)|(e & E2 & ->)];
    destruct (remember_only_paired _ _ _ _ _ _ _ _ Hs1 Hnow Hcert E2) as (Ep & Hg2 & Hd2 & Hv2 & Hst2);
    [|discriminate Ep].
  injection Ep as ->. unfold close_session, on_registry in E. injection E as <- <-.
  cbn [registry]. split; [by rewrite <- Hg, <- Hg2|]. split; [done|].
  rewrite Hc in *. split; cbn [registry store discovery].
  - exists c, s, remote', (race_world rt true (pe_world v)). split_and!; try done.
    cbn. by rewrite is_closed_close, bool_decide_true, orb_true_r.
  - by etransitivity.
  - intros q b. rewrite <- Hst1. destruct (Hst2 q b) as [->|(-> & Hp & _)]; [by left|]. right.
    split; [done|]. by apply (paired_in_view _ _ _ _ Hv1).
  - by rewrite Hd2, Hdisc.
Qed.

Lemma probe_each_inv l md v failures eps rt x rt' :
  store_ok (store rt) -> (forall a, in_i64 (pe_now' (v a))) ->
  probe_each l md v failures eps rt = (x, rt') ->
  same_sessions (registry rt) (registry rt') /\
  match x with
  | Ok p => exists endpoint rt1, endpoint ∈ eps /\ no_trace rt rt1 /\ probed l md (v endpoint) p rt1 rt'
  | Err e => no_trace rt rt' /\ registry rt' = registry rt /\ exists text, e = Connect text
  end.
Proof.
  intros Hs Hnow. revert failures rt Hs. induction eps as [|a eps IH]; intros failures rt Hs E; cbn in E.
  { injection E as <- <-. split; [done|]. split_and!; [done..|by eexists]. }
  destruct (probe_endpoint l md a Manual (v a) rt) as [[p|e] rt1] eqn:E1;
    apply probe_inv in E1 as [Hss Hx]; try done.
  - injection E as <- <-. split; [done|]. exists a, rt. split_and!; [by left|done|apply Hx].
  - destruct Hx as [Ht Hg]. apply IH in E as [Hss2 Hx2]; [|by apply Ht].
    rewrite Hg in Hss2. split; [done|]. destruct x as [p|e'].
    + destruct Hx2 as (b & rt2 & Hb & Ht2 & Hp). exists b, rt2. split_and!; [by right| |done].
      by etransitivity.
    + destruct Hx2 as (Ht2 & Hg2 & Htext). split_and!; [by etransitivity|congruence|done].
Qed.

Lemma cached_some (peers : list PeerAdvertisement) eps p :
  cached peers eps = Some p ->
  exists endpoint p0, endpoint ∈ eps /\ p0 ∈ peers /\ serves endpoint p0 = true /\ p = selected endpoint p0.
Proof.
  induction eps as [|a eps IH]; cbn; [done|]. destruct (find_first (serves a) peers) as [p0|] eqn:Ef.
  - intros [= <-]. apply find_first_Some in Ef as [Hin Hs]. exists a, p0. split_and!; [by left|done..].
  - intros (b & p0 & Hb & ?)%IH. exists b, p0. split; [by right|done].
Qed.
End facts.

(** ** Properties *)

Section properties.
Context `{PeerApi} `{Crypto} `{WireApi} `{Transport} `{!Remote} {S : Type} `{!PeerRepository S}
  `{!EndpointRepository S} `{!PeerService S}.
Context `{!PeerLaws} `{!TransportLaws} `{!PeerRepositoryLaws S} `{!EndpointRepositoryLaws S}
  `{!StoreLaws S} `{!PeerServiceLaws S}.

(** C4. Whichever way a session is asked for (an advertisement, a discovered or
    a remembered device, a relayed route), it was asked for legitimately: a device
    that is advertised is not this one, and unless the kind is open to strangers
    it is paired under the advertised key; any other device is paired, and a
    route has at most sixteen addresses, one of them dialable.  The session answered
    is the one registered under the device and the kind asked for, unless its
    connection has been closed since it was registered or found; and either it
    was held when the dial began, or another task authenticated it meanwhile, or
    its peer has authenticated itself with the key advertised, respectively the
    one the device is paired under. *)
Theorem dial_answers_target l t k v (rt : Runtime S) sk q rt' sk' :
  reachable (registry rt) -> store_ok (store rt) -> env_ok v ->
  dial l t k v (rt, sk) = (Ok q, (rt', sk')) ->
  allowed l t k rt /\ reachable (registry rt') /\
  answers (target_id t) k (target_key t rt) v rt q (registry rt').
Proof.
  intros Hr Hs Hv E.
  destruct (dial_inv _ _ _ _ _ _ _ _ Hs E)
    as (rt1 & Ht & Hg & [(e & [=] & _)|(Ha & e & m & Hm & Hkey & E1)]).
  split; [done|]. eapply gated_answers in E1 as [Hr' (s & Hk & Hid & Ho)]; [|by rewrite Hg|by apply Ht|done..].
  split; [done|]. exists s. split_and!; [done..|]. unfold origin in *. rewrite Hg in Ho.
  destruct Ho as [?|[?| <-]]; auto.
Qed.

(** A dial that is not allowed (this very device, a device that is not
    paired, a route of more than sixteen addresses or with none that can be
    dialled) is an error before anything is dialled: no session is touched, no
    socket opened, and nothing stored or discovered changes.  Dialling this
    device is its own error whatever the kind. *)
Theorem dial_refused l t k v (rt : Runtime S) sk x rt' sk' :
  store_ok (store rt) -> ~ allowed l t k rt -> dial l t k v (rt, sk) = (x, (rt', sk')) ->
  (exists e, x = Err e) /\ registry rt' = registry rt /\ sk' = sk /\ no_trace rt rt' /\
  (forall p, t = Advertised p -> adv_device_id p = local_device_id l -> x = Err SelfConnection).
Proof.
  intros Hs Hna E. destruct (dial_inv _ _ _ _ _ _ _ _ Hs E) as (rt1 & Ht & Hg & [(e & -> & [= -> ->])|(Ha & _)]);
    [|done]. split_and!; [by eauto|done..|].
  intros p -> Hself. cbn [dial] in E. unfold connect in E.
  rewrite (bool_decide_true _ Hself) in E. injection E as <- _. done.
Qed.

(** No second dial is made for a live session: a dial that passed its
    guards answers the session of that device and kind that is registered and
    open when the gate is entered, be it one that another task has just
    established while this one waited, and leaves everything else alone. *)
Theorem dial_reuses_active l t k v (rt : Runtime S) sk x n' :
  store_ok (store rt) -> dial l t k v (rt, sk) = (x, n') ->
  exists rt1, no_trace rt rt1 /\ registry rt1 = registry rt /\
    ((exists e, x = Err e /\ n' = (rt1, sk)) \/
     forall q g, active (target_id t) k (registry (waited v rt1)) = (Some q, g) ->
       x = Ok q /\ n' = (waited v rt1, sk)).
Proof.
  intros Hs E. destruct (dial_inv _ _ _ _ _ _ _ _ Hs E) as (rt1 & Ht & Hg & Hcase).
  exists rt1. split_and!; [done..|]. destruct Hcase as [?|(_ & e & m & _ & _ & E1)]; [by left|]. right.
  intros q g Ea. apply gated_inv in E1. cbv zeta in E1. by rewrite Ea in E1.
Qed.

(** Of a relayed route exactly the dialable addresses are raced, each once
    and in order; an IPv4-mapped address is judged as the IPv6 address it is. *)
Theorem route_addresses_exact (addresses : list SocketAddr) :
  StronglySorted (fun a b => cmp a b = Lt) (route_addresses addresses) /\
  NoDup (route_addresses addresses) /\
  (forall a, a ∈ route_addresses addresses <-> a ∈ addresses /\ is_dialable a = true) /\
  (length (route_addresses addresses) <= length addresses)%nat.
Proof.
  split_and!; [apply sort_dedup_sorted|apply NoDup_sort_dedup|intros a; apply elem_of_route|].
  apply submseteq_length, NoDup_submseteq; [apply NoDup_sort_dedup|].
  by intros a [Ha _]%elem_of_route.
Qed.

(** A probe leaves no session and no trust: it dials only dialable
    endpoints, registers nothing, closes its connection when it has succeeded,
    and answers the advertisement of a peer that authenticated itself with the
    certificate of the connection.  The endpoint is remembered only for a device
    already paired under that key.  A probe that fails leaves no trace at all. *)
Theorem probe_endpoint_safe l md remote source v (rt : Runtime S) x rt' :
  store_ok (store rt) -> in_i64 (pe_now' v) -> probe_endpoint l md remote source v rt = (x, rt') ->
  same_sessions (registry rt) (registry rt') /\
  match x with
  | Ok p => is_dialable remote = true /\ probed l md v p rt rt'
  | Err _ => no_trace rt rt' /\ registry rt' = registry rt
  end.
Proof. apply probe_inv. Qed.

(** C31. A manual host names at most thirty-two endpoints, all dialable and all
    of the trimmed host at the port asked for (or of ArcRelay's range).  What is
    answered is a device discovery already shows at one of them, cut down to
    that endpoint and without any dial, or one that authenticated itself at one
    of them; every failure is a connection error and leaves no trace. *)
Theorem discover_at_sound l md host port resolve v (rt : Runtime S) x rt' :
  store_ok (store rt) -> (forall a, in_i64 (pe_now' (v a))) ->
  discover_at l md host port resolve v rt = (x, rt') ->
  same_sessions (registry rt) (registry rt') /\
  match x with
  | Ok p =>
      exists ports endpoint, host_refused (trim host) = false /\ manual_ports port = Ok ports /\
        let endpoints := manual_endpoints resolve (trim host) ports in
        (length endpoints <= 32)%nat /\ endpoint ∈ endpoints /\ is_dialable endpoint = true /\
        (exists q l, q ∈ ports /\ resolve (trim host) q = Some l /\ endpoint ∈ l) /\
        ((rt' = rt /\ exists p0, p0 ∈ snapshot (discovery rt) /\ serves endpoint p0 = true /\
            p = selected endpoint p0) \/
         (exists rt1, no_trace rt rt1 /\ probed l md (v endpoint) p rt1 rt'))
  | Err e => no_trace rt rt' /\ registry rt' = registry rt /\ exists text, e = Connect text
  end.
Proof.
  intros Hs Hnow E. unfold discover_at in E.
  apply act_bind_inv in E as [([] & rt1 & E1 & E)|(e & E1 & ->)]; apply act_reject_inv in E1 as [-> Hh].
  2:{ destruct (host_refused _); [|discriminate Hh]. injection Hh as ->. split; [done|]. split_and!; [done..|by eexists]. }
  destruct (host_refused (trim host)); [discriminate Hh|].
  apply act_bind_inv in E as [(ports & rt1 & E1 & E)|(e & E1 & ->)]; injection E1 as Hports <-.
  2:{ split; [done|]. split_and!; [done..|]. unfold manual_ports in Hports.
      destruct port as [[| |]|]; try discriminate Hports. injection Hports as <-. by eexists. }
  set (eps := manual_endpoints resolve (trim host) ports) in *.
  apply act_bind_inv in E as [([] & rt1 & E1 & E)|(e & E1 & ->)]; apply act_reject_inv in E1 as [-> Hne].
  2:{ destruct (is_empty eps); [|discriminate Hne]. injection Hne as ->. split; [done|]. split_and!; [done..|by eexists]. }
  assert (Hlen : (length eps <= 32)%nat) by (unfold eps, manual_endpoints; rewrite length_take; lia).
  assert (Heps : forall a, a ∈ eps -> is_dialable a = true /\
    exists q l, q ∈ ports /\ resolve (trim host) q = Some l /\ a ∈ l).
  { intros a Ha. apply subseteq_take, elem_of_sort_dedup, list_elem_of_In, in_flat_map in Ha.
    destruct Ha as (q & Hq & Ha). apply filter_In in Ha as [Ha Hd]. split; [done|].
    destruct (resolve (trim host) q) as [l'|] eqn:El; [|done]. exists q, l'.
    by rewrite !list_elem_of_In. }
  unfold cached_or_probed in E. destruct (cached _ eps) as [p|] eqn:Ec.
  - injection E as <- <-. split; [done|]. apply cached_some in Ec as (a & p0 & Ha & Hp0 & Hsv & ->).
    destruct (Heps a Ha). exists ports, a. cbv zeta. fold eps. split_and!; try done. left. split; [done|]. by exists p0.
  - apply probe_each_inv in E as [Hss Hx]; [|done..]. split; [done|]. destruct x as [p|e]; [|done].
    destruct Hx as (a & rt1 & Ha & Ht & Hp). destruct (Heps a Ha). exists ports, a.
    cbv zeta. fold eps. split_and!; try done. right. by exists rt1.
Qed.

(** Pairing starts on a pairing session with the advertised device, and with
    at most sixty-four requests, each one valid for its capability and one per
    capability and direction: with any other request nothing is dialled. *)
Theorem begin_pairing_sound l p requests v fresh_id w (rt : Runtime S) sk x n' :
  reachable (registry rt) -> store_ok (store rt) -> env_ok v ->
  begin_pairing l p requests v fresh_id w (rt, sk) = (x, n') ->
  match collect_requests ∅ requests with
  | Err e => x = Err e /\ n' = (rt, sk)
  | Ok requested =>
      (size requested <= 64)%nat /\ size requested = length requests /\
      (forall r, r ∈ requests ->
         validate_local_grant_request (req_capability r) (req_constraints r) = Ok tt) /\
      forall pending, x = Ok pending ->
        adv_device_id p <> local_device_id l /\ pending_requested pending = requested /\
        session_key (pending_session pending) = (adv_device_id p, Pairing)
  end.
Proof.
  intros Hr Hs Hv E. unfold begin_pairing in E.
  apply act_bind_inv in E as [(requested & n1 & E1 & E)|(e & E1 & ->)]; injection E1 as E1 <-;
    rewrite E1; [|done].
  destruct (collect_requests_ok _ _ _ E1) as (Hsize & Hlen & Hval & _); [by rewrite map_size_empty; lia|].
  rewrite map_size_empty in Hlen. split_and!; try done. intros pending ->.
  apply act_bind_ok in E as (q & [rt1 sk1] & E2 & E).
  destruct (dial_inv l (Advertised p) Pairing v rt sk (Ok q) (rt1, sk1) Hs E2)
    as (rt2 & Ht & Hg & [(e & [=] & _)|((Hself & _) & e & m & Hm & _ & E3)]).
  split; [done|]. injection E as E _.
  destruct (upgrade (registry rt1) q) as [s|] eqn:Hu; [|discriminate E]. result_inv.
  cbn [pending_requested pending_session]. split; [done|].
  eapply gated_answers in E3 as [_ (t & [Hu' _] & Hkey & _)]; [|by rewrite Hg|by apply Ht|done..].
  rewrite Hu in Hu'. injection Hu' as <-. exact Hkey.
Qed.
End properties.

(** ** Witnesses *)

Module SampleConnect.
Import SamplePeer SampleWire SampleCrypto SampleRegistry SampleDb SampleRun SampleDial.

#[local] Existing Instance sqlite_peer_service.
#[local] Existing Instance sqlite_peer_service_laws.

(** The handshake of the two devices for a session of kind [k]. *)
Definition hello_of (k : SessionKind) (me : byte) : SessionHello :=
  local_hello (local me) meta k (repeat me 32).
Definition transcript_of (k : SessionKind) : list byte :=
  default [] (to_option (session_transcript (Some tls) (hello_of k x41) (hello_of k x42))).
Definition frames_for (k : SessionKind) (me other : byte) : list (list byte) :=
  default [] (to_option (frames_of (local me) (hello_of k me) (side me other []) (transcript_of k))).
Definition side_of (k : SessionKind) (me other : byte) : World Sqlite := side me other (frames_for k other me).

Definition peer_b : DeviceId := id_of_key (repeat x42 32).

Definition schedule_of (k : SessionKind) : list (RaceEvent Sqlite) :=
  [Wake 0; TakeCapacity 0; TakeGlobal 0; Established 0 (11%nat : @Conn transport); Select 0;
   Authenticate 0 meta (side_of k x41 x42); Join 0 50].

Definition env_of (k : SessionKind) (waiting : list RuntimeCall) : DialEnv (S := Sqlite) :=
  mkDialEnv waiting (schedule_of k) [] 50 60 40 true (Ok 5%nat).

Definition advert_b : PeerAdvertisement :=
  mkAdvertisement peer_b (repeat x42 32) meta [] [sample_address] 8765 (sha256 [x42]) 10.

(** A session with the same device that another task has just made. *)
Definition earlier : Session :=
  mkSession None None None 3 Control (mkSessionPeer peer_b (repeat x42 32) meta [x01] 8765) ""
    (mkRank peer_b []) (21%nat : @Conn transport) 0.

Definition clipboard : @CapabilityId peer_api := Clipboard.

Abbreviation routed :=
  (dial (local x41) (Routed peer_b two_addresses) Control (env_of Control []) (before, bound)).
Abbreviation joined :=
  (dial (local x41) (Routed peer_b two_addresses) Control
     (env_of Control [CallArrives earlier; CallRegister 1]) (before, bound)).
Abbreviation paired_with :=
  (begin_pairing (local x41) advert_b [outbound clipboard] (env_of Pairing []) 9 (side_of Pairing x41 x42)
     (before, bound)).

Definition probe_env : ProbeEnv (S := Sqlite) :=
  mkProbeEnv (Ok (13%nat : @Conn transport)) false (side_of DiscoveryProbe x41 x42) 50 60.
Definition resolver (host : string) (port : Z) : option (list SocketAddr) :=
  if port =? 8765 then Some [sample_address] else None.

Abbreviation found := (discover_at (local x41) meta " b.local " None resolver (fun _ => probe_env) before).
Abbreviation probed_b := (probe_endpoint (local x41) meta sample_address Scan probe_env before).

Lemma env_of_ok k waiting : env_ok (env_of k waiting).
Proof.
  split_and!; [|intros ev Hev; by apply not_elem_of_nil in Hev|done..].
  intros ev Hev. change (ev ∈ schedule_of k) in Hev. revert ev Hev. apply Forall_forall.
  unfold schedule_of. repeat (apply Forall_cons; split; [first [exact I | vm_compute; split; discriminate]|]).
  constructor.
Qed.
End SampleConnect.

Section witnesses.
Import SamplePeer SampleWire SampleCrypto SampleRegistry SampleDb SampleRun SampleDial SampleConnect.

#[local] Existing Instance sqlite_peer_service.
#[local] Existing Instance sqlite_peer_service_laws.

Lemma routed_ok : bool_decide (routed.1 = Ok 1%nat) = true.
Proof. vm_compute. reflexivity. Qed.
Lemma paired_with_ok : is_ok paired_with.1 = true.
Proof. vm_compute. reflexivity. Qed.
Lemma found_ok : is_ok found.1 = true.
Proof. vm_compute. reflexivity. Qed.
Lemma probed_b_ok : is_ok probed_b.1 = true.
Proof. vm_compute. reflexivity. Qed.

Lemma dial_answers_target_witness : exists t,
  kept_as 1 t (registry routed.2.1) /\ session_key t = (peer_b, Control) /\
  origin (paired_in (store before) peer_b) (env_of Control []) before t.
Proof.
  assert (E : routed = (Ok 1%nat, (routed.2.1, routed.2.2))).
  { rewrite <- (surjective_pairing routed.2). exact (answered_pair _ _ routed_ok). }
  destruct (dial_answers_target (local x41) (Routed peer_b two_addresses) Control (env_of Control []) before
    bound 1 routed.2.1 routed.2.2 before_reachable before_ok (env_of_ok Control []) E) as (_ & _ & Ha).
  exact Ha.
Defined.

Lemma dial_refused_witness : exists rt' sk',
  dial (local x42) (Advertised advert_b) Control (env_of Control []) (before, bound)
    = (Err SelfConnection, (rt', sk')) /\ sk' = bound.
Proof.
  assert (Hna : ~ allowed (local x42) (Advertised advert_b) Control before).
  { intros [Hself _]. by apply Hself. }
  destruct (dial (local x42) (Advertised advert_b) Control (env_of Control []) (before, bound))
    as [x [rt' sk']] eqn:E.
  destruct (dial_refused _ _ _ _ _ _ _ _ _ before_ok Hna E) as (_ & _ & Hsk & _ & Hx).
  exists rt', sk'. rewrite (Hx advert_b eq_refl eq_refl). by split.
Defined.

(** What arrives and is registered depends on the sessions alone. *)
Lemma arrives_follows t (r r' : Runtime Sqlite) :
  registry r = registry r' -> registry (run_call (CallArrives t) r) = registry (run_call (CallArrives t) r').
Proof. intros E. cbn [run_call]. rewrite E. case_match; cbn [map_registry registry]; by rewrite E. Qed.

Lemma register_follows q (r r' : Runtime Sqlite) :
  registry r = registry r' -> registry (run_call (CallRegister q) r) = registry (run_call (CallRegister q) r').
Proof. intros E. cbn [run_call]. rewrite E. case_match; cbn [map_registry registry]; by rewrite E. Qed.

Lemma dial_reuses_active_witness : exists rt1,
  registry rt1 = registry before /\ joined = (Ok 1%nat, (waited (env_of Control [CallArrives earlier; CallRegister 1]) rt1, bound)).
Proof.
  destruct (dial_reuses_active (local x41) (Routed peer_b two_addresses) Control
    (env_of Control [CallArrives earlier; CallRegister 1]) before bound joined.1 joined.2 before_ok
    (surjective_pairing joined)) as (rt1 & Ht & Hg & [(e & He & _)|Hq]).
  - assert (Hok : is_ok joined.1 = true) by (vm_compute; reflexivity). rewrite He in Hok. discriminate Hok.
  - exists rt1. split; [exact Hg|].
    assert (Ew : registry (waited (env_of Control [CallArrives earlier; CallRegister 1]) rt1) =
      registry (waited (env_of Control [CallArrives earlier; CallRegister 1]) before)).
    { unfold waited. cbn [de_waiting env_of fold_left]. by apply register_follows, arrives_follows. }
    assert (Ha : bool_decide ((active peer_b Control
      (registry (waited (env_of Control [CallArrives earlier; CallRegister 1]) before))).1 = Some 1%nat) = true)
      by (vm_compute; reflexivity).
    rewrite <- Ew in Ha. destruct (Hq 1%nat _ (answered_pair _ _ Ha)) as [Hx Hn].
    rewrite <- Hx, <- Hn. apply surjective_pairing.
Defined.

Lemma probe_endpoint_safe_witness : exists p,
  probed_b.1 = Ok p /\ same_sessions (registry before) (registry probed_b.2).
Proof.
  assert (Hnow : in_i64 (pe_now' probe_env)) by (vm_compute; split; discriminate).
  destruct (probe_endpoint_safe (local x41) meta sample_address Scan probe_env before probed_b.1 probed_b.2
    before_ok Hnow (surjective_pairing probed_b)) as [Hss _].
  pose proof probed_b_ok as Hok. destruct probed_b.1 as [p|e]; [|discriminate Hok].
  exists p. split; [reflexivity | exact Hss].
Defined.

Lemma discover_at_sound_witness : exists p endpoint,
  found.1 = Ok p /\ is_dialable endpoint = true.
Proof.
  assert (Hnow : forall a : SocketAddr, in_i64 (pe_now' ((fun _ => probe_env) a)))
    by (intros a; vm_compute; split; discriminate).
  destruct (discover_at_sound (local x41) meta " b.local " None resolver (fun _ => probe_env) before found.1
    found.2 before_ok Hnow (surjective_pairing found)) as [_ Hx].
  pose proof found_ok as Hok. destruct found.1 as [p|e]; [|discriminate Hok].
  destruct Hx as (ports & endpoint & _ & _ & _ & _ & Hd & _). exists p, endpoint.
  split; [reflexivity | exact Hd].
Defined.

Lemma begin_pairing_sound_witness : exists pending,
  paired_with.1 = Ok pending /\ session_key (pending_session pending) = (peer_b, Pairing).
Proof.
  pose proof (begin_pairing_sound (local x41) advert_b [outbound clipboard] (env_of Pairing []) 9
    (side_of Pairing x41 x42) before bound paired_with.1 paired_with.2 before_reachable before_ok
    (env_of_ok Pairing []) (surjective_pairing paired_with)) as Hb.
  assert (Hc : is_ok (collect_requests ∅ [outbound clipboard]) = true) by (vm_compute; reflexivity).
  match type of Hb with (match ?c with _ => _ end) => destruct c as [requested|e]; [|discriminate Hc] end.
  destruct Hb as (_ & _ & _ & Hb). pose proof paired_with_ok as Hok.
  destruct paired_with.1 as [pending|e]; [|discriminate Hok]. exists pending.
  split; [reflexivity|]. apply (Hb pending eq_refl).
Defined.
End witnesses.
