(* ===== verification/Steady.v ===== *)
(** * Steady

    What holds of a running program at all times, [sound], and that each call
    which makes no session of its own keeps it, [steady]; with the calls that
    make one by accepting a connection.  [Listener] and [System] build on it. *)

From S2P Require Import Prelude Errors Addr Peer Wire Grants Registry Endpoint RepositoryDb Repository.
From S2P Require Import Store Text Identity Discovery Probe Handshake Auth Mutual Trust Pairing.
From S2P Require Import Sockets Calls Dial Accept Connect.

(** ** What holds of a runtime at all times *)

Section steady.
Context `{PeerApi} `{Crypto} `{WireApi} `{Transport} `{!Remote} {S : Type} `{!PeerRepository S}
  `{!EndpointRepository S} `{!PeerService S}.
Context `{!PeerLaws} `{!TransportLaws} `{!PeerRepositoryLaws S} `{!EndpointRepositoryLaws S}
  `{!StoreLaws S} `{!PeerServiceLaws S} `{!WireLaws} `{!CryptoLaws}.

(** A session that has been authenticated carries a certificate digest. *)
Definition certified (s : Session) : Prop := blen (peer_certificate_sha256 (peer s)) = 32.

Record sound (r : Runtime S) : Prop := {
  sd_reachable : reachable (registry r);
  sd_store : store_ok (store r);
  sd_discovery : discovery_ok (discovery r);
  sd_certified : forall q t, arcs (registry r) !! q = Some t -> certified t
}.

(** [r'] comes from the sound [r] without a new session. *)
Definition steady (r r' : Runtime S) : Prop :=
  sound r -> sound r' /\ evolves (registry r) (registry r').

#[export] Instance steady_preorder : PreOrder steady.
Proof.
  split; [by intros r Hr|]. intros r1 r2 r3 H12 H23 [H' E12]%H12. destruct (H23 H') as [H'' E23].
  split; [done|]. by etransitivity.
Qed.

(** A step of the store alone. *)
Definition keeps_store (s s' : S) : Prop := store_ok s -> store_ok s'.

#[export] Instance keeps_store_preorder : PreOrder keeps_store.
Proof. split; unfold keeps_store; [by intros s|]. intros u v w Huv Hvw Hu. auto. Qed.

Lemma same_keeps_store {E A} (m : action S E A) : Along same_store m -> Along keeps_store m.
Proof. intros Hm s x s' E1 Hs. by apply (along (R := same_store) _ _ _ E1). Qed.

#[export] Instance store_paired id key : Along keeps_store (require_paired id key).
Proof. apply same_keeps_store, _. Qed.
#[export] Instance store_authorize id c : Along keeps_store (authorize S id c).
Proof. apply same_keeps_store, _. Qed.
#[export] Instance store_list_grants id : Along keeps_store (list_grants id).
Proof.
  intros s x s' E Hs. split; [by eapply list_grants_spec; [apply Hs|]|].
  by apply (list_grants_keeps S id s x s' Hs E).
Qed.
#[export] Instance store_find_peer id : Along keeps_store (find_peer id).
Proof.
  intros s x s' E Hs. split; [by eapply find_peer_spec; [apply Hs|]|].
  by apply (find_peer_keeps S id s x s' Hs E).
Qed.
#[export] Instance store_save_peer p : Along keeps_store (save_peer p).
Proof.
  intros s x s' E Hs. split; [by eapply save_peer_spec; [apply Hs|]|].
  by apply (save_peer_keeps S p s x s' Hs E).
Qed.
#[export] Instance store_save_pairing p gs : Along keeps_store (save_pairing p gs).
Proof.
  intros s x s' E Hs. split; [by eapply save_pairing_spec; [apply Hs|]|].
  by apply (save_pairing_keeps S p gs s x s' Hs E).
Qed.

#[export] Instance store_endpoints now id : Along keeps_store (endpoints now id).
Proof.
  intros s x s' E Hs. destruct (endpoints_frame now id s x s' (proj2 Hs) E) as [Hr _].
  destruct (endpoints_keeps S now id s x s' Hs E) as [Hp _]. by split.
Qed.

#[export] Instance steady_store {F A} (m : action S F A) : Along keeps_store m -> Along steady (on_store m).
Proof.
  intros Hm r x r' (s & E & ->)%on_store_inv [Hr Hs Hd Hc]. split; [|reflexivity].
  split; try done. by eapply Hm.
Qed.

Lemma steady_discovery {F} (f : Discovery -> Discovery) :
  (forall d, discovery_ok d -> discovery_ok (f d)) -> Along steady (on_discovery (E := F) f).
Proof.
  intros Hf r x r' [= _ <-] [Hr Hs Hd Hc]. split; [|reflexivity]. split; try done. by apply Hf.
Qed.

(** A step of the registry that adds no session. *)
Lemma steady_registry_step (r : Runtime S) g :
  (reachable (registry r) -> reachable g /\ evolves (registry r) g) ->
  steady r (mkRuntime (store r) (discovery r) g).
Proof.
  intros Hg [Hr Hs Hd Hc]. destruct (Hg Hr) as [Hr' He]. split; [|done]. split; try done. cbn.
  intros q t Hq. eapply Hc. by apply (ev_arcs _ _ He).
Qed.

#[export] Instance steady_close {F} s reason : Along steady (close_session (E := F) s reason).
Proof.
  intros r x r' [= _ <-]. apply (steady_registry_step r (close_conn _ _ _ _)). intros Hr.
  split; [by apply close_conn_reachable | apply evolves_close].
Qed.

(** What leaves no trace and the registry alone. *)
Lemma no_trace_steady (r r' : Runtime S) : no_trace r r' -> registry r' = registry r -> steady r r'.
Proof.
  intros [Ht Hd] Hg [Hr Hs Hdi Hc]. rewrite Hg. split; [|reflexivity].
  split; rewrite ?Hg, ?Hd; try done. by apply Ht.
Qed.

Lemma remember_steady now now' s remote source :
  in_i64 now' -> certified s -> Along steady (remember_authenticated_session now now' s remote source).
Proof.
  intros Hnow Hcert r x r' E [Hr Hs Hd Hc].
  destruct (remember_only_paired _ _ _ _ _ _ _ _ Hs Hnow Hcert E) as (_ & Hg & Hdi & _).
  destruct (remember_keeps_trust _ _ _ _ _ _ _ _ Hs Hnow Hcert E) as (_ & Hs' & _).
  rewrite Hg. split; [|reflexivity]. split; rewrite ?Hg, ?Hdi; try done.
  by apply (on_event_ok _ (Observed _)).
Qed.

(** *** The calls of other tasks *)

Lemma run_call_discovery call (r : Runtime S) :
  discovery_ok (discovery r) -> discovery_ok (discovery (run_call call r)).
Proof.
  intros Hd. destruct call; cbn [run_call]; try done.
  - destruct (forget id r) as [x r'] eqn:E. unfold forget in E. cbn [snd].
    apply act_bind_inv in E as [(b & r1 & E1 & E)|(e & E1 & _)];
      apply on_store_inv in E1 as (s1 & _ & ->); [|done].
    apply act_bind_inv in E as [([] & r2 & E2 & E)|(e & E2 & _)];
      apply on_store_inv in E2 as (s2 & _ & ->); [|done].
    injection E as _ <-. by apply (on_event_ok _ (Forgotten id)).
  - destruct (grant g r) as [x r'] eqn:E. unfold grant in E. cbn [snd].
    apply act_bind_inv in E as [([] & r1 & E1 & E)|(e & E1 & _)]; injection E1 as _ <-; [|done].
    apply act_bind_inv in E as [([] & r2 & E2 & E)|(e & E2 & _)];
      apply on_store_inv in E2 as (s2 & _ & ->); [|done]. by injection E as _ <-.
  - destruct (revoke id capability direction r) as [x r'] eqn:E. unfold revoke in E. cbn [snd].
    apply act_bind_inv in E as [(b & r1 & E1 & E)|(e & E1 & _)];
      apply on_store_inv in E1 as (s1 & _ & ->); [|done]. destruct b; by injection E as _ <-.
  - by destruct (conn_unused _ _).
  - by destruct (upgrade _ _).
Qed.

Definition call_certified (call : RuntimeCall) : Prop :=
  match call with
  | CallArrives s => certified s
  | _ => True
  end.

Lemma run_call_sound call (r : Runtime S) : call_certified call -> sound r -> sound (run_call call r).
Proof.
  intros Hcall [Hr Hs Hd Hc]. split.
  - by apply run_call_reachable.
  - by apply run_call_store.
  - by apply run_call_discovery.
  - intros q t Hq. destruct (run_call_step call r (reachable_ok _ Hr)) as [E|[[_ He]|(s & -> & _ & E)]].
    + rewrite E in Hq. by eapply Hc.
    + eapply Hc. by apply (ev_arcs _ _ He).
    + rewrite E in Hq. cbn in Hq. apply lookup_insert_Some in Hq as [[_ <-]|[_ Hq]]; [done|by eapply Hc].
Qed.

Lemma run_calls_sound calls (r : Runtime S) :
  (forall call, call ∈ calls -> call_certified call) -> sound r ->
  sound (fold_left (fun r call => run_call call r) calls r).
Proof.
  revert r. induction calls as [|call calls IH]; intros r Hc Hr; [done|]. cbn. apply IH.
  - intros c Hin. apply Hc. by right.
  - apply run_call_sound; [|done]. apply Hc. by left.
Qed.
End steady.

(** ** Pairing and remembered peers *)

(** One call of a sequence. *)
Ltac steady_bind := apply along_bind; [apply _|apply _|].

Section calls.
Context `{PeerApi} `{Crypto} `{WireApi} `{Transport} `{!Remote} {S : Type} `{!PeerRepository S}
  `{!EndpointRepository S} `{!PeerService S}.
Context `{!PeerLaws} `{!TransportLaws} `{!PeerRepositoryLaws S} `{!EndpointRepositoryLaws S}
  `{!StoreLaws S} `{!PeerServiceLaws S} `{!WireLaws} `{!CryptoLaws}.

#[local] Existing Instances steady_preorder steady_store steady_close keeps_store_preorder.

#[export] Instance steady_repository {A} (m : action S RepositoryError A) :
  Along keeps_store m -> Along steady (repository_call m).
Proof. intros Hm. unfold repository_call. apply _. Qed.

#[export] Instance steady_auto_connect now id b : Along steady (set_peer_auto_connect now id b).
Proof.
  unfold set_peer_auto_connect. steady_bind. intros [p|]; [destruct (negb _)|]; apply _.
Qed.

#[export] Instance steady_require s c : Along steady (require s c).
Proof. unfold require. apply _. Qed.

Lemma steady_confirm now now1 now2 s remote gs :
  in_i64 now2 -> certified s -> Along steady (confirm_pairing_with_grants now now1 now2 s remote gs).
Proof.
  intros Hnow Hcert. unfold confirm_pairing_with_grants.
  do 5 (steady_bind; intros ?).
  apply along_bind; [apply _|by apply remember_steady|intros _].
  apply steady_discovery. intros d Hd. by apply (on_event_ok d Refreshed).
Qed.

Lemma steady_complete clock now now1 now2 p remote frame :
  in_i64 now2 -> certified (pending_session p) ->
  Along steady (complete_pairing clock now now1 now2 p remote frame).
Proof.
  intros Hnow Hcert. unfold complete_pairing. cbv zeta.
  do 3 (steady_bind; intros ?). apply along_bind; [apply _|destruct (_ || _); apply _|intros _].
  steady_bind. intros granted. apply along_bind; [apply _|by apply steady_confirm|apply _].
Qed.

(** ** A new session *)

Lemma register_new_sound {F} (f : NetworkError -> F) s (r : Runtime S) x r' :
  sound r -> certified s -> fresh_conn (connection s) (registry r) -> register_new f s r = (x, r') -> sound r'.
Proof.
  intros [Hr Hs Hd Hc] Hcert Hf E.
  destruct (register_new_inv f s r x r' Hr Hf E) as (Hr' & Es & Ed & _).
  split; [done|by rewrite Es|by rewrite Ed|]. intros q t Hq. unfold register_new in E.
  pose proof (adopt_reachable s _ Hr Hf) as Hra. apply reachable_ok in Hra.
  change (adopt s (registry r)) with (new_arc (registry r), (adopt s (registry r)).2) in E.
  cbv beta iota zeta in E. set (p := new_arc (registry r)) in *.
  destruct (register_session p s _) as [y g2] eqn:Ereg.
  assert (He : evolves (adopt s (registry r)).2 g2).
  { replace g2 with (register_session p s (adopt s (registry r)).2).2 by by rewrite Ereg.
    apply evolves_register; [done|]. cbn. by rewrite lookup_insert_eq. }
  assert (Hg2 : arcs g2 !! q = Some t).
  { destruct y as [a|e]; injection E as _ <-; cbn in Hq; [case_match; [done|]|];
      cbn in Hq; by apply lookup_delete_Some in Hq as [_ Hq]. }
  apply (ev_arcs _ _ He) in Hg2. cbn in Hg2.
  apply lookup_insert_Some in Hg2 as [[_ <-]|[_ Hg2]]; [done|by eapply Hc].
Qed.

Lemma vouched_certified (w : World S) l own remote dir s : vouched w l own remote dir s -> certified s.
Proof.
  intros Hvo. destruct (vo_hello _ _ _ _ _ _ Hvo) as (rp & Hv & _ & _ & _ & E). unfold certified. rewrite E.
  by eapply validate_hello_certificate.
Qed.
End calls.

(** ** Accepted connections *)

Section sessions.
Context `{PeerApi} `{Crypto} `{WireApi} `{Transport} `{!Remote} {S : Type} `{!PeerRepository S}
  `{!EndpointRepository S} `{!PeerService S}.
Context `{!PeerLaws} `{!TransportLaws} `{!PeerRepositoryLaws S} `{!EndpointRepositoryLaws S}
  `{!StoreLaws S} `{!PeerServiceLaws S} `{!WireLaws} `{!CryptoLaws}.

Lemma run_inbound_steady c l md expired w (h : Host S) x h' :
  run_inbound c l md expired w h = (x, h') ->
  steady (host_runtime h) (host_runtime h') /\ host_handshakes h' = host_handshakes h /\
  (sound (host_runtime h) -> forall s, x = Ok s -> certified s /\ connection s = c).
Proof.
  intros E. destruct (run_inbound_inv _ _ _ _ _ _ _ _ E) as (Hx & Hg & Hh & _).
  split_and!; [|done|].
  - apply no_trace_steady; [|done]. unfold run_inbound in E.
    destruct (authenticate_inbound c l md (host_world h w)) as [y w'] eqn:Ea. injection E as _ <-.
    apply frames_inbound, stays_same_store in Ea. by split.
  - intros Hs s ->. destruct Hx as [w' Ea].
    destruct (inbound_vouched c l md (host_world h w) s w' (proj1 (sd_store _ Hs)) Ea) as (remote & Hvo & _).
    split; [by eapply vouched_certified|]. by apply (inbound_committed _ _ _ _ _ _ Ea).
Qed.

Lemma publish_steady p s (h : Host S) x h' :
  publish p s h = (x, h') ->
  steady (host_runtime h) (host_runtime h') /\ host_handshakes h' = host_handshakes h.
Proof.
  unfold publish. destruct (host_subscribed h); [by intros [= _ <-]|].
  intros (rt & E & ->)%in_runtime_inv. split; [|done]. exact (along (R := steady) _ _ _ E).
Qed.

Lemma in_runtime_steady {F A} (m : action (Runtime S) F A) (h : Host S) x h' :
  Along steady m -> in_runtime m h = (x, h') ->
  steady (host_runtime h) (host_runtime h') /\ host_handshakes h' = host_handshakes h.
Proof. intros Hm (rt & E & ->)%in_runtime_inv. split; [by eapply Hm|done]. Qed.

Lemma accept_task_sound l md quic expired w now now' (h : Host S) x h' :
  sound (host_runtime h) -> in_i64 now' ->
  (forall c, quic = Ok c -> fresh_conn c (registry (host_runtime h))) ->
  accept_task l md quic expired w now now' h = (x, h') ->
  sound (host_runtime h') /\ host_handshakes h' = host_handshakes h.
Proof.
  intros Hs Hnow Hf E. unfold accept_task in E.
  apply act_bind_inv in E as [(c & h1 & E1 & E)|(e & E1 & ->)]; injection E1 as Ec <-; [|done].
  apply act_bind_inv in E as [(s & h1 & E1 & E)|(e & E1 & ->)];
    apply run_inbound_steady in E1 as (Hst & Hh1 & Hcert); destruct (Hst Hs) as [Hs1 He1]; [|done].
  destruct (Hcert Hs s eq_refl) as [Hc Hconn].
  assert (Hm : Along steady (remember_authenticated_session (S := S) now now' s (conn_remote (connection s)) Inbound))
    by by apply remember_steady.
  apply act_bind_inv in E as [(p & h2 & E2 & E)|(e & E2 & ->)];
    apply in_runtime_steady in E2 as [Hst2 Hh2]; try exact Hm; destruct (Hst2 Hs1) as [Hs2 He2];
    [|split; [done|congruence]].
  case_bool_decide as Hk.
  { apply in_runtime_steady in E as [Hst3 Hh3]; [|apply _]. split; [by apply Hst3|congruence]. }
  assert (Hf2 : fresh_conn (connection s) (registry (host_runtime h2))).
  { rewrite Hconn. do 2 (eapply evolves_fresh; [eassumption|]). by apply Hf. }
  apply act_bind_inv in E as [([q r] & h3 & E3 & E)|(e & E3 & ->)];
    apply in_runtime_inv in E3 as (rt & E3 & ->); pose proof (register_new_sound _ _ _ _ _ Hs2 Hc Hf2 E3) as Hs3;
    [|split; [done|cbn; congruence]].
  cbn [fst snd] in E. destruct (_ =? _)%nat.
  - apply publish_steady in E as [Hst4 Hh4]. split; [by apply Hst4|]. rewrite Hh4. cbn. congruence.
  - injection E as _ <-. split; [done|cbn; congruence].
Qed.

Lemma accept_sound l md quic expired w now now' (h : Host S) :
  sound (host_runtime h) -> in_i64 now' ->
  (forall c, quic = Ok c -> fresh_conn c (registry (host_runtime h))) ->
  let h' := (accept_incoming l md quic expired w now now' h).2 in
  sound (host_runtime h') /\ host_handshakes h' = host_handshakes h.
Proof.
  intros Hs Hnow Hf. unfold accept_incoming. destruct (host_handshakes h) as [|n] eqn:En; [done|].
  destruct (accept_task l md quic expired w now now' (set_handshakes n h)) as [x h1] eqn:E.
  apply accept_task_sound in E as [Hs1 Hh1]; [|done..]. cbn in *. split; [done|congruence].
Qed.
End sessions.
