(* ===== verification/Listener.v ===== *)
(** * Listener

    The accept loop (runtime.rs, [start_accept_loop]) with its tasks side by
    side: up to thirty-two incoming connections are between their QUIC handshake
    and their publication at a time, each held up at any of its awaits while the
    others, and the rest of the runtime, go on.  [Accept] is one such task on its
    own; this file shows what becomes of all of them under every interleaving. *)

From S2P Require Import Prelude Errors Addr Peer Wire Grants Registry Endpoint RepositoryDb Repository.
From S2P Require Import Store Text Identity Discovery Probe Handshake Auth Mutual Trust Pairing Calls Dial Accept Connect Steady.


(** ** The machine *)

Section listener.
Context `{PeerApi} `{Crypto} `{WireApi} `{Transport} `{!Remote} {S : Type} `{!PeerRepository S}
  `{!EndpointRepository S} `{!PeerService S}.

(** How a task ends.  A probe that has been answered is closed a little later,
    by a task of its own. *)
Inductive InboundOutcome :=
| Rejected (e : NetworkError)
| ProbeAnswered (s : Session) (closed : bool)
| Superseded (s : Session)
| PublishedAs (p : nat) (s : Session)
| Unheard (s : Session).

(** Where a task is: in the QUIC handshake, in the handshake of the peer, then
    with an authenticated session that has yet to be remembered, registered and
    published. *)
Inductive InboundTask :=
| TaskQuic
| TaskPeer (c : Conn)
| TaskVouched (s : Session)
| TaskNoted (s : Session)
| TaskRegistered (p : nat) (s : Session)
| TaskEnded (o : InboundOutcome).

Record Listener := mkListener { ln_host : Host S; ln_tasks : list InboundTask }.

Inductive ListenEvent :=
| Arrive
| QuicDone (i : nat) (x : net_result Conn)
| PeerDone (i : nat) (md : DeviceMetadata) (expired : bool) (w : World S)
| Note (i : nat) (now now' : Z)
| Enter (i : nat)
| Announce (i : nat)
| CloseProbe (i : nat)
| During (call : RuntimeCall)
| Visible (b : bool)
| Subscribers (b : bool).

Definition in_flight (t : InboundTask) : bool :=
  match t with
  | TaskEnded _ => false
  | _ => true
  end.

(** The connection a task has to itself. *)
Definition task_conn (t : InboundTask) : option Conn :=
  match t with
  | TaskPeer c => Some c
  | TaskVouched s | TaskNoted s => Some (connection s)
  | _ => None
  end.

Definition task_conns (l : list InboundTask) : list Conn := omap task_conn l.

(** The handle a task holds. *)
Definition task_handle (t : InboundTask) : option nat :=
  match t with
  | TaskRegistered p _ => Some p
  | _ => None
  end.

Definition set_task (i : nat) (t : InboundTask) (ln : Listener) : Listener :=
  mkListener (ln_host ln) (<[i := t]> (ln_tasks ln)).
Definition with_host (h : Host S) (ln : Listener) : Listener := mkListener h (ln_tasks ln).

(** The task ends, and its permit is dropped. *)
Definition end_task (i : nat) (o : InboundOutcome) (ln : Listener) : Listener :=
  set_task i (TaskEnded o)
    (with_host (set_handshakes (Datatypes.S (host_handshakes (ln_host ln))) (ln_host ln)) ln).

(** A turn of the loop: without a permit the connection is dropped. *)
Definition arrive (ln : Listener) : Listener :=
  match host_handshakes (ln_host ln) with
  | O => ln
  | Datatypes.S n => mkListener (set_handshakes n (ln_host ln)) (ln_tasks ln ++ [TaskQuic])
  end.

(** What follows [remember_authenticated_session]. *)
Definition enter_inbound (i : nat) (s : Session) (ln : Listener) : Listener :=
  if bool_decide (kind s = DiscoveryProbe) then end_task i (ProbeAnswered s false) ln
  else
    match in_runtime (register_new (fun e => e) s) (ln_host ln) with
    | (Ok (p, q), h) =>
        if (q =? p)%nat then set_task i (TaskRegistered p s) (with_host h ln)
        else end_task i (Superseded s) (with_host h ln)
    | (Err e, h) => end_task i (Rejected e) (with_host h ln)
    end.

(** [incoming.send(session)] and what follows it. *)
Definition announce (i p : nat) (s : Session) (ln : Listener) : Listener :=
  end_task i (if host_subscribed (ln_host ln) then PublishedAs p s else Unheard s)
    (with_host (publish p s (ln_host ln)).2 ln).

(** Calls of other tasks take up no connection and drop no handle of these. *)
Definition during_allowed (call : RuntimeCall) (ln : Listener) : bool :=
  match call with
  | CallArrives s => negb (bool_decide (connection s ∈ task_conns (ln_tasks ln)))
  | CallDrop p => negb (bool_decide (p ∈ omap task_handle (ln_tasks ln)))
  | _ => true
  end.

(** One step; [None] when it is not possible. *)
Definition listen_turn (l : Local) (ev : ListenEvent) (ln : Listener) : option Listener :=
  match ev with
  | Arrive => Some (arrive ln)
  | QuicDone i x =>
      match ln_tasks ln !! i with
      | Some TaskQuic =>
          match x with
          | Ok c =>
              let g := registry (host_runtime (ln_host ln)) in
              if conn_unused c g && conn_open g c && negb (bool_decide (c ∈ task_conns (ln_tasks ln)))
              then Some (set_task i (TaskPeer c) ln) else None
          | Err e => Some (end_task i (Rejected e) ln)
          end
      | _ => None
      end
  | PeerDone i md expired w =>
      match ln_tasks ln !! i with
      | Some (TaskPeer c) =>
          match run_inbound c l md expired w (ln_host ln) with
          | (Ok s, h) => Some (set_task i (TaskVouched s) (with_host h ln))
          | (Err e, h) => Some (end_task i (Rejected e) (with_host h ln))
          end
      | _ => None
      end
  | Note i now now' =>
      match ln_tasks ln !! i with
      | Some (TaskVouched s) =>
          let (_, h) := in_runtime (E := NetworkError)
            (remember_authenticated_session now now' s (conn_remote (connection s)) Inbound) (ln_host ln) in
          Some (set_task i (TaskNoted s) (with_host h ln))
      | _ => None
      end
  | Enter i =>
      match ln_tasks ln !! i with
      | Some (TaskNoted s) => Some (enter_inbound i s ln)
      | _ => None
      end
  | Announce i =>
      match ln_tasks ln !! i with
      | Some (TaskRegistered p s) => Some (announce i p s ln)
      | _ => None
      end
  | CloseProbe i =>
      match ln_tasks ln !! i with
      | Some (TaskEnded (ProbeAnswered s false)) =>
          let (_, h) := in_runtime (E := NetworkError) (close_session s "discovery probe completed") (ln_host ln) in
          Some (set_task i (TaskEnded (ProbeAnswered s true)) (with_host h ln))
      | _ => None
      end
  | During call =>
      if during_allowed call ln
      then Some (with_host (set_host_runtime (run_call call (host_runtime (ln_host ln))) (ln_host ln)) ln)
      else None
  | Visible b =>
      let h := ln_host ln in
      Some (with_host (mkHost (host_runtime h) (host_rates h) (host_probe_permits h) (host_handshakes h) b
                         (host_subscribed h) (host_published h)) ln)
  | Subscribers b =>
      let h := ln_host ln in
      Some (with_host (mkHost (host_runtime h) (host_rates h) (host_probe_permits h) (host_handshakes h)
                         (host_discoverable h) b (host_published h)) ln)
  end.

Definition listen_step (l : Local) (ln : Listener) (ev : ListenEvent) : Listener :=
  default ln (listen_turn l ev ln).

Definition run_listener (l : Local) (events : list ListenEvent) (ln : Listener) : Listener :=
  fold_left (listen_step l) events ln.

Definition listening_from (h : Host S) : Listener := mkListener h [].
End listener.

Arguments Listener {_ _} _.
Arguments ListenEvent {_ _} _.

(** ** Facts *)

Section facts.
Context `{PeerApi} `{Crypto} `{WireApi} `{Transport} `{!Remote} {S : Type} `{!PeerRepository S}
  `{!EndpointRepository S} `{!PeerService S}.
Context `{!PeerLaws} `{!TransportLaws} `{!PeerRepositoryLaws S} `{!EndpointRepositoryLaws S}
  `{!StoreLaws S} `{!PeerServiceLaws S} `{!WireLaws} `{!CryptoLaws}.

Abbreviation Listener := (Listener S).
Abbreviation ListenEvent := (ListenEvent S).

(** The session a task has authenticated, and the handle it has published. *)
Definition task_session (t : InboundTask) : option Session :=
  match t with
  | TaskVouched s | TaskNoted s | TaskRegistered _ s => Some s
  | TaskEnded (ProbeAnswered s _) | TaskEnded (Superseded s) | TaskEnded (PublishedAs _ s)
  | TaskEnded (Unheard s) => Some s
  | _ => None
  end.

Definition task_published (t : InboundTask) : option nat :=
  match t with
  | TaskEnded (PublishedAs p _) => Some p
  | _ => None
  end.

(** The task has passed on from a probe. *)
Definition task_entered (t : InboundTask) : bool :=
  match t with
  | TaskRegistered _ _ | TaskEnded (Superseded _) | TaskEnded (PublishedAs _ _) | TaskEnded (Unheard _) => true
  | _ => false
  end.

Definition flying (t : InboundTask) : nat := if in_flight t then 1 else 0.

Abbreviation ln_registry ln := (registry (host_runtime (ln_host ln))).

(** What holds of the tasks and the host together; [O] is what is claimed of
    every session a task has authenticated, and [A] of every handle a task has
    published for its session. *)
Record listener_ok (O : Session -> Prop) (A : nat -> Session -> Prop) (h0 : Host S) (ln : Listener) : Prop := {
  lo_sound : sound (host_runtime (ln_host ln));
  lo_permits : (host_handshakes (ln_host ln) + count in_flight (ln_tasks ln) = host_handshakes h0)%nat;
  lo_nodup : NoDup (task_conns (ln_tasks ln));
  lo_fresh : forall c, c ∈ task_conns (ln_tasks ln) -> fresh_conn c (ln_registry ln);
  lo_handles : forall p s, TaskRegistered p s ∈ ln_tasks ln -> kept_as p s (ln_registry ln);
  lo_announced : forall p s, TaskEnded (PublishedAs p s) ∈ ln_tasks ln -> A p s;
  lo_published : host_published (ln_host ln) ≡ₚ host_published h0 ++ omap task_published (ln_tasks ln);
  lo_sessions : forall t s, t ∈ ln_tasks ln -> task_session t = Some s ->
    certified s /\ O s /\ (task_entered t = true -> kind s <> DiscoveryProbe)
}.

Lemma listener_weaken (O O' : Session -> Prop) (A A' : nat -> Session -> Prop) h0 ln :
  (forall s, O s -> O' s) -> (forall p s, A p s -> A' p s) ->
  listener_ok O A h0 ln -> listener_ok O' A' h0 ln.
Proof. intros HO HA [? ? ? ? ? ? ? Hs]. split; try done; [by auto|]. intros t s Ht E. destruct (Hs t s Ht E) as (? & ? & ?). auto. Qed.

Lemma task_split (l : list InboundTask) i t :
  l !! i = Some t -> exists a b, l = a ++ t :: b /\ forall t', <[i := t']> l = a ++ t' :: b.
Proof.
  intros (a & b & -> & ->)%list_elem_of_split_length. exists a, b. split; [done|]. intros t'.
  by rewrite insert_app_r_alt, Nat.sub_diag.
Qed.

Lemma task_conns_split a t b :
  task_conns (a ++ t :: b) = task_conns a ++ option_list (task_conn t) ++ task_conns b.
Proof. unfold task_conns. rewrite omap_app. cbn. by destruct (task_conn t). Qed.

(** One task moves, while the host makes a step that leaves the others alone. *)
Lemma task_move (O : Session -> Prop) (A : nat -> Session -> Prop) h0 (ln : Listener) i t t' h' :
  listener_ok O A h0 ln -> ln_tasks ln !! i = Some t -> task_published t = None ->
  sound (host_runtime h') ->
  (forall c, fresh_conn c (ln_registry ln) -> task_conn t <> Some c -> fresh_conn c (registry (host_runtime h'))) ->
  (forall p s, kept_as p s (ln_registry ln) -> kept_as p s (registry (host_runtime h'))) ->
  (forall c, task_conn t' = Some c -> fresh_conn c (registry (host_runtime h')) /\
     (task_conn t = Some c \/ c ∉ task_conns (ln_tasks ln))) ->
  (host_handshakes h' + flying t' = host_handshakes (ln_host ln) + flying t)%nat ->
  host_published h' = host_published (ln_host ln) ++ option_list (task_published t') ->
  (forall p s, t' = TaskRegistered p s -> kept_as p s (registry (host_runtime h'))) ->
  (forall p s, t' = TaskEnded (PublishedAs p s) -> A p s) ->
  (forall s, task_session t' = Some s ->
     certified s /\ O s /\ (task_entered t' = true -> kind s <> DiscoveryProbe)) ->
  listener_ok O A h0 (mkListener h' (<[i := t']> (ln_tasks ln))).
Proof.
  intros [Hs Hp Hnd Hf Hh Hann Hpub Hse] Hi Ht Hs' Hf' Ha Hc Hfl Hpub' Hh' Hann' Hse'.
  destruct (task_split _ _ _ Hi) as (a & b & Eab & Eins). rewrite Eab in *. clear Hi.
  rewrite task_conns_split in Hnd, Hf, Hc.
  assert (Hin : forall u, u ∈ a ++ t' :: b -> u = t' \/ u ∈ a ++ t :: b) by set_solver.
  split; cbn [ln_host ln_tasks]; rewrite ?Eins.
  - done.
  - rewrite count_app, count_cons in *. unfold flying in Hfl. lia.
  - rewrite task_conns_split. destruct (task_conn t') as [c|] eqn:Et; cbn.
    2:{ revert Hnd. rewrite !NoDup_app. set_solver. }
    destruct (Hc c eq_refl) as [_ [E|Hnew]].
    + rewrite E in Hnd. exact Hnd.
    + assert (Hnd' : NoDup (task_conns a ++ task_conns b)) by (revert Hnd; rewrite !NoDup_app; set_solver).
      apply (NoDup_cons_2 c) in Hnd'; [|set_solver]. revert Hnd'. rewrite NoDup_cons, !NoDup_app, NoDup_cons. set_solver.
  - rewrite task_conns_split. intros c Hcin.
    destruct (task_conn t') as [c'|] eqn:Et; [destruct (decide (c = c')) as [->|Hne]; [by apply (Hc c')|]|].
    all: assert (Hold : c ∈ task_conns a ++ task_conns b) by (cbn in Hcin; set_solver).
    all: apply Hf'; [apply Hf; set_solver|].
    all: intros E; rewrite E in Hnd; revert Hnd Hold; cbn; rewrite !NoDup_app, NoDup_cons; set_solver.
  - intros p s [E|Hu]%Hin; [by apply Hh'|]. by apply Ha, Hh.
  - intros p s [E|Hu]%Hin; [by apply Hann'|by apply Hann].
  - rewrite Hpub', Hpub, !omap_app. cbn. rewrite Ht. destruct (task_published t'); cbn; [|by rewrite app_nil_r].
    by rewrite <- app_assoc, <- (Permutation_cons_append _ n), Permutation_middle, app_assoc.
  - intros u s [->|Hu]%Hin; [by apply Hse'|by apply Hse].
Qed.

(** Registering a new session keeps what other handles stand for, and takes up
    its own connection only. *)
Lemma register_new_others {F} (f : NetworkError -> F) s (rt : Runtime S) x rt' :
  reachable (registry rt) -> fresh_conn (connection s) (registry rt) -> register_new f s rt = (x, rt') ->
  (forall p t, kept_as p t (registry rt) -> kept_as p t (registry rt')) /\
  (forall c, c <> connection s -> fresh_conn c (registry rt) -> fresh_conn c (registry rt')).
Proof.
  intros Hr Hf E. unfold register_new in E.
  pose proof (adopt_reachable s _ Hr Hf) as Hr1. apply reachable_ok in Hr1.
  destruct (new_arc_fresh (registry rt)) as [Hnone _].
  change (adopt s (registry rt)) with (new_arc (registry rt), (adopt s (registry rt)).2) in E.
  cbv beta iota zeta in E. set (p0 := new_arc (registry rt)) in *.
  assert (Hp0 : arcs (adopt s (registry rt)).2 !! p0 = Some s) by (cbn; by rewrite lookup_insert_eq).
  destruct (register_session p0 s _) as [y g2] eqn:Ereg.
  destruct (register_session_arbitration _ p0 s Hr1 Hp0) as (_ & _ & _ & _ & Ha & _).
  pose proof (evolves_register p0 s _ Hr1 Hp0) as Hev. rewrite Ereg in Ha, Hev. cbn [snd] in Ha, Hev.
  assert (Hkeep : forall p t, kept_as p t (registry rt) -> kept_as p t g2 /\ kept_as p t (drop_arc p0 g2)).
  { intros p t [Hp Hk]. unfold upgrade in Hp. assert (Hne : p <> p0) by congruence.
    assert (Hp2 : arcs g2 !! p = Some t) by (rewrite Ha; cbn; by rewrite lookup_insert_ne).
    assert (Hk2 : kept_as p t g2).
    { replace g2 with (register_session p0 s (adopt s (registry rt)).2).2 in Hp2 |- * by by rewrite Ereg.
      eapply kept_step; [exact Hr1|by apply step_register|exact Hp2|].
      split; [|exact Hk]. unfold upgrade. cbn. by rewrite lookup_insert_ne. }
    split; [exact Hk2|]. split; [|exact (proj2 Hk2)]. unfold upgrade. cbn. by rewrite lookup_delete_ne. }
  assert (Hfr : forall c, c <> connection s -> fresh_conn c (registry rt) ->
    fresh_conn c g2 /\ fresh_conn c (drop_arc p0 g2)).
  { intros c Hne Hc. assert (fresh_conn c g2) by (eapply evolves_fresh; [exact Hev|by apply adopt_fresh]).
    split; [done|]. eapply evolves_fresh; [apply evolves_drop|done]. }
  destruct y as [q|e]; injection E as _ <-; cbn [registry]; [destruct (q =? p0)%nat|];
    (split; [intros p t Hp; by apply Hkeep|intros c Hne Hc; by apply Hfr]).
Qed.

(** The clocks are in range, and the sessions of other tasks authenticated. *)
Definition listen_event_ok (ev : ListenEvent) : Prop :=
  match ev with
  | Note _ _ now' => in_i64 now'
  | During call => call_certified call
  | _ => True
  end.

(** The session a peer authenticates in a turn. *)
Definition authenticated_by (l : Local) (h : Host S) (ev : ListenEvent) (s : Session) : Prop :=
  exists i md w w', ev = PeerDone i md false w /\
    authenticate_inbound (connection s) l md (host_world h w) = (Ok s, w').

(** A task publishes its handle in a turn: somebody listens, and the handle
    stands for the session of the task. *)
Definition announced_by (ln : Listener) (ev : ListenEvent) (p : nat) (s : Session) : Prop :=
  exists i, ev = Announce i /\ ln_tasks ln !! i = Some (TaskRegistered p s) /\
    host_subscribed (ln_host ln) = true /\ kept_as p s (ln_registry ln).

Lemma run_inbound_vouched c l md expired w (h : Host S) s h' :
  run_inbound c l md expired w h = (Ok s, h') ->
  expired = false /\ exists w', authenticate_inbound c l md (host_world h w) = (Ok s, w').
Proof.
  unfold run_inbound. destruct (authenticate_inbound c l md (host_world h w)) as [x w'].
  destruct expired; [discriminate|]. intros [= -> _]. split; [done|by exists w'].
Qed.

Lemma run_inbound_published c l md expired w (h : Host S) x h' :
  run_inbound c l md expired w h = (x, h') ->
  host_published h' = host_published h /\ registry (host_runtime h') = registry (host_runtime h).
Proof. intros (_ & Hg & _ & Hp)%run_inbound_inv. done. Qed.

Lemma enter_ok (O : Session -> Prop) (A : nat -> Session -> Prop) h0 (ln : Listener) i s :
  listener_ok O A h0 ln -> ln_tasks ln !! i = Some (TaskNoted s) -> listener_ok O A h0 (enter_inbound i s ln).
Proof.
  intros Hok Hi. pose proof Hok as [Hs _ _ Hf _ _ _ Hse].
  assert (Hin : TaskNoted s ∈ ln_tasks ln) by by eapply list_elem_of_lookup_2.
  destruct (Hse _ s Hin eq_refl) as (Hcert & Horig & Hkind).
  assert (Hfs : fresh_conn (connection s) (ln_registry ln)).
  { apply Hf, list_elem_of_omap. by exists (TaskNoted s). }
  unfold enter_inbound. case_bool_decide.
  { eapply (task_move _ _ _ _ _ _ _ _ Hok Hi); cbn; try done; [by rewrite app_nil_r|by intros ? [= <-]]. }
  destruct (in_runtime (register_new (fun e => e) s) (ln_host ln)) as [x h] eqn:E.
  apply in_runtime_inv in E as (rt & E & ->).
  pose proof (register_new_sound _ _ _ _ _ Hs Hcert Hfs E) as Hs'.
  destruct (register_new_others _ _ _ _ _ (sd_reachable _ Hs) Hfs E) as [Ha Hfr].
  destruct (register_new_inv _ _ _ _ _ (sd_reachable _ Hs) Hfs E) as (_ & _ & _ & Hx).
  assert (Hfr' : forall c, fresh_conn c (ln_registry ln) -> task_conn (TaskNoted s) <> Some c ->
    fresh_conn c (registry rt)) by (intros c Hc Hne; apply Hfr; [|done]; intros ->; by apply Hne).
  assert (Hend : forall o, task_published (TaskEnded o) = None ->
    (forall s', task_session (TaskEnded o) = Some s' -> s' = s) -> 
    listener_ok O A h0 (end_task i o (with_host (set_host_runtime rt (ln_host ln)) ln))).
  { intros o Ho Ho'. eapply (task_move _ _ _ _ _ _ _ _ Hok Hi); cbn; try done.
    - cbn in Ho. by rewrite Ho, app_nil_r.
    - intros p s' [= ->]. discriminate Ho.
    - intros s' ->%Ho'. done. }
  destruct x as [[p q]|e]; [|by apply Hend]. destruct (q =? p)%nat eqn:Eq.
  2:{ apply Hend; [done|]. by intros s' [= <-]. }
  apply Nat.eqb_eq in Eq as ->. destruct Hx as (-> & _ & Hown & _). destruct (Hown eq_refl) as (a & Hup & Hent & Hap & _).
  eapply (task_move _ _ _ _ _ _ _ _ Hok Hi); cbn; try done.
  - by rewrite app_nil_r.
  - intros p s' [= <- <-]. split; [exact Hup|]. left. by exists a.
  - by intros s' [= <-].
Qed.

Lemma announce_ok (O : Session -> Prop) (A : nat -> Session -> Prop) h0 (ln : Listener) i p s :
  listener_ok O A h0 ln -> (host_subscribed (ln_host ln) = true -> kept_as p s (ln_registry ln) -> A p s) ->
  ln_tasks ln !! i = Some (TaskRegistered p s) -> listener_ok O A h0 (announce i p s ln).
Proof.
  intros Hok HA Hi. pose proof Hok as [Hs _ _ _ Hh _ _ Hse].
  assert (Hin : TaskRegistered p s ∈ ln_tasks ln) by by eapply list_elem_of_lookup_2.
  destruct (publish p s (ln_host ln)) as [x h] eqn:E. destruct (publish_steady _ _ _ _ _ E) as [Hst Hhs].
  destruct (Hst Hs) as [Hs' He]. destruct (Hse _ s Hin eq_refl) as (Hcert & Horig & Hkind).
  assert (Hfr : forall c, fresh_conn c (ln_registry ln) -> task_conn (TaskRegistered p s) <> Some c ->
    fresh_conn c (registry (host_runtime h))) by (intros c Hc _; by eapply evolves_fresh).
  unfold announce. rewrite E. unfold publish in E. destruct (host_subscribed (ln_host ln)) eqn:Esub.
  - injection E as _ <-. eapply (task_move _ _ _ _ _ _ _ _ Hok Hi); cbn; try done; [|by intros ? [= <-]].
    intros p' s' [= <- <-]. by apply HA, Hh.
  - apply in_runtime_inv in E as (rt & [= _ <-] & ->).
    eapply (task_move _ _ _ _ _ _ _ _ Hok Hi); cbn; try done;
      [intros p' s'; apply kept_close|by rewrite app_nil_r|by intros ? [= <-]].
Qed.

(** The host makes a step of its own. *)
Lemma host_move (O : Session -> Prop) (A : nat -> Session -> Prop) h0 (ln : Listener) h' :
  listener_ok O A h0 ln -> sound (host_runtime h') ->
  (forall c, c ∈ task_conns (ln_tasks ln) -> fresh_conn c (ln_registry ln) -> fresh_conn c (registry (host_runtime h'))) ->
  (forall p s, p ∈ omap task_handle (ln_tasks ln) -> kept_as p s (ln_registry ln) ->
     kept_as p s (registry (host_runtime h'))) ->
  host_handshakes h' = host_handshakes (ln_host ln) -> host_published h' = host_published (ln_host ln) ->
  listener_ok O A h0 (with_host h' ln).
Proof.
  intros [Hs Hp Hnd Hf Hh Hann Hpub Hse] Hs' Hf' Ha' Ehs Ep. split; cbn; rewrite ?Ehs, ?Ep; try done.
  - intros c Hc. by apply Hf', Hf.
  - intros p s Hin. apply Ha'; [|by apply Hh]. apply list_elem_of_omap. by exists (TaskRegistered p s).
Qed.

Lemma arrive_ok (O : Session -> Prop) (A : nat -> Session -> Prop) h0 (ln : Listener) : listener_ok O A h0 ln -> listener_ok O A h0 (arrive ln).
Proof.
  intros Hok. unfold arrive. destruct (host_handshakes (ln_host ln)) as [|n] eqn:En; [done|].
  destruct Hok as [Hs Hp Hnd Hf Hh Hann Hpub Hse].
  assert (Ec : task_conns (ln_tasks ln ++ [TaskQuic]) = task_conns (ln_tasks ln)).
  { unfold task_conns. by rewrite omap_app, app_nil_r. }
  split; cbn [ln_host ln_tasks set_handshakes host_runtime host_handshakes host_published]; rewrite ?Ec; try done.
  - rewrite count_app, count_cons. cbn. rewrite <- Hp, En. lia.
  - intros p s [?|E]%elem_of_app; [by apply Hh|]. by apply list_elem_of_singleton in E.
  - intros p s [?|E]%elem_of_app; [by apply Hann|]. by apply list_elem_of_singleton in E.
  - by rewrite omap_app, app_nil_r.
  - intros t s [?|E]%elem_of_app; [by apply Hse|]. apply list_elem_of_singleton in E as ->. discriminate.
Qed.

Lemma listen_turn_ok (O : Session -> Prop) (A : nat -> Session -> Prop) h0 l ev (ln ln' : Listener) :
  listener_ok O A h0 ln -> listen_event_ok ev -> (forall s, authenticated_by l (ln_host ln) ev s -> O s) ->
  (forall p s, announced_by ln ev p s -> A p s) ->
  listen_turn l ev ln = Some ln' -> listener_ok O A h0 ln'.
Proof.
  intros Hok Hev HO HA E. pose proof Hok as [Hs _ _ Hf _ _ _ Hse].
  assert (Hreject : forall i t e, ln_tasks ln !! i = Some t -> in_flight t = true ->
    listener_ok O A h0 (end_task i (Rejected e) ln)).
  { intros i t e Hi Ht. eapply (task_move _ _ _ _ _ _ _ _ Hok Hi); cbn; try done; [by destruct t| |by rewrite app_nil_r].
    unfold flying. rewrite Ht. cbn. lia. }
  destruct ev as [|i x|i md expired w|i now now'|i|i|i|call|b|b]; cbn [listen_turn] in E.
  - injection E as <-. by apply arrive_ok.
  - destruct (ln_tasks ln !! i) as [[| | | | |]|] eqn:Hi; try discriminate E. destruct x as [c|e].
    + destruct (_ && _) eqn:Eb; [|discriminate E]. destruct_bools. injection E as <-.
      eapply (task_move _ _ _ _ _ _ _ _ Hok Hi); cbn; try done; [|by rewrite app_nil_r].
      intros c' [= <-]. split; [by apply conn_unused_spec|by right].
    + injection E as <-. by eapply Hreject.
  - destruct (ln_tasks ln !! i) as [[|c| | | |]|] eqn:Hi; try discriminate E.
    destruct (run_inbound c l md expired w (ln_host ln)) as [x h] eqn:Er.
    pose proof (run_inbound_steady _ _ _ _ _ _ _ _ Er) as (Hst & Hh & Hcert). destruct (Hst Hs) as [Hs' _].
    destruct (run_inbound_published _ _ _ _ _ _ _ _ Er) as [Hpub Hg].
    assert (Hc : fresh_conn c (ln_registry ln)).
    { apply Hf, list_elem_of_omap. exists (TaskPeer c). split; [by eapply list_elem_of_lookup_2|done]. }
    destruct x as [s|e]; injection E as <-; eapply (task_move _ _ _ _ _ _ _ _ Hok Hi); cbn; rewrite ?Hg, ?Hpub; try done.
    + intros c' [= <-]. destruct (Hcert Hs s eq_refl) as [_ ->]. split; [done|by left].
    + by rewrite Hh.
    + by rewrite app_nil_r.
    + intros s' [= <-]. destruct (Hcert Hs s eq_refl) as [Hcs Hconn]. split_and!; [done| |done]. apply HO.
      destruct (run_inbound_vouched _ _ _ _ _ _ _ _ Er) as (-> & w' & Ea).
      exists i, md, w, w'. split; [done|]. by rewrite Hconn.
    + rewrite Hh. cbn. lia.
    + by rewrite app_nil_r.
  - destruct (ln_tasks ln !! i) as [[| |s| | |]|] eqn:Hi; try discriminate E.
    destruct (in_runtime _ (ln_host ln)) as [x h] eqn:Er. injection E as <-.
    apply in_runtime_inv in Er as (rt & Er & ->).
    assert (Hin : TaskVouched s ∈ ln_tasks ln) by by eapply list_elem_of_lookup_2.
    destruct (Hse _ s Hin eq_refl) as (Hcert & Horig & Hkind).
    pose proof (remember_registry now now' s (conn_remote (connection s)) Inbound (host_runtime (ln_host ln))) as Hg.
    pose proof (remember_steady now now' s (conn_remote (connection s)) Inbound Hev Hcert _ _ _ Er Hs) as [Hs' _].
    rewrite Er in Hg. cbn [snd] in Hg.
    eapply (task_move _ _ _ _ _ _ _ _ Hok Hi); cbn; rewrite ?Hg; try done; [|by rewrite app_nil_r|by intros ? [= <-]].
    intros c [= <-]. split; [|by left]. apply Hf, list_elem_of_omap. by exists (TaskVouched s).
  - destruct (ln_tasks ln !! i) as [[| | |s| |]|] eqn:Hi; try discriminate E. injection E as <-. by apply enter_ok.
  - destruct (ln_tasks ln !! i) as [[| | | |p s|]|] eqn:Hi; try discriminate E. injection E as <-.
    apply announce_ok; [done| |done]. intros Hsub Hk. apply HA. by exists i.
  - destruct (ln_tasks ln !! i) as [[| | | | |[|s [|]| | |]]|] eqn:Hi; try discriminate E.
    destruct (in_runtime _ (ln_host ln)) as [x h] eqn:Er. injection E as <-.
    pose proof (in_runtime_steady (F := NetworkError) (close_session s "discovery probe completed") (ln_host ln) x h _ Er) as [Hst _].
    destruct (Hst Hs) as [Hs' He]. apply in_runtime_inv in Er as (rt & [= _ <-] & ->).
    assert (Hin : TaskEnded (ProbeAnswered s false) ∈ ln_tasks ln) by by eapply list_elem_of_lookup_2.
    eapply (task_move _ _ _ _ _ _ _ _ Hok Hi); cbn; try done;
      [intros p' s'; apply kept_close|by rewrite app_nil_r|].
    intros s' [= <-]. by apply (Hse _ s Hin).
  - destruct (during_allowed call ln) eqn:Ed; [|discriminate E]. injection E as <-.
    pose proof (reachable_ok _ (sd_reachable _ Hs)) as Hro.
    apply host_move; try done; cbn.
    + by apply run_call_sound.
    + intros c Hc Hfc. apply run_call_fresh; [done| |done]. intros Ht.
      destruct call; try discriminate Ht. injection Ht as <-. cbn in Ed. by destruct_bools.
    + intros p s Hp Ha. apply run_call_kept; [done| |done]. intros ->. cbn in Ed. by destruct_bools.
  - injection E as <-. by apply host_move.
  - injection E as <-. by apply host_move.
Qed.

(** *** Runs *)

(** The session was authenticated in one of the turns, against the host as it
    was then. *)
Definition origin (l : Local) (h0 : Host S) (events : list ListenEvent) (s : Session) : Prop :=
  exists pre ev suf, events = pre ++ ev :: suf /\
    authenticated_by l (ln_host (run_listener l pre (listening_from h0))) ev s.

(** The handle was published in one of the turns, and stood for the session
    then. *)
Definition announced (l : Local) (h0 : Host S) (events : list ListenEvent) (p : nat) (s : Session) : Prop :=
  exists pre ev suf, events = pre ++ ev :: suf /\
    announced_by (run_listener l pre (listening_from h0)) ev p s.

Lemma run_listener_app l events k (ln : Listener) :
  run_listener l (events ++ k) ln = run_listener l k (run_listener l events ln).
Proof. unfold run_listener. by rewrite fold_left_app. Qed.

Lemma listening_from_ok O A (h : Host S) : sound (host_runtime h) -> listener_ok O A h (listening_from h).
Proof.
  intros Hs. split; cbn; try done.
  - constructor.
  - intros c Hc. by apply not_elem_of_nil in Hc.
  - intros p s Hp. by apply not_elem_of_nil in Hp.
  - intros p s Hp. by apply not_elem_of_nil in Hp.
  - by rewrite app_nil_r.
  - intros t s Hp. by apply not_elem_of_nil in Hp.
Qed.

Lemma run_listener_ok l (h0 : Host S) events :
  sound (host_runtime h0) -> Forall listen_event_ok events ->
  listener_ok (origin l h0 events) (announced l h0 events) h0 (run_listener l events (listening_from h0)).
Proof.
  intros Hs. induction events as [|ev events IH] using rev_ind; intros Hev; [by apply listening_from_ok|].
  apply Forall_app in Hev as [Hevs Hev]. apply Forall_cons in Hev as [Hev _].
  assert (Hok : listener_ok (origin l h0 (events ++ [ev])) (announced l h0 (events ++ [ev])) h0
    (run_listener l events (listening_from h0))).
  { eapply listener_weaken; [..|by apply IH].
    - intros s (pre & e & suf & -> & Ha). exists pre, e, (suf ++ [ev]).
      split; [by rewrite <- app_assoc|exact Ha].
    - intros p s (pre & e & suf & -> & Ha). exists pre, e, (suf ++ [ev]).
      split; [by rewrite <- app_assoc|exact Ha]. }
  rewrite run_listener_app. cbn. unfold listen_step.
  destruct (listen_turn l ev _) as [ln'|] eqn:E; [|exact Hok].
  eapply listen_turn_ok; [exact Hok|exact Hev| | |exact E].
  - intros s Ha. exists events, ev, []. split; [done|exact Ha].
  - intros p s Ha. exists events, ev, []. split; [done|exact Ha].
Qed.

Lemma run_listener_sound l (h0 : Host S) events :
  sound (host_runtime h0) -> Forall listen_event_ok events ->
  sound (host_runtime (ln_host (run_listener l events (listening_from h0)))).
Proof. intros Hs Hev. apply (lo_sound _ _ _ _ (run_listener_ok l h0 events Hs Hev)). Qed.

(** *** Progress *)

Definition task_weight (t : InboundTask) : nat :=
  match t with
  | TaskQuic => 6
  | TaskPeer _ => 5
  | TaskVouched _ => 4
  | TaskNoted _ => 3
  | TaskRegistered _ _ => 2
  | TaskEnded (ProbeAnswered _ false) => 1
  | TaskEnded _ => 0
  end.

Definition listen_measure (ln : Listener) : nat := sum_list_with task_weight (ln_tasks ln).

Definition own_listen (ev : ListenEvent) : bool :=
  match ev with
  | QuicDone _ _ | PeerDone _ _ _ _ | Note _ _ _ | Enter _ | Announce _ | CloseProbe _ => true
  | _ => false
  end.

Lemma measure_insert i t t' (l : list InboundTask) :
  l !! i = Some t -> (task_weight t' < task_weight t)%nat ->
  (sum_list_with task_weight (<[i := t']> l) < sum_list_with task_weight l)%nat.
Proof.
  intros (a & b & -> & Hins)%task_split Hw. rewrite Hins, !sum_list_with_app. cbn. lia.
Qed.

Lemma own_listen_measure l ev (ln ln' : Listener) :
  own_listen ev = true -> listen_turn l ev ln = Some ln' -> (listen_measure ln' < listen_measure ln)%nat.
Proof.
  intros Ho E. unfold listen_measure.
  destruct ev as [|i x|i md expired w|i now now'|i|i|i|call|b|b]; try discriminate Ho; cbn [listen_turn] in E.
  - destruct (ln_tasks ln !! i) as [[| | | | |]|] eqn:Hi; try discriminate E. destruct x as [c|e].
    + destruct (_ && _); [|discriminate E]. injection E as <-. apply (measure_insert _ _ _ _ Hi). cbn. lia.
    + injection E as <-. apply (measure_insert _ _ _ _ Hi). cbn. lia.
  - destruct (ln_tasks ln !! i) as [[|c| | | |]|] eqn:Hi; try discriminate E.
    destruct (run_inbound _ _ _ _ _ _) as [[s|e] h]; injection E as <-; apply (measure_insert _ _ _ _ Hi); cbn; lia.
  - destruct (ln_tasks ln !! i) as [[| |s| | |]|] eqn:Hi; try discriminate E.
    destruct (in_runtime _ _) as [x h]. injection E as <-. apply (measure_insert _ _ _ _ Hi). cbn. lia.
  - destruct (ln_tasks ln !! i) as [[| | |s| |]|] eqn:Hi; try discriminate E. injection E as <-.
    unfold enter_inbound. case_bool_decide; [apply (measure_insert _ _ _ _ Hi); cbn; lia|].
    destruct (in_runtime _ _) as [[[p q]|e] h]; [destruct (q =? p)%nat|];
      apply (measure_insert _ _ _ _ Hi); cbn; lia.
  - destruct (ln_tasks ln !! i) as [[| | | |p s|]|] eqn:Hi; try discriminate E. injection E as <-.
    apply (measure_insert _ _ _ _ Hi). destruct (host_subscribed _); cbn; lia.
  - destruct (ln_tasks ln !! i) as [[| | | | |[|s [|]| | |]]|] eqn:Hi; try discriminate E.
    destruct (in_runtime _ _) as [x h]. injection E as <-. apply (measure_insert _ _ _ _ Hi). cbn. lia.
Qed.

(** The turns a sequence of events takes in the tasks. *)
Fixpoint own_listen_steps (l : Local) (events : list ListenEvent) (ln : Listener) : nat :=
  match events with
  | [] => O
  | ev :: rest =>
      ((if own_listen ev && bool_decide (is_Some (listen_turn l ev ln)) then 1 else 0) +
       own_listen_steps l rest (listen_step l ln ev))%nat
  end.

Definition is_arrival (ev : ListenEvent) : bool :=
  match ev with
  | Arrive => true
  | _ => false
  end.

Lemma listen_step_measure l ev (ln : Listener) :
  ((if own_listen ev && bool_decide (is_Some (listen_turn l ev ln)) then 1 else 0) +
   listen_measure (listen_step l ln ev) <= listen_measure ln + (if is_arrival ev then 6 else 0))%nat.
Proof.
  unfold listen_step. destruct (listen_turn l ev ln) as [ln'|] eqn:E; cbn [default].
  2:{ rewrite bool_decide_eq_false_2 by (intros [? ?]; discriminate). rewrite andb_false_r. cbn. lia. }
  change (Datatypes.id ln') with ln'. destruct (own_listen ev) eqn:Ho; cbn [andb].
  - rewrite bool_decide_true by eauto. apply own_listen_measure in E; [|done]. lia.
  - destruct ev as [| | | | | | |call|b|b]; try discriminate Ho; cbn [listen_turn] in E.
    + injection E as <-. unfold arrive. destruct (host_handshakes _); cbn; [lia|].
      unfold listen_measure. cbn [ln_tasks]. rewrite sum_list_with_app. cbn. lia.
    + destruct (during_allowed _ _); [|discriminate E]. injection E as <-. unfold listen_measure. cbn. lia.
    + injection E as <-. unfold listen_measure. cbn. lia.
    + injection E as <-. unfold listen_measure. cbn. lia.
Qed.

Lemma own_listen_steps_bound l events (ln : Listener) :
  (own_listen_steps l events ln <= listen_measure ln + 6 * count is_arrival events)%nat.
Proof.
  revert ln. induction events as [|ev events IH]; intros ln; cbn [own_listen_steps]; [lia|].
  specialize (IH (listen_step l ln ev)). pose proof (listen_step_measure l ev ln) as Hm.
  rewrite count_cons. destruct (is_arrival ev); lia.
Qed.

(** How far a task has come, in the order of the steps below. *)
Definition task_rank (t : InboundTask) : nat :=
  match t with
  | TaskQuic => 0
  | TaskPeer _ => 1
  | TaskVouched _ => 2
  | TaskNoted _ => 3
  | TaskRegistered _ _ => 4
  | TaskEnded (ProbeAnswered _ false) => 5
  | TaskEnded _ => 6
  end.

(** What is left for a task when its peer stays silent. *)
Definition drain_task (md : DeviceMetadata) (w : World S) (now : Z) (i : nat) : list ListenEvent :=
  [QuicDone i (Err Timeout); PeerDone i md true w; Note i now now; Enter i; Announce i; CloseProbe i].

Definition drain (md : DeviceMetadata) (w : World S) (now : Z) (n : nat) : list ListenEvent :=
  flat_map (drain_task md w now) (seq 0 n).

Definition reached (k i : nat) (ln : Listener) : Prop :=
  exists t, ln_tasks ln !! i = Some t /\ (k <= task_rank t)%nat.

(** A turn of one task leaves the others. *)
Definition turn_of (ev : ListenEvent) : option nat :=
  match ev with
  | QuicDone i _ | PeerDone i _ _ _ | Note i _ _ | Enter i | Announce i | CloseProbe i => Some i
  | _ => None
  end.

Lemma turn_shape l ev i (ln ln' : Listener) :
  turn_of ev = Some i -> listen_turn l ev ln = Some ln' ->
  exists t t', ln_tasks ln !! i = Some t /\ ln_tasks ln' = <[i := t']> (ln_tasks ln) /\
    (task_rank t < task_rank t')%nat.
Proof.
  intros Ho E.
  destruct ev as [|j x|j md expired w|j now now'|j|j|j|call|b|b]; try discriminate Ho; injection Ho as ->;
    cbn [listen_turn] in E.
  - destruct (ln_tasks ln !! i) as [[| | | | |]|] eqn:Hi; try discriminate E. destruct x as [c|e].
    + destruct (_ && _); [|discriminate E]. injection E as <-. do 2 eexists. split_and!; [done..|cbn; lia].
    + injection E as <-. do 2 eexists. split_and!; [done..|cbn; lia].
  - destruct (ln_tasks ln !! i) as [[|c| | | |]|] eqn:Hi; try discriminate E.
    destruct (run_inbound _ _ _ _ _ _) as [[s|e] h]; injection E as <-; do 2 eexists; (split_and!; [done..|cbn; lia]).
  - destruct (ln_tasks ln !! i) as [[| |s| | |]|] eqn:Hi; try discriminate E.
    destruct (in_runtime _ _) as [x h]. injection E as <-. do 2 eexists. split_and!; [done..|cbn; lia].
  - destruct (ln_tasks ln !! i) as [[| | |s| |]|] eqn:Hi; try discriminate E. injection E as <-.
    unfold enter_inbound. case_bool_decide; [do 2 eexists; split_and!; [done..|cbn; lia]|].
    destruct (in_runtime _ _) as [[[p q]|e] h]; [destruct (q =? p)%nat|];
      do 2 eexists; (split_and!; [done..|cbn; lia]).
  - destruct (ln_tasks ln !! i) as [[| | | |p s|]|] eqn:Hi; try discriminate E. injection E as <-.
    do 2 eexists. split_and!; [done..|]. destruct (host_subscribed _); cbn; lia.
  - destruct (ln_tasks ln !! i) as [[| | | | |[|s [|]| | |]]|] eqn:Hi; try discriminate E.
    destruct (in_runtime _ _) as [x h]. injection E as <-. do 2 eexists. split_and!; [done..|cbn; lia].
Qed.

Lemma step_reached l ev i j k (ln : Listener) :
  turn_of ev = Some i -> reached k j ln -> reached k j (listen_step l ln ev).
Proof.
  intros Ho (t & Hj & Hk). unfold listen_step. destruct (listen_turn l ev ln) as [ln'|] eqn:E; [|by exists t].
  destruct (turn_shape _ _ _ _ _ Ho E) as (u & u' & Hi & El & Hr). cbn. unfold reached. rewrite El.
  destruct (decide (i = j)) as [->|Hne].
  - exists u'. rewrite list_lookup_insert_eq by by eapply lookup_lt_Some. split; [done|].
    rewrite Hi in Hj. injection Hj as ->. lia.
  - exists t. by rewrite list_lookup_insert_ne.
Qed.

(** The turn due at a stage is possible there, and passes it. *)
Lemma step_due l ev i k (ln : Listener) :
  turn_of ev = Some i -> (forall t, ln_tasks ln !! i = Some t -> task_rank t = k -> is_Some (listen_turn l ev ln)) ->
  reached k i ln -> reached (Datatypes.S k) i (listen_step l ln ev).
Proof.
  intros Ho Hdue (t & Hi & Hk). destruct (decide (task_rank t = k)) as [Heq|Hne].
  - destruct (Hdue t Hi Heq) as [ln' E]. unfold listen_step. rewrite E. cbn.
    destruct (turn_shape _ _ _ _ _ Ho E) as (u & u' & Hi' & El & Hr). unfold reached. rewrite El.
    exists u'. rewrite list_lookup_insert_eq by by eapply lookup_lt_Some. split; [done|].
    rewrite Hi in Hi'. injection Hi' as <-. lia.
  - apply (step_reached l ev i i); [done|]. exists t. split; [done|lia].
Qed.

Lemma drain_one l md w now i (ln : Listener) :
  reached 0 i ln -> reached 6 i (run_listener l (drain_task md w now i) ln).
Proof.
  intros Hz. cbn [run_listener drain_task fold_left].
  assert (Hrank : forall (t : InboundTask) n, task_rank t = n -> (n < 6)%nat ->
    match n with
    | 0 => t = TaskQuic
    | 1 => exists c, t = TaskPeer c
    | 2 => exists s, t = TaskVouched s
    | 3 => exists s, t = TaskNoted s
    | 4 => exists p s, t = TaskRegistered p s
    | _ => exists s, t = TaskEnded (ProbeAnswered s false)
    end%nat).
  { intros t n <- Hn. destruct t as [|c|s|s|p s|[e|s [|]|s|p s|s]]; cbn in *; eauto; lia. }
  apply (step_due l _ i 5); [done| |apply (step_due l _ i 4); [done| |apply (step_due l _ i 3); [done| |
    apply (step_due l _ i 2); [done| |apply (step_due l _ i 1); [done| |apply (step_due l _ i 0); [done| |done]]]]]].
  all: intros t Hi Hr; apply Hrank in Hr; [|lia].
  - destruct Hr as [s ->]. cbn [listen_turn]. rewrite Hi. eauto.
  - destruct Hr as (p & s & ->). cbn [listen_turn]. rewrite Hi. eauto.
  - destruct Hr as [s ->]. cbn [listen_turn]. rewrite Hi. eauto.
  - destruct Hr as [s ->]. cbn [listen_turn]. rewrite Hi. destruct (in_runtime _ _). eauto.
  - destruct Hr as [c ->]. cbn [listen_turn]. rewrite Hi. unfold run_inbound.
    destruct (authenticate_inbound _ _ _ _). eauto.
  - subst t. cbn [listen_turn]. rewrite Hi. eauto.
Qed.

Lemma drain_task_reached l md w now i j k (ln : Listener) :
  reached k j ln -> reached k j (run_listener l (drain_task md w now i) ln).
Proof. intros Hk. cbn [run_listener drain_task fold_left]. by do 6 (apply (step_reached l _ i); [done|]). Qed.

Lemma drain_reached l md w now n (ln : Listener) :
  (n <= length (ln_tasks ln))%nat -> forall j, (j < n)%nat -> reached 6 j (run_listener l (drain md w now n) ln).
Proof.
  induction n as [|n IH]; intros Hn j Hj; [lia|].
  assert (E : drain md w now (Datatypes.S n) = drain md w now n ++ drain_task md w now n).
  { unfold drain. rewrite seq_S, flat_map_app. done. }
  rewrite E, run_listener_app. destruct (decide (j = n)) as [->|Hne].
  - apply drain_one. assert (Hr : reached 0 n (run_listener l (drain md w now n) ln)); [|exact Hr].
    assert (Hkeep : forall m l0, reached 0 n l0 -> reached 0 n (run_listener l (drain md w now m) l0)).
    { clear. intros m l0 Hz. unfold drain. generalize (seq 0 m). intros js. revert l0 Hz.
      induction js as [|i js IH]; intros l0 Hz; [done|]. cbn [flat_map]. rewrite run_listener_app.
      by apply IH, drain_task_reached. }
    apply Hkeep. destruct (lookup_lt_is_Some_2 (ln_tasks ln) n) as [t Ht]; [lia|]. exists t. split; [done|lia].
  - apply drain_task_reached, IH; lia.
Qed.

Lemma drain_length l md w now n (ln : Listener) :
  length (ln_tasks (run_listener l (drain md w now n) ln)) = length (ln_tasks ln).
Proof.
  assert (Hstep : forall ev i (m : Listener), turn_of ev = Some i ->
    length (ln_tasks (listen_step l m ev)) = length (ln_tasks m)).
  { intros ev i m Ho. unfold listen_step. destruct (listen_turn l ev m) as [m'|] eqn:E; [|done].
    destruct (turn_shape _ _ _ _ _ Ho E) as (u & u' & _ & El & _). cbn. by rewrite El, length_insert. }
  unfold drain. generalize (seq 0 n). intros js. revert ln. induction js as [|i js IH]; intros ln; [done|].
  cbn [flat_map]. rewrite run_listener_app, IH. cbn [run_listener drain_task fold_left].
  by rewrite !(Hstep _ i).
Qed.
End facts.

(** ** Properties *)

Section properties.
Context `{PeerApi} `{Crypto} `{WireApi} `{Transport} `{!Remote} {S : Type} `{!PeerRepository S}
  `{!EndpointRepository S} `{!PeerService S}.
Context `{!PeerLaws} `{!TransportLaws} `{!PeerRepositoryLaws S} `{!EndpointRepositoryLaws S}
  `{!StoreLaws S} `{!PeerServiceLaws S} `{!WireLaws} `{!CryptoLaws}.

(** C14. However the tasks of incoming connections interleave with each other and
    with the rest of the runtime, every permit of the handshake gate is held by
    one task or free; each task publishes at most one handle, and nothing else
    is published.  The handle stands for the session its task authenticated, and
    for no other one: when it is published, it points to that very session, which
    is registered under its key, unless its connection has been closed by then.
    That session is no probe, and was authenticated in a turn of its own: the
    peer was vouched for over that very connection, read from it, and was paired
    under its key or admitted because the device was discoverable and the kind
    open to strangers, by the store and the flag of that turn. *)
Theorem listener_publishes_own l (h : Host S) events
    (ln := run_listener l events (listening_from h)) :
  sound (host_runtime h) -> Forall listen_event_ok events ->
  sound (host_runtime (ln_host ln)) /\
  (host_handshakes (ln_host ln) + count in_flight (ln_tasks ln) = host_handshakes h)%nat /\
  host_published (ln_host ln) ≡ₚ host_published h ++ omap task_published (ln_tasks ln) /\
  forall p s, TaskEnded (PublishedAs p s) ∈ ln_tasks ln ->
    kind s <> DiscoveryProbe /\
    (exists pre i suf, events = pre ++ Announce i :: suf /\
      let ln1 := run_listener l pre (listening_from h) in
      ln_tasks ln1 !! i = Some (TaskRegistered p s) /\ host_subscribed (ln_host ln1) = true /\
      kept_as p s (registry (host_runtime (ln_host ln1)))) /\
    exists pre i md w suf remote, events = pre ++ PeerDone i md false w :: suf /\
      let h1 := ln_host (run_listener l pre (listening_from h)) in
      let id := peer_device_id (peer s) in
      let key := peer_public_key (peer s) in
      vouched (host_world h1 w) l (local_hello l md (kind s) (Handshake.fresh_nonce w)) remote DirectionInbound s /\
      received (host_world h1 w) remote /\ id <> local_device_id l /\
      (paired_in (store (host_runtime h1)) id key \/
       (nearby_kind (kind s) = true /\ host_discoverable h1 = true)).
Proof.
  intros Hs Hev. pose proof (run_listener_ok l h events Hs Hev) as Hok. fold ln in Hok.
  pose proof Hok as [Hs' Hp _ _ _ Hann Hpub Hse]. split_and!; [done..|].
  intros p s Hin. destruct (Hse _ s Hin eq_refl) as (_ & Horig & Hkind). split; [by apply Hkind|].
  split; [destruct (Hann p s Hin) as (pre & ev & suf & -> & i & -> & Ha); by exists pre, i, suf|].
  destruct Horig as (pre & ev & suf & Hsplit & i & md & w & w' & -> & Ha).
  set (h1 := ln_host (run_listener l pre (listening_from h))) in *.
  assert (Hs1 : sound (host_runtime h1)).
  { apply run_listener_sound; [done|]. rewrite Hsplit in Hev. by apply Forall_app in Hev as [? _]. }
  destruct (inbound_vouched _ _ _ _ _ _ (proj1 (sd_store _ Hs1) : peer_repo_ok (repo (host_world h1 w))) Ha)
    as (remote & Hvo & Hrec & Hadm).
  exists pre, i, md, w, suf, remote. cbv zeta. fold h1. split_and!; try done.
  - apply (vo_other _ _ _ _ _ _ Hvo).
  - destruct (nearby_kind (kind s)) eqn:Ek; [|left; by apply (vo_paired _ _ _ _ _ _ Hvo)].
    destruct Hadm as [?|?]; [by right|by left].
Qed.

(** C15. No incoming connection holds its permit for ever: a task takes at most six
    turns, and once the awaits it is in have come to their time-outs, every task
    has ended, every probe that was answered is closed, and all permits are
    back, whatever happened before. *)
Theorem listener_drains l (h : Host S) events md w now
    (ln := run_listener l events (listening_from h))
    (ln' := run_listener l (drain md w now (length (ln_tasks ln))) ln) :
  sound (host_runtime h) -> Forall listen_event_ok events -> in_i64 now ->
  (own_listen_steps l events (listening_from h) <= 6 * count is_arrival events)%nat /\
  length (ln_tasks ln') = length (ln_tasks ln) /\
  (forall t, t ∈ ln_tasks ln' -> exists o, t = TaskEnded o /\ forall s, o <> ProbeAnswered s false) /\
  host_handshakes (ln_host ln') = host_handshakes h.
Proof.
  intros Hs Hev Hnow. pose proof (own_listen_steps_bound l events (listening_from h)) as Hb.
  pose proof (drain_length l md w now (length (ln_tasks ln)) ln) as Hlen. fold ln' in Hlen.
  assert (Hend : forall t, t ∈ ln_tasks ln' -> exists o, t = TaskEnded o /\ forall s, o <> ProbeAnswered s false).
  { intros t [j Hj]%list_elem_of_lookup. pose proof (lookup_lt_Some _ _ _ Hj) as Hlt. rewrite Hlen in Hlt.
    destruct (drain_reached l md w now (length (ln_tasks ln)) ln (Nat.le_refl _) j Hlt) as (u & Hu & Hr).
    fold ln' in Hu. rewrite Hj in Hu. injection Hu as <-.
    destruct t as [| | | | |o]; cbn in Hr; try lia. exists o. split; [done|]. intros s ->. cbn in Hr. lia. }
  split_and!; [exact Hb|done|done|].
  set (all := events ++ drain md w now (length (ln_tasks ln))).
  assert (Hok : listener_ok (origin l h all) (announced l h all) h ln').
  { unfold ln', ln. rewrite <- run_listener_app. apply run_listener_ok; [done|]. apply Forall_app. split; [done|].
    apply Forall_forall. intros ev (i & _ & Hi)%list_elem_of_In%in_flat_map.
    by repeat destruct Hi as [<-|Hi]. }
  pose proof (lo_permits _ _ _ _ Hok) as Hp. enough (count in_flight (ln_tasks ln') = 0)%nat by lia.
  clear -Hend. induction (ln_tasks ln') as [|t ts IH]; [done|]. rewrite count_cons.
  destruct (Hend t) as (o & -> & _); [by left|]. cbn. apply IH. intros u Hu. apply Hend. by right.
Qed.
End properties.

(** ** Witnesses *)

Module SampleListener.
Import SamplePeer SampleWire SampleCrypto SampleRegistry SampleDb SampleRun SampleDial.

#[local] Existing Instance sqlite_peer_service.

(** Two connections at once: "A" completes its handshake while the other one
    runs into its time-out. *)
Definition arrivals : list (ListenEvent Sqlite) :=
  [Arrive; Arrive; QuicDone 1 (Ok (12%nat : @Conn transport)); PeerDone 1 meta false sideB;
   QuicDone 0 (Err Timeout); Note 1 50 60].
Definition published : list (ListenEvent Sqlite) := arrivals ++ [Enter 1; Announce 1].

(** The same, with "A" forgotten after it was authenticated. *)
Definition deviceA : DeviceId := id_of_key (repeat x41 32).
Definition forgotten : list (ListenEvent Sqlite) := arrivals ++ [During (CallForget deviceA); Enter 1; Announce 1].

Abbreviation after events := (run_listener (local x42) events (listening_from listening)).
End SampleListener.

Section witnesses.
Import SamplePeer SampleWire SampleCrypto SampleRegistry SampleDb SampleRun SampleDial SampleListener.

#[local] Existing Instance sqlite_peer_service.
#[local] Existing Instance sqlite_peer_service_laws.

(** A device that is forgotten between the authentication of its connection and
    the registration of the session keeps that session: it is published, open
    and registered, though nothing of the device is stored any more. *)
Theorem forgotten_while_accepting :
  let ln := after forgotten in
  let g := registry (host_runtime (ln_host ln)) in
  host_published (ln_host ln) = [1%nat] /\
  is_ok (require_paired deviceA None (store (host_runtime (ln_host ln)))).1 = false /\
  exists a, sessions g !! (deviceA, Control) = Some a /\ conn_open g (a_connection a) = true.
Proof.
  intros ln g.
  assert (E : host_published (ln_host ln) = [1%nat] /\
    is_ok (require_paired deviceA None (store (host_runtime (ln_host ln)))).1 = false /\
    match sessions g !! (deviceA, Control) with
    | Some a => conn_open g (a_connection a)
    | None => false
    end = true) by (vm_compute; by split).
  clearbody ln g. destruct E as (Hp & Hn & Hs). split; [exact Hp|]. split; [exact Hn|].
  destruct (sessions g !! (deviceA, Control)) as [a|]; [by exists a|discriminate Hs].
Qed.

Lemma listening_sound : sound (host_runtime listening).
Proof.
  split; [apply reachable_start|apply listening_ok| |].
  - apply (run_events_ok (local_device_id (local x42)) []).
  - intros q t Hq. cbn in Hq. discriminate Hq.
Qed.

Lemma published_ok : Forall listen_event_ok published.
Proof. repeat (apply Forall_cons; split; [first [exact I | vm_compute; split; discriminate]|]). constructor. Qed.

Lemma published_now : bool_decide (host_published (ln_host (after published)) = [1%nat]) = true.
Proof. vm_compute. reflexivity. Qed.

Lemma listener_publishes_own_witness :
  (host_handshakes (ln_host (after published)) + count in_flight (ln_tasks (after published)) = 32)%nat /\
  omap task_published (ln_tasks (after published)) = [1%nat] /\
  exists s pre i suf, published = pre ++ Announce i :: suf /\ kind s <> DiscoveryProbe /\
    kept_as 1 s (registry (host_runtime (ln_host (after pre)))).
Proof.
  destruct (listener_publishes_own (local x42) listening published listening_sound published_ok)
    as (_ & Hp & Hpub & Hown).
  pose proof published_now as Hnow. revert Hp Hpub Hown Hnow. generalize (after published).
  intros ln Hp Hpub Hown Hnow. split; [exact Hp|]. apply bool_decide_eq_true in Hnow. rewrite Hnow in Hpub.
  assert (E : omap task_published (ln_tasks ln) = [1%nat])
    by (symmetry; exact (proj1 (Permutation_singleton_l _ 1%nat) Hpub)).
  split; [exact E|].
  assert (Hin : 1%nat ∈ omap task_published (ln_tasks ln)) by (rewrite E; by left).
  apply list_elem_of_omap in Hin as (t & Ht & Et). destruct t as [| | | | |[| | |p s|]]; try discriminate Et.
  injection Et as ->. destruct (Hown 1%nat s Ht) as (Hk & (pre & i & suf & Es & _ & _ & Ha) & _).
  exists s, pre, i, suf. split_and!; [exact Es|exact Hk|exact Ha].
Defined.

Lemma listener_drains_witness :
  let ln := after arrivals in
  let ln' := run_listener (local x42) (drain meta sideB 70 (length (ln_tasks ln))) ln in
  host_handshakes (ln_host ln) = 31%nat /\ host_handshakes (ln_host ln') = 32%nat.
Proof.
  intros ln ln'. split; [by vm_compute|].
  assert (Hev : Forall listen_event_ok arrivals).
  { repeat (apply Forall_cons; split; [first [exact I | vm_compute; split; discriminate]|]). constructor. }
  assert (Hnow : in_i64 70) by (vm_compute; split; discriminate).
  destruct (listener_drains (local x42) listening arrivals meta sideB 70 listening_sound Hev Hnow)
    as (_ & _ & _ & Hh). exact Hh.
Defined.
End witnesses.
