(* ===== verification/Scan.v ===== *)
(** * Scan

    The foreground LAN scan (runtime/scan.rs): which endpoints it probes, the
    cooldown between scans, and the loop that launches at most thirty-two
    probes at a time while they finish in any order. *)

From S2P Require Import Prelude Errors Addr Peer Wire Grants Registry Endpoint RepositoryDb Repository.
From S2P Require Import Store Text Identity Discovery Probe Handshake Auth Mutual Features Trust Pairing.
From S2P Require Import Sockets Calls Dial Connect.

(** ** The plan of a scan *)

Definition SCAN_PORT : Z := 8765.
Definition SCAN_CONCURRENCY : nat := 32.
Definition SCAN_COOLDOWN : Z := secs 60.
Definition MAX_SUBNETS : nat := 2.

Record LanScanReport := mkReport {
  attempted_endpoints : nat;
  discovered_devices : nat;
  scanned_subnets : nat;
  throttled : bool
}.

#[export] Instance LanScanReport_eq_dec : EqDecision LanScanReport.
Proof. solve_decision. Defined.

(** [char::to_ascii_lowercase] and [str::to_ascii_lowercase] *)
Definition lower (c : ascii) : ascii :=
  let n := nat_of_ascii c in
  if ((65 <=? n) && (n <=? 90))%nat then ascii_of_nat (n + 32) else c.
Fixpoint to_ascii_lowercase (s : string) : string :=
  match s with
  | EmptyString => EmptyString
  | String c s' => String (lower c) (to_ascii_lowercase s')
  end.

(** [str::contains] *)
Fixpoint contains (pattern s : string) : bool :=
  String.prefix pattern s ||
  match s with
  | EmptyString => false
  | String _ s' => contains pattern s'
  end.

Definition interface_priority (name : string) : Z :=
  let name := to_ascii_lowercase name in
  if String.prefix "en" name || String.prefix "eth" name || String.prefix "wlan" name
     || contains "wi-fi" name || contains "wifi" name
  then 0 else 1.

Definition virtual_prefixes : list string :=
  ["lo"; "utun"; "tun"; "tap"; "docker"; "veth"; "br-"; "virbr"; "vmnet"; "tailscale"; "wg"]%string.

Definition is_likely_virtual (name : string) : bool :=
  let name := to_ascii_lowercase name in
  existsb (fun prefix => String.prefix prefix name) virtual_prefixes.

(** [local_scan_interfaces]: [found] is what [get_if_addrs] lists. *)
Definition scan_interface (i : string * IpAddr) : list (string * Ipv4Addr) :=
  match i.2 with
  | IpV4 address =>
      if v4_is_private address && negb (v4_is_loopback address) && negb (is_likely_virtual i.1)
      then [(i.1, address)] else []
  | IpV6 _ => []
  end.

Definition interface_order (left right : string * Ipv4Addr) : bool :=
  not_gt (then_with (cmp (interface_priority left.1) (interface_priority right.1))
            (then_with (cmp left.1 right.1) (cmp left.2 right.2))).

Definition local_scan_interfaces (found : result string (list (string * IpAddr)))
    : net_result (list (string * Ipv4Addr)) :=
  match found with
  | Ok l => Ok (sort_by interface_order (flat_map scan_interface l))
  | Err e => Err (Io e)
  end.

(** The subnets and the endpoints of a scan over these interfaces. *)
Definition scan_subnets (interfaces : list (string * Ipv4Addr)) : list (Z * (Z * Z)) :=
  take MAX_SUBNETS (sort_dedup (map (fun i => subnet_prefix i.2) interfaces)).

Definition scan_endpoints (interfaces : list (string * Ipv4Addr)) : list SocketAddr :=
  let local_addresses := map snd interfaces in
  map (fun address => sock_new (IpV4 address) SCAN_PORT)
    (List.filter (fun address => negb (bool_decide (address ∈ local_addresses)))
       (flat_map subnet_hosts (scan_subnets interfaces))).

(** The part of [scan_local_ipv4] before its tasks, at [now]: [st] is
    [last_started]. *)
Definition begin_scan (now : Z) (found : result string (list (string * IpAddr))) (st : option Z)
    : net_result (LanScanReport + list (string * Ipv4Addr)) * option Z :=
  match st with
  | Some started =>
      if duration_since now started <? SCAN_COOLDOWN then (Ok (inl (mkReport 0 0 0 true)), st)
      else (inr <$> local_scan_interfaces found, Some now)
  | None => (inr <$> local_scan_interfaces found, Some now)
  end.

Section scan.
Context `{PeerApi} `{Crypto} `{WireApi} `{Transport} `{!Remote} {S : Type} `{!PeerRepository S}
  `{!EndpointRepository S} `{!PeerService S}.

(** ** The tasks of a scan *)

(** A task of the [JoinSet]: [None] as its outcome is a panic. *)
Inductive TaskState :=
| Probing
| Finished (outcome : option (net_result PeerAdvertisement)).

(** Where the scanning task is: at the head of its loop, waiting for a slot for
    an endpoint, in the pause after a launch, or collecting what is left. *)
Inductive ScanStage :=
| AtHead
| Slot (endpoint : SocketAddr)
| Pausing
| Draining
| Reported (r : LanScanReport).

Record Scan := mkScan {
  sc_queue : list SocketAddr;
  sc_tasks : list (SocketAddr * TaskState);
  sc_discovered : gset DeviceId;
  sc_attempted : nat;
  sc_subnets : nat;
  sc_cancelled : bool;
  sc_stage : ScanStage;
  sc_runtime : Runtime S
}.

Inductive ScanEvent :=
| Proceed
| Finish (i : nat) (v : ProbeEnv (S := S))
| PanicTask (i : nat)
| JoinNext (i : nat)
| CancelScan
| Aside (call : RuntimeCall).

Definition to_stage (st : ScanStage) (s : Scan) : Scan :=
  mkScan (sc_queue s) (sc_tasks s) (sc_discovered s) (sc_attempted s) (sc_subnets s) (sc_cancelled s) st
    (sc_runtime s).
Definition set_tasks (l : list (SocketAddr * TaskState)) (s : Scan) : Scan :=
  mkScan (sc_queue s) l (sc_discovered s) (sc_attempted s) (sc_subnets s) (sc_cancelled s) (sc_stage s)
    (sc_runtime s).
Definition set_scan_runtime (rt : Runtime S) (s : Scan) : Scan :=
  mkScan (sc_queue s) (sc_tasks s) (sc_discovered s) (sc_attempted s) (sc_subnets s) (sc_cancelled s)
    (sc_stage s) rt.

(** The next step of the scanning task itself; joins are events of their own. *)
Definition proceed (s : Scan) : option Scan :=
  match sc_stage s with
  | AtHead =>
      match sc_queue s with
      | [] => Some (to_stage Draining s)
      | endpoint :: rest =>
          if sc_cancelled s then Some (to_stage Draining s)
          else Some (mkScan rest (sc_tasks s) (sc_discovered s) (sc_attempted s) (sc_subnets s)
                       (sc_cancelled s) (Slot endpoint) (sc_runtime s))
      end
  | Slot endpoint =>
      if (SCAN_CONCURRENCY <=? length (sc_tasks s))%nat then None
      else Some (mkScan (sc_queue s) (sc_tasks s ++ [(endpoint, Probing)]) (sc_discovered s)
                   (Datatypes.S (sc_attempted s)) (sc_subnets s) (sc_cancelled s) Pausing (sc_runtime s))
  | Pausing => Some (to_stage AtHead s)
  | Draining =>
      match sc_tasks s with
      | [] => Some (to_stage (Reported (mkReport (sc_attempted s) (size (sc_discovered s))
                                          (sc_subnets s) false)) s)
      | _ => None
      end
  | Reported _ => None
  end.

(** Where [join_next] is awaited. *)
Definition joining (s : Scan) : bool :=
  match sc_stage s with
  | Slot _ => (SCAN_CONCURRENCY <=? length (sc_tasks s))%nat
  | Draining => true
  | _ => false
  end.

(** [if let Some(Ok(Ok(peer))) = tasks.join_next().await] *)
Definition join_next (i : nat) (s : Scan) : option Scan :=
  if joining s then
    match sc_tasks s !! i with
    | Some (_, Finished outcome) =>
        Some (mkScan (sc_queue s) (delete i (sc_tasks s))
                (match outcome with
                 | Some (Ok peer) => {[adv_device_id peer]} ∪ sc_discovered s
                 | _ => sc_discovered s
                 end)
                (sc_attempted s) (sc_subnets s) (sc_cancelled s) (sc_stage s) (sc_runtime s))
    | _ => None
    end
  else None.

(** The task [i] runs its probe to the end. *)
Definition finish_task (l : Local) (md : DeviceMetadata) (i : nat) (v : ProbeEnv (S := S)) (s : Scan)
    : option Scan :=
  match sc_tasks s !! i with
  | Some (endpoint, Probing) =>
      let (x, rt) := probe_endpoint l md endpoint Endpoint.Scan v (sc_runtime s) in
      Some (set_tasks (<[i := (endpoint, Finished (Some x))]> (sc_tasks s)) (set_scan_runtime rt s))
  | _ => None
  end.

Definition scan_turn (l : Local) (md : DeviceMetadata) (ev : ScanEvent) (s : Scan) : option Scan :=
  match ev with
  | Proceed => proceed s
  | Finish i v => finish_task l md i v s
  | PanicTask i =>
      match sc_tasks s !! i with
      | Some (endpoint, Probing) => Some (set_tasks (<[i := (endpoint, Finished None)]> (sc_tasks s)) s)
      | _ => None
      end
  | JoinNext i => join_next i s
  | CancelScan =>
      Some (mkScan (sc_queue s) (sc_tasks s) (sc_discovered s) (sc_attempted s) (sc_subnets s) true
              (sc_stage s) (sc_runtime s))
  | Aside call => Some (set_scan_runtime (run_call call (sc_runtime s)) s)
  end.

Definition scan_step (l : Local) (md : DeviceMetadata) (s : Scan) (ev : ScanEvent) : Scan :=
  default s (scan_turn l md ev s).

Definition run_scan (l : Local) (md : DeviceMetadata) (events : list ScanEvent) (s : Scan) : Scan :=
  fold_left (scan_step l md) events s.

(** The scan of these interfaces, as it starts. *)
Definition scan_start (interfaces : list (string * Ipv4Addr)) (rt : Runtime S) : Scan :=
  mkScan (scan_endpoints interfaces) [] ∅ 0 (length (scan_subnets interfaces)) false AtHead rt.
End scan.

(** ** Facts *)

Lemma elem_of_scan_interfaces found l name address :
  local_scan_interfaces found = Ok l ->
  (name, address) ∈ l <->
  exists listed, found = Ok listed /\ (name, IpV4 address) ∈ listed /\ v4_is_private address = true /\
    v4_is_loopback address = false /\ is_likely_virtual name = false.
Proof.
  destruct found as [listed|e]; [|discriminate]. intros [= <-].
  rewrite elem_of_sort_by, list_elem_of_In, in_flat_map. split.
  - intros ([n ip] & Hin & Hi). unfold scan_interface in Hi. cbn [fst snd] in Hi.
    destruct ip as [a|]; [|done]. destruct (_ && _) eqn:E; [|done]. destruct_bools.
    destruct Hi as [[= <- <-]|[]]. exists listed. rewrite list_elem_of_In. done.
  - intros (? & [= <-] & Hin & Hp & Hl & Hv). exists (name, IpV4 address).
    rewrite <- list_elem_of_In. split; [done|]. unfold scan_interface. cbn [fst snd].
    rewrite Hp, Hl, Hv. by left.
Qed.

Lemma length_scan_subnets l : (length (scan_subnets l) <= 2)%nat.
Proof. unfold scan_subnets. rewrite length_take. unfold MAX_SUBNETS. lia. Qed.

Lemma elem_of_scan_subnets l p : p ∈ scan_subnets l -> exists i, i ∈ l /\ subnet_prefix i.2 = p.
Proof.
  unfold scan_subnets. intros Hp%subseteq_take. rewrite elem_of_sort_dedup in Hp.
  apply list_elem_of_fmap in Hp as (i & -> & Hi). by exists i.
Qed.

Lemma length_flat_hosts ps : length (flat_map subnet_hosts ps) = (254 * length ps)%nat.
Proof. induction ps as [|p ps IH]; [done|]. cbn [flat_map length]. rewrite length_app, IH, length_subnet_hosts. lia. Qed.

Lemma NoDup_flat_hosts ps : NoDup ps -> NoDup (flat_map subnet_hosts ps).
Proof.
  induction 1 as [|p ps Hp _ IH]; [constructor|]. cbn [flat_map]. apply NoDup_app.
  split_and!; [apply NoDup_subnet_hosts| |done].
  intros a [Ha _]%elem_of_subnet_hosts Hin. apply list_elem_of_In, in_flat_map in Hin as (q & Hq & Hin).
  apply list_elem_of_In, elem_of_subnet_hosts in Hin as [Eq _]. apply list_elem_of_In in Hq. congruence.
Qed.

Lemma NoDup_take {A} n (l : list A) : NoDup l -> NoDup (take n l).
Proof. intros Hl. eapply sublist_NoDup; [exact Hl|apply sublist_take]. Qed.

Lemma elem_of_scan_endpoints l a :
  a ∈ scan_endpoints l <-> exists ip, a = sock_new (IpV4 ip) SCAN_PORT /\ ~ (ip ∈ map snd l) /\
    subnet_prefix ip ∈ scan_subnets l /\ 1 <= o3 ip <= 254.
Proof.
  unfold scan_endpoints. cbv zeta. rewrite list_elem_of_fmap. split.
  - intros (ip & -> & Hin). exists ip. apply list_elem_of_In, filter_In in Hin as [Hin Hb].
    apply negb_true_iff, bool_decide_eq_false in Hb. apply in_flat_map in Hin as (p & Hp & Hin).
    apply list_elem_of_In in Hin, Hp. apply elem_of_subnet_hosts in Hin as [<- ?]. done.
  - intros (ip & -> & Hn & Hp & Ho). exists ip. split; [done|]. apply list_elem_of_In, filter_In. split.
    + apply in_flat_map. exists (subnet_prefix ip). rewrite <- !list_elem_of_In. split; [done|].
      by apply elem_of_subnet_hosts.
    + by apply negb_true_iff, bool_decide_eq_false.
Qed.

Lemma length_scan_endpoints l : (length (scan_endpoints l) <= 508)%nat.
Proof.
  unfold scan_endpoints. cbv zeta. rewrite length_map.
  pose proof (filter_length_le (fun address => negb (bool_decide (address ∈ map snd l)))
    (flat_map subnet_hosts (scan_subnets l))) as Hf.
  rewrite length_flat_hosts in Hf. pose proof (length_scan_subnets l). lia.
Qed.

Lemma NoDup_scan_endpoints l : NoDup (scan_endpoints l).
Proof.
  unfold scan_endpoints. cbv zeta. apply NoDup_fmap_2; [by intros x y [= ->]|].
  eapply (sublist_NoDup _ (flat_map subnet_hosts (scan_subnets l))).
  - apply NoDup_flat_hosts, NoDup_take, NoDup_sort_dedup.
  - induction (flat_map _ _) as [|x k IH]; [constructor|]. cbn [List.filter]. case_match; by constructor.
Qed.

Lemma private_dialable ip port :
  v4_is_private ip = true -> port <> 0 -> is_dialable (sock_new (IpV4 ip) port) = true.
Proof.
  unfold v4_is_private, is_dialable. cbn. intros Hp Hport.
  assert (Ho : o0 ip = 10 \/ o0 ip = 172 \/ o0 ip = 192).
  { destruct (o0 ip =? 10) eqn:E1; [apply Z.eqb_eq in E1; auto|].
    destruct (o0 ip =? 172) eqn:E2; [apply Z.eqb_eq in E2; auto|].
    destruct (o0 ip =? 192) eqn:E3; [apply Z.eqb_eq in E3; auto|]. discriminate Hp. }
  rewrite (proj2 (Z.eqb_neq port 0) Hport). unfold v4_is_loopback.
  rewrite bool_decide_false by (intros ->; cbn in Ho; lia).
  destruct Ho as [->|[->| ->]]; reflexivity.
Qed.

(** ** Properties of the plan *)

(** A scan stays in the neighbourhood: at most two /24 subnets and 508
    endpoints, each once, on ArcRelay's port only; every endpoint is a private,
    dialable address in the /24 of a physical interface of this device, and
    never an address of the device itself. *)
Theorem scan_plan_bounded found l :
  local_scan_interfaces found = Ok l ->
  (length (scan_subnets l) <= 2)%nat /\ (length (scan_endpoints l) <= 508)%nat /\ NoDup (scan_endpoints l) /\
  forall a, a ∈ scan_endpoints l ->
    exists ip name own, a = sock_new (IpV4 ip) 8765 /\ v4_is_private ip = true /\ is_dialable a = true /\
      (exists listed, found = Ok listed /\ (name, IpV4 own) ∈ listed) /\ is_likely_virtual name = false /\
      subnet_prefix own = subnet_prefix ip /\ ~ (ip ∈ map snd l).
Proof.
  intros Hl. split_and!; [apply length_scan_subnets|apply length_scan_endpoints|apply NoDup_scan_endpoints|].
  intros a (ip & -> & Hn & Hp & _)%elem_of_scan_endpoints.
  apply elem_of_scan_subnets in Hp as ([name own] & Hi & Hsub). cbn in Hsub.
  apply (elem_of_scan_interfaces _ _ _ _ Hl) in Hi as (listed & Hf & Hin & Hpriv & _ & Hvirt).
  rewrite (subnet_private _ _ Hsub) in Hpriv. exists ip, name, own.
  split_and!; try done; [by apply private_dialable|by exists listed].
Qed.

(** The instants at which a sequence of calls starts a scan; a call whose
    interfaces cannot be listed counts as one. *)
Fixpoint scan_starts (st : option Z) (calls : list (Z * result string (list (string * IpAddr)))) : list Z :=
  match calls with
  | [] => []
  | (now, found) :: rest =>
      let (x, st') := begin_scan now found st in
      match x with
      | Ok (inl _) => scan_starts st' rest
      | _ => now :: scan_starts st' rest
      end
  end.

Lemma scan_starts_after st calls :
  StronglySorted (fun a b => a + SCAN_COOLDOWN <= b) (scan_starts st calls) /\
  forall started b, st = Some started -> b ∈ scan_starts st calls -> started + SCAN_COOLDOWN <= b.
Proof.
  assert (Hpos : 0 < SCAN_COOLDOWN) by reflexivity.
  revert st. induction calls as [|[now found] rest IH]; intros st; cbn [scan_starts].
  { split; [constructor|]. intros ? ? _ Hb. by apply not_elem_of_nil in Hb. }
  assert (Hnew : StronglySorted (fun a b => a + SCAN_COOLDOWN <= b) (now :: scan_starts (Some now) rest)).
  { destruct (IH (Some now)) as [Hs Hlow]. constructor; [done|]. apply Forall_forall. intros b. by apply Hlow. }
  assert (Hcase : forall y : net_result (LanScanReport + list (string * Ipv4Addr)),
    y = inr <$> local_scan_interfaces found ->
    match y with Ok (inl _) => scan_starts (Some now) rest | _ => now :: scan_starts (Some now) rest end
    = now :: scan_starts (Some now) rest).
  { intros y ->. by destruct (local_scan_interfaces found). }
  unfold begin_scan. destruct st as [started|].
  - destruct (duration_since now started <? SCAN_COOLDOWN) eqn:E; [apply IH|].
    rewrite Hcase by done. split; [done|]. intros ? b [= <-] Hb. apply Z.ltb_ge in E. unfold duration_since in E.
    apply elem_of_cons in Hb as [->|Hb]; [lia|]. destruct (IH (Some now)) as [_ Hlow].
    specialize (Hlow now b eq_refl Hb). lia.
  - by rewrite Hcase.
Qed.

(** Scans keep their distance: however often and at whatever instants they
    are asked for, any two that start do so at least sixty seconds apart; the
    others answer at once that they were throttled, without listing the
    interfaces. *)
Theorem scans_are_spaced st calls :
  StronglySorted (fun a b => a + 60 * 1000000000 <= b) (scan_starts st calls) /\
  forall now found r st', begin_scan now found st = (Ok (inl r), st') ->
    r = mkReport 0 0 0 true /\ st' = st.
Proof.
  split; [apply scan_starts_after|]. intros now found r st'. unfold begin_scan.
  destruct st as [started|]; [destruct (_ <? _)|]; destruct (local_scan_interfaces found); cbn; intros [=]; by subst.
Qed.

(** The order in which the interfaces are sorted has no effect: what a scan
    probes depends on the set of the addresses alone, and its two subnets are
    the numerically lowest, not those of the preferred interfaces. *)
Theorem interface_priority_has_no_effect l k :
  (forall address, address ∈ map snd l <-> address ∈ map snd k) ->
  scan_subnets l = scan_subnets k /\ scan_endpoints l = scan_endpoints k.
Proof.
  intros E. assert (Esub : scan_subnets l = scan_subnets k).
  { unfold scan_subnets. f_equal. apply sort_dedup_canonical. intros p.
    rewrite !list_elem_of_fmap. split; intros (i & -> & Hi).
    - assert (Hin : i.2 ∈ map snd k) by (apply E, list_elem_of_fmap; by exists i).
      apply list_elem_of_fmap in Hin as (j & Ej & Hj). exists j. by rewrite Ej.
    - assert (Hin : i.2 ∈ map snd l) by (apply E, list_elem_of_fmap; by exists i).
      apply list_elem_of_fmap in Hin as (j & Ej & Hj). exists j. by rewrite Ej. }
  split; [done|]. unfold scan_endpoints. rewrite Esub. cbv zeta. f_equal. apply filter_ext. intros a.
  f_equal. apply bool_decide_ext, E.
Qed.

(** ** The running scan *)

Section running.
Context `{PeerApi} `{Crypto} `{WireApi} `{Transport} `{!Remote} {S : Type} `{!PeerRepository S}
  `{!EndpointRepository S} `{!PeerService S}.

Abbreviation Scan := (Scan (S := S)).
Abbreviation ScanEvent := (ScanEvent (S := S)).

(** The endpoint taken from the queue and not launched yet. *)
Definition pending (s : Scan) : list SocketAddr :=
  match sc_stage s with
  | Slot endpoint => [endpoint]
  | _ => []
  end.

(** The device a finished task has found. *)
Definition found_by (st : TaskState) : list DeviceId :=
  match st with
  | Finished (Some (Ok p)) => [adv_device_id p]
  | _ => []
  end.

Definition found_in (tasks : list (SocketAddr * TaskState)) : list DeviceId :=
  flat_map (fun t => found_by t.2) tasks.

(** What a step adds to the probes launched so far. *)
Definition new_launches (s s' : Scan) : list SocketAddr :=
  drop (length (sc_tasks s)) (map fst (sc_tasks s')).

(** What a step adds to the devices the probes have found so far. *)
Definition answered (l : Local) (md : DeviceMetadata) (ev : ScanEvent) (s : Scan) : list DeviceId :=
  match ev with
  | Finish i v =>
      match sc_tasks s !! i with
      | Some (endpoint, Probing) =>
          match (probe_endpoint l md endpoint Endpoint.Scan v (sc_runtime s)).1 with
          | Ok p => [adv_device_id p]
          | Err _ => []
          end
      | _ => []
      end
  | _ => []
  end.

(** The endpoints a run launches a probe of, in order. *)
Fixpoint launches (l : Local) (md : DeviceMetadata) (events : list ScanEvent) (s : Scan) : list SocketAddr :=
  match events with
  | [] => []
  | ev :: rest => new_launches s (scan_step l md s ev) ++ launches l md rest (scan_step l md s ev)
  end.

(** The devices the probes of a run find, each as often as it is found. *)
Fixpoint finds (l : Local) (md : DeviceMetadata) (events : list ScanEvent) (s : Scan) : list DeviceId :=
  match events with
  | [] => []
  | ev :: rest => answered l md ev s ++ finds l md rest (scan_step l md s ev)
  end.

(** [eps] are the endpoints of the scan, [n] its subnets; [la] are the endpoints
    launched and [fo] the devices found so far. *)
Record scan_ok (eps : list SocketAddr) (n : nat) (la : list SocketAddr) (fo : list DeviceId)
    (s : Scan) : Prop := {
  sk_split : eps = la ++ pending s ++ sc_queue s;
  sk_attempted : length la = sc_attempted s;
  sk_tasks : map fst (sc_tasks s) `sublist_of` la;
  sk_slots : (length (sc_tasks s) <= SCAN_CONCURRENCY)%nat;
  sk_count : (size (sc_discovered s) + length (sc_tasks s) <= sc_attempted s)%nat;
  sk_found : forall d, d ∈ fo <-> d ∈ sc_discovered s \/ d ∈ found_in (sc_tasks s);
  sk_subnets : sc_subnets s = n;
  sk_drained : sc_stage s = Draining \/ (exists r, sc_stage s = Reported r) ->
    sc_cancelled s = true \/ sc_queue s = [];
  sk_report : forall r, sc_stage s = Reported r ->
    r = mkReport (sc_attempted s) (size (sc_discovered s)) n false /\ sc_tasks s = []
}.

Lemma scan_start_ok interfaces (rt : Runtime S) :
  scan_ok (scan_endpoints interfaces) (length (scan_subnets interfaces)) [] [] (scan_start interfaces rt).
Proof.
  split; cbn; try done; [unfold SCAN_CONCURRENCY; lia|set_solver|]. by intros [?|[? ?]].
Qed.

Lemma tasks_split (tasks : list (SocketAddr * TaskState)) i t :
  tasks !! i = Some t -> exists a b, tasks = a ++ t :: b /\ delete i tasks = a ++ b /\
    forall t', <[i := t']> tasks = a ++ t' :: b.
Proof.
  intros (a & b & -> & ->)%list_elem_of_split_length. exists a, b. split_and!; [done|apply delete_middle|].
  intros t'. by rewrite insert_app_r_alt, Nat.sub_diag.
Qed.

Lemma found_in_app a b : found_in (a ++ b) = found_in a ++ found_in b.
Proof. apply flat_map_app. Qed.
Lemma found_in_cons t l : found_in (t :: l) = found_by t.2 ++ found_in l.
Proof. done. Qed.

Lemma no_new_launches (s s' : Scan) :
  (length (sc_tasks s') <= length (sc_tasks s))%nat -> new_launches s s' = [].
Proof. intros Hl. apply drop_ge. by rewrite length_map. Qed.

(** A probe comes to its end, and nothing else changes. *)
Lemma scan_ok_task eps n la fo i endpoint st (s s' : Scan) :
  scan_ok eps n la fo s -> sc_tasks s !! i = Some (endpoint, Probing) ->
  sc_tasks s' = <[i := (endpoint, st)]> (sc_tasks s) -> sc_queue s' = sc_queue s ->
  sc_discovered s' = sc_discovered s -> sc_attempted s' = sc_attempted s -> sc_subnets s' = sc_subnets s ->
  sc_stage s' = sc_stage s -> sc_cancelled s' = sc_cancelled s ->
  scan_ok eps n (la ++ new_launches s s') (fo ++ found_by st) s'.
Proof.
  intros [He Hl Hsub Hc Hd Hf Hn Hdr Hr] Hi Et Eq Ed Ea En Es Ec.
  destruct (tasks_split _ _ _ Hi) as (a & b & Eab & _ & Eins). rewrite Eins in Et.
  assert (El : length (sc_tasks s') = length (sc_tasks s)) by by rewrite Et, Eab, !length_app.
  rewrite no_new_launches, app_nil_r by by rewrite El. unfold pending in *.
  split; unfold pending; rewrite ?El, ?Ed, ?Ea, ?En, ?Es, ?Ec, ?Eq; try done.
  - by rewrite Et, Eab, !map_app in *.
  - intros d. rewrite elem_of_app, Hf, Et, Eab, !found_in_app, !found_in_cons. set_solver.
  - intros r Hst. destruct (Hr r Hst) as [-> Htasks]. by rewrite Htasks in Hi.
Qed.

Lemma proceed_ok eps n la fo (s s' : Scan) :
  scan_ok eps n la fo s -> proceed s = Some s' -> scan_ok eps n (la ++ new_launches s s') fo s'.
Proof.
  intros [He Hl Hsub Hc Hd Hf Hn Hdr Hr] E. unfold proceed in E. unfold pending in He.
  destruct (sc_stage s) as [|endpoint| | |r] eqn:Es; [| | | |discriminate E].
  2:{ destruct (_ <=? _)%nat eqn:El; [discriminate E|]. apply Nat.leb_gt in El. injection E as <-.
      assert (En : new_launches s (mkScan (sc_queue s) (sc_tasks s ++ [(endpoint, Probing)]) (sc_discovered s)
        (Datatypes.S (sc_attempted s)) (sc_subnets s) (sc_cancelled s) Pausing (sc_runtime s)) = [endpoint]).
      { unfold new_launches. cbn [sc_tasks]. by rewrite map_app, <- (length_map fst), drop_app_length. }
      rewrite En. split; unfold pending; cbn.
      - by rewrite <- app_assoc.
      - rewrite length_app. cbn. lia.
      - rewrite map_app. by apply sublist_app.
      - rewrite length_app. cbn. lia.
      - rewrite length_app. cbn. lia.
      - intros d. rewrite Hf, found_in_app. cbn. by rewrite app_nil_r.
      - done.
      - by intros [?|[? ?]].
      - done. }
  1: destruct (sc_queue s) as [|endpoint rest] eqn:Eq; [|destruct (sc_cancelled s) eqn:Ec].
  all: try (destruct (sc_tasks s) eqn:Et; [|discriminate E]).
  all: injection E as <-; rewrite no_new_launches, app_nil_r by (cbn; rewrite ?Et; done).
  all: split; unfold pending; cbn; rewrite ?Eq, ?Et; try done; auto.
  - by intros [?|[? ?]].
  - by intros [?|[? ?]].
  - intros r [= <-]. by rewrite Hn.
Qed.

Lemma join_next_ok eps n la fo i (s s' : Scan) :
  scan_ok eps n la fo s -> join_next i s = Some s' -> scan_ok eps n (la ++ new_launches s s') fo s'.
Proof.
  intros [He Hl Hsub Hc Hd Hf Hn Hdr Hr] E. unfold join_next in E. destruct (joining s); [|discriminate E].
  destruct (sc_tasks s !! i) as [[endpoint [|outcome]]|] eqn:Hi; try discriminate E. injection E as <-.
  destruct (tasks_split _ _ _ Hi) as (a & b & Eab & Edel & _).
  assert (Hlen : length (sc_tasks s) = Datatypes.S (length (delete i (sc_tasks s)))).
  { rewrite Edel, Eab, !length_app. cbn. lia. }
  rewrite no_new_launches, app_nil_r by (cbn; lia).
  split; cbn; try done.
  - etransitivity; [|exact Hsub].
    change (map fst) with (@fmap list _ _ _ (@fst SocketAddr TaskState)). apply fmap_sublist, sublist_delete.
  - lia.
  - destruct outcome as [[p|e]|]; [|lia..]. rewrite size_union_alt, size_singleton.
    assert (size (sc_discovered s ∖ {[adv_device_id p]}) <= size (sc_discovered s))%nat
      by (apply subseteq_size; set_solver). lia.
  - intros d. rewrite Hf, Edel, Eab, !found_in_app, found_in_cons. cbn [snd found_by].
    destruct outcome as [[p|e]|]; set_solver.
  - intros r Hst. destruct (Hr r Hst) as [_ Htasks]. by rewrite Htasks in Hi.
Qed.

Lemma scan_turn_ok l md eps n la fo ev (s s' : Scan) :
  scan_ok eps n la fo s -> scan_turn l md ev s = Some s' ->
  scan_ok eps n (la ++ new_launches s s') (fo ++ answered l md ev s) s'.
Proof.
  intros Hok E. destruct ev as [|i v|i|i| |call]; cbn [scan_turn answered] in *; rewrite ?(app_nil_r fo).
  - by eapply proceed_ok.
  - unfold finish_task in E. destruct (sc_tasks s !! i) as [[endpoint [|]]|] eqn:Hi; try discriminate E.
    destruct (probe_endpoint _ _ _ _ _ _) as [x rt]. injection E as <-. cbn [fst].
    assert (Ex : match x with Ok p => [adv_device_id p] | Err _ => [] end = found_by (Finished (Some x))) by done.
    rewrite Ex. by eapply scan_ok_task.
  - destruct (sc_tasks s !! i) as [[endpoint [|]]|] eqn:Hi; try discriminate E. injection E as <-.
    rewrite <- (app_nil_r fo). change [] with (found_by (Finished None)). by eapply scan_ok_task.
  - by eapply join_next_ok.
  - injection E as <-. rewrite no_new_launches, app_nil_r by done. destruct Hok; split; cbn; auto.
  - injection E as <-. rewrite no_new_launches, app_nil_r by done. by destruct Hok; split.
Qed.

Lemma run_scan_ind l md (P : Scan -> Prop) events s :
  P s -> (forall s ev s', P s -> scan_turn l md ev s = Some s' -> P s') -> P (run_scan l md events s).
Proof.
  intros Hs Hstep. unfold run_scan. revert s Hs. induction events as [|ev events IH]; intros s Hs; [done|].
  cbn [fold_left]. apply IH. unfold scan_step. destruct (scan_turn l md ev s) eqn:E; [|done].
  by eapply Hstep.
Qed.

(** The log of a run describes its state. *)
Lemma run_scan_logged l md eps n events la fo (s : Scan) :
  scan_ok eps n la fo s ->
  scan_ok eps n (la ++ launches l md events s) (fo ++ finds l md events s) (run_scan l md events s).
Proof.
  revert la fo s. induction events as [|ev events IH]; intros la fo s Hok; cbn [launches finds].
  { by rewrite !app_nil_r. }
  rewrite !app_assoc. apply IH. unfold scan_step. destruct (scan_turn l md ev s) as [s'|] eqn:E; cbn [default].
  - by apply scan_turn_ok.
  - change (from_option _ _ _) with s. rewrite no_new_launches, app_nil_r by done.
    assert (Ea : answered l md ev s = []); [|by rewrite Ea, app_nil_r].
    destruct ev as [|i v| | | |]; try done. cbn in E |- *. unfold finish_task in E.
    destruct (sc_tasks s !! i) as [[endpoint [|]]|]; try done.
    by destruct (probe_endpoint _ _ _ _ _ _).
Qed.

Lemma run_scan_ok l md events interfaces (rt : Runtime S) (s0 := scan_start interfaces rt) :
  scan_ok (scan_endpoints interfaces) (length (scan_subnets interfaces))
    (launches l md events s0) (finds l md events s0) (run_scan l md events s0).
Proof. apply (run_scan_logged l md _ _ events [] []), scan_start_ok. Qed.

(** Only a cancellation cancels. *)
Lemma run_scan_uncancelled l md events (s : Scan) :
  CancelScan ∉ events -> sc_cancelled (run_scan l md events s) = sc_cancelled s.
Proof.
  unfold run_scan. revert s. induction events as [|ev events IH]; intros s Hev; [done|]. cbn [fold_left].
  rewrite IH by (intros ?; apply Hev; by right). unfold scan_step.
  destruct (scan_turn l md ev s) as [s'|] eqn:E; [|done]. cbn.
  destruct ev as [|i v|i|i| |call]; cbn [scan_turn] in E; unfold proceed, finish_task, join_next in E.
  5: by destruct Hev; left.
  all: repeat (case_match; try discriminate E); by injection E as <-.
Qed.

(** *** Progress *)

Definition own_scan (ev : ScanEvent) : bool :=
  match ev with
  | CancelScan | Aside _ => false
  | _ => true
  end.

Definition task_weight (t : SocketAddr * TaskState) : nat :=
  match t.2 with
  | Probing => 2
  | Finished _ => 1
  end.

Definition stage_weight (st : ScanStage) : nat :=
  match st with
  | AtHead => 2
  | Slot _ => 6
  | Pausing => 3
  | Draining => 1
  | Reported _ => 0
  end.

(** The own steps a scan has at most left. *)
Definition scan_measure (s : Scan) : nat :=
  (5 * length (sc_queue s) + sum_list_with task_weight (sc_tasks s) + stage_weight (sc_stage s))%nat.

Lemma sum_insert i t u (l : list (SocketAddr * TaskState)) :
  l !! i = Some t ->
  (sum_list_with task_weight (<[i := u]> l) + task_weight t = sum_list_with task_weight l + task_weight u)%nat.
Proof.
  revert i. induction l as [|x l IH]; intros [|i] Hi; try discriminate Hi.
  - injection Hi as ->. cbn [list_insert insert sum_list_with]. lia.
  - specialize (IH i Hi). change (<[Datatypes.S i:=u]> (x :: l)) with (x :: <[i:=u]> l).
    cbn [sum_list_with]. lia.
Qed.

Lemma sum_delete i t (l : list (SocketAddr * TaskState)) :
  l !! i = Some t ->
  (sum_list_with task_weight (delete i l) + task_weight t = sum_list_with task_weight l)%nat.
Proof.
  revert i. induction l as [|x l IH]; intros [|i] Hi; try discriminate Hi.
  - injection Hi as ->. change (delete O (t :: l)) with l. cbn [sum_list_with]. lia.
  - specialize (IH i Hi). change (delete (Datatypes.S i) (x :: l)) with (x :: delete i l).
    cbn [sum_list_with]. lia.
Qed.

Lemma scan_turn_measure l md ev (s s' : Scan) :
  scan_turn l md ev s = Some s' ->
  if own_scan ev then (scan_measure s' < scan_measure s)%nat else scan_measure s' = scan_measure s.
Proof.
  intros E. unfold scan_measure. destruct ev as [|i v|i|i| |call]; cbn [scan_turn own_scan] in *.
  - unfold proceed in E. destruct (sc_stage s) as [|endpoint| | |r] eqn:Es; [| | | |discriminate E].
    + destruct (sc_queue s) as [|a rest] eqn:Eq; [|destruct (sc_cancelled s)]; injection E as <-; cbn;
        rewrite ?Eq; cbn; lia.
    + destruct (_ <=? _)%nat; [discriminate E|]. injection E as <-. cbn. rewrite sum_list_with_app. cbn. lia.
    + injection E as <-. cbn. lia.
    + destruct (sc_tasks s) eqn:Et; [|discriminate E]. injection E as <-. cbn. rewrite Et. cbn. lia.
  - unfold finish_task in E. destruct (sc_tasks s !! i) as [[endpoint [|]]|] eqn:Hi; try discriminate E.
    destruct (probe_endpoint _ _ _ _ _ _) as [x rt]. injection E as <-. cbn.
    pose proof (sum_insert i _ (endpoint, Finished (Some x)) _ Hi) as Hsum. cbn in Hsum. lia.
  - destruct (sc_tasks s !! i) as [[endpoint [|]]|] eqn:Hi; try discriminate E. injection E as <-. cbn.
    pose proof (sum_insert i _ (endpoint, Finished None) _ Hi) as Hsum. cbn in Hsum. lia.
  - unfold join_next in E. destruct (joining s); [|discriminate E].
    destruct (sc_tasks s !! i) as [[endpoint [|outcome]]|] eqn:Hi; try discriminate E. injection E as <-. cbn.
    pose proof (sum_delete i _ _ Hi) as Hsum. cbn in Hsum. lia.
  - by injection E as <-.
  - by injection E as <-.
Qed.

(** A probe whose connection attempt times out. *)
Definition unanswered_probe (s : Scan) : ProbeEnv (S := S) :=
  mkProbeEnv (Err Timeout) false
    (mkWorld None None (sock_new (IpV4 (mkIpv4 0 0 0 0)) 0) [] [] [] [] (store (sc_runtime s)) ∅ 0 false false
       0 0 [] 0 0) 0 0.

(** A scan that has not reported can go on, at the latest when a probe times
    out. *)
Lemma scan_progress l md (s : Scan) :
  (forall r, sc_stage s <> Reported r) ->
  exists ev s', own_scan ev = true /\ scan_turn l md ev s = Some s'.
Proof.
  intros Hnot.
  assert (Htask : sc_tasks s <> [] -> joining s = true ->
    exists ev s', own_scan ev = true /\ scan_turn l md ev s = Some s').
  { intros Hne Hj. destruct (sc_tasks s) as [|[endpoint [|outcome]] rest] eqn:Et; [done| |].
    - exists (Finish 0 (unanswered_probe s)). cbn [scan_turn]. unfold finish_task. rewrite Et.
      cbn [lookup list_lookup]. destruct (probe_endpoint _ _ _ _ _ _) as [x rt]. by eexists.
    - eexists (JoinNext 0), _. split; [done|]. cbn [scan_turn]. unfold join_next. by rewrite Hj, Et. }
  destruct (sc_stage s) as [|endpoint| | |r] eqn:Es; [| | | |by edestruct Hnot].
  - eexists Proceed. cbn [scan_turn]. unfold proceed. rewrite Es.
    destruct (sc_queue s); [|destruct (sc_cancelled s)]; by eexists.
  - destruct (SCAN_CONCURRENCY <=? length (sc_tasks s))%nat eqn:El.
    + apply Htask; [|unfold joining; by rewrite Es]. intros Et. rewrite Et in El. discriminate El.
    + eexists Proceed. cbn [scan_turn]. unfold proceed. rewrite Es, El. by eexists.
  - eexists Proceed. cbn [scan_turn]. unfold proceed. rewrite Es. by eexists.
  - destruct (sc_tasks s) as [|t rest] eqn:Et.
    + eexists Proceed. cbn [scan_turn]. unfold proceed. rewrite Es, Et. by eexists.
    + apply Htask; [congruence|unfold joining; by rewrite Es].
Qed.

(** From any state a scan can be completed. *)
Lemma scan_completes l md (s : Scan) :
  exists events r, sc_stage (run_scan l md events s) = Reported r.
Proof.
  remember (scan_measure s) as n eqn:En. revert s En.
  induction n as [n IH] using (well_founded_induction lt_wf). intros s ->.
  destruct (sc_stage s) as [| | | |r] eqn:Es; [| | | |by exists [], r].
  all: destruct (scan_progress l md s) as (ev & s' & Ho & E); [intros r; congruence|];
    pose proof (scan_turn_measure _ _ _ _ _ E) as Hm; rewrite Ho in Hm;
    destruct (IH _ Hm s' eq_refl) as (events & r & Hr); exists (ev :: events), r;
    cbn [run_scan fold_left]; unfold scan_step at 2; by rewrite E.
Qed.

Fixpoint own_scan_steps (l : Local) (md : DeviceMetadata) (events : list ScanEvent) (s : Scan) : nat :=
  match events with
  | [] => O
  | ev :: rest =>
      ((if own_scan ev && bool_decide (is_Some (scan_turn l md ev s)) then 1 else 0) +
       own_scan_steps l md rest (scan_step l md s ev))%nat
  end.

Lemma own_scan_steps_measure l md events (s : Scan) :
  (own_scan_steps l md events s + scan_measure (run_scan l md events s) <= scan_measure s)%nat.
Proof.
  unfold run_scan. revert s. induction events as [|ev events IH]; intros s; cbn [own_scan_steps fold_left]; [lia|].
  specialize (IH (scan_step l md s ev)).
  assert (Hm : ((if own_scan ev && bool_decide (is_Some (scan_turn l md ev s)) then 1 else 0) +
    scan_measure (scan_step l md s ev) <= scan_measure s)%nat); [|lia].
  unfold scan_step. destruct (scan_turn l md ev s) as [s'|] eqn:E; cbn [default].
  - change (Datatypes.id s') with s'. apply scan_turn_measure in E.
    destruct (own_scan ev); cbn [andb]; [rewrite bool_decide_true by eauto|]; cbv iota; lia.
  - rewrite andb_false_intro2; [cbv iota; lia|]. apply bool_decide_eq_false. intros [? ?]. discriminate.
Qed.
End running.

(** ** Properties of the running scan *)

Section properties.
Context `{PeerApi} `{Crypto} `{WireApi} `{Transport} `{!Remote} {S : Type} `{!PeerRepository S}
  `{!EndpointRepository S} `{!PeerService S}.

(** C32. However the probes of a scan interleave with each other and with the
    rest of the runtime, the endpoints of the plan are probed in its order and
    each at most once, at most thirty-two at a time and at most 508 in all.  The
    scan reports when no probe is left; a scan that is not cancelled has then
    probed the whole plan.  Its report counts exactly the probes launched, and of
    the devices that answered one each device once. *)
Theorem scan_bounded l md events interfaces (rt : Runtime S)
    (s0 := scan_start interfaces rt) (s := run_scan l md events s0) :
  launches l md events s0 `prefix_of` scan_endpoints interfaces /\ NoDup (launches l md events s0) /\
  (length (sc_tasks s) <= 32)%nat /\ map fst (sc_tasks s) `sublist_of` launches l md events s0 /\
  (length (launches l md events s0) <= 508)%nat /\
  forall r, sc_stage s = Reported r ->
    sc_tasks s = [] /\ attempted_endpoints r = length (launches l md events s0) /\
    discovered_devices r = size (list_to_set (finds l md events s0) : gset DeviceId) /\
    (discovered_devices r <= attempted_endpoints r)%nat /\ (scanned_subnets r <= 2)%nat /\
    throttled r = false /\ (CancelScan ∉ events -> launches l md events s0 = scan_endpoints interfaces).
Proof.
  destruct (run_scan_ok l md events interfaces rt) as [He Hl Hsub Hc Hd Hf Hn Hdr Hr].
  fold s0 in He, Hl, Hsub, Hc, Hd, Hf, Hn, Hdr, Hr. fold s in He, Hl, Hsub, Hc, Hd, Hf, Hn, Hdr, Hr.
  assert (Hpre : launches l md events s0 `prefix_of` scan_endpoints interfaces) by (rewrite He; by eexists).
  split_and!; [done| |done|done| |].
  - destruct Hpre as [k Ek]. pose proof (NoDup_scan_endpoints interfaces) as Hnd. rewrite Ek in Hnd.
    by apply NoDup_app in Hnd as [? _].
  - apply prefix_length in Hpre. pose proof (length_scan_endpoints interfaces). lia.
  - intros r Hst. destruct (Hr r Hst) as [-> Ht]. rewrite Ht in Hd, Hf. cbn in Hd |- *.
    pose proof (length_scan_subnets interfaces). split_and!; [done..| |lia|done|done|].
    + f_equal. apply set_eq. intros d. rewrite elem_of_list_to_set, Hf. cbn. set_solver.
    + intros Hev. unfold pending in He. rewrite Hst in He. cbn in He.
      pose proof (run_scan_uncancelled l md events s0 Hev) as Hcan. fold s in Hcan.
      destruct Hdr as [Hcan'|Hq]; [right; by eexists|by rewrite Hcan' in Hcan|].
      by rewrite Hq, app_nil_r in He.
Qed.

(** A cancelled scan launches no further probe, except the one that already
    waits for a slot. *)
Theorem cancel_stops_launches l md events (s : Scan) :
  sc_cancelled s = true ->
  (sc_attempted (run_scan l md events s) + length (pending (run_scan l md events s))
   <= sc_attempted s + length (pending s))%nat.
Proof.
  intros Hcan.
  enough (sc_cancelled (run_scan l md events s) = true /\
    (sc_attempted (run_scan l md events s) + length (pending (run_scan l md events s))
     <= sc_attempted s + length (pending s))%nat) by tauto.
  apply run_scan_ind; [done|]. intros s1 ev s2 [Hc Hle] E.
  enough (sc_cancelled s2 = true /\ (sc_attempted s2 + length (pending s2)
    <= sc_attempted s1 + length (pending s1))%nat) as [? ?] by (split; [done|lia]).
  destruct ev as [|i v|i|i| |call]; cbn [scan_turn] in E.
  - unfold proceed in E. unfold pending.
    destruct (sc_stage s1) as [|endpoint| | |r] eqn:Es; [| | | |discriminate E].
    + destruct (sc_queue s1); [|rewrite Hc in E]; injection E as <-; cbn; split; done || lia.
    + destruct (_ <=? _)%nat; [discriminate E|]. injection E as <-. cbn. split; [done|lia].
    + injection E as <-. cbn. split; [done|lia].
    + destruct (sc_tasks s1); [|discriminate E]. injection E as <-. cbn. split; [done|lia].
  - unfold finish_task in E. destruct (sc_tasks s1 !! i) as [[endpoint [|]]|]; try discriminate E.
    destruct (probe_endpoint _ _ _ _ _ _) as [x rt]. injection E as <-. done.
  - destruct (sc_tasks s1 !! i) as [[endpoint [|]]|]; try discriminate E. by injection E as <-.
  - unfold join_next in E. destruct (joining s1); [|discriminate E].
    destruct (sc_tasks s1 !! i) as [[endpoint [|outcome]]|]; try discriminate E. by injection E as <-.
  - by injection E as <-.
  - by injection E as <-.
Qed.

(** A scan ends: it takes at most 2542 steps of its own whatever the
    schedule, and as long as it has not reported one more is possible, at the
    latest when a probe reaches its time-out; so from every state it reaches its
    report. *)
Theorem scan_terminates l md schedule interfaces (rt : Runtime S)
    (s := run_scan l md schedule (scan_start interfaces rt)) :
  (own_scan_steps l md schedule (scan_start interfaces rt) <= 2542)%nat /\
  ((forall r, sc_stage s <> Reported r) ->
     exists ev s', own_scan ev = true /\ scan_turn l md ev s = Some s') /\
  exists more r, sc_stage (run_scan l md more s) = Reported r.
Proof.
  split_and!.
  - pose proof (own_scan_steps_measure l md schedule (scan_start interfaces rt)) as Hm.
    assert (Hs : (scan_measure (scan_start interfaces rt) <= 2542)%nat); [|lia].
    unfold scan_measure, scan_start. cbn [sc_queue sc_tasks sc_stage sum_list_with stage_weight].
    pose proof (length_scan_endpoints interfaces). lia.
  - apply scan_progress.
  - apply scan_completes.
Qed.
End properties.

(** ** Witnesses *)

Section witnesses.
Import SamplePeer SampleWire SampleCrypto SampleRegistry SampleDb SampleRun SampleDial SampleConnect.

#[local] Existing Instance sqlite_peer_service.
#[local] Existing Instance sqlite_peer_service_laws.

(** Three interfaces: the preferred one is in the highest subnet. *)
Definition listed : list (string * IpAddr) :=
  [("en0"%string, IpV4 (mkIpv4 192 168 1 5)); ("usb0"%string, IpV4 (mkIpv4 10 42 7 1));
   ("ppp1"%string, IpV4 (mkIpv4 10 0 0 5)); ("utun3"%string, IpV4 (mkIpv4 10 9 9 9))].
Definition interfaces : list (string * Ipv4Addr) :=
  default [] (to_option (local_scan_interfaces (Ok listed))).

Example preferred_interface_is_left_out :
  hd_error interfaces = Some ("en0"%string, mkIpv4 192 168 1 5) /\
  scan_subnets interfaces = [(10, (0, 0)); (10, (42, 7))].
Proof. split; reflexivity. Qed.

Lemma scan_plan_bounded_witness :
  local_scan_interfaces (Ok listed) = Ok interfaces /\ NoDup (scan_endpoints interfaces) /\
  (length (scan_endpoints interfaces) <= 508)%nat.
Proof.
  assert (E : local_scan_interfaces (Ok listed) = Ok interfaces) by reflexivity.
  pose proof (scan_plan_bounded (Ok listed) interfaces E) as Hp. split_and!; [exact E|apply Hp|apply Hp].
Defined.

Lemma interface_priority_has_no_effect_witness :
  scan_endpoints interfaces = scan_endpoints (rev interfaces).
Proof.
  destruct (interface_priority_has_no_effect interfaces (rev interfaces)) as [_ E]; [|exact E].
  intros address. rewrite map_rev, !list_elem_of_In. apply in_rev.
Defined.

(** A scan that has launched one probe, which finds the other device, and is
    cancelled. *)
Definition cancelled : Scan :=
  run_scan (local x41) meta
    [Proceed; Proceed; Finish 0 probe_env; CancelScan] (scan_start interfaces before).

Lemma cancelled_flag : sc_cancelled cancelled = true.
Proof. vm_compute. reflexivity. Qed.

Lemma cancel_stops_launches_witness :
  (sc_attempted (run_scan (local x41) meta [Proceed; Proceed; JoinNext 0; Proceed] cancelled) <= 1)%nat.
Proof.
  pose proof (cancel_stops_launches (local x41) meta [Proceed; Proceed; JoinNext 0; Proceed] cancelled
    cancelled_flag) as Hc.
  assert (E : (sc_attempted cancelled + length (pending cancelled) <=? 1)%nat = true)
    by (vm_compute; reflexivity).
  apply Nat.leb_le in E. lia.
Defined.

(** The same run in one piece: it reports the device and its one probe, the
    first of the plan. *)
Definition cancelled_run : list (ScanEvent (S := Sqlite)) :=
  [Proceed; Proceed; Finish 0 probe_env; CancelScan; Proceed; Proceed; JoinNext 0; Proceed].

Lemma scan_finds_device :
  sc_stage (run_scan (local x41) meta cancelled_run (scan_start interfaces before))
  = Reported (mkReport 1 1 2 false).
Proof. vm_compute. reflexivity. Qed.

Lemma scan_bounded_witness :
  exists a d, launches (local x41) meta cancelled_run (scan_start interfaces before) = [a] /\
    head (scan_endpoints interfaces) = Some a /\
    (list_to_set (finds (local x41) meta cancelled_run (scan_start interfaces before)) : gset DeviceId)
      ≡ {[d]}.
Proof.
  destruct (scan_bounded (local x41) meta cancelled_run interfaces before) as (Hpre & _ & _ & _ & _ & Hr).
  destruct (Hr _ scan_finds_device) as (_ & Hl & Hd & _). cbn [attempted_endpoints discovered_devices] in Hl, Hd.
  destruct (launches _ _ _ _) as [|a [|b rest]]; [discriminate Hl| |discriminate Hl].
  destruct Hpre as [k ->]. symmetry in Hd. apply size_1_elem_of in Hd as [d Hd].
  exists a, d. split_and!; [reflexivity|reflexivity|exact Hd].
Defined.
End witnesses.
