(* ===== verification/Lifecycle.v ===== *)
(** * Lifecycle

    The start of the network runtime and what it shows of itself: [bind]
    (runtime.rs) with [DiscoveryService::start] and its browser (discovery.rs),
    the metadata and the visibility of the device, and the announcement that
    follows them. *)

From S2P Require Import Prelude Errors Addr Peer Wire Grants Registry Endpoint RepositoryDb Repository.
From S2P Require Import Store Text Identity IdentityFiles Discovery Probe Handshake Auth Mutual Trust Pairing.
From S2P Require Import Sockets Calls Dial Accept Relay.

(** ** Foreign code *)

(** The rest of [mdns_sd::ServiceDaemon]. *)
Class MdnsDaemon `{MdnsApi} := {
  daemon_new : result string Daemon;
  mdns_browse : string -> action Daemon string unit;
  mdns_stop_browse : string -> action Daemon string unit;
  mdns_shutdown : action Daemon string unit;
  announcements : Daemon -> gmap string ServiceInfo
}.

(** A daemon announces what was registered last under a full name and not
    unregistered since; the full name is the instance's under its type, and the
    two types of this program are not suffixes of each other. *)
Class MdnsDaemonLaws `{MdnsDaemon} : Prop := {
  new_announces : forall d, daemon_new = Ok d -> announcements d = ∅;
  register_announces : forall i d d',
    mdns_register i d = (Ok tt, d') -> announcements d' = <[get_fullname i := i]> (announcements d);
  register_refused : forall i e d d', mdns_register i d = (Err e, d') -> announcements d' = announcements d;
  unregister_withdraws : forall n d d',
    mdns_unregister n d = (Ok tt, d') -> announcements d' = delete n (announcements d);
  unregister_refused : forall n e d d', mdns_unregister n d = (Err e, d') -> announcements d' = announcements d;
  browse_announces : forall t x d d', mdns_browse t d = (x, d') -> announcements d' = announcements d;
  fullname_of : forall type instance host port properties i,
    service_new type instance host port properties = Ok i -> get_fullname i = (instance +:+ "." +:+ type)%string;
  types_apart : forall n n' : string,
    (n +:+ "." +:+ DISCOVERY_SERVICE_TYPE)%string <> (n' +:+ "." +:+ WEB_DISCOVERY_SERVICE_TYPE)%string
}.

(** ** Definitions *)

(** A call that may panic ([None]) or fail, before another. *)
Definition and_then {A B} (x : option (net_result A)) (f : A -> option (net_result B)) : option (net_result B) :=
  r ← x;
  match r with
  | Ok a => f a
  | Err e => Some (Err e)
  end.

Section service.
Context `{PeerApi} `{Crypto} `{WireApi} `{MdnsApi} `{!MdnsDaemon}.

(** [DiscoveryService::start]; the browser task is [browser_turn]. *)
Definition start_discovery (identity : DeviceIdentity) (metadata : DeviceMetadata) (port : Z)
    : option (net_result (Publisher * Discovery)) :=
  and_then (Some (map_err Errors.Discovery daemon_new)) (fun daemon =>
    id ← identity_device_id identity;
    and_then (service_info identity metadata port) (fun info =>
      hostname ← device_hostname id;
      Some (match (mdns_register info ;; mdns_browse DISCOVERY_SERVICE_TYPE) daemon with
            | (Ok _, daemon) =>
                Ok (mkPublisher daemon (get_fullname info) hostname id None true, started id)
            | (Err e, _) => Err (Errors.Discovery e)
            end))).

(** [mdns_sd::ServiceEvent] *)
Inductive ServiceEvent :=
| ServiceResolved (info : ResolvedService)
| ServiceRemoved (fullname : string)
| OtherEvent.

(** One turn of the browser's loop, at [now]. *)
Definition browser_turn (now : Z) (event : ServiceEvent) (d : Discovery) : Discovery :=
  match event with
  | ServiceResolved info => resolve info now d
  | ServiceRemoved fullname => remove_service fullname d
  | OtherEvent => d
  end.

(** [DiscoveryService::drop] *)
Definition drop_discovery : action Publisher NetworkError unit :=
  unpublish_web_gateway ;;
  (fun p => ignore (with_daemon (mdns_unregister (pub_fullname p))) p) ;;
  ignore (with_daemon (mdns_stop_browse DISCOVERY_SERVICE_TYPE)) ;;
  ignore (with_daemon mdns_shutdown).
End service.

Section runtime.
Context `{PeerApi} `{Crypto} `{!KeyFiles} `{WireApi} `{MdnsApi} `{!MdnsDaemon} `{Transport} `{!Remote}.
Context {S : Type} `{!PeerRepository S} `{!EndpointRepository S} `{!PeerService S}.

(** [NetworkRuntime]; the endpoint is bound to [nr_address]. *)
Record NetworkRuntime := mkNetworkRuntime {
  nr_local : Local;
  nr_address : SocketAddr;
  nr_metadata : DeviceMetadata;
  nr_publisher : Publisher;
  nr_node : Node S;
  nr_scan_cancelled : bool;
  nr_last_started : option Z
}.

(** What [bind_on_socket] meets: whether a Tokio runtime is current, the
    outcomes of its system and QUIC calls, the random process instance, and the
    network and the store it starts with. *)
Record BindEnv := mkBindEnv {
  be_tokio : bool;
  be_nonblocking : result string unit;
  be_endpoint : result string unit;
  be_client_config : net_result unit;
  be_local_addr : result string SocketAddr;
  be_process_instance_id : list byte;
  be_net : Registry.Net;
  be_store : S
}.

(** The fields [bind_on_socket] fills in. *)
Definition new_runtime (v : BindEnv) (l : Local) (address : SocketAddr) (metadata : DeviceMetadata)
    (publisher : Publisher) (d : Discovery) : NetworkRuntime :=
  mkNetworkRuntime l address metadata publisher
    (mkNode (mkHost (mkRuntime (be_store v) d (mkRegistry (be_net v) ∅ ∅)) ∅ 16 32 true false [])
       bound 8)
    false None.

(** The part of [bind_on_socket] after the identity is loaded. *)
Definition open_runtime (v : BindEnv) (metadata : DeviceMetadata) (identity : DeviceIdentity)
    : option (net_result NetworkRuntime) :=
  and_then (Some (map_err Quic (be_endpoint v))) (fun _ =>
  and_then (Some (be_client_config v)) (fun _ =>
  and_then (Some (map_err Quic (be_local_addr v))) (fun address =>
  and_then (start_discovery identity metadata (sock_port address)) (fun '(publisher, d) =>
    l ← local_of identity (be_process_instance_id v);
    Some (Ok (new_runtime v l address metadata publisher d)))))).

(** [NetworkRuntime::bind_on_socket]: [a] is what loading the identity meets in
    the directory with the files [m]. *)
Definition bind_on_socket (v : BindEnv) (metadata : DeviceMetadata) (a : Attempt)
    (m : gmap string (list byte)) : option (net_result NetworkRuntime) * gmap string (list byte) :=
  if negb (be_tokio v) then (Some (Err RuntimeUnavailable), m)
  else
    match be_nonblocking v with
    | Err e => (Some (Err (Io e)), m)
    | Ok _ =>
        let (loaded, m') := attempt_on a m in
        (and_then (Some loaded) (open_runtime v metadata), m')
    end.

(** [NetworkRuntime::bind] *)
Definition bind (socket : net_result unit) (v : BindEnv) (metadata : DeviceMetadata) (a : Attempt)
    (m : gmap string (list byte)) : option (net_result NetworkRuntime) * gmap string (list byte) :=
  match socket with
  | Err e => (Some (Err e), m)
  | Ok _ => bind_on_socket v metadata a m
  end.

(** *** Metadata and visibility *)

Definition set_publisher (p : Publisher) (n : NetworkRuntime) : NetworkRuntime :=
  mkNetworkRuntime (nr_local n) (nr_address n) (nr_metadata n) p (nr_node n) (nr_scan_cancelled n)
    (nr_last_started n).
Definition set_metadata (m : DeviceMetadata) (n : NetworkRuntime) : NetworkRuntime :=
  mkNetworkRuntime (nr_local n) (nr_address n) m (nr_publisher n) (nr_node n) (nr_scan_cancelled n)
    (nr_last_started n).
Definition set_node (d : Node S) (n : NetworkRuntime) : NetworkRuntime :=
  mkNetworkRuntime (nr_local n) (nr_address n) (nr_metadata n) (nr_publisher n) d (nr_scan_cancelled n)
    (nr_last_started n).
Definition set_scan_cancelled (b : bool) (n : NetworkRuntime) : NetworkRuntime :=
  mkNetworkRuntime (nr_local n) (nr_address n) (nr_metadata n) (nr_publisher n) (nr_node n) b
    (nr_last_started n).

Definition change_host (f : Host S -> Host S) (n : NetworkRuntime) : NetworkRuntime :=
  set_node (mkNode (f (node_host (nr_node n))) (node_sockets (nr_node n)) (node_relays (nr_node n))) n.

(** [NetworkRuntime::local_port]; [fault] is an error of [local_addr]. *)
Definition local_port_of (fault : option string) (n : NetworkRuntime) : net_result Z :=
  match fault with
  | Some e => Err (Quic e)
  | None => Ok (sock_port (nr_address n))
  end.

(** [NetworkRuntime::device_id], [public_key], [certificate_sha256] and
    [sign_feature_payload] read the identity; [None] is the panic of an
    [expect]. *)
Definition runtime_device_id (n : NetworkRuntime) : option DeviceId :=
  identity_device_id (local_identity (nr_local n)).
Definition runtime_public_key (n : NetworkRuntime) : option DevicePublicKey :=
  public_key_value (local_identity (nr_local n)).
Definition runtime_certificate_sha256 (n : NetworkRuntime) : list byte :=
  certificate_sha256 (local_identity (nr_local n)).
Definition sign_feature_payload (message : list byte) (n : NetworkRuntime) : option (list byte) :=
  sign (local_identity (nr_local n)) FeaturePayloadContext message.

Definition is_discoverable (n : NetworkRuntime) : bool := host_discoverable (node_host (nr_node n)).

(** [NetworkRuntime::update_metadata]; [None] is a panic of [service_info],
    which depends on the identity only and which [start_discovery] has met. *)
Definition update_metadata (metadata : DeviceMetadata) (fault : option string) (n : NetworkRuntime)
    : option (net_result unit * NetworkRuntime) :=
  match local_port_of fault n with
  | Err e => Some (Err e, n)
  | Ok port =>
      info ← service_info (local_identity (nr_local n)) metadata port;
      Some (match update_local_metadata info (nr_publisher n) with
            | (Ok _, p) => (Ok tt, set_metadata metadata (set_publisher p n))
            | (Err e, p) => (Err e, set_publisher p n)
            end)
  end.

(** [self.discoverable.store(discoverable)] *)
Definition store_discoverable (discoverable : bool) (n : NetworkRuntime) : NetworkRuntime :=
  change_host (fun h => mkHost (host_runtime h) (host_rates h) (host_probe_permits h)
                          (host_handshakes h) discoverable (host_subscribed h) (host_published h)) n.

(** [NetworkRuntime::set_discoverable]; an error is only logged. *)
Definition set_discoverable (discoverable : bool) (fault : option string) (n : NetworkRuntime)
    : option NetworkRuntime :=
  let port := default 0 (to_option (local_port_of fault n)) in
  info ← service_info (local_identity (nr_local n)) (nr_metadata n) port;
  Some (set_publisher (set_local_published info discoverable (nr_publisher n)).2
          (store_discoverable discoverable n)).

Definition cancel_lan_scan (n : NetworkRuntime) : NetworkRuntime := set_scan_cancelled true n.

(** [NetworkRuntime::subscribe] *)
Definition subscribe (n : NetworkRuntime) : NetworkRuntime :=
  change_host (fun h => mkHost (host_runtime h) (host_rates h) (host_probe_permits h) (host_handshakes h)
                          (host_discoverable h) true (host_published h)) n.

(** The calls of this file on a runtime. *)
Inductive VisibilityCall :=
| UpdateMetadata (metadata : DeviceMetadata) (fault : option string)
| SetDiscoverable (discoverable : bool) (fault : option string)
| PublishWeb (site_name : string) (web_port : Z)
| UnpublishWeb
| CancelLanScan
| Subscribe.

Definition visibility_step (n : NetworkRuntime) (call : VisibilityCall) : NetworkRuntime :=
  default n
    match call with
    | UpdateMetadata metadata fault => snd <$> update_metadata metadata fault n
    | SetDiscoverable discoverable fault => set_discoverable discoverable fault n
    | PublishWeb site_name web_port =>
        (fun r => set_publisher r.2 n) <$> publish_web_gateway site_name web_port (nr_publisher n)
    | UnpublishWeb => Some (set_publisher (unpublish_web_gateway (nr_publisher n)).2 n)
    | CancelLanScan => Some (cancel_lan_scan n)
    | Subscribe => Some (subscribe n)
    end.

Definition run_visibility (calls : list VisibilityCall) (n : NetworkRuntime) : NetworkRuntime :=
  fold_left visibility_step calls n.
End runtime.

Arguments NetworkRuntime {_ _ _ _} _.
Arguments BindEnv {_} _.

(** ** Facts *)

Lemma and_then_ok {A B} (x : option (net_result A)) (f : A -> option (net_result B)) b :
  and_then x f = Some (Ok b) -> exists a, x = Some (Ok a) /\ f a = Some (Ok b).
Proof. destruct x as [[a|e]|]; cbn; [by eauto|discriminate|discriminate]. Qed.

Lemma option_bind_some {A B} (a : A) (f : A -> option B) : Some a ≫= f = f a.
Proof. done. Qed.

Section service_facts.
Context `{PeerApi} `{Crypto} `{WireApi} `{MdnsApi} `{!MdnsDaemon} `{!MdnsDaemonLaws}.

(** The full name a device announces itself under. *)
Definition own_name (identity : DeviceIdentity) : option string :=
  id ← identity_device_id identity;
  head ← slice_to 20 (trim_arc (as_str id));
  Some (("arc-" +:+ head) +:+ "." +:+ DISCOVERY_SERVICE_TYPE)%string.

Lemma service_info_name identity metadata port info :
  service_info identity metadata port = Some (Ok info) ->
  own_name identity = Some (get_fullname info) /\ port <> 0.
Proof.
  unfold service_info, own_name. destruct (port =? 0) eqn:Ep; [discriminate|].
  destruct (identity_device_id identity) as [id|]; [|discriminate]. cbn.
  destruct (public_key_value identity); [|discriminate]. cbn.
  destruct (slice_to 20 _) as [h20|]; [|discriminate]. cbn.
  destruct (slice_to 32 _) as [h32|]; [|discriminate]. cbn. intros [= E].
  apply map_err_ok in E. rewrite (fullname_of _ _ _ _ _ _ E). split; [done|lia].
Qed.

(** The announcement of a device with this metadata at this port. *)
Record announces_as (identity : DeviceIdentity) (metadata : DeviceMetadata) (port : Z) (p : Publisher) : Prop := {
  an_name : own_name identity = Some (pub_fullname p);
  an_web : forall w, web_fullname p = Some w -> exists k, w = (k +:+ "." +:+ WEB_DISCOVERY_SERVICE_TYPE)%string;
  an_record :
    if local_published p then
      exists info, service_info identity metadata port = Some (Ok info) /\
        announcements (daemon p) !! pub_fullname p = Some info
    else announcements (daemon p) !! pub_fullname p = None
}.

Lemma with_daemon_inv {A} (m : action Daemon string A) p x p' :
  with_daemon m p = (x, p') ->
  exists y d, m (daemon p) = (y, d) /\ x = map_err Errors.Discovery y /\
    p' = mkPublisher d (pub_fullname p) (pub_hostname p) (pub_local_id p) (web_fullname p) (local_published p).
Proof. unfold with_daemon. destruct (m (daemon p)) as [y d]. intros [= <- <-]. eauto. Qed.

(** A call on the daemon that spares the own record. *)
Lemma announces_daemon identity metadata port p d :
  announces_as identity metadata port p ->
  announcements d !! pub_fullname p = announcements (daemon p) !! pub_fullname p ->
  announces_as identity metadata port
    (mkPublisher d (pub_fullname p) (pub_hostname p) (pub_local_id p) (web_fullname p) (local_published p)).
Proof. intros [Hn Hw Hr] E. split; cbn; [done|done|]. by rewrite E. Qed.

Lemma announces_web identity metadata port p w :
  announces_as identity metadata port p ->
  (forall n, w = Some n -> exists k, n = (k +:+ "." +:+ WEB_DISCOVERY_SERVICE_TYPE)%string) ->
  announces_as identity metadata port (set_web w p).2.
Proof. intros [Hn _ Hr] Hw. by split. Qed.

Lemma own_not_web identity metadata port p k :
  announces_as identity metadata port p ->
  (k +:+ "." +:+ WEB_DISCOVERY_SERVICE_TYPE)%string <> pub_fullname p.
Proof.
  intros [Hn _ _] E. unfold own_name in Hn. destruct (identity_device_id identity); [|discriminate].
  cbn in Hn. destruct (slice_to 20 _); [|discriminate]. cbn in Hn. injection Hn as Hn.
  rewrite <- E in Hn. by destruct (types_apart _ _ Hn).
Qed.

Lemma unpublish_announces identity metadata port p :
  announces_as identity metadata port p ->
  announces_as identity metadata port (unpublish_web_gateway p).2.
Proof.
  intros Ha. unfold unpublish_web_gateway. destruct (web_fullname p) as [w|] eqn:Ew; [|done].
  destruct (an_web _ _ _ _ Ha w Ew) as [k ->].
  assert (Ha' : announces_as identity metadata port (set_web None p).2) by by apply announces_web.
  unfold mbind, action_bind, ignore, set_web. cbn -[with_daemon]. cbn in Ha'.
  set (p1 := mkPublisher _ _ _ _ _ _) in *.
  destruct (with_daemon _ p1) as [x p2] eqn:E. cbn. apply with_daemon_inv in E as (y & d & E & -> & ->).
  apply announces_daemon; [done|]. destruct y as [[]|e].
  - rewrite (unregister_withdraws _ _ _ E). apply lookup_delete_ne. by apply (own_not_web _ _ _ _ k Ha').
  - by rewrite (unregister_refused _ _ _ _ E).
Qed.

Lemma publish_web_announces identity metadata port p site web_port x p' :
  announces_as identity metadata port p -> publish_web_gateway site web_port p = Some (x, p') ->
  announces_as identity metadata port p'.
Proof.
  intros Ha. unfold publish_web_gateway. destruct (web_port =? 0); [by intros [= <- <-]|].
  apply unpublish_announces in Ha. set (p1 := (unpublish_web_gateway p).2) in *.
  destruct (slice_to _ _) as [head|]; [|discriminate]. rewrite option_bind_some.
  match goal with |- context [service_new ?a ?b ?c ?d ?e] => destruct (service_new a b c d e) as [info|err] eqn:Es end; [|by intros [= <- <-]]. intros [= E].
  assert (Hw : get_fullname info = (("arc-web-" +:+ head) +:+ "." +:+ WEB_DISCOVERY_SERVICE_TYPE)%string)
    by by eapply fullname_of.
  apply act_bind_inv in E as [([] & p2 & E1 & E)|(e & E1 & ->)];
    apply with_daemon_inv in E1 as (y & d & E1 & Hy & ->); destruct y as [[]|e']; try discriminate Hy.
  - injection E as <- <-. refine (announces_web _ _ _ (mkPublisher d _ _ _ _ _) (Some (get_fullname info)) _ _).
    + apply announces_daemon; [done|]. rewrite (register_announces _ _ _ E1).
      apply lookup_insert_ne. rewrite Hw. by apply (own_not_web _ _ _ _ _ Ha).
    + intros n [= <-]. by eexists.
  - apply announces_daemon; [done|]. by rewrite (register_refused _ _ _ _ E1).
Qed.
End service_facts.

Section runtime_facts.
Context `{PeerApi} `{Crypto} `{!KeyFiles} `{WireApi} `{MdnsApi} `{!MdnsDaemon} `{!MdnsDaemonLaws}.
Context `{Transport} `{!Remote} {S : Type} `{!PeerRepository S} `{!EndpointRepository S} `{!PeerService S}.

(** What discovery on the network shows of this device is its current state. *)
Definition announces (n : NetworkRuntime S) : Prop :=
  announces_as (local_identity (nr_local n)) (nr_metadata n) (sock_port (nr_address n)) (nr_publisher n).

Lemma start_discovery_inv identity metadata port p d :
  start_discovery identity metadata port = Some (Ok (p, d)) ->
  announces_as identity metadata port p /\ port <> 0 /\ local_published p = true /\ web_fullname p = None /\
  exists id, identity_device_id identity = Some id /\ d = started id.
Proof.
  unfold start_discovery. intros (d0 & Ed & E)%and_then_ok. injection Ed as Ed. apply map_err_ok in Ed.
  destruct (identity_device_id identity) as [id|]; [|discriminate E]. rewrite option_bind_some in E.
  apply and_then_ok in E as (info & Ei & E). destruct (service_info_name _ _ _ _ Ei) as [Hname Hport].
  destruct (device_hostname id) as [hostname|]; [|discriminate E]. rewrite option_bind_some in E.
  destruct ((mdns_register info ;; mdns_browse DISCOVERY_SERVICE_TYPE) d0) as [x d1] eqn:Er.
  destruct x as [u|e]; [|discriminate E]. injection E as <- <-.
  apply act_bind_ok in Er as ([] & d2 & E1 & E2). split_and!; [|done..|by eauto].
  split; cbn; [done|done|]. exists info. split; [done|].
  rewrite (browse_announces _ _ _ _ E2), (register_announces _ _ _ E1). apply lookup_insert_eq.
Qed.

Lemma set_published_announces identity metadata port port' p info b x p' :
  announces_as identity metadata port p -> (port' = port \/ port' = 0) ->
  service_info identity metadata port' = Some info -> set_local_published info b p = (x, p') ->
  announces_as identity metadata port p' /\
  (x = Ok tt -> local_published p' = b) /\ (is_ok x = false -> local_published p' = local_published p).
Proof.
  intros Ha Hport Hi. unfold set_local_published. destruct (Bool.eqb _ b) eqn:Eb.
  { intros [= <- <-]. apply Bool.eqb_prop in Eb. by split_and!. }
  intros [([] & p1 & E1 & [= <- <-])|(e & E1 & ->)]%act_bind_inv; destruct b.
  - apply act_bind_ok in E1 as (i & p2 & [= -> <-] & E1). apply with_daemon_inv in E1 as (y & d & E1 & Hy & ->).
    destruct y as [[]|e']; [|discriminate Hy]. split_and!; [|done..].
    destruct Ha as [Hn Hw _]. split; cbn; [done|done|]. destruct (service_info_name _ _ _ _ Hi) as [Hname Hp].
    destruct Hport as [->| ->]; [|done]. exists i. split; [done|]. rewrite (register_announces _ _ _ E1).
    rewrite Hn in Hname. injection Hname as ->. apply lookup_insert_eq.
  - apply with_daemon_inv in E1 as (y & d & E1 & Hy & ->). destruct y as [[]|e']; [|discriminate Hy].
    split_and!; [|done..]. destruct Ha as [Hn Hw _]. split; cbn; [done|done|].
    rewrite (unregister_withdraws _ _ _ E1). apply lookup_delete_eq.
  - apply act_bind_inv in E1 as [(i & p2 & [= -> <-] & E1)|(e' & [= _ <-] & _)]; [|done].
    apply with_daemon_inv in E1 as (y & d & E1 & Hy & ->). split_and!; [|done..].
    destruct y as [[]|e']; [discriminate Hy|]. apply announces_daemon; [done|].
    by rewrite (register_refused _ _ _ _ E1).
  - apply with_daemon_inv in E1 as (y & d & E1 & Hy & ->). split_and!; [|done..].
    destruct y as [[]|e']; [discriminate Hy|]. apply announces_daemon; [done|].
    by rewrite (unregister_refused _ _ _ _ E1).
Qed.

Lemma update_announces (n : NetworkRuntime S) metadata fault x n' :
  announces n -> update_metadata metadata fault n = Some (x, n') -> announces n'.
Proof.
  intros Ha. unfold update_metadata. destruct (local_port_of fault n) as [port|e] eqn:Ep; [|by intros [= _ <-]].
  destruct fault; [discriminate Ep|]. injection Ep as <-.
  destruct (service_info _ metadata _) as [info|] eqn:Ei; [|discriminate]. rewrite option_bind_some.
  unfold update_local_metadata, announces in *. destruct Ha as [Hn Hw Hr].
  destruct (local_published (nr_publisher n)) eqn:El.
  2:{ intros [= _ <-]. split; cbn; [done|done|by rewrite El in *]. }
  match goal with |- Some (match ?m with _ => _ end) = _ -> _ => destruct m as [[u|e] p] eqn:E end;
    intros [= <- <-].
  - apply act_bind_ok in E as (i & p2 & [= -> <-] & E). apply with_daemon_inv in E as (y & d & E & Hy & ->).
    destruct y as [[]|e']; [|discriminate Hy]. destruct (service_info_name _ _ _ _ Ei) as [Hname _].
    rewrite Hn in Hname. injection Hname as Hname. split; cbn; [done|done|]. rewrite El. exists i.
    split; [done|]. rewrite (register_announces _ _ _ E), Hname. apply lookup_insert_eq.
  - apply act_bind_inv in E as [(i & p2 & [= -> <-] & E)|(e' & [= _ <-] & _)].
    + apply with_daemon_inv in E as (y & d & E & Hy & ->). destruct y as [[]|e']; [discriminate Hy|].
      refine (announces_daemon _ _ _ (nr_publisher n) d _ (f_equal _ (register_refused _ _ _ _ E))).
      split; [done|done|]. by rewrite El.
    + split; cbn; [done|done|]. by rewrite El.
Qed.

Lemma hiding_accepted info p x p' :
  (forall name, is_ok (mdns_unregister name (daemon p)).1 = true) ->
  set_local_published info false p = (x, p') -> x = Ok tt.
Proof.
  intros Hok. unfold set_local_published. destruct (Bool.eqb _ _); [by intros [= <- _]|].
  intros [([] & p1 & _ & [= <- _])|(e & E & ->)]%act_bind_inv; [done|].
  apply with_daemon_inv in E as (y & d & E & Hy & _). specialize (Hok (pub_fullname p)).
  rewrite E in Hok. by destruct y.
Qed.

(** The operations on the own record do not panic. *)
Definition serviceable (identity : DeviceIdentity) : Prop :=
  forall metadata port, is_Some (service_info identity metadata port).

Lemma serviceable_of identity metadata port info :
  service_info identity metadata port = Some (Ok info) -> serviceable identity.
Proof.
  unfold serviceable, service_info. intros E m' p'. destruct (port =? 0); [discriminate E|].
  destruct (p' =? 0); [by eexists|]. destruct (identity_device_id identity); [|discriminate E].
  destruct (public_key_value identity); [|discriminate E]. cbn in *.
  destruct (slice_to 20 _); [|discriminate E]. cbn in *. destruct (slice_to 32 _); [by eexists|discriminate E].
Qed.

(** The visibility that was asked for last. *)
Definition asked (b : bool) (calls : list VisibilityCall) : bool :=
  fold_left (fun b call => match call with SetDiscoverable d _ => d | _ => b end) calls b.

(** The parts of a runtime these calls leave. *)
Definition same_runtime (n n' : NetworkRuntime S) : Prop :=
  nr_local n' = nr_local n /\ nr_address n' = nr_address n /\
  host_runtime (node_host (nr_node n')) = host_runtime (node_host (nr_node n)) /\
  node_sockets (nr_node n') = node_sockets (nr_node n) /\ node_relays (nr_node n') = node_relays (nr_node n).

Lemma visibility_step_ok (n : NetworkRuntime S) call :
  announces n -> serviceable (local_identity (nr_local n)) ->
  announces (visibility_step n call) /\ same_runtime n (visibility_step n call) /\
  is_discoverable (visibility_step n call) = asked (is_discoverable n) [call].
Proof.
  intros Ha Hs. unfold visibility_step. destruct call as [md fault|b fault|site port| | |].
  - destruct (update_metadata md fault n) as [[x n']|] eqn:E; [|done]. cbn.
    split; [by eapply update_announces|]. unfold update_metadata in E.
    destruct (local_port_of fault n); [|by injection E as _ <-].
    destruct (Hs md a) as [info Ei]. rewrite Ei, option_bind_some in E.
    destruct (update_local_metadata info (nr_publisher n)) as [[u|e] p]; by injection E as _ <-.
  - unfold set_discoverable. cbv zeta. set (port := default 0 (to_option (local_port_of fault n))).
    destruct (Hs (nr_metadata n) port) as [info Ei]. rewrite Ei, option_bind_some. cbn [default].
    split; [|done]. destruct (set_local_published info b (nr_publisher n)) as [x p] eqn:E.
    apply (set_published_announces (local_identity (nr_local n)) (nr_metadata n) (sock_port (nr_address n)) port) in E;
      [by apply E|done| |done].
    unfold port, local_port_of. destruct fault; [by right|by left].
  - destruct (publish_web_gateway site port (nr_publisher n)) as [[x p]|] eqn:E; [|done]. cbn.
    split; [|done]. by apply (publish_web_announces _ _ _ _ _ _ _ _ Ha) in E.
  - split; [|done]. by apply unpublish_announces.
  - done.
  - done.
Qed.

Lemma run_visibility_ok calls (n : NetworkRuntime S) :
  announces n -> serviceable (local_identity (nr_local n)) ->
  announces (run_visibility calls n) /\ same_runtime n (run_visibility calls n) /\
  is_discoverable (run_visibility calls n) = asked (is_discoverable n) calls.
Proof.
  unfold run_visibility, asked. revert n. induction calls as [|call calls IH]; intros n Ha Hs; [done|]. cbn [fold_left].
  destruct (visibility_step_ok n call Ha Hs) as (Ha' & (El & Ead & Er & Eso & Ere) & Ed).
  destruct (IH (visibility_step n call) Ha') as (Ha'' & (El' & Ead' & Er' & Eso' & Ere') & Ed').
  { by rewrite El. }
  split_and!; [done|..]; [unfold same_runtime; split_and!; congruence|]. rewrite Ed'. by rewrite Ed.
Qed.

Lemma bind_inv socket v md a m (n : NetworkRuntime S) m' :
  bind socket v md a m = (Some (Ok n), m') ->
  exists i address p d l, attempt_on a m = (Ok i, m') /\ be_local_addr v = Ok address /\
    start_discovery i md (sock_port address) = Some (Ok (p, d)) /\
    local_of i (be_process_instance_id v) = Some l /\ n = new_runtime v l address md p d /\
    be_tokio v = true.
Proof.
  unfold bind, bind_on_socket. destruct socket; [|discriminate]. destruct (be_tokio v); [|discriminate].
  destruct (be_nonblocking v); [|discriminate]. destruct (attempt_on a m) as [loaded m1]. cbn [negb].
  destruct loaded as [i|]; [|discriminate]. intros [= E ->]. unfold open_runtime in E.
  apply and_then_ok in E as (u & _ & E). apply and_then_ok in E as (u' & _ & E).
  apply and_then_ok in E as (address & Ea & E). injection Ea as Ea. apply map_err_ok in Ea.
  apply and_then_ok in E as ([p d] & Ed & E). destruct (local_of i _) as [l|] eqn:El; [|discriminate E].
  injection E as <-. exists i, address, p, d, l. by split_and!.
Qed.
End runtime_facts.

Section properties.
Context `{PeerApi} `{Crypto} `{!KeyFiles} `{WireApi} `{MdnsApi} `{!MdnsDaemon}.
Context `{Transport} `{!Remote} {S : Type} `{!PeerRepository S} `{!EndpointRepository S} `{!PeerService S}.
Context `{!PeerLaws} `{!CryptoLaws} `{!KeyFilesLaws} `{!MdnsDaemonLaws}.

(** C29. A runtime that [bind] answers starts in the state all other properties
    begin with: its identity is the one stored in the directory, with a
    certificate digest of 32 bytes and the device id derived from its key; no
    session is registered; the snapshot is empty; all permits are free, nothing
    is shut down; and the device is visible and announced with its metadata at
    the port it is bound to, which is not zero. *)
Theorem bind_establishes socket v md a m (n : NetworkRuntime S) m' :
  clear_sighted a -> bind socket v md a m = (Some (Ok n), m') ->
  let l := nr_local n in
  let h := node_host (nr_node n) in
  socket = Ok tt /\ be_tokio v = true /\
  holds (local_identity l) m' /\ blen (certificate_sha256 (local_identity l)) = 32 /\
  public_key_value (local_identity l) = Some (local_public_key l) /\
  local_device_id l = from_public_key (local_public_key l) /\
  local_process_instance_id l = be_process_instance_id v /\
  store (host_runtime h) = be_store v /\ reachable (registry (host_runtime h)) /\
  (forall c, fresh_conn c (registry (host_runtime h))) /\
  discovery (host_runtime h) = run_events (local_device_id l) [] /\
  host_handshakes h = 32%nat /\ host_probe_permits h = 16%nat /\ node_relays (nr_node n) = 8%nat /\
  node_sockets (nr_node n) = run_sockets [] /\
  is_discoverable n = true /\ local_published (nr_publisher n) = true /\ sock_port (nr_address n) <> 0 /\
  nr_metadata n = md /\ announces n.
Proof.
  intros Ha E l h. assert (Hsock : socket = Ok tt) by (destruct socket as [[]|]; [done|discriminate E]).
  apply bind_inv in E as (i & address & p & d & l' & Ei & Eaddr & Ed & El & -> & Ht). subst l h. cbn.
  apply start_discovery_inv in Ed as (Hann & Hport & Hpub & _ & id & Hid & ->).
  destruct (attempt_spec a m _ _ Ei Ha) as (_ & _ & _ & Hhold & _). specialize (Hhold i eq_refl).
  destruct (local_of_inv _ _ _ El) as (<- & Hpid & Hlid & Hkey & _).
  assert (id = local_device_id l') as ->.
  { unfold identity_device_id in Hid. rewrite Hkey in Hid. injection Hid as <-. by rewrite Hlid. }
  split_and!; try done.
  - destruct Hhold as (? & ? & _ & _ & _ & _ & _ & ->). apply sha256_length.
  - by apply reachable_initial.
Qed.

(** C30. What the network is shown of a device is its current state: after any
    calls of [update_metadata], [set_discoverable] and the web gateway, with any
    of them refused by the daemon or failing, an announced device is announced
    with the metadata the runtime answers and the port it is bound to, a
    withdrawn one is not announced at all; the flag that guards the handshakes is
    what was asked for last; and a daemon that accepts calls always lets the
    device hide. *)
Theorem visibility_invariant socket v md a m (n : NetworkRuntime S) m' calls :
  bind socket v md a m = (Some (Ok n), m') ->
  let n' := run_visibility calls n in
  announces n' /\ same_runtime n n' /\ is_discoverable n' = asked true calls /\
  forall fault, (forall name, is_ok (mdns_unregister name (daemon (nr_publisher n'))).1 = true) ->
    exists n'', set_discoverable false fault n' = Some n'' /\ is_discoverable n'' = false /\
      local_published (nr_publisher n'') = false /\
      announcements (daemon (nr_publisher n'')) !! pub_fullname (nr_publisher n'') = None.
Proof.
  intros E n'. apply bind_inv in E as (i & address & p & d & l & _ & _ & Ed & El & En & _).
  apply start_discovery_inv in Ed as (Hann & _ & Hpub & _). apply local_of_inv in El as (<- & _).
  assert (Hs : serviceable (local_identity (nr_local n))).
  { destruct Hann as [_ _ Hrec]. rewrite Hpub in Hrec. destruct Hrec as (info & Hi & _). subst n.
    by eapply serviceable_of. }
  assert (Hn : announces n) by by subst n.
  assert (Hd : is_discoverable n = true) by by subst n.
  destruct (run_visibility_ok calls n Hn Hs) as (Ha & Hsame & Has). fold n' in Ha, Hsame, Has. rewrite Hd in Has.
  split_and!; [done..|]. intros fault Hok. unfold set_discoverable. cbv zeta.
  set (port := default 0 (to_option (local_port_of fault n'))).
  destruct Hsame as (Eloc & _). rewrite Eloc. destruct (Hs (nr_metadata n') port) as [info Ei].
  rewrite Ei, option_bind_some. eexists. split_and!; [done|done|..]; cbn.
  all: destruct (set_local_published info false (nr_publisher n')) as [x p'] eqn:Ep.
  all: pose proof (hiding_accepted _ _ _ _ Hok Ep) as ->; cbn.
  all: rewrite <- Eloc in Ei; apply (set_published_announces _ _ _ port _ _ _ _ _ Ha) in Ep;
    [|unfold port, local_port_of; destruct fault; [by right|by left]|done].
  - by apply Ep.
  - destruct Ep as ([_ _ Hrec] & Hl & _). by rewrite (Hl eq_refl) in Hrec.
Qed.
End properties.

(** ** Witnesses *)

Module SampleLifecycle.
Import SamplePeer SampleWire SampleCrypto SampleFiles SampleRegistry SampleDiscovery SampleDb SampleRun SampleDial.

#[local] Existing Instance sqlite_peer_service.

(** A daemon that refuses its third call. *)
#[export] Instance mdns_daemon : MdnsDaemon := {|
  daemon_new := Ok (∅, [false; false; true]);
  mdns_browse := fun _ d => (Ok tt, d);
  mdns_stop_browse := fun _ d => (Ok tt, d);
  mdns_shutdown := fun d => (Ok tt, d);
  announcements := fst
|}.

Lemma refusing_inv {A} (f : gmap string (string * gmap string string) -> A * gmap string (string * gmap string string)) d x d' :
  refusing f d = (x, d') ->
  (exists e, x = Err e /\ d'.1 = d.1) \/ (x = Ok (f d.1).1 /\ d'.1 = (f d.1).2).
Proof.
  destruct d as [m [|[|] l]]; cbn; [|intros [= <- <-]; left; by eexists|];
    destruct (f m); intros [= <- <-]; by right.
Qed.

Lemma append_list (a b : string) : list_ascii_of_string (a +:+ b) = list_ascii_of_string a ++ list_ascii_of_string b.
Proof. induction a as [|c a IH]; [done|]. exact (f_equal (cons c) IH). Qed.

#[export] Instance mdns_daemon_laws : MdnsDaemonLaws.
Proof.
  split.
  - by intros d [= <-].
  - intros i d d' [(e & [=] & _)|[_ E]]%refusing_inv. exact E.
  - intros i e d d' [(e' & _ & E)|[[=] _]]%refusing_inv. exact E.
  - intros n d d' [(e & [=] & _)|[_ E]]%refusing_inv. exact E.
  - intros n e d d' [(e' & _ & E)|[[=] _]]%refusing_inv. exact E.
  - by intros t x d d' [= _ <-].
  - by intros t n h p q i [= <-].
  - intros n n' E. apply (f_equal (fun s => take 10 (reverse (list_ascii_of_string s)))) in E.
    rewrite !append_list, !reverse_app in E. vm_compute in E. discriminate E.
Qed.

Definition bind_env : BindEnv Sqlite :=
  mkBindEnv true (Ok tt) (Ok tt) (Ok tt) (Ok (sock_new (IpV4 (mkIpv4 10 1 1 5)) 8765)) (repeat x44 16) (net start) empty.

Definition renamed : DeviceMetadata := mkMetadata "Study" "linux" "pc".
Definition calls : list VisibilityCall :=
  [UpdateMetadata renamed None; SetDiscoverable false None; SetDiscoverable false None].

Abbreviation opened := (bind (Ok tt) bind_env meta fine ∅).
End SampleLifecycle.

Section witnesses.
Import SamplePeer SampleWire SampleCrypto SampleFiles SampleRegistry SampleDiscovery SampleDb SampleRun SampleDial.
Import SampleLifecycle.

#[local] Existing Instance sqlite_peer_service.

Lemma opened_ok : match opened.1 with Some (Ok _) => true | _ => false end = true.
Proof. by vm_compute. Qed.

Lemma bind_establishes_witness :
  match opened.1 with
  | Some (Ok n) => is_discoverable n = true /\ node_relays (nr_node n) = 8%nat /\ nr_metadata n = meta
  | _ => False
  end.
Proof.
  pose proof opened_ok as Hok. destruct opened as [r m'] eqn:E. cbn [fst] in *.
  destruct r as [[n|e]|]; [|discriminate Hok..].
  destruct (bind_establishes (Ok tt) bind_env meta fine ∅ n m' eq_refl E)
    as (_ & _ & _ & _ & _ & _ & _ & _ & _ & _ & _ & _ & _ & Hr & _ & Hd & _ & _ & Hm & _).
  exact (conj Hd (conj Hr Hm)).
Defined.

(** The refused withdrawal is made good by the next one. *)
Lemma visibility_invariant_witness :
  match opened.1 with
  | Some (Ok n) =>
      announces (run_visibility calls n) /\ is_discoverable (run_visibility calls n) = false /\
      local_published (nr_publisher (run_visibility (take 2 calls) n)) = true /\
      local_published (nr_publisher (run_visibility calls n)) = false
  | _ => False
  end.
Proof.
  assert (Hev : match opened.1 with
    | Some (Ok n) => local_published (nr_publisher (run_visibility (take 2 calls) n)) = true /\
        local_published (nr_publisher (run_visibility calls n)) = false
    | _ => False
    end) by by vm_compute.
  destruct opened as [r m'] eqn:E. cbn [fst] in *. destruct r as [[n|e]|]; [|done..].
  destruct (visibility_invariant (Ok tt) bind_env meta fine ∅ n m' calls E) as (Ha & _ & Hd & _).
  exact (conj Ha (conj Hd Hev)).
Defined.
End witnesses.
