(* ===== verification/System.v ===== *)
(** * System

    The whole runtime under all of its operations at once: the state [bind]
    answers, and every call, every accepted connection, dial, relay, scan, probe
    and pairing after it keep the invariants the other files rely on.  This is
    where the theorems of the single components are shown to apply to one and
    the same running program. *)

From S2P Require Import Prelude Errors Addr Peer Wire Grants Registry Endpoint RepositoryDb Repository.
From S2P Require Import Store Text Identity IdentityFiles Discovery Probe Handshake Auth Mutual Trust Pairing.
From S2P Require Import Sockets Calls Dial Accept Relay Connect Steady Listener Scan Lifecycle.

(** ** Relays *)

Section relays.
Context `{PeerApi} `{Crypto} `{WireApi} `{Transport} `{!Remote} {S : Type} `{!PeerRepository S}
  `{!EndpointRepository S} `{!PeerService S}.
Context `{!PeerLaws} `{!TransportLaws} `{!PeerRepositoryLaws S} `{!EndpointRepositoryLaws S}
  `{!StoreLaws S} `{!PeerServiceLaws S} `{!WireLaws} `{!CryptoLaws}.

Definition steady_node (n n' : Node S) : Prop := steady (node_runtime n) (node_runtime n').

#[export] Instance steady_node_preorder : PreOrder steady_node.
Proof. split; unfold steady_node; [by intros n|]. intros u v w Huv Hvw. by etransitivity. Qed.

#[export] Instance steady_node_runtime {F A} (m : action (Runtime S) F A) :
  Along steady m -> Along steady_node (on_node_runtime m).
Proof. intros Hm n x n' (rt & E & ->)%on_node_runtime_inv. by eapply Hm. Qed.
#[export] Instance steady_node_inbound c l md expired w :
  Along steady_node (on_host (run_inbound c l md expired w)).
Proof.
  intros n x n'. unfold on_host. destruct (run_inbound c l md expired w (node_host n)) as [y h] eqn:E.
  intros [= _ <-]. by apply run_inbound_steady in E as [E _].
Qed.
#[export] Instance steady_node_check expected s : Along steady_node (check_source expected s).
Proof. unfold check_source. destruct (_ || _); apply _. Qed.
#[export] Instance steady_node_within {A} b (m : action (Node S) NetworkError A) :
  Along steady_node m -> Along steady_node (within b m).
Proof. intros Hm n x n'. unfold within. destruct (m n) as [y n1] eqn:E. intros [= _ <-]. by eapply Hm. Qed.
#[export] Instance steady_dial c l md expected w : Along steady (run_relay_dial c l md expected w).
Proof.
  intros r x r' E. apply no_trace_steady; [exact (along (R := no_trace) _ _ _ E)|]. unfold run_relay_dial in E.
  destruct (authenticate_outbound_paired c l md expected RealtimeInput (race_world r true w)). by injection E as _ <-.
Qed.

(** The part of a relay that authenticates its session. *)
Definition relay_authenticated (call : RelayCall) (v : RelayEnv (S := S)) (p : PeerRecord)
    : action (Node S) NetworkError Session :=
  match call with
  | ConnectRelay _ =>
      within (re_expired v) (c ← lift (re_quic v);
        on_node_runtime (run_relay_dial c (re_local v) (re_metadata v) p (re_world v)))
  | AcceptRelay _ =>
      within (re_expired v)
        (c ← lift (re_quic v);
         s ← on_host (run_inbound c (re_local v) (re_metadata v) false (re_world v));
         check_source p s ;;
         on_node_runtime (require s CrossScreenInject) ;;
         mret s)
  end.

#[export] Instance steady_authenticated call v p : Along steady_node (relay_authenticated call v p).
Proof.
  destruct call; cbn [relay_authenticated]; apply steady_node_within;
    repeat first [apply _ | apply along_bind; [apply _|apply _|intros ?]].
Qed.

Lemma relay_authenticated_ok call v p n s n' :
  sound (node_runtime n) -> relay_authenticated call v p n = (Ok s, n') ->
  certified s /\ exists c, re_quic v = Ok c /\ connection s = c.
Proof.
  intros Hs. destruct call; cbn [relay_authenticated]; intros E%within_inv;
    apply act_bind_ok in E as (c & n1 & E1 & E); injection E1 as Ec <-.
  - apply on_node_runtime_inv in E as (rt & E & ->). unfold run_relay_dial in E.
    destruct (authenticate_outbound_paired c _ _ p RealtimeInput _) as [y w'] eqn:Ea. injection E as -> _.
    destruct (outbound_vouched c (re_local v) (re_metadata v) (ExpectedPaired p) RealtimeInput _ s w'
      (proj1 (sd_store _ Hs) : peer_repo_ok (repo (race_world (node_runtime n) true (re_world v)))) Ea)
      as (remote & Hvo & _).
    destruct (outbound_committed c (re_local v) (re_metadata v) (ExpectedPaired p) RealtimeInput _ s w' Ea)
      as (_ & Hc & _). split; [by eapply vouched_certified|by exists c].
  - apply act_bind_ok in E as (s' & n1 & E1 & E). unfold on_host in E1.
    destruct (run_inbound c _ _ false _ (node_host n)) as [y h] eqn:Ei. injection E1 as -> <-.
    apply run_inbound_steady in Ei as (_ & _ & Hc). destruct (Hc Hs s' eq_refl) as [Hcert Hconn].
    apply act_bind_ok in E as (u & n2 & _ & E). apply act_bind_ok in E as (g & n3 & _ & E).
    injection E as -> _. split; [done|by exists c].
Qed.

(** Registering what was authenticated, and whatever follows on the host. *)
Lemma relay_rest_sound s e (k : nat -> action (Node S) NetworkError nat) n x n' :
  sound (node_runtime n) -> certified s -> fresh_conn (connection s) (registry (node_runtime n)) ->
  (forall q, Along steady_node (k q)) ->
  mbind k (on_node_runtime (register_input_relay s e)) n = (x, n') -> sound (node_runtime n').
Proof.
  intros Hs Hc Hf Hk E.
  assert (Hreg : forall y n1, on_node_runtime (register_input_relay s e) n = (y, n1) -> sound (node_runtime n1)).
  { intros y n1 (rt & E1 & ->)%on_node_runtime_inv. unfold register_input_relay in E1.
    assert (Htc : connection (with_tunnel e s) = connection s) by (unfold with_tunnel; by case_match).
    assert (Htp : certified (with_tunnel e s)) by (unfold with_tunnel; by case_match).
    apply act_bind_inv in E1 as [([a q] & rt1 & E1 & Er)|(err & E1 & ->)]; [injection Er as _ <-|];
      (eapply register_new_sound in E1; [exact E1|done|done|by rewrite Htc]). }
  apply act_bind_inv in E as [(q & n1 & E1 & E)|(err & E1 & ->)]; [|by eapply Hreg].
  apply Hk in E. by apply E, (Hreg _ _ E1).
Qed.

#[export] Instance steady_node_send q : Along steady_node (on_host (send_incoming q)).
Proof.
  intros n x n'. unfold on_host, send_incoming. intros [= _ <-]. unfold steady_node, node_runtime. cbn.
  by destruct (host_subscribed (node_host n)).
Qed.

(** What is authenticated and registered, up to the end of the call. *)
Lemma relay_body_sound call v p e (k : nat -> action (Node S) NetworkError nat) (n m : Node S) x n' :
  sound (node_runtime n) -> (forall c, re_quic v = Ok c -> fresh_conn c (registry (node_runtime n))) ->
  (forall q, Along steady_node (k q)) -> node_runtime m = node_runtime n ->
  (s ← relay_authenticated call v p; mbind k (on_node_runtime (register_input_relay s e))) m = (x, n') ->
  sound (node_runtime n').
Proof.
  intros Hs Hf Hk Em [(s & m1 & E1 & E2)|(err & E1 & ->)]%act_bind_inv;
    pose proof (along (R := steady_node) _ _ _ E1) as Hst;
    unfold steady_node in Hst; rewrite Em in Hst; destruct (Hst Hs) as [Hs1 He]; [|done].
  rewrite <- Em in Hs. destruct (relay_authenticated_ok _ _ _ _ _ _ Hs E1) as (Hc & c & Ec & Hconn).
  eapply relay_rest_sound; [exact Hs1|exact Hc| |exact Hk|exact E2].
  rewrite Hconn. eapply evolves_fresh; [exact He|]. by apply Hf.
Qed.

Lemma relay_session_steady call v p e n x n' :
  sound (node_runtime n) -> (forall c, re_quic v = Ok c -> fresh_conn c (registry (node_runtime n))) ->
  relay_session call v p e n = (x, n') -> sound (node_runtime n').
Proof.
  intros Hs Hf E. destruct call as [id|id]; cbn [relay_session] in E; unfold with_handshake in E;
    (destruct (host_handshakes (node_host n)) as [|k]; [by injection E as _ <-|]);
    match type of E with (let (_, _) := ?t in _) = _ => destruct t as [y n1] eqn:E1 end; injection E as _ <-;
    unfold node_runtime; cbn [node_host host_runtime set_handshakes].
  - apply (relay_body_sound (ConnectRelay id) v p e mret n
      (mkNode (set_handshakes k (node_host n)) (node_sockets n) (node_relays n)) y n1 Hs Hf); [intros q; apply _|done|].
    cbn [relay_authenticated]. rewrite <- E1. clear. unfold mbind, action_bind.
    destruct (within _ _ _) as [[s|?] m]; [|done]. by destruct (on_node_runtime (register_input_relay s e) m) as [[q|?] m'].
  - by apply (relay_body_sound (AcceptRelay id) v p e (fun q => on_host (send_incoming q) ;; mret q) n
      (mkNode (set_handshakes k (node_host n)) (node_sockets n) (node_relays n)) y n1 Hs Hf); [intros q; apply _|done|].
Qed.

#[export] Instance steady_active {F} id k : Along steady (on_registry (E := F) (active id k)).
Proof.
  intros r x r' E. unfold on_registry in E. pose proof (evolves_active id k (registry r)) as He.
  pose proof (step_active id k (registry r)) as Hstep. destruct (active id k (registry r)) as [a g].
  injection E as _ <-. apply steady_registry_step. intros Hr. split; [by eapply reachable_step|done].
Qed.

Lemma tunnelled_sound call v p (n n1 : Node S) x n' :
  sound (node_runtime n) -> passes n n1 -> steady_node n n1 ->
  (forall c, re_quic v = Ok c -> fresh_conn c (registry (node_runtime n))) ->
  tunnelled (re_tokio v) (re_opened v) (relay_session call v p) n1 = (x, n') ->
  sound (node_runtime n') /\ host_handshakes (node_host n') = host_handshakes (node_host n).
Proof.
  intros Hs Hp Hst Hf E. destruct (Hst Hs) as [Hs1 He1]. rewrite <- (ps_handshakes _ _ Hp).
  apply tunnelled_inv in E as [(err & -> & ->)|(e & n2 & _ & E & Eh & _)]; [done| |apply _].
  pose proof (ps_handshakes _ _ (passes_run _ _ _ _ E)) as Hh. cbn in Hh. unfold node_runtime. rewrite Eh.
  split; [|done]. eapply relay_session_steady; [| |exact E]; [exact Hs1|].
  intros c Hc. eapply evolves_fresh; [exact He1|]. by apply Hf.
Qed.

Lemma relay_call_sound call v (n : Node S) x n' :
  sound (node_runtime n) -> (forall c, re_quic v = Ok c -> fresh_conn c (registry (node_runtime n))) ->
  relay_call call v n = (x, n') ->
  sound (node_runtime n') /\ host_handshakes (node_host n') = host_handshakes (node_host n).
Proof.
  intros Hs Hf E.
  assert (Hgo : forall m, passes n m -> steady_node n m ->
    sound (node_runtime m) /\ host_handshakes (node_host m) = host_handshakes (node_host n)).
  { intros m Hp Hst. split; [by apply Hst|by apply ps_handshakes]. }
  destruct call as [id|id]; cbn [relay_call] in E; unfold connect_input_relay, accept_input_relay in E;
    apply act_bind_inv in E as [(p & n1 & E1 & E)|(e & E1 & ->)];
    pose proof (passes_run _ _ _ _ E1) as Hp1; pose proof (along (R := steady_node) _ _ _ E1) as Hst1;
    try by apply Hgo.
  - apply act_bind_inv in E as [(found & n2 & E2 & E)|(e & E2 & ->)];
      pose proof (passes_run _ _ _ _ E2) as Hp2; pose proof (along (R := steady_node) _ _ _ E2) as Hst2;
      (assert (Hp : passes n _) by (etransitivity; [exact Hp1|exact Hp2]));
      (assert (Hst : steady_node n _) by (etransitivity; [exact Hst1|exact Hst2])); [|by apply Hgo].
    destruct found as [q|]; [injection E as _ <-; by apply Hgo|].
    by apply (tunnelled_sound (ConnectRelay id) v p n n2 x n').
  - by apply (tunnelled_sound (AcceptRelay id) v p n n1 x n').
Qed.
End relays.

(** ** Races *)

Section races.
Context `{PeerApi} `{Crypto} `{WireApi} `{Transport} `{!Remote} {S : Type} `{!PeerRepository S}
  `{!EndpointRepository S} `{!PeerService S}.
Context `{!PeerLaws} `{!TransportLaws} `{!PeerRepositoryLaws S} `{!EndpointRepositoryLaws S}
  `{!StoreLaws S} `{!PeerServiceLaws S} `{!WireLaws} `{!CryptoLaws}.

#[local] Existing Instances steady_preorder steady_store steady_close keeps_store_preorder.

Abbreviation Race := (Race S).

(** Every session a race has authenticated is certified. *)
Record race_certified (r : Race) : Prop := {
  rc_done : forall i s, candidate_at i r = Some (Done (Dialled s)) -> certified s;
  rc_won : forall s, race_stage r = Won s -> certified s
}.

(** A step of the candidates leaves discovery and the handles. *)
Definition same_handles (r r' : Runtime S) : Prop :=
  discovery r' = discovery r /\ arcs (registry r') = arcs (registry r).

Lemma finish_handles i st o (r : Race) : same_handles (race_runtime r) (race_runtime (finish i st o r)).
Proof. unfold finish, drop_guard. by destruct o; [done|destruct (guarded st)..]. Qed.

Lemma shut_down_handles (r : Race) : same_handles (race_runtime r) (race_runtime (shut_down r)).
Proof. split; [done|]. apply (drop_guards_same (race_candidates r) (registry (race_runtime r))). Qed.

Lemma note_failure_handles (d : Dial) now a phase quic e (r : Race) :
  same_handles (race_runtime r) (race_runtime (note_failure d now a phase quic e r)).
Proof.
  unfold note_failure, attempt, on_store. cbn [race_runtime]. destruct (dial_source d); try done.
  by destruct (record_failure _ _ _ _).
Qed.

Lemma certified_move i (r r' : Race) st' :
  race_certified r -> race_candidates r' = alter (enter st') i (race_candidates r) -> race_stage r' = Racing ->
  (forall s, st' = Done (Dialled s) -> certified s) -> race_certified r'.
Proof.
  intros [Hd _] Ec Es Hst'. split; [|congruence]. intros j s. unfold candidate_at. rewrite Ec.
  destruct (decide (i = j)) as [->|Hne].
  - rewrite list_lookup_alter_eq. destruct (race_candidates r !! j); [|done]. cbn. intros [= E]. by apply Hst'.
  - rewrite list_lookup_alter_ne by done. apply Hd.
Qed.

Lemma certified_conclude (r : Race) : race_stage r = Racing -> race_certified r -> race_certified (conclude r).
Proof. intros Es [Hd Hw]. unfold conclude. destruct (all_joined r); by split. Qed.

Lemma candidate_turn_certified (d : Dial) ev (r r' : Race) :
  race_certified r -> store_ok (store (race_runtime r)) -> race_stage r = Racing ->
  candidate_turn d ev r = Some r' ->
  race_certified r' /\ same_handles (race_runtime r) (race_runtime r').
Proof.
  intros Hc Hs Hst E.
  destruct ev as [i|i|i|i t|i e t|i c|i|i md w|i|i t|i now| | |]; cbn [candidate_turn] in E; try discriminate E.
  1-8: destruct (candidate_at i r) as [st|] eqn:Hi; [|discriminate E]; destruct st; try discriminate E.
  - injection E as <-. split; [by eapply (certified_move i r)|done].
  - case_match; [|discriminate E]. injection E as <-. split; [by eapply (certified_move i r)|done].
  - injection E as <-. split; [by eapply (certified_move i r)|done].
  - injection E as <-. split; [by eapply (certified_move i r)|apply finish_handles].
  - injection E as <-. split; [by eapply (certified_move i r)|apply finish_handles].
  - destruct (_ && _); [|discriminate E]. injection E as <-. split; [by eapply (certified_move i r)|done].
  - destruct selected; [discriminate E|]. case_match; [|discriminate E]. injection E as <-.
    split; [by eapply (certified_move i r)|done].
  - injection E as <-. unfold authenticate.
    destruct (authenticate_expected _ _ _ _ _ _) as [x w'] eqn:Ea. split.
    + destruct x as [s|e]; (eapply (certified_move i r); [done|done|done|]); [|done].
      intros s' [= <-]. destruct (outbound_vouched _ _ _ _ _ _ _ _
        (proj1 Hs : peer_repo_ok (repo (race_world _ selected w))) Ea) as (remote & Hvo & _).
      by eapply vouched_certified.
    + destruct (finish_handles i (Authenticating c selected) (match x with Ok s => Dialled s
        | Err e => Failed "peer_authentication" None e end) (set_runtime (mkRuntime (repo w')
        (discovery (race_runtime r)) (registry (race_runtime r))) r)) as [Hd Ha].
      by split; [rewrite Hd|rewrite Ha].
  - destruct (candidate_at i r) as [st|] eqn:Hi; [|discriminate E]. cbn in E.
    destruct (phase_of st) as [phase|]; [|discriminate E]. injection E as <-.
    split; [by eapply (certified_move i r)|apply finish_handles].
  - destruct (candidate_at i r) as [st|] eqn:Hi; [|discriminate E]. cbn in E.
    destruct st; try discriminate E; injection E as <-;
      (split; [by eapply (certified_move i r)|apply finish_handles]).
  - unfold join in E. destruct (race_candidates r !! i) as [c|] eqn:Hi; [|discriminate E]. cbn in E.
    assert (Hi' : candidate_at i r = Some (c_state c)) by (unfold candidate_at; by rewrite Hi).
    destruct (c_state c) as [| | | | |[s|phase quic e|t]| |]; try discriminate E; injection E as <-.
    + split; [|apply (shut_down_handles (goto i _ r))]. split.
      * intros j s'. unfold candidate_at. change (race_candidates (set_stage _ _)) with
          (map settle (alter (enter (Joined (Dialled s))) i (race_candidates r))).
        rewrite list_lookup_fmap. destruct (alter _ _ _ !! j) as [[a st]|]; [|done]. by destruct st.
      * intros s' [= <-]. unfold certified, with_recovery. pose proof (rc_done _ Hc i s Hi').
        by destruct (dial_recovery d), (recovery_endpoint s).
    + split; [|rewrite conclude_runtime; apply (note_failure_handles d now _ _ _ _ (goto i _ r))].
      apply certified_conclude; [done|]. by eapply (certified_move i r).
    + split; [|by rewrite conclude_runtime]. apply certified_conclude; [done|]. by eapply (certified_move i r).
Qed.

(** The environment of a race: its clocks are in range, and what arrives has
    been authenticated. *)
Definition race_event_ok (ev : RaceEvent S) : Prop :=
  match ev with
  | Join _ now | Remember _ now => in_i64 now
  | Meanwhile call => call_certified call
  | _ => True
  end.

Record race_sound (d : Dial) (r : Race) : Prop := {
  rs_race : race_ok r;
  rs_winner : winner_ok d r;
  rs_certified : race_certified r;
  rs_sound : sound (race_runtime r)
}.

Lemma register_winner_sound s (r : Race) :
  sound (race_runtime r) -> certified s -> fresh_conn (connection s) (registry (race_runtime r)) ->
  sound (race_runtime (register_winner s r)).
Proof.
  intros Hs Hc Hf.
  destruct (register_new (fun e => e) s (race_runtime r)) as [x rt] eqn:E.
  assert (E' : race_runtime (register_winner s r) =
    match x with
    | Ok _ => rt
    | Err _ => map_registry (close_conn (connection s) 0 "dial candidate cancelled") rt
    end).
  { unfold register_winner, register_new in *. destruct (adopt s _) as [p g].
    destruct (register_session p s g) as [[q|e] g']; by injection E as <- <-. }
  apply register_new_sound in E; [|done..]. rewrite E'. destruct x; [done|].
  apply (steady_registry_step rt (close_conn _ _ _ _)); [|done]. intros Hr.
  split; [by apply close_conn_reachable | apply evolves_close].
Qed.

Lemma register_winner_certified s (r : Race) : race_certified r -> race_certified (register_winner s r).
Proof.
  intros [Hd _]. unfold register_winner. destruct (adopt s _) as [p g].
  by destruct (register_session p s g) as [[q|e] g'].
Qed.

Lemma race_turn_sound (d : Dial) ev (r r' : Race) :
  race_sound d r -> race_event_ok ev -> race_turn d ev r = Some r' -> race_sound d r'.
Proof.
  intros [Hrace Hwin Hcert Hs] Hev E.
  assert (Hrace' : race_ok r') by by eapply race_turn_ok.
  assert (Hwin' : winner_ok d r') by (eapply race_turn_winner; [..|exact E]; by destruct ev).
  enough (race_certified r' /\ sound (race_runtime r')) as [? ?] by done.
  assert (Hmean : forall call, call_certified call ->
    race_certified (set_runtime (run_call call (race_runtime r)) r) /\
    sound (race_runtime (set_runtime (run_call call (race_runtime r)) r))).
  { intros call Hcall. split; [by destruct Hcert|by apply run_call_sound]. }
  unfold race_turn in E. destruct (race_stage r) as [|s|q|x] eqn:Hst.
  - destruct (own ev) eqn:Ho.
    + assert (Et : candidate_turn d ev r = Some r') by by destruct ev.
      destruct (candidate_turn_certified d ev r r' Hcert (sd_store _ Hs) Hst Et) as [Hc [Ed Ea]]. split; [done|].
      split; [apply Hrace'| |by rewrite Ed; apply Hs|rewrite Ea; apply Hs]. apply (wk_store _ _ Hwin').
      apply candidate_turn_shape in Et as (? & ? & ? & _ & _ & _ & [[_ [?|[? ?]]]|(? & ? & _)]); [congruence..|done].
    + destruct ev; try discriminate Ho. destruct (meanwhile_allowed _ _); [|discriminate E].
      injection E as <-. by apply Hmean.
  - destruct ev; try discriminate E.
    + injection E as <-. split; [by apply register_winner_certified|].
      apply register_winner_sound; [done|by apply (rc_won _ Hcert)|].
      apply (rk_held _ Hrace). unfold held_conns. rewrite Hst. set_solver.
    + destruct (meanwhile_allowed _ _); [|discriminate E]. injection E as <-. by apply Hmean.
  - destruct ev; try discriminate E.
    + unfold remember_winner in E. destruct (upgrade _ q) as [t|] eqn:Et; [|discriminate E]. injection E as <-.
      split; [by destruct Hcert|]. cbn [race_runtime set_stage set_runtime].
      assert (Ht : certified t) by by apply (sd_certified _ Hs q).
      destruct (remember_authenticated_session now now' t _ (dial_source d) _) as [y rt] eqn:Er.
      by apply (remember_steady now now' t _ (dial_source d) Hev Ht) in Er as [? _].
    + destruct (meanwhile_allowed _ _); [|discriminate E]. injection E as <-. by apply Hmean.
  - by destruct ev.
Qed.

Lemma race_start_sound (d : Dial) addresses (rt : Runtime S) :
  sound rt -> (dial_source d = History -> forall a, a ∈ addresses -> plain_address a) ->
  race_sound d (race_start addresses rt).
Proof.
  intros Hs Hplain. destruct (run_race_winner d [] addresses rt) as [Hrace Hwin]; try done.
  - apply Hs.
  - apply Hs.
  - intros ev Hev. by apply not_elem_of_nil in Hev.
  - split; [done..| |done]. split.
    + intros i s. unfold candidate_at. cbn. rewrite list_lookup_fmap. by destruct (unique_endpoints addresses !! i).
    + intros s. cbn. by destruct (unique_endpoints addresses).
Qed.

Lemma deadlines_race_ok now n (ev : RaceEvent S) : in_i64 now -> ev ∈ deadlines now n -> race_event_ok ev.
Proof.
  intros Hnow. unfold deadlines. rewrite elem_of_app, list_elem_of_In, in_flat_map. intros [(i & _ & Hi)|Hi].
  - destruct Hi as [<-|[<-|[<-|[]]]]; done.
  - apply list_elem_of_In in Hi. by destruct Hi as [<-|[<-|[]]].
Qed.

Lemma race_on_sound (d : Dial) addresses schedule now (rt : Runtime S) x rt' :
  sound rt -> (dial_source d = History -> forall a, a ∈ addresses -> plain_address a) ->
  (forall ev, ev ∈ schedule -> race_event_ok ev) -> in_i64 now ->
  race_endpoints_on d addresses schedule now rt = (x, rt') -> sound rt'.
Proof.
  intros Hs Hplain Hev Hnow [= _ <-]. apply (rs_sound d). apply run_race_ind.
  - by apply race_start_sound.
  - intros r ev r' [Hin|Hin]%elem_of_app Hr E; (eapply race_turn_sound; [exact Hr| |exact E]);
      [by apply Hev|by eapply deadlines_race_ok].
Qed.

(** The environment of a dial, the same way. *)
Definition dial_env_ok (v : DialEnv (S := S)) : Prop :=
  (forall call, call ∈ de_waiting v -> call_certified call) /\
  (forall ev, ev ∈ de_first v -> race_event_ok ev) /\ (forall ev, ev ∈ de_second v -> race_event_ok ev) /\
  in_i64 (de_now v) /\ in_i64 (de_now' v).

Lemma race_dial_sound (d : Dial) addresses (v : DialEnv (S := S)) rt sk x n' :
  sound rt -> (dial_source d = History -> forall a, a ∈ addresses -> plain_address a) -> dial_env_ok v ->
  race d addresses v (rt, sk) = (x, n') -> sound n'.1.
Proof.
  intros Hs Hplain (_ & Hfst & Hsnd & Hn & Hn') E. unfold race, race_endpoints in E.
  destruct (race_endpoints_on d addresses (de_first v) (de_now v) rt) as [y rt1] eqn:E1.
  apply race_on_sound in E1 as Hs1; [|done..].
  destruct y as [q1|[e retry]]; [by injection E as _ <-|].
  destruct (_ || _); [by injection E as _ <-|].
  destruct (new_recovery_endpoint _ _ sk) as [[endpoint|?] sk1]; [|by injection E as _ <-].
  destruct (act_map_err fst _ rt1) as [z rt2] eqn:E2. injection E as _ <-. cbn.
  apply act_map_err_inv in E2 as (y & E2 & _). by apply race_on_sound in E2.
Qed.

Lemma waited_sound (v : DialEnv (S := S)) rt : dial_env_ok v -> sound rt -> sound (waited v rt).
Proof. intros (Hw & _) Hs. by apply run_calls_sound. Qed.

#[export] Instance steady_on_rt {F A} (m : action (Runtime S) F A) :
  Along steady m -> Along (fun n n' : Net (S := S) => steady n.1 n'.1) (on_rt m).
Proof. intros Hm [rt sk] x n' E. unfold on_rt in E. destruct (m rt) as [y rt'] eqn:Em. injection E as _ <-. by eapply Hm. Qed.

Lemma races_sound l k v t e m rt sk x n' :
  dial_env_ok v -> races l k v t e m -> sound rt -> m (rt, sk) = (x, n') -> sound n'.1.
Proof.
  intros Hv Hm. revert rt sk x n'.
  induction Hm as [p|id p <-|id route p <-|id p e m <- Hm IH|id e m Hm IH]; intros rt sk x n' Hs E.
  - by apply race_dial_sound in E.
  - apply act_bind_inv in E as [(rem & n1 & E1 & E)|(e & E1 & ->)];
      destruct (steady_on_rt _ _ _ _ _ E1 Hs) as [Hs1 _]; [|done].
    destruct (endpoints_guard _ _ _ _ _ _ (sd_store _ Hs) E1) as (rt1 & -> & _ & _ & Hplain).
    apply act_bind_inv in E as [([] & n2 & E2 & E)|(e & E2 & ->)]; apply act_reject_inv in E2 as [-> _]; [|done].
    apply race_dial_sound in E; [done|done| |done].
    intros _ a (e & -> & He)%list_elem_of_fmap. by apply (Hplain rem e).
  - by apply race_dial_sound in E.
  - by eapply IH.
  - by eapply IH.
Qed.
End races.

(** ** Dials, probes and scans *)

Section dials.
Context `{PeerApi} `{Crypto} `{WireApi} `{Transport} `{!Remote} {S : Type} `{!PeerRepository S}
  `{!EndpointRepository S} `{!PeerService S}.
Context `{!PeerLaws} `{!TransportLaws} `{!PeerRepositoryLaws S} `{!EndpointRepositoryLaws S}
  `{!StoreLaws S} `{!PeerServiceLaws S} `{!WireLaws} `{!CryptoLaws}.

#[local] Existing Instances steady_preorder steady_store steady_close keeps_store_preorder steady_active.

Lemma dial_sound l t k v (rt : Runtime S) sk x n' :
  sound rt -> dial_env_ok v -> dial l t k v (rt, sk) = (x, n') -> sound n'.1.
Proof.
  intros Hs Hv E. destruct (dial_inv _ _ _ _ _ _ _ _ (sd_store _ Hs) E)
    as (rt1 & Ht & Hg & [(e & _ & ->)|(_ & e & m & Hm & _ & E1)]);
    destruct (no_trace_steady _ _ Ht Hg Hs) as [Hs1 _]; [done|].
  apply (waited_sound v) in Hs1; [|done]. apply gated_inv in E1. cbv zeta in E1.
  destruct (active (target_id t) k (registry (waited v rt1))) as [[q|] g] eqn:Ea; cbn [fst snd] in E1.
  - by destruct E1 as [_ ->].
  - eapply races_sound; [exact Hv|exact Hm| |exact E1].
    refine (proj1 (steady_active (F := NetworkError) (target_id t) k (waited v rt1) (Ok None) _ _ Hs1)).
    unfold on_registry. by rewrite Ea.
Qed.

Lemma begin_pairing_runtime l p requests v fresh_id w (rt : Runtime S) sk x n' :
  sound rt -> dial_env_ok v -> begin_pairing l p requests v fresh_id w (rt, sk) = (x, n') -> sound n'.1.
Proof.
  intros Hs Hv E. unfold begin_pairing in E.
  apply act_bind_inv in E as [(requested & n1 & E1 & E)|(e & E1 & ->)]; injection E1 as _ <-; [|done].
  apply act_bind_inv in E as [(q & [rt1 sk1] & E2 & E)|(e & E2 & ->)];
    apply (dial_sound l (Advertised p) Pairing v) in E2; try done. injection E as _ <-. exact E2.
Qed.

Lemma probe_sound l md remote source v (rt : Runtime S) x rt' :
  in_i64 (pe_now' v) -> probe_endpoint l md remote source v rt = (x, rt') -> steady rt rt'.
Proof.
  intros Hnow E Hs. unfold probe_endpoint in E.
  apply act_bind_inv in E as [([] & rt1 & E1 & E)|(e & E1 & ->)]; apply act_reject_inv in E1 as [-> _]; [|done].
  apply act_bind_inv in E as [(c & rt1 & E1 & E)|(e & E1 & ->)]; injection E1 as _ <-; [|done].
  apply act_bind_inv in E as [(s & rt1 & E1 & E)|(e & E1 & ->)];
    apply run_probe_inv in E1 as (Ht & Hg & Hrun); destruct (no_trace_steady _ _ Ht Hg Hs) as [Hs1 He1]; [|done].
  destruct (Hrun s eq_refl) as (w' & Ea). clear Hrun.
  destruct (probe_vouched c l md (race_world rt true (pe_world v)) s w' (proj1 (sd_store _ Hs)) Ea)
    as (remote' & Hvo & _). apply vouched_certified in Hvo.
  assert (Hm : Along steady (mbind (fun p => close_session s "discovery probe completed" ;; mret p)
    (remember_authenticated_session (S := S) (pe_now v) (pe_now' v) s (conn_remote (connection s)) source) :
      action (Runtime S) NetworkError PeerAdvertisement)).
  { apply along_bind; [apply _|by apply remember_steady|intros p; apply _]. }
  destruct (Hm _ _ _ E Hs1) as [Hs' He']. split; [done|]. by etransitivity.
Qed.

Lemma probe_each_sound l md v failures eps (rt : Runtime S) x rt' :
  (forall a, in_i64 (pe_now' (v a))) -> probe_each l md v failures eps rt = (x, rt') -> steady rt rt'.
Proof.
  intros Hnow. revert failures rt. induction eps as [|a eps IH]; intros failures rt E; cbn in E.
  { by injection E as _ <-. }
  destruct (probe_endpoint l md a Manual (v a) rt) as [[p|e] rt1] eqn:E1; apply probe_sound in E1; try done.
  - by injection E as _ <-.
  - apply IH in E. by transitivity rt1.
Qed.

Lemma discover_at_steady l md host port resolve v (rt : Runtime S) x rt' :
  (forall a, in_i64 (pe_now' (v a))) -> discover_at l md host port resolve v rt = (x, rt') -> steady rt rt'.
Proof.
  intros Hnow E. unfold discover_at in E.
  apply act_bind_inv in E as [([] & rt1 & E1 & E)|(e & E1 & ->)]; apply act_reject_inv in E1 as [-> _]; [|done].
  apply act_bind_inv in E as [(ports & rt1 & E1 & E)|(e & E1 & ->)]; injection E1 as _ <-; [|done].
  apply act_bind_inv in E as [([] & rt1 & E1 & E)|(e & E1 & ->)]; apply act_reject_inv in E1 as [-> _]; [|done].
  unfold cached_or_probed in E. destruct (cached _ _); [by injection E as _ <-|].
  by apply probe_each_sound in E.
Qed.

(** The clocks of the probes of a scan are in range. *)
Definition scan_event_ok (ev : ScanEvent (S := S)) : Prop :=
  match ev with
  | Finish _ v => in_i64 (pe_now' v)
  | Aside call => call_certified call
  | _ => True
  end.

Lemma scan_turn_sound l md ev (s s' : Scan (S := S)) :
  scan_event_ok ev -> sound (sc_runtime s) -> scan_turn l md ev s = Some s' -> sound (sc_runtime s').
Proof.
  intros Hev Hs E. destruct ev as [|i v|i|i| |call]; cbn [scan_turn] in E.
  - unfold proceed in E. destruct (sc_stage s); [destruct (sc_queue s); [|destruct (sc_cancelled s)]|..];
      repeat case_match; by simplify_eq.
  - unfold finish_task in E. destruct (sc_tasks s !! i) as [[endpoint [|]]|]; try discriminate E.
    destruct (probe_endpoint _ _ _ _ _ _) as [x rt] eqn:Ep. injection E as <-. cbn.
    by apply (probe_sound _ _ _ _ _ _ _ _ Hev Ep).
  - destruct (sc_tasks s !! i) as [[endpoint [|]]|]; try discriminate E. by injection E as <-.
  - unfold join_next in E. destruct (joining s); [|discriminate E].
    destruct (sc_tasks s !! i) as [[endpoint [|outcome]]|]; try discriminate E. by injection E as <-.
  - by injection E as <-.
  - injection E as <-. by apply run_call_sound.
Qed.

Lemma run_scan_sound l md events (s : Scan (S := S)) :
  (forall ev, ev ∈ events -> scan_event_ok ev) -> sound (sc_runtime s) ->
  sound (sc_runtime (run_scan l md events s)).
Proof.
  unfold run_scan. revert s. induction events as [|ev events IH]; intros s Hev Hs; [done|]. cbn [fold_left].
  apply IH; [intros ev' Hin; apply Hev; by right|]. unfold scan_step.
  destruct (scan_turn l md ev s) as [s'|] eqn:E; [|done].
  eapply scan_turn_sound; [|exact Hs|exact E]. apply Hev. by left.
Qed.
End dials.

(** ** The running program *)

Section system.
Context `{PeerApi} `{Crypto} `{!KeyFiles} `{WireApi} `{MdnsApi} `{!MdnsDaemon} `{Transport} `{!Remote}.
Context {S : Type} `{!PeerRepository S} `{!EndpointRepository S} `{!PeerService S}.

(** Everything that happens to a runtime: the calls of its user, the events of
    its browser, the connections that come in.  Each carries what it meets; the
    races, scans, listening and waiting dials among them contain the calls of
    other tasks that run in between. *)
Inductive SystemCall :=
| SysVisibility (call : VisibilityCall)
| SysBrowser (now : Z) (event : ServiceEvent)
| SysRuntime (call : RuntimeCall)
| SysAutoConnect (now : Z) (id : DeviceId) (enabled : bool)
| SysAccept (quic : net_result Conn) (expired : bool) (w : World S) (now now' : Z)
| SysListen (events : list (ListenEvent S))
| SysDial (t : Target) (k : SessionKind) (v : DialEnv (S := S))
| SysBeginPairing (p : PeerAdvertisement) (requests : list PairingGrantRequest) (v : DialEnv (S := S))
    (fresh_id : Z) (w : World S)
| SysCompletePairing (clock : nat -> Z) (now now1 now2 : Z) (p : PendingPairing) (remote : SocketAddr)
    (frame : net_result (list byte))
| SysDiscoverAt (host : string) (port : option Z) (resolve : string -> Z -> option (list SocketAddr))
    (v : SocketAddr -> ProbeEnv (S := S))
| SysScan (now : Z) (found : result string (list (string * IpAddr))) (events : list (ScanEvent (S := S)))
| SysRelay (call : RelayCall) (tokio : bool) (opened : net_result nat) (quic : net_result Conn)
    (expired : bool) (w : World S)
| SysShutdown.

Definition nr_host (n : NetworkRuntime S) : Host S := node_host (nr_node n).
Definition nr_runtime (n : NetworkRuntime S) : Runtime S := host_runtime (nr_host n).

Definition set_nr_runtime (rt : Runtime S) (n : NetworkRuntime S) : NetworkRuntime S :=
  change_host (set_host_runtime rt) n.
Definition set_sockets (sk : Sockets) (n : NetworkRuntime S) : NetworkRuntime S :=
  set_node (mkNode (node_host (nr_node n)) sk (node_relays (nr_node n))) n.

(** A call on the state the sessions share, and one that opens sockets too. *)
Definition run_on {E A} (m : action (Runtime S) E A) (n : NetworkRuntime S) : NetworkRuntime S :=
  set_nr_runtime (m (nr_runtime n)).2 n.
Definition dial_on {A} (m : action (Net (S := S)) NetworkError A) (n : NetworkRuntime S) : NetworkRuntime S :=
  let '(_, (rt, sk)) := m (nr_runtime n, node_sockets (nr_node n)) in
  set_sockets sk (set_nr_runtime rt n).

(** [NetworkRuntime::scan_local_ipv4], which starts with the flag cleared. *)
Definition scan_on (now : Z) (found : result string (list (string * IpAddr)))
    (events : list (ScanEvent (S := S))) (n : NetworkRuntime S) : NetworkRuntime S :=
  let '(x, started) := begin_scan now found (nr_last_started n) in
  let put rt cancelled :=
    mkNetworkRuntime (nr_local n) (nr_address n) (nr_metadata n) (nr_publisher n)
      (nr_node (set_nr_runtime rt n)) cancelled started in
  match x with
  | Ok (inl _) => put (nr_runtime n) (nr_scan_cancelled n)
  | Ok (inr interfaces) =>
      let s := run_scan (nr_local n) (nr_metadata n) events (scan_start interfaces (nr_runtime n)) in
      put (sc_runtime s) (sc_cancelled s)
  | Err _ => put (nr_runtime n) false
  end.

Definition system_step (n : NetworkRuntime S) (call : SystemCall) : NetworkRuntime S :=
  let l := nr_local n in
  let md := nr_metadata n in
  match call with
  | SysVisibility call => visibility_step n call
  | SysBrowser now event => run_on (on_discovery (E := NetworkError) (browser_turn now event)) n
  | SysRuntime call => set_nr_runtime (run_call call (nr_runtime n)) n
  | SysAutoConnect now id enabled => run_on (set_peer_auto_connect now id enabled) n
  | SysAccept quic expired w now now' =>
      change_host (fun h => (accept_incoming l md quic expired w now now' h).2) n
  | SysListen events => change_host (fun h => ln_host (run_listener l events (listening_from h))) n
  | SysDial t k v => dial_on (dial l t k v) n
  | SysBeginPairing p requests v fresh_id w => dial_on (begin_pairing l p requests v fresh_id w) n
  | SysCompletePairing clock now now1 now2 p remote frame =>
      run_on (complete_pairing clock now now1 now2 p remote frame) n
  | SysDiscoverAt host port resolve v => run_on (discover_at l md host port resolve v) n
  | SysScan now found events => scan_on now found events n
  | SysRelay call tokio opened quic expired w =>
      set_node (relay_call call (mkRelayEnv l md tokio opened quic expired w) (nr_node n)).2 n
  | SysShutdown => set_sockets (finish_shutdown (begin_shutdown (node_sockets (nr_node n)))) n
  end.

(** What the surroundings guarantee of a call: clocks in range, sessions of
    other handshakes that are authenticated, a new connection for each new
    handshake, connections that have been seen to their end, and a pending
    pairing whose session is still held. *)
Definition admissible (n : NetworkRuntime S) (call : SystemCall) : Prop :=
  let g := registry (nr_runtime n) in
  match call with
  | SysRuntime call => call_certified call
  | SysAccept quic _ _ _ now' => in_i64 now' /\ forall c, quic = Ok c -> fresh_conn c g
  | SysListen events =>
      Forall listen_event_ok events /\
      count in_flight (ln_tasks (run_listener (nr_local n) events (listening_from (nr_host n)))) = O
  | SysDial _ _ v | SysBeginPairing _ _ v _ _ => dial_env_ok v
  | SysCompletePairing _ _ _ now2 p _ _ => in_i64 now2 /\ exists q, arcs g !! q = Some (pending_session p)
  | SysDiscoverAt _ _ _ v => forall a, in_i64 (pe_now' (v a))
  | SysScan _ _ events => forall ev, ev ∈ events -> scan_event_ok ev
  | SysRelay _ _ _ quic _ _ => forall c, quic = Ok c -> fresh_conn c g
  | _ => True
  end.

(** The states a runtime reaches. *)
Inductive system_run (n : NetworkRuntime S) : NetworkRuntime S -> Prop :=
| run_start : system_run n n
| run_next n' call : system_run n n' -> admissible n' call -> system_run n (system_step n' call).

Context `{!PeerLaws} `{!TransportLaws} `{!PeerRepositoryLaws S} `{!EndpointRepositoryLaws S}
  `{!StoreLaws S} `{!PeerServiceLaws S} `{!WireLaws} `{!CryptoLaws} `{!MdnsDaemonLaws}.

(** What holds of a runtime between two calls. *)
Record healthy (n : NetworkRuntime S) : Prop := {
  he_sound : sound (nr_runtime n);
  he_handshakes : host_handshakes (nr_host n) = 32%nat;
  he_announces : announces n;
  he_serviceable : serviceable (local_identity (nr_local n))
}.

(** A call that leaves what the device shows of itself. *)
Lemma healthy_node (n : NetworkRuntime S) d :
  healthy n -> sound (node_runtime d) -> host_handshakes (node_host d) = host_handshakes (nr_host n) ->
  healthy (set_node d n).
Proof. intros [Hs Hh Ha Hse] Hd Eh. split; [done|by rewrite <- Hh|done..]. Qed.

Lemma healthy_run {F A} (m : action (Runtime S) F A) (n : NetworkRuntime S) :
  Along steady m -> healthy n -> healthy (run_on m n).
Proof.
  intros Hm Hn. unfold run_on. destruct (m (nr_runtime n)) as [x rt] eqn:E. apply healthy_node; [done| |done].
  by apply (Hm _ _ _ E), he_sound.
Qed.

Lemma healthy_dial {A} (m : action (Net (S := S)) NetworkError A) (n : NetworkRuntime S) :
  (forall rt sk x n', sound rt -> m (rt, sk) = (x, n') -> sound n'.1) -> healthy n -> healthy (dial_on m n).
Proof.
  intros Hm Hn. unfold dial_on. destruct (m (nr_runtime n, node_sockets (nr_node n))) as [x [rt sk]] eqn:E.
  apply Hm in E; [|by apply he_sound]. unfold set_sockets, set_nr_runtime, change_host.
  apply (healthy_node n (mkNode (set_host_runtime rt (nr_host n)) sk (node_relays (nr_node n)))); done.
Qed.

Lemma healthy_scan now found events (n : NetworkRuntime S) :
  (forall ev, ev ∈ events -> scan_event_ok ev) -> healthy n -> healthy (scan_on now found events n).
Proof.
  intros Hev [Hs Hh Ha Hse]. unfold scan_on.
  destruct (begin_scan now found (nr_last_started n)) as [[[r|interfaces]|e] started]; split; try done.
  cbn. by apply run_scan_sound.
Qed.

Lemma visibility_handshakes (n : NetworkRuntime S) call :
  host_handshakes (node_host (nr_node (visibility_step n call))) = host_handshakes (node_host (nr_node n)).
Proof.
  unfold visibility_step. destruct call; cbn; try done.
  - unfold update_metadata. destruct (local_port_of _ _); [|done]. destruct (service_info _ _ _); [|done].
    cbn. by destruct (update_local_metadata _ _) as [[|] ?].
  - unfold set_discoverable. cbv zeta. by destruct (service_info _ _ _).
  - by destruct (publish_web_gateway _ _ _).
Qed.

Lemma browser_turn_ok now event d : discovery_ok d -> discovery_ok (browser_turn now event d).
Proof.
  intros Hd. destruct event as [info|fullname|]; cbn; [|by apply (on_event_ok d (Removed fullname))|done].
  unfold resolve. destruct (decode_service info now) as [p|]; [|done].
  by apply (on_event_ok d (Resolved (rs_fullname info) p)).
Qed.

Lemma system_step_healthy (n : NetworkRuntime S) call :
  healthy n -> admissible n call ->
  healthy (system_step n call) /\ nr_local (system_step n call) = nr_local n /\
  nr_address (system_step n call) = nr_address n.
Proof.
  intros Hn Had. pose proof Hn as [Hs Hh Ha Hse].
  destruct call as [call|now event|call|now id b|quic expired w now now'|events|t k v|p requests v fresh_id w
    |clock now now1 now2 p remote frame|host port resolve v|now found events
    |call tokio opened quic expired w|]; cbn [system_step admissible] in *.
  - destruct (visibility_step_ok n call Ha Hse) as (Ha' & (El & Ead & Er & _) & _). split_and!; [|done..].
    split; [by unfold nr_runtime, nr_host; rewrite Er| |done|by rewrite El].
    unfold nr_host. by rewrite visibility_handshakes.
  - split; [|done]. apply healthy_run; [|done]. apply steady_discovery. by apply browser_turn_ok.
  - split; [|done]. apply healthy_node; [done|by apply run_call_sound|done].
  - split; [|done]. apply healthy_run; [apply _|done].
  - split; [|done]. destruct Had as [Hnow Hf].
    destruct (accept_sound (nr_local n) (nr_metadata n) quic expired w now now' (nr_host n) Hs Hnow Hf) as [Hs' Hh'].
    by apply healthy_node.
  - split; [|done]. destruct Had as [Hev Hc].
    pose proof (run_listener_ok (nr_local n) (nr_host n) events Hs Hev) as Hok.
    pose proof (lo_permits _ _ _ _ Hok) as Hp. apply healthy_node; [done|by apply (lo_sound _ _ _ _ Hok)|].
    cbn [node_host]. fold (nr_host n). lia.
  - split; [apply healthy_dial; [intros; by eapply dial_sound|done]|]. unfold dial_on. by case_match; case_match.
  - split; [apply healthy_dial; [intros; by eapply begin_pairing_runtime|done]|]. unfold dial_on. by case_match; case_match.
  - split; [|done]. destruct Had as [Hnow [q Hq]]. apply healthy_run; [|done].
    apply steady_complete; [done|]. by apply (sd_certified _ Hs q).
  - split; [|done]. apply healthy_run; [|done]. intros r x r' E. by apply discover_at_steady in E.
  - split; [by apply healthy_scan|]. unfold scan_on. by destruct (begin_scan _ _ _) as [[[r|interfaces]|e] started].
  - split; [|done]. destruct (relay_call _ _ _) as [x d] eqn:E.
    apply relay_call_sound in E as [Hs' Hh']; [by apply healthy_node|done|done].
  - split; [|done]. by apply healthy_node.
Qed.

Lemma bind_healthy socket v md a m (n : NetworkRuntime S) m' :
  bind socket v md a m = (Some (Ok n), m') -> store_ok (be_store v) -> healthy n.
Proof.
  intros E Hstore. apply bind_inv in E as (i & address & p & d & l & _ & _ & Ed & El & -> & _).
  apply start_discovery_inv in Ed as ([Hna Hw Hrec] & _ & Hpub & _ & id & _ & ->).
  apply local_of_inv in El as (<- & _). rewrite Hpub in Hrec. destruct Hrec as (info & Hi & Hl).
  split; [split|..]; cbn; try done.
  - by apply reachable_initial.
  - apply (run_events_ok id []).
  - split; cbn; [done|done|]. rewrite Hpub. by exists info.
  - by eapply serviceable_of.
Qed.

Lemma run_healthy (n n' : NetworkRuntime S) :
  healthy n -> system_run n n' ->
  healthy n' /\ nr_local n' = nr_local n /\ nr_address n' = nr_address n.
Proof.
  intros Hn Hrun. induction Hrun as [|n' call _ (Hn' & El & Ea) Had]; [done|].
  destruct (system_step_healthy n' call Hn' Had) as (Hh & El' & Ea'). split_and!; [done|congruence..].
Qed.
End system.

(** ** Properties *)

Section properties.
Context `{PeerApi} `{Crypto} `{!KeyFiles} `{WireApi} `{MdnsApi} `{!MdnsDaemon} `{Transport} `{!Remote}.
Context {S : Type} `{!PeerRepository S} `{!EndpointRepository S} `{!PeerService S}.
Context `{!PeerLaws} `{!TransportLaws} `{!PeerRepositoryLaws S} `{!EndpointRepositoryLaws S}
  `{!StoreLaws S} `{!PeerServiceLaws S} `{!WireLaws} `{!CryptoLaws} `{!MdnsDaemonLaws}.

(** C5. Whatever is done with a runtime after [bind] - connections accepted, dials
    with their races, relays, pairings, scans, probes, changes of trust,
    visibility, events of the browser, the shutdown, each with the calls of other
    tasks its races, scans and waits let in - between any two of them its
    identity and address are those it started with; the registry is reachable
    and files every session under the device and kind it was authenticated for;
    every session that is held carries a certificate digest; the stored peers,
    grants and endpoints are consistent; the snapshot lists, in order, the
    devices that have been observed and never the own one; every permit of the
    handshake gate has been returned; and the device is announced as it is. *)
Theorem system_invariant socket v md a m (n : NetworkRuntime S) m' n' :
  bind socket v md a m = (Some (Ok n), m') -> store_ok (be_store v) -> system_run n n' ->
  nr_local n' = nr_local n /\ nr_address n' = nr_address n /\
  reachable (registry (nr_runtime n')) /\ registry_ok (registry (nr_runtime n')) /\
  (forall q t, arcs (registry (nr_runtime n')) !! q = Some t -> certified t) /\
  store_ok (store (nr_runtime n')) /\ discovery_ok (discovery (nr_runtime n')) /\
  host_handshakes (nr_host n') = 32%nat /\ announces n'.
Proof.
  intros E Hstore Hrun. destruct (run_healthy n n' (bind_healthy _ _ _ _ _ _ _ E Hstore) Hrun)
    as ([[Hr Hs Hd Hc] Hh Ha _] & El & Ead).
  split_and!; try done. by apply reachable_ok.
Qed.
End properties.

(** ** Witnesses *)

Module SampleSystem.
Import SamplePeer SampleWire SampleCrypto SampleFiles SampleRegistry SampleDiscovery SampleDb SampleRun SampleDial.
Import SampleLifecycle.

#[local] Existing Instance sqlite_peer_service.

(** A device that knows the one with key "A" as paired. *)
Definition paired_env : BindEnv Sqlite :=
  mkBindEnv true (Ok tt) (Ok tt) (Ok tt) (Ok (sock_new (IpV4 (mkIpv4 10 1 1 5)) 8765)) (repeat x44 16) (net start)
    (knows x41).

Abbreviation running := (bind (Ok tt) paired_env meta fine ∅).

(** The handshake of "A" with it. *)
Definition here : Local := match running.1 with Some (Ok n) => nr_local n | _ => local x42 end.
Definition hello_here : SessionHello := local_hello here meta Control (repeat x27 32).
Definition frames_in : list (list byte) :=
  default [] (to_option (frames_of (local x41) (hello x41) (side x41 x42 [])
    (default [] (to_option (session_transcript (Some tls) (hello x41) hello_here))))).
Definition side_here : World Sqlite :=
  mkWorld (Some [[x41]]) (Some tls) sample_address [] [] (map Ok frames_in) [] (knows x41) ∅ 4
    false true 0 1000 (repeat x27 32) 7 8765.

(** It is hidden, and subscribed to; "A" connects and is then forgotten, and the
    runtime shuts down. *)
Definition day : list (SystemCall (S := Sqlite)) :=
  [SysVisibility (SetDiscoverable false None); SysVisibility Subscribe;
   SysAccept (Ok (12%nat : @Conn transport)) false side_here 50 60;
   SysRuntime (CallForget (id_of_key (repeat x41 32))); SysShutdown].
End SampleSystem.

Section witnesses.
Import SamplePeer SampleWire SampleCrypto SampleFiles SampleRegistry SampleDiscovery SampleDb SampleRun SampleDial.
Import SampleLifecycle SampleSystem.

#[local] Existing Instance sqlite_peer_service.
#[local] Existing Instance sqlite_peer_service_laws.

(** What is seen of the day: the session is published and registered, then torn
    down; the connection it came over was new. *)
Definition seen (n : NetworkRuntime Sqlite) : bool :=
  let before := fold_left system_step (take 2 day) n in
  let during := fold_left system_step (take 3 day) n in
  let after := fold_left system_step day n in
  conn_unused (12%nat : @Conn transport) (registry (nr_runtime before)) &&
  bool_decide (host_published (nr_host during) = [1%nat]) &&
  bool_decide (size (sessions (registry (nr_runtime during))) = 1%nat) &&
  bool_decide (size (sessions (registry (nr_runtime after))) = 0%nat) &&
  stopped (node_sockets (nr_node after)).

Lemma day_seen : match running.1 with Some (Ok n) => seen n | _ => false end = true.
Proof. by vm_compute. Qed.

Lemma day_runs (n : NetworkRuntime Sqlite) : seen n = true -> system_run n (fold_left system_step day n).
Proof.
  intros Hs. unfold seen in Hs. cbv zeta in Hs. destruct_bools.
  cbn [day fold_left]. do 2 (apply run_next; [|exact I]). apply run_next.
  - do 2 (apply run_next; [|exact I]). apply run_start.
  - split; [vm_compute; split; discriminate|]. intros c [= <-]. by apply conn_unused_spec.
Qed.

Lemma system_invariant_witness :
  match running.1 with
  | Some (Ok n) =>
      let n' := fold_left system_step day n in
      reachable (registry (nr_runtime n')) /\ host_handshakes (nr_host n') = 32%nat /\ announces n' /\
      seen n = true
  | _ => False
  end.
Proof.
  pose proof day_seen as Hseen. destruct running as [r m'] eqn:E. cbn [fst] in *.
  destruct r as [[n|e]|]; [|discriminate Hseen..].
  assert (Hdb : store_ok (be_store paired_env)).
  { assert (Hok : db_ok (db (knows x41))).
    { apply (db_call_ok empty (DbSavePeer (record x41))); [reflexivity|apply empty_ok]. }
    split; exact Hok. }
  destruct (system_invariant (Ok tt) paired_env meta fine ∅ n m' (fold_left system_step day n) E Hdb
    (day_runs n Hseen)) as (_ & _ & Hr & _ & _ & _ & _ & Hh & Ha).
  exact (conj Hr (conj Hh (conj Ha Hseen))).
Defined.
End witnesses.
